(** * The decoration manager of the SPIR-V optimizer

    A shallow embedding of
    [shaderc/third_party/spirv-tools/source/opt/decoration_manager.cpp]
    and the properties of its index of decoration instructions.

    Instructions live in a heap and are named by handles (the C++ code
    holds [ir::Instruction*]); the index maps ids to records of handles.
    Code that mutates the context is written in a state-and-failure monad;
    read-only code is a function of the state that may fail. *)

From stdpp Require Import base option list gmap strings.

Local Open Scope N_scope.
Local Open Scope nat_scope.

(** ** Opcodes, operands, instructions *)

(** Modelled from the spec: the opcodes of the SPIR-V headers that the
    decoration manager distinguishes, the six decoration forms among
    them.  [SpvOpOther] stands for every other opcode of the
    enumeration. *)
Inductive SpvOp : Type :=
  | SpvOpNop
  | SpvOpDecorate
  | SpvOpMemberDecorate
  | SpvOpDecorationGroup
  | SpvOpGroupDecorate
  | SpvOpGroupMemberDecorate
  | SpvOpDecorateId
  | SpvOpDecorateStringGOOGLE
  | SpvOpOther (code : N).

#[global] Instance SpvOp_eq_dec : EqDecision SpvOp.
Proof. solve_decision. Defined.

(** Modelled from the spec: the operand types of the SPIR-V headers;
    [CloneDecorations] makes operands of type [SPV_OPERAND_TYPE_ID]. *)
Inductive spv_operand_type_t : Type :=
  | SPV_OPERAND_TYPE_ID
  | SPV_OPERAND_TYPE_LITERAL_INTEGER
  | SPV_OPERAND_TYPE_LITERAL_STRING
  | SPV_OPERAND_TYPE_DECORATION
  | SPV_OPERAND_TYPE_OTHER (code : N).

#[global] Instance spv_operand_type_t_eq_dec : EqDecision spv_operand_type_t.
Proof. solve_decision. Defined.

(** Modelled from the spec: the "linkage attributes" decoration kind,
    [SpvDecorationLinkageAttributes] of the SPIR-V headers. *)
Definition SpvDecorationLinkageAttributes : N := 41%N.

(** Modelled from the spec: [ir::Operand], a type and its 32-bit
    words. *)
Record Operand : Type := mkOperand {
  op_type : spv_operand_type_t;
  words : list N
}.

#[global] Instance Operand_eq_dec : EqDecision Operand.
Proof. solve_decision. Defined.

(** Modelled from the spec: [ir::Instruction], an opcode and an ordered
    operand list.  Decoration instructions have neither a result type
    nor a result id, so their operands are their in-operands
    ([NumOperands] and [NumInOperands], [GetOperand] and [GetInOperand]
    agree on them). *)
Record Instruction : Type := mkInstruction {
  opcode : SpvOp;
  in_operands : list Operand
}.

#[global] Instance Instruction_eq_dec : EqDecision Instruction.
Proof. solve_decision. Defined.

(** A handle stands for an [ir::Instruction*]. *)
Definition InstPtr : Type := nat.

(** ** Failure *)

Inductive Failure : Type :=
  | AssertFail (msg : string)   (* an [assert] that does not hold *)
  | Undefined (msg : string)    (* a dangling or null pointer *)
  | OutOfFuel.

Inductive Result (A : Type) : Type :=
  | Ok (a : A)
  | Fail (f : Failure).
Arguments Ok {A} a.
Arguments Fail {A} f.

Definition rbind {A B} (r : Result A) (k : A → Result B) : Result B :=
  match r with
  | Ok a => k a
  | Fail f => Fail f
  end.

Notation "x <- e ;; k" := (rbind e (fun x => k))
  (at level 100, e at next level, k at level 200, right associativity).

(** A call aborts when it ends in a failed assertion. *)
Definition aborts {A} (r : Result A) : Prop :=
  ∃ msg, r = Fail (AssertFail msg).

(** ** The instruction interface *)

(** Modelled from the spec: the Instruction Store's operand count. *)
Definition NumInOperands (inst : Instruction) : nat :=
  length (in_operands inst).

Definition NumOperands (inst : Instruction) : nat :=
  NumInOperands inst.

(** Modelled from the spec: the Instruction Store's operand-at-index query
    (of the header of [ir::Instruction]).  An index
    past the operand list is a violated precondition. *)
Definition GetInOperand (inst : Instruction) (i : nat) : Result Operand :=
  match in_operands inst !! i with
  | Some op => Ok op
  | None => Fail (AssertFail "operand index out of bound")
  end.

Definition GetOperand (inst : Instruction) (i : nat) : Result Operand :=
  GetInOperand inst i.

(** Modelled from the spec: the target-operand helper of the Instruction
    Store; the operand read must hold exactly one word. *)
Definition GetSingleWordInOperand (inst : Instruction) (i : nat) : Result N :=
  op <- GetInOperand inst i ;;
  match words op with
  | [w] => Ok w
  | _ => Fail (AssertFail "expected the operand only taking one word")
  end.

(** Modelled from the spec: the Instruction Store's "set operand"; the
    words of operand [i] are replaced and its type is kept. *)
Definition SetInOperand (inst : Instruction) (i : nat) (ws : list N)
  : Result Instruction :=
  op <- GetInOperand inst i ;;
  Ok (mkInstruction (opcode inst)
        (<[i := mkOperand (op_type op) ws]> (in_operands inst))).

(** Modelled from the spec: the Instruction Store's "replace operand",
    as the assignment [inst->GetInOperand(i) = op] does it: type and
    words are replaced. *)
Definition AssignInOperand (inst : Instruction) (i : nat) (op : Operand)
  : Result Instruction :=
  _ <- GetInOperand inst i ;;
  Ok (mkInstruction (opcode inst) (<[i := op]> (in_operands inst))).

(** Modelled from the spec: the Instruction Store's "remove operand at
    index". *)
Definition RemoveInOperand (inst : Instruction) (i : nat) : Result Instruction :=
  _ <- GetInOperand inst i ;;
  Ok (mkInstruction (opcode inst) (delete i (in_operands inst))).

(** Modelled from the spec: the Instruction Store's "append operand". *)
Definition AddOperand (inst : Instruction) (op : Operand) : Instruction :=
  mkInstruction (opcode inst) (in_operands inst ++ [op]).

(** Modelled from the spec: the closed set of decoration opcodes, four
    direct forms and two group-apply forms ([Instruction::IsDecoration]). *)
Definition IsDecoration (inst : Instruction) : bool :=
  match opcode inst with
  | SpvOpDecorate | SpvOpMemberDecorate | SpvOpDecorateId
  | SpvOpDecorateStringGOOGLE | SpvOpGroupDecorate
  | SpvOpGroupMemberDecorate => true
  | _ => false
  end.

Definition is_direct_form (op : SpvOp) : bool :=
  match op with
  | SpvOpDecorate | SpvOpMemberDecorate | SpvOpDecorateId
  | SpvOpDecorateStringGOOGLE => true
  | _ => false
  end.

Definition is_group_apply (op : SpvOp) : bool :=
  match op with
  | SpvOpGroupDecorate | SpvOpGroupMemberDecorate => true
  | _ => false
  end.

(** ** The state: context, module and index *)

(** Modelled from the spec: [TargetData] of the header, the Target
    record with its three ordered collections [direct], [indirect] and
    [groupApplies]. *)
Record TargetData : Type := mkTargetData {
  direct_decorations : list InstPtr;
  indirect_decorations : list InstPtr;
  decorate_insts : list InstPtr
}.

#[global] Instance TargetData_eq_dec : EqDecision TargetData.
Proof. solve_decision. Defined.

Definition empty_TargetData : TargetData := mkTargetData [] [] [].

(** What the context is told, in the order it is told. *)
Inductive Event : Type :=
  | EvForgetUses (h : InstPtr)
  | EvAnalyzeUses (h : InstPtr)
  | EvOperandWrite (h : InstPtr)
  | EvAddAnnotationInst (h : InstPtr)
  | EvKillInst (h : InstPtr).

#[global] Instance Event_eq_dec : EqDecision Event.
Proof. solve_decision. Defined.

Record State : Type := mkState {
  (* the live instruction objects *)
  insts : gmap InstPtr Instruction;
  (* the next address handed out by an allocation *)
  next_ptr : InstPtr;
  (* [module_]: the annotation section, if there is a module *)
  module_ : option (list InstPtr);
  (* the def-use manager's [GetDef] *)
  id_to_def : gmap N InstPtr;
  (* the index *)
  id_to_decoration_insts_ : gmap N TargetData;
  (* the calls received by the context and the operand writes *)
  trace : list Event
}.

Definition M (A : Type) : Type := State → Result (A * State).

Definition ret {A} (a : A) : M A := λ s, Ok (a, s).

Definition bindM {A B} (m : M A) (k : A → M B) : M B :=
  λ s, match m s with
       | Ok (a, s') => k a s'
       | Fail f => Fail f
       end.

Notation "x <~ e ;; k" := (bindM e (fun x => k))
  (at level 100, e at next level, k at level 200, right associativity).
Notation "e ;;; k" := (bindM e (fun _ => k))
  (at level 100, k at level 200, right associativity).

Definition failM {A} (f : Failure) : M A := λ _, Fail f.

Definition lift {A} (r : Result A) : M A :=
  λ s, match r with Ok a => Ok (a, s) | Fail f => Fail f end.

Definition gets {A} (f : State → A) : M A := λ s, Ok (f s, s).

Definition modify (f : State → State) : M unit := λ s, Ok (tt, f s).

Definition assertM (b : bool) (msg : string) : M unit :=
  if b then ret tt else failM (AssertFail msg).

Fixpoint forM_ {A} (l : list A) (body : A → M unit) : M unit :=
  match l with
  | [] => ret tt
  | x :: l' => body x ;;; forM_ l' body
  end.

Fixpoint foldM {A B} (body : B → A → M B) (l : list A) (acc : B) : M B :=
  match l with
  | [] => ret acc
  | x :: l' => acc' <~ body acc x ;; foldM body l' acc'
  end.

(** The indices [start, start + stride, ...] below [bound], as the loops
    [for (i = start; i < bound; i += stride)] visit them. *)
Fixpoint stride_from (fuel i stride bound : nat) : list nat :=
  match fuel with
  | 0 => []
  | S fuel' =>
      if i <? bound then i :: stride_from fuel' (i + stride) stride bound
      else []
  end.

Definition strided (start stride bound : nat) : list nat :=
  stride_from bound start stride bound.

(** ** The collaborators: instruction store, module, context *)

Definition set_insts (f : gmap InstPtr Instruction → gmap InstPtr Instruction)
  (s : State) : State :=
  mkState (f (insts s)) (next_ptr s) (module_ s) (id_to_def s)
    (id_to_decoration_insts_ s) (trace s).

Definition set_index (f : gmap N TargetData → gmap N TargetData)
  (s : State) : State :=
  mkState (insts s) (next_ptr s) (module_ s) (id_to_def s)
    (f (id_to_decoration_insts_ s)) (trace s).

Definition set_module (f : option (list InstPtr) → option (list InstPtr))
  (s : State) : State :=
  mkState (insts s) (next_ptr s) (f (module_ s)) (id_to_def s)
    (id_to_decoration_insts_ s) (trace s).

Definition log (e : Event) : M unit :=
  modify (λ s, mkState (insts s) (next_ptr s) (module_ s) (id_to_def s)
                 (id_to_decoration_insts_ s) (trace s ++ [e])).

(** Reading through an instruction pointer; the pointer of a deleted
    instruction dangles. *)
Definition deref (h : InstPtr) : M Instruction :=
  λ s, match insts s !! h with
       | Some inst => Ok (inst, s)
       | None => Fail (Undefined "dangling instruction pointer")
       end.

(** An in-place edit of the operands of the instruction at [h]. *)
Definition mutate (h : InstPtr) (f : Instruction → Result Instruction)
  : M unit :=
  inst <~ deref h ;;
  inst' <~ lift (f inst) ;;
  modify (set_insts <[h := inst']>) ;;;
  log (EvOperandWrite h).

(** [module_->context()], which needs a module. *)
Definition module_context : M unit :=
  λ s, match module_ s with
       | Some _ => Ok (tt, s)
       | None => Fail (Undefined "null module")
       end.

(** Modelled from the spec: [Module::AddAnnotationInst] followed by
    [--module_->annotation_end()]: the instruction is inserted at the end
    of the module's annotation list; the result is the address it now
    lives at. *)
Definition AddAnnotationInst (inst : Instruction) : M InstPtr :=
  λ s, match module_ s with
       | None => Fail (Undefined "null module")
       | Some anns =>
           let h := next_ptr s in
           Ok (h, mkState (<[h := inst]> (insts s)) (S h)
                    (Some (anns ++ [h])) (id_to_def s)
                    (id_to_decoration_insts_ s)
                    (trace s ++ [EvAddAnnotationInst h]))
       end.

(** ** The index: [AddDecoration] and [RemoveDecoration] *)

Definition find (id : N) : M (option TargetData) :=
  gets (λ s, id_to_decoration_insts_ s !! id).

(** [id_to_decoration_insts_[id]] followed by an update of the record:
    [operator[]] makes an empty record for a new key. *)
Definition at_id (id : N) (f : TargetData → TargetData) : M unit :=
  modify (set_index (λ m, <[id := f (default empty_TargetData (m !! id))]> m)).

Definition push_direct (h : InstPtr) (td : TargetData) : TargetData :=
  mkTargetData (direct_decorations td ++ [h]) (indirect_decorations td)
    (decorate_insts td).

Definition push_indirect (h : InstPtr) (td : TargetData) : TargetData :=
  mkTargetData (direct_decorations td) (indirect_decorations td ++ [h])
    (decorate_insts td).

Definition push_decorate_inst (h : InstPtr) (td : TargetData) : TargetData :=
  mkTargetData (direct_decorations td) (indirect_decorations td)
    (decorate_insts td ++ [h]).

Definition AddDecoration (h : InstPtr) : M unit :=
  inst <~ deref h ;;
  match opcode inst with
  | SpvOpDecorate | SpvOpDecorateId | SpvOpDecorateStringGOOGLE
  | SpvOpMemberDecorate =>
      target_id <~ lift (GetSingleWordInOperand inst 0) ;;
      at_id target_id (push_direct h)
  | SpvOpGroupDecorate | SpvOpGroupMemberDecorate =>
      let start := if decide (opcode inst = SpvOpGroupDecorate) then 1 else 2 in
      let stride := start in
      forM_ (strided start stride (NumInOperands inst)) (λ i,
        target_id <~ lift (GetSingleWordInOperand inst i) ;;
        at_id target_id (push_indirect h)) ;;;
      target_id <~ lift (GetSingleWordInOperand inst 0) ;;
      at_id target_id (push_decorate_inst h)
  | _ => ret tt
  end.

(** The closure [remove_from_container] of [RemoveDecoration]. *)
Definition remove_from_container (h : InstPtr) (v : list InstPtr)
  : list InstPtr :=
  filter (λ x, x ≠ h) v.

Definition remove_direct (h : InstPtr) (td : TargetData) : TargetData :=
  mkTargetData (remove_from_container h (direct_decorations td))
    (indirect_decorations td) (decorate_insts td).

Definition remove_indirect (h : InstPtr) (td : TargetData) : TargetData :=
  mkTargetData (direct_decorations td)
    (remove_from_container h (indirect_decorations td)) (decorate_insts td).

Definition remove_decorate_inst (h : InstPtr) (td : TargetData) : TargetData :=
  mkTargetData (direct_decorations td) (indirect_decorations td)
    (remove_from_container h (decorate_insts td)).

(** An update through an iterator that [find] returned: nothing happens
    at [end()]. *)
Definition at_found (id : N) (f : TargetData → TargetData) : M unit :=
  iter <~ find id ;;
  match iter with
  | None => ret tt
  | Some td => modify (set_index <[id := f td]>)
  end.

Definition RemoveDecoration (h : InstPtr) : M unit :=
  inst <~ deref h ;;
  match opcode inst with
  | SpvOpDecorate | SpvOpDecorateId | SpvOpDecorateStringGOOGLE
  | SpvOpMemberDecorate =>
      target_id <~ lift (GetSingleWordInOperand inst 0) ;;
      at_found target_id (remove_direct h)
  | SpvOpGroupDecorate | SpvOpGroupMemberDecorate =>
      let stride := if decide (opcode inst = SpvOpGroupDecorate) then 1 else 2 in
      forM_ (strided 1 stride (NumInOperands inst)) (λ i,
        target_id <~ lift (GetSingleWordInOperand inst i) ;;
        at_found target_id (remove_indirect h)) ;;;
      group_id <~ lift (GetSingleWordInOperand inst 0) ;;
      at_found group_id (remove_decorate_inst h)
  | _ => ret tt
  end.

(** Modelled from the spec: [IRContext::ForgetUses], the use tracker's
    "forget uses".  The index is kept in step with the instruction: a
    decoration instruction whose operands are about to change is taken
    out of the index (the comment in [CloneDecorations] says that
    [ForgetUses] and [AnalyzeUses] modify the list of indirect
    decorations). *)
Definition ForgetUses (h : InstPtr) : M unit :=
  log (EvForgetUses h) ;;;
  inst <~ deref h ;;
  if IsDecoration inst then RemoveDecoration h else ret tt.

(** Modelled from the spec: [IRContext::AnalyzeUses], the use tracker's
    "re-analyze uses"; a decoration instruction is indexed again. *)
Definition AnalyzeUses (h : InstPtr) : M unit :=
  log (EvAnalyzeUses h) ;;;
  inst <~ deref h ;;
  if IsDecoration inst then AddDecoration h else ret tt.

(** Modelled from the spec: [IRContext::KillInst], the physical deletion
    of an instruction; every reference to it is purged from the index in
    the same step. *)
Definition KillInst (h : InstPtr) : M unit :=
  log (EvKillInst h) ;;;
  inst <~ deref h ;;
  (if IsDecoration inst then RemoveDecoration h else ret tt) ;;;
  modify (set_insts (delete h)) ;;;
  modify (set_module (fmap (filter (λ x, x ≠ h)))).

(** Modelled from the spec: the deletion of the instruction that defines
    the group, [context->KillInst(context->get_def_use_mgr()->GetDef(id))];
    [GetDef] maps an id to its defining instruction and nothing is
    deleted for an id that has none. *)
Definition KillDef (id : N) : M unit :=
  def <~ gets (λ s, id_to_def s !! id) ;;
  match def with
  | None => ret tt
  | Some h => KillInst h
  end.

Definition AnalyzeDecorations : M unit :=
  m <~ gets module_ ;;
  match m with
  | None => ret tt
  | Some annotations => forM_ annotations AddDecoration
  end.

(** ** Lookup: [GetDecorationsFor] *)

(** Reading through an instruction pointer in read-only code. *)
Definition read (s : State) (h : InstPtr) : Result Instruction :=
  match insts s !! h with
  | Some inst => Ok inst
  | None => Fail (Undefined "dangling instruction pointer")
  end.

Fixpoint rfold {A B} (body : B → A → Result B) (l : list A) (acc : B)
  : Result B :=
  match l with
  | [] => Ok acc
  | x :: l' => acc' <- body acc x ;; rfold body l' acc'
  end.

Definition is_linkage (inst : Instruction) : Result bool :=
  if decide (opcode inst = SpvOpDecorate) then
    w <- GetSingleWordInOperand inst 1 ;;
    Ok (bool_decide (w = SpvDecorationLinkageAttributes))
  else Ok false.

(** The closure [process_direct_decorations]; [decorations] is the vector
    it pushes to. *)
Definition process_direct_decorations (s : State) (include_linkage : bool)
  (direct : list InstPtr) (decorations : list InstPtr)
  : Result (list InstPtr) :=
  rfold (λ decorations h,
           inst <- read s h ;;
           linkage <- is_linkage inst ;;
           Ok (if include_linkage || negb linkage
               then decorations ++ [h] else decorations))
        direct decorations.

Definition InternalGetDecorationsFor (s : State) (id : N)
  (include_linkage : bool) : Result (list InstPtr) :=
  match id_to_decoration_insts_ s !! id with
  | None => Ok []
  | Some target_data =>
      decorations <- process_direct_decorations s include_linkage
                       (direct_decorations target_data) [] ;;
      rfold (λ decorations h,
               inst <- read s h ;;
               group_id <- GetSingleWordInOperand inst 0 ;;
               match id_to_decoration_insts_ s !! group_id with
               | None => Fail (AssertFail "Unknown group ID")
               | Some group =>
                   process_direct_decorations s include_linkage
                     (direct_decorations group) decorations
               end)
            (indirect_decorations target_data) decorations
  end.

Definition GetDecorationsFor (s : State) (id : N) (include_linkage : bool)
  : Result (list InstPtr) :=
  InternalGetDecorationsFor s id include_linkage.

(** ** Equivalence: [HaveTheSameDecorations], [AreDecorationsTheSame] *)

(** The four [std::set<std::u32string>] that [fillDecorationSets] fills. *)
Record DecorationSets : Type := mkDecorationSets {
  decorate_set : gset (list N);
  decorate_id_set : gset (list N);
  decorate_string_set : gset (list N);
  member_decorate_set : gset (list N)
}.

Definition no_DecorationSets : DecorationSets :=
  mkDecorationSets ∅ ∅ ∅ ∅.

(** The words of every in-operand from index 1 on. *)
Definition decoration_payload (inst : Instruction) : list N :=
  concat (words <$> drop 1 (in_operands inst)).

Definition emplace_payload (inst : Instruction) (sets : DecorationSets)
  : DecorationSets :=
  let payload := decoration_payload inst in
  match opcode inst with
  | SpvOpDecorate =>
      mkDecorationSets ({[payload]} ∪ decorate_set sets)
        (decorate_id_set sets) (decorate_string_set sets)
        (member_decorate_set sets)
  | SpvOpMemberDecorate =>
      mkDecorationSets (decorate_set sets) (decorate_id_set sets)
        (decorate_string_set sets)
        ({[payload]} ∪ member_decorate_set sets)
  | SpvOpDecorateId =>
      mkDecorationSets (decorate_set sets)
        ({[payload]} ∪ decorate_id_set sets) (decorate_string_set sets)
        (member_decorate_set sets)
  | SpvOpDecorateStringGOOGLE =>
      mkDecorationSets (decorate_set sets) (decorate_id_set sets)
        ({[payload]} ∪ decorate_string_set sets)
        (member_decorate_set sets)
  | _ => sets
  end.

Definition fillDecorationSets (s : State) (decoration_list : list InstPtr)
  : Result DecorationSets :=
  rfold (λ sets h, inst <- read s h ;; Ok (emplace_payload inst sets))
        decoration_list no_DecorationSets.

Definition HaveTheSameDecorations (s : State) (id1 id2 : N) : Result bool :=
  decorations_for1 <- GetDecorationsFor s id1 false ;;
  decorations_for2 <- GetDecorationsFor s id2 false ;;
  sets1 <- fillDecorationSets s decorations_for1 ;;
  sets2 <- fillDecorationSets s decorations_for2 ;;
  Ok (bool_decide (decorate_set sets1 = decorate_set sets2)
      && bool_decide (decorate_id_set sets1 = decorate_id_set sets2)
      && bool_decide (member_decorate_set sets1 = member_decorate_set sets2)
      && bool_decide (decorate_string_set sets1 = decorate_string_set sets2)).

(** The loop of [AreDecorationsTheSame] over the operand indices [l]. *)
Fixpoint same_operands (inst1 inst2 : Instruction) (l : list nat)
  : Result bool :=
  match l with
  | [] => Ok true
  | i :: l' =>
      op1 <- GetInOperand inst1 i ;;
      op2 <- GetInOperand inst2 i ;;
      if bool_decide (op1 ≠ op2) then Ok false
      else same_operands inst1 inst2 l'
  end.

Definition AreDecorationsTheSame (inst1 inst2 : Instruction)
  (ignore_target : bool) : Result bool :=
  match opcode inst1 with
  | SpvOpDecorate | SpvOpMemberDecorate | SpvOpDecorateId
  | SpvOpDecorateStringGOOGLE =>
      if bool_decide (opcode inst1 ≠ opcode inst2)
         || bool_decide (NumInOperands inst1 ≠ NumInOperands inst2)
      then Ok false
      else
        let first := if ignore_target then 1 else 0 in
        same_operands inst1 inst2 (seq first (NumInOperands inst1 - first))
  | _ => Ok false
  end.

(** ** Enumeration: [WhileEachDecoration], [ForEachDecoration] *)

(** The callback [f] may keep a state of its own, of type [X]. *)
Fixpoint while_each {X} (s : State) (decoration : N)
  (f : Instruction → X → bool * X) (l : list InstPtr) (x : X)
  : Result (bool * X) :=
  match l with
  | [] => Ok (true, x)
  | h :: l' =>
      inst <- read s h ;;
      match opcode inst with
      | SpvOpMemberDecorate =>
          w <- GetSingleWordInOperand inst 2 ;;
          if bool_decide (w = decoration) then
            let '(go_on, x') := f inst x in
            if go_on then while_each s decoration f l' x' else Ok (false, x')
          else while_each s decoration f l' x
      | SpvOpDecorate | SpvOpDecorateId | SpvOpDecorateStringGOOGLE =>
          w <- GetSingleWordInOperand inst 1 ;;
          if bool_decide (w = decoration) then
            let '(go_on, x') := f inst x in
            if go_on then while_each s decoration f l' x' else Ok (false, x')
          else while_each s decoration f l' x
      | _ => Fail (AssertFail "Unexpected decoration instruction")
      end
  end.

Definition WhileEachDecoration {X} (s : State) (id decoration : N)
  (f : Instruction → X → bool * X) (x : X) : Result (bool * X) :=
  l <- GetDecorationsFor s id true ;;
  while_each s decoration f l x.

Definition ForEachDecoration {X} (s : State) (id decoration : N)
  (f : Instruction → X → X) (x : X) : Result X :=
  r <- WhileEachDecoration s id decoration (λ inst x, (true, f inst x)) x ;;
  Ok (snd r).

(** ** [CloneDecorations] *)

(** The body shared by the two places that clone a decoration and apply
    the clone to [id]. *)
Definition clone_onto (id : N) (h : InstPtr) : M unit :=
  inst <~ deref h ;;
  new_inst <~ lift (SetInOperand inst 0 [id]) ;;
  decoration_iter <~ AddAnnotationInst new_inst ;;
  AnalyzeUses decoration_iter.

Definition id_operand (id : N) : Operand :=
  mkOperand SPV_OPERAND_TYPE_ID [id].

(** One round of the loop of [CloneDecorations] over the indirect
    decorations of [from]. *)
Definition clone_through_group (from to : N) (h : InstPtr) : M unit :=
  inst <~ deref h ;;
  match opcode inst with
  | SpvOpGroupDecorate =>
      ForgetUses h ;;;
      mutate h (λ inst, Ok (AddOperand inst (id_operand to))) ;;;
      AnalyzeUses h
  | SpvOpGroupMemberDecorate =>
      ForgetUses h ;;;
      inst <~ deref h ;;
      let num_operands := NumOperands inst in
      forM_ (strided 1 2 num_operands) (λ i,
        inst <~ deref h ;;
        op <~ lift (GetOperand inst i) ;;
        match words op with
        | [] => failM (Undefined "operand without words")
        | w :: _ =>
            if bool_decide (w = from) then
              mutate h (λ inst, Ok (AddOperand inst (id_operand to))) ;;;
              inst <~ deref h ;;
              op <~ lift (GetOperand inst (i + 1)) ;;
              mutate h (λ inst, Ok (AddOperand inst op))
            else ret tt
        end) ;;;
      AnalyzeUses h
  | _ => failM (AssertFail "Unexpected decoration instruction")
  end.

Definition CloneDecorations (from to : N) : M unit :=
  decoration_list <~ find from ;;
  match decoration_list with
  | None => ret tt
  | Some target_data =>
      module_context ;;;
      forM_ (direct_decorations target_data) (clone_onto to) ;;;
      (* the copy of the vector of indirect decorations *)
      current <~ find from ;;
      let indirect_decorations :=
        indirect_decorations (default empty_TargetData current) in
      forM_ indirect_decorations (clone_through_group from to)
  end.

(** ** [RemoveDecorationsFrom] *)

(** The pointers of [l] whose instruction satisfies [p], in order. *)
Fixpoint select (p : Instruction → bool) (l : list InstPtr)
  : M (list InstPtr) :=
  match l with
  | [] => ret []
  | h :: l' =>
      inst <~ deref h ;;
      rest <~ select p l' ;;
      ret (if p inst then h :: rest else rest)
  end.

(** The loop that takes [id] (and its literal, when [stride] is 2) out of
    the targets of the instruction at [h]: the slot is overwritten by the
    last one and the last one is removed.  The result is [was_modified].
    Every round either moves [i] forward or shortens the operand list, so
    one unit of fuel per operand, and one more, is enough. *)
Fixpoint remove_target_loop (fuel : nat) (h : InstPtr) (id : N)
  (stride i : nat) (was_modified : bool) : M bool :=
  match fuel with
  | 0 => failM OutOfFuel
  | S fuel' =>
      inst <~ deref h ;;
      if i <? NumInOperands inst then
        w <~ lift (GetSingleWordInOperand inst i) ;;
        if bool_decide (w ≠ id) then
          remove_target_loop fuel' h id stride (i + stride) was_modified
        else
          let last_operand_index := NumInOperands inst - stride in
          (if i <? last_operand_index then
             mutate h (λ inst, op <- GetInOperand inst last_operand_index ;;
                               AssignInOperand inst i op)
           else ret tt) ;;;
          (if stride =? 2 then
             (if i <? last_operand_index then
                mutate h (λ inst,
                  op <- GetInOperand inst (last_operand_index + 1) ;;
                  AssignInOperand inst (i + 1) op)
              else ret tt) ;;;
             mutate h (λ inst, RemoveInOperand inst (last_operand_index + 1))
           else ret tt) ;;;
          mutate h (λ inst, RemoveInOperand inst last_operand_index) ;;;
          remove_target_loop fuel' h id stride i true
      else ret was_modified
  end.

Definition remove_target (h : InstPtr) (id : N) (stride : nat) : M bool :=
  inst <~ deref h ;;
  remove_target_loop (S (NumInOperands inst)) h id stride 1 false.

Definition keep_indirect (to_remove : gset InstPtr) (td : TargetData)
  : TargetData :=
  mkTargetData (direct_decorations td)
    (filter (λ h, h ∉ to_remove) (indirect_decorations td))
    (decorate_insts td).

(** One round of the loop over the indirect decorations of [id]; the
    accumulator holds [insts_to_kill] and
    [indirect_decorations_to_remove]. *)
Definition remove_from_group (id : N) (pred : Instruction → bool)
  (acc : list InstPtr * gset InstPtr) (h : InstPtr)
  : M (list InstPtr * gset InstPtr) :=
  let '(insts_to_kill, indirect_decorations_to_remove) := acc in
  inst <~ deref h ;;
  assertM (is_group_apply (opcode inst))
    "inst->opcode() == SpvOpGroupDecorate || inst->opcode() == SpvOpGroupMemberDecorate" ;;;
  group_id <~ lift (GetSingleWordInOperand inst 0) ;;
  group_iter <~ find group_id ;;
  match group_iter with
  | None => failM (AssertFail "Unknown decoration group")
  | Some group =>
      let group_decorations := direct_decorations group in
      group_decorations_to_keep <~
        select (λ decoration, negb (pred decoration)) group_decorations ;;
      if length group_decorations_to_keep =? length group_decorations
      then ret acc
      else
        let stride :=
          if decide (opcode inst = SpvOpGroupDecorate) then 1 else 2 in
        was_modified <~ remove_target h id stride ;;
        inst <~ deref h ;;
        acc' <~
          (if NumInOperands inst =? 1 then
             ret (insts_to_kill ++ [h],
                  {[h]} ∪ indirect_decorations_to_remove)
           else if was_modified : bool then
             ForgetUses h ;;;
             AnalyzeUses h ;;;
             ret (insts_to_kill, {[h]} ∪ indirect_decorations_to_remove)
           else ret acc) ;;
        forM_ group_decorations_to_keep (clone_onto id) ;;;
        ret acc'
  end.

Definition all_empty (td : TargetData) : bool :=
  bool_decide (direct_decorations td = [])
  && bool_decide (indirect_decorations td = [])
  && bool_decide (decorate_insts td = []).

Definition RemoveDecorationsFrom (id : N) (pred : Instruction → bool)
  : M unit :=
  ids_iter <~ find id ;;
  match ids_iter with
  | None => ret tt
  | Some decorations_info =>
      module_context ;;;
      let is_group := negb (bool_decide (decorate_insts decorations_info = [])) in
      insts_to_kill <~ select pred (direct_decorations decorations_info) ;;
      acc <~ foldM (remove_from_group id pred)
               (indirect_decorations decorations_info) (insts_to_kill, ∅) ;;
      let '(insts_to_kill, indirect_decorations_to_remove) := acc in
      at_found id (keep_indirect indirect_decorations_to_remove) ;;;
      forM_ insts_to_kill KillInst ;;;
      (* [decorations_info] is a reference to the record in the index *)
      current <~ find id ;;
      let decorations_info := default empty_TargetData current in
      let insts_to_kill :=
        if is_group
           && bool_decide (direct_decorations decorations_info = [])
           && bool_decide (indirect_decorations decorations_info = [])
        then decorate_insts decorations_info else [] in
      forM_ insts_to_kill KillInst ;;;
      current <~ find id ;;
      let decorations_info := default empty_TargetData current in
      if all_empty decorations_info then
        modify (set_index (delete id)) ;;;
        (if is_group then KillDef id else ret tt)
      else ret tt
  end.

(** ** What the specification says [decorationsFor] returns *)

(** A [Decorate] instruction whose decoration-kind operand is the
    linkage-attributes kind. *)
Definition is_linkage_decorate (inst : Instruction) : bool :=
  bool_decide (opcode inst = SpvOpDecorate)
  && bool_decide (words <$> in_operands inst !! 1
                  = Some [SpvDecorationLinkageAttributes]).

Definition shown (s : State) (include_linkage : bool) (h : InstPtr) : bool :=
  match insts s !! h with
  | Some inst => include_linkage || negb (is_linkage_decorate inst)
  | None => false
  end.

(** The record of the group that the group-apply instruction at [h]
    names in operand 0. *)
Definition group_record (s : State) (h : InstPtr) : option TargetData :=
  inst ← insts s !! h;
  op ← in_operands inst !! 0;
  match words op with
  | [group_id] => id_to_decoration_insts_ s !! group_id
  | _ => None
  end.

(** First the direct decorations of [id], in stored order; then, for each
    group-apply instruction of its indirect list, in order, the direct
    decorations of that group. *)
Definition decorationsFor_spec (s : State) (id : N) (include_linkage : bool)
  : list InstPtr :=
  match id_to_decoration_insts_ s !! id with
  | None => []
  | Some td =>
      filter (λ h, shown s include_linkage h) (direct_decorations td)
      ++ concat ((λ h, filter (λ d, shown s include_linkage d)
                         (direct_decorations
                            (default empty_TargetData (group_record s h))))
                 <$> indirect_decorations td)
  end.

(** The pointer is live and, for [OpDecorate], operand 1 is one word. *)
Definition readable_direct (s : State) (h : InstPtr) : bool :=
  match read s h with
  | Ok inst => match is_linkage inst with Ok _ => true | Fail _ => false end
  | Fail _ => false
  end.

(** The group-apply instruction at [h] is live and names a group that has
    a record whose direct decorations are readable. *)
Definition resolvable_group (s : State) (h : InstPtr) : bool :=
  match group_record s h with
  | Some group => forallb (readable_direct s) (direct_decorations group)
  | None => false
  end.

Definition well_formed_record (s : State) (td : TargetData) : bool :=
  forallb (readable_direct s) (direct_decorations td)
  && forallb (resolvable_group s) (indirect_decorations td).

(** Two decorations with the same opcode and the same operands after the
    target. *)
Definition same_content (s : State) (h1 h2 : InstPtr) : Prop :=
  ∃ inst1 inst2,
    insts s !! h1 = Some inst1 ∧ insts s !! h2 = Some inst2
    ∧ opcode inst1 = opcode inst2
    ∧ drop 1 (in_operands inst1) = drop 1 (in_operands inst2).

(** The predicate [p] applied to the instruction that [h] points to. *)
Definition holds (s : State) (p : Instruction → bool) (h : InstPtr) : bool :=
  match insts s !! h with
  | Some inst => p inst
  | None => false
  end.

(** An instruction that [WhileEachDecoration] steps over: a direct form
    whose decoration-kind operand can be read. *)
Definition visitable (s : State) (h : InstPtr) : bool :=
  match insts s !! h with
  | Some inst =>
      is_direct_form (opcode inst)
      && match GetSingleWordInOperand inst
                 (if decide (opcode inst = SpvOpMemberDecorate) then 2 else 1)
         with
         | Ok _ => true
         | Fail _ => false
         end
  | None => false
  end.

(** ** Modules to run the code on *)

(** A direct decoration of [target]: the target, the decoration kind, the
    payload. *)
Definition decoration (op : SpvOp) (target : N) (kind : Operand)
  (payload : list Operand) : Instruction :=
  mkInstruction op (id_operand target :: kind :: payload).

Definition kind_operand (kind : N) : Operand :=
  mkOperand SPV_OPERAND_TYPE_DECORATION [kind].

Definition literal_operand (n : N) : Operand :=
  mkOperand SPV_OPERAND_TYPE_LITERAL_INTEGER [n].

(** [OpGroupDecorate group targets...] *)
Definition group_decorate (group : N) (targets : list N) : Instruction :=
  mkInstruction SpvOpGroupDecorate (id_operand group :: (id_operand <$> targets)).

(** [OpGroupMemberDecorate group (target, member)...] *)
Definition group_member_decorate (group : N) (targets : list (N * N))
  : Instruction :=
  mkInstruction SpvOpGroupMemberDecorate
    (id_operand group
     :: concat ((λ p, [id_operand p.1; literal_operand p.2]) <$> targets)).

(** [%group = OpDecorationGroup]; the result id is not an in-operand. *)
Definition decoration_group : Instruction :=
  mkInstruction SpvOpDecorationGroup [].

(** A module whose annotation section is [annotations], stored at the
    addresses 0, 1, ...; the index is empty and the context has not been
    told anything yet. *)
Definition module_state (annotations : list Instruction)
  (defs : gmap N InstPtr) : State :=
  mkState (list_to_map (zip (seq 0 (length annotations)) annotations))
    (length annotations) (Some (seq 0 (length annotations))) defs ∅ [].

Definition always_true (inst : Instruction) : bool := true.

(** What the group-emptying sentence of the specification promises for
    a group [G], stored with its one decoration, its definition and its
    [OpGroupDecorate G A] at the addresses 0, 1 and 2: after
    [removeDecorationsFrom(A, alwaysTrue)] the group-apply instruction
    and the definition of the group are deleted and [A] has no record. *)
Definition group_emptying_claim (G A : N) (d : Instruction) : Prop :=
  ∀ s',
    (AnalyzeDecorations ;;; RemoveDecorationsFrom A always_true)
      (module_state [d; decoration_group; group_decorate G [A]] {[G := 1]})
    = Ok (tt, s') →
    insts s' !! 2 = None ∧ insts s' !! 1 = None
    ∧ id_to_decoration_insts_ s' !! A = None.

(** ** The order of the calls received by the context *)

(** Running a trace through an automaton; [None] when a step is not
    allowed. *)
Fixpoint run_from {St} (step : St → Event → option St) (st : St)
  (tr : list Event) : option St :=
  match tr with
  | [] => Some st
  | e :: tr' =>
      match step st e with
      | Some st' => run_from step st' tr'
      | None => None
      end
  end.

(** The bracket that the specification asks for: an operand write to [h]
    only between [ForgetUses h] and the [AnalyzeUses h] that follows it,
    and nothing else in between. *)
Inductive Bracket : Type :=
  | Idle
  | Open (h : InstPtr).

#[global] Instance Bracket_eq_dec : EqDecision Bracket.
Proof. solve_decision. Defined.

Definition bracket_step (st : Bracket) (e : Event) : option Bracket :=
  match st, e with
  | Idle, EvForgetUses h => Some (Open h)
  | Idle, EvOperandWrite _ => None
  | Idle, _ => Some Idle
  | Open h, EvOperandWrite h' => if decide (h' = h) then Some (Open h) else None
  | Open h, EvAnalyzeUses h' => if decide (h' = h) then Some Idle else None
  | Open _, _ => None
  end.

Definition bracketed (tr : list Event) : bool :=
  bool_decide (run_from bracket_step Idle tr = Some Idle).

(** The order that [RemoveDecorationsFrom] keeps: the operands are
    written first.  [ForgetUses h] comes only directly after a write to
    [h] and is directly followed by [AnalyzeUses h].  An instruction
    whose writes are followed by anything else was not reported: it owes
    a [KillInst]. *)
Inductive Notify : Type :=
  | Quiet
  | Edited (h : InstPtr)
  | Forgotten (h : InstPtr).

#[global] Instance Notify_eq_dec : EqDecision Notify.
Proof. solve_decision. Defined.

(** The instructions that were written and not reported so far: the one
    whose operands were written last, and those that owe a [KillInst]
    from before. *)
Definition pending (st : Notify * list InstPtr) : list InstPtr :=
  match st.1 with
  | Edited h => h :: st.2
  | _ => st.2
  end.

Definition notify_step (st : Notify * list InstPtr) (e : Event)
  : option (Notify * list InstPtr) :=
  match st.1, e with
  | Forgotten h, EvAnalyzeUses h' =>
      if decide (h' = h) then Some (Quiet, st.2) else None
  | Forgotten _, _ => None
  | Edited h, EvForgetUses h' =>
      if decide (h' = h) then Some (Forgotten h, st.2) else None
  | Quiet, EvForgetUses _ => None
  | Edited h, EvOperandWrite h' =>
      Some (Edited h', if decide (h' = h) then st.2 else h :: st.2)
  | Quiet, EvOperandWrite h' => Some (Edited h', st.2)
  | _, EvKillInst k => Some (Quiet, filter (λ x, x ≠ k) (pending st))
  | _, _ => Some (Quiet, pending st)
  end.

(** Nothing is left to report and no [KillInst] is owed. *)
Definition settled : Notify * list InstPtr := (Quiet, []).

(** Every instruction whose operands were written was reported directly
    after its writes, or killed later. *)
Definition reported_or_killed (tr : list Event) : bool :=
  bool_decide (run_from notify_step settled tr = Some settled).

(** Between two rounds of the loop over the indirect decorations: no
    report is under way, and every instruction that was written and not
    reported is in [insts_to_kill]. *)
Definition awaiting (kill : list InstPtr) (st : Notify * list InstPtr)
  : Prop :=
  (∀ h, st.1 ≠ Forgotten h) ∧ ∀ x, x ∈ pending st → x ∈ kill.

(** While the targets of the instruction at [h] are removed. *)
Definition editing (kill : list InstPtr) (h : InstPtr)
  (st : Notify * list InstPtr) : Prop :=
  st.1 = Edited h ∧ ∀ x, x ∈ st.2 → x ∈ kill.

(** Every address from [next_ptr] on is free. *)
Definition fresh_store (s : State) : Prop :=
  ∀ h : InstPtr, next_ptr s ≤ h → insts s !! h = None.

(** The instruction at [h] was reported: the last write to its operands
    is directly followed by [ForgetUses h] and [AnalyzeUses h]. *)
Definition reported (tr : list Event) (h : InstPtr) : Prop :=
  ∃ pre post,
    tr = pre ++ [EvOperandWrite h; EvForgetUses h; EvAnalyzeUses h] ++ post
    ∧ EvOperandWrite h ∉ post.

(** What became of the instruction at [h], whose operands were written,
    when the trace [tr] is over and the state is [s']: the instruction
    is still there, has a target left, was reported and was not killed;
    or it is gone, and was killed. *)
Definition edit_outcome (tr : list Event) (s' : State) (h : InstPtr)
  : Prop :=
  match insts s' !! h with
  | Some inst =>
      NumInOperands inst ≠ 1 ∧ reported tr h ∧ EvKillInst h ∉ tr
  | None => EvKillInst h ∈ tr
  end.

(** While the indirect decorations are gone through, since the trace
    [tr0]: nothing was killed, and an instruction whose operands were
    written is there; it is the one at work ([cur]), is in
    [insts_to_kill] or has a target left. *)
Definition edits_live (tr0 : list Event) (kill : list InstPtr)
  (cur : option InstPtr) (s : State) : Prop :=
  fresh_store s
  ∧ ∃ tr, trace s = tr0 ++ tr
          ∧ (∀ h, EvKillInst h ∉ tr)
          ∧ ∀ h, EvOperandWrite h ∈ tr →
                 ∃ inst, insts s !! h = Some inst
                         ∧ (cur = Some h ∨ h ∈ kill
                            ∨ NumInOperands inst ≠ 1).

(** While the instructions are killed, [rem] being those still to
    kill. *)
Definition edits_closing (tr0 : list Event) (rem : list InstPtr)
  (s : State) : Prop :=
  ∃ tr, trace s = tr0 ++ tr
        ∧ ∀ h, EvOperandWrite h ∈ tr →
               match insts s !! h with
               | Some inst =>
                   (EvKillInst h ∉ tr) ∧ (h ∈ rem ∨ NumInOperands inst ≠ 1)
               | None => EvKillInst h ∈ tr
               end.

(** What the specification says of the two operations that edit the
    operands of a group-apply instruction: what they tell the context is
    bracketed. *)
Definition bracketing_claim : Prop :=
  (∀ s id pred s',
     RemoveDecorationsFrom id pred s = Ok (tt, s') →
     ∃ tr, trace s' = trace s ++ tr ∧ bracketed tr = true)
  ∧ (∀ s from to s',
       CloneDecorations from to s = Ok (tt, s') →
       ∃ tr, trace s' = trace s ++ tr ∧ bracketed tr = true).

(** The trace of a program does not change. *)
Definition silent {A} (m : M A) : Prop :=
  ∀ s a s', m s = Ok (a, s') → trace s' = trace s.

(** From the automaton state [st], what the program tells the context
    leads to a state that [Q] accepts for the result. *)
Definition steps_to {St A} (step : St → Event → option St) (m : M A)
  (st : St) (Q : A → St → Prop) : Prop :=
  ∀ s a s',
    m s = Ok (a, s') →
    ∃ tr st', trace s' = trace s ++ tr
              ∧ run_from step st tr = Some st' ∧ Q a st'.

(** ** Records and their three collections *)

(** Every record of the index has a collection that is not empty. *)
Definition all_nonempty (s : State) : Prop :=
  map_Forall (λ _ td, all_empty td = false) (id_to_decoration_insts_ s).

#[global] Instance all_nonempty_dec (s : State) : Decision (all_nonempty s).
Proof. unfold all_nonempty. apply _. Defined.

(** The store holds no [OpGroupMemberDecorate]. *)
Definition no_member (s : State) : Prop :=
  map_Forall (λ _ inst, opcode inst ≠ SpvOpGroupMemberDecorate) (insts s).

#[global] Instance no_member_dec (s : State) : Decision (no_member s).
Proof. unfold no_member. apply _. Defined.

(** What the specification says of the keys of the index: after each of
    the four operations, a record that is a value of the mapping has a
    collection that is not empty. *)
Definition records_pruned_claim : Prop :=
  (∀ s s',
     id_to_decoration_insts_ s = ∅ →
     AnalyzeDecorations s = Ok (tt, s') → all_nonempty s')
  ∧ (∀ s h s',
       all_nonempty s → RemoveDecoration h s = Ok (tt, s') → all_nonempty s')
  ∧ (∀ s id pred s',
       all_nonempty s →
       RemoveDecorationsFrom id pred s = Ok (tt, s') → all_nonempty s')
  ∧ (∀ s from to s',
       all_nonempty s →
       CloneDecorations from to s = Ok (tt, s') → all_nonempty s').

(** The single words among the operands of an instruction: the ids that
    [GetSingleWordInOperand] can return. *)
Definition single_words (inst : Instruction) : list N :=
  omap (λ op, match words op with [w] => Some w | _ => None end)
       (in_operands inst).

(** The program keeps the property [P] of the state. *)
Definition keeps {A} (P : State → Prop) (m : M A) : Prop :=
  ∀ s a s', m s = Ok (a, s') → P s → P s'.

(** The id [k] has a record with a collection that is not empty. *)
Definition has_nonempty (k : N) (s : State) : Prop :=
  ∃ td, id_to_decoration_insts_ s !! k = Some td ∧ all_empty td = false.

(** The record of [id], if there is one, has a collection that is not
    empty. *)
Definition own_record_nonempty (id : N) (s : State) : Prop :=
  ∀ td, id_to_decoration_insts_ s !! id = Some td → all_empty td = false.

(** The state that a program ends in, when it returns. *)
Definition exec {A} (m : M A) (s : State) : State :=
  match m s with
  | Ok (_, s') => s'
  | Fail _ => s
  end.

(** The predicate that drops the decorations of one kind. *)
Definition drops_kind (kind : N) (inst : Instruction) : bool :=
  bool_decide (in_operands inst !! 1 = Some (kind_operand kind)).

(** [OpDecorate %10 Constant], [OpDecorate %10 Restrict],
    [%10 = OpDecorationGroup], [OpGroupDecorate %10 %1 %2]. *)
Definition partial_removal_module : State :=
  module_state
    [decoration SpvOpDecorate 10%N (kind_operand 22%N) [];
     decoration SpvOpDecorate 10%N (kind_operand 19%N) [];
     decoration_group;
     group_decorate 10%N [1%N; 2%N]]
    {[10%N := 2]}.

(** [OpDecorate %10 Restrict], [%10 = OpDecorationGroup],
    [OpGroupDecorate %10 %1]. *)
Definition group_emptying_module : State :=
  module_state
    [decoration SpvOpDecorate 10%N (kind_operand 19%N) [];
     decoration_group;
     group_decorate 10%N [1%N]]
    {[10%N := 1]}.

(** [OpDecorate %10 Restrict], [%10 = OpDecorationGroup],
    [OpGroupMemberDecorate %10 %5 5]: member 5 of the structure type [%5]
    gets the decorations of the group. *)
Definition member_module : State :=
  module_state
    [decoration SpvOpDecorate 10%N (kind_operand 19%N) [];
     decoration_group;
     group_member_decorate 10%N [(5%N, 5%N)]]
    {[10%N := 1]}.

(** [OpDecorate %1 Restrict], [OpDecorate %2 Restrict]. *)
Definition twin_module : State :=
  module_state
    [decoration SpvOpDecorate 1%N (kind_operand 19%N) [];
     decoration SpvOpDecorate 2%N (kind_operand 19%N) []]
    ∅.

(** An index that lists, for the id 1, an [OpGroupDecorate %10 %1] whose
    group has no record. *)
Definition unknown_group_state : State :=
  mkState {[0 := group_decorate 10%N [1%N]]} 1 (Some [0]) ∅
    {[1%N := mkTargetData [] [0] []]} [].

(** An index that lists an [OpDecorationGroup] among the direct
    decorations of the id 1. *)
Definition stray_direct_state : State :=
  mkState {[0 := decoration_group]} 1 (Some [0]) ∅
    {[1%N := mkTargetData [0] [] []]} [].

(** What the specification says of the three fatal conditions: each of
    them ends in a failed assertion. *)
Definition fatal_conditions_claim : Prop :=
  (∀ s id td incl h rest inst group_id,
     id_to_decoration_insts_ s !! id = Some td →
     forallb (readable_direct s) (direct_decorations td) = true →
     indirect_decorations td = h :: rest →
     insts s !! h = Some inst →
     GetSingleWordInOperand inst 0 = Ok group_id →
     id_to_decoration_insts_ s !! group_id = None →
     aborts (InternalGetDecorationsFor s id incl))
  ∧ (∀ inst1 inst2 ignore_target,
       is_direct_form (opcode inst1) = false →
       aborts (AreDecorationsTheSame inst1 inst2 ignore_target))
  ∧ (∀ s id decoration (g : Instruction → unit → unit) h rest inst,
       GetDecorationsFor s id true = Ok (h :: rest) →
       insts s !! h = Some inst →
       IsDecoration inst = false →
       aborts (ForEachDecoration s id decoration g tt))
  ∧ (∀ s h inst,
       insts s !! h = Some inst →
       IsDecoration inst = false →
       aborts (RemoveDecoration h s)).

(** A program that tells the context exactly [e a] when it returns [a]. *)
Definition tells {A} (m : M A) (e : A → Event) : Prop :=
  ∀ s a s', m s = Ok (a, s') → trace s' = trace s ++ [e a].

(** The properties of the state that do not look at the index, the
    instructions or the module are kept by everything; those that look
    at the index only are kept by what leaves the index alone. *)
Definition index_only (P : State → Prop) : Prop :=
  ∀ s s', id_to_decoration_insts_ s' = id_to_decoration_insts_ s →
          P s → P s'.

Definition insts_only (P : State → Prop) : Prop :=
  ∀ s s', insts s' = insts s → P s → P s'.

(** The program never stops for lack of fuel. *)
Definition within_fuel {A} (m : M A) : Prop :=
  ∀ s, m s ≠ Fail OutOfFuel.

(** The instruction at [h] has at most [n] operands. *)
Definition at_most_operands (h : InstPtr) (n : nat) (s : State) : Prop :=
  ∃ inst, insts s !! h = Some inst ∧ NumInOperands inst ≤ n.

(** The set that [fillDecorationSets] keeps for the opcode [op]. *)
Definition payloads_of (op : SpvOp) (sets : DecorationSets)
  : gset (list N) :=
  match op with
  | SpvOpDecorate => decorate_set sets
  | SpvOpMemberDecorate => member_decorate_set sets
  | SpvOpDecorateId => decorate_id_set sets
  | SpvOpDecorateStringGOOGLE => decorate_string_set sets
  | _ => ∅
  end.

(** Every decoration of the list [l1] has the content of a decoration of
    the list [l2]. *)
Definition content_within (s : State) (l1 l2 : list InstPtr) : Prop :=
  ∀ h1, h1 ∈ l1 → ∃ h2, h2 ∈ l2 ∧ same_content s h1 h2.

(** ** What the comparison of two decorations looks at *)

(** The first operand that [AreDecorationsTheSame] compares. *)
Definition first_compared (ignore_target : bool) : nat :=
  if ignore_target then 1 else 0.

(** Both instructions are of the same direct form, with the same number
    of operands and the same operands from the first compared one on. *)
Definition same_decoration (inst1 inst2 : Instruction)
  (ignore_target : bool) : Prop :=
  is_direct_form (opcode inst1) = true
  ∧ opcode inst1 = opcode inst2
  ∧ NumInOperands inst1 = NumInOperands inst2
  ∧ drop (first_compared ignore_target) (in_operands inst1)
    = drop (first_compared ignore_target) (in_operands inst2).

#[global] Instance same_decoration_dec inst1 inst2 ignore_target :
  Decision (same_decoration inst1 inst2 ignore_target).
Proof. unfold same_decoration. apply _. Defined.

(** ** What the enumeration shows to the callback *)

(** The decoration-kind operand of a direct form: operand 2 of
    [OpMemberDecorate], operand 1 of the others. *)
Definition kind_index (inst : Instruction) : nat :=
  if decide (opcode inst = SpvOpMemberDecorate) then 2 else 1.

Definition of_kind (decoration : N) (inst : Instruction) : bool :=
  bool_decide (words <$> in_operands inst !! kind_index inst
               = Some [decoration]).

(** The instructions behind the pointers of [l] that are of the kind
    [decoration], in the order of [l]. *)
Definition matching (s : State) (decoration : N) (l : list InstPtr)
  : list Instruction :=
  filter (λ inst, of_kind decoration inst = true) (omap (λ h, insts s !! h) l).

(** Calling [f] on the instructions of [l] in order, up to the first call
    that answers false. *)
Fixpoint visit {X} (f : Instruction → X → bool * X) (l : list Instruction)
  (x : X) : bool * X :=
  match l with
  | [] => (true, x)
  | inst :: l' =>
      let '(go_on, x') := f inst x in
      if go_on then visit f l' x' else (false, x')
  end.

(** ** What [HaveTheSameDecorations] compares *)

(** Some instruction of [l] has the opcode [op] and the payload [p]: the
    words of its operands after the target, run together. *)
Definition carries (s : State) (l : list InstPtr) (op : SpvOp) (p : list N)
  : Prop :=
  ∃ h inst, h ∈ l ∧ insts s !! h = Some inst ∧ opcode inst = op
            ∧ decoration_payload inst = p.

(** The two lists carry the same payloads under each direct form. *)
Definition same_payloads (s : State) (l1 l2 : list InstPtr) : Prop :=
  ∀ op p, is_direct_form op = true → carries s l1 op p ↔ carries s l2 op p.

(** ** The index against the instructions *)

(** The record of [k]; [operator[]] and the code's own searches see an
    id without record as one with three empty collections. *)
Definition record (s : State) (k : N) : TargetData :=
  default empty_TargetData (id_to_decoration_insts_ s !! k).

(** Operand 0 of [inst] is the one word [k]. *)
Definition names (inst : Instruction) (k : N) : bool :=
  bool_decide (words <$> in_operands inst !! 0 = Some [k]).

(** The instruction at [h] is a direct decoration of [k]. *)
Definition targets_directly (s : State) (k : N) (h : InstPtr) : bool :=
  match insts s !! h with
  | Some inst => is_direct_form (opcode inst) && names inst k
  | None => false
  end.

(** The instruction at [h] applies the group [k]. *)
Definition applies_group (s : State) (k : N) (h : InstPtr) : bool :=
  match insts s !! h with
  | Some inst => is_group_apply (opcode inst) && names inst k
  | None => false
  end.

(** The operands of [inst] after the first that are the one word [k]. *)
Definition targets_equal (inst : Instruction) (k : N) : list Operand :=
  filter (λ op, words op = [k]) (drop 1 (in_operands inst)).

(** [h], once for each time the [OpGroupDecorate] at [h] lists [k] among
    its targets. *)
Definition decorated_by_group (s : State) (k : N) (h : InstPtr)
  : list InstPtr :=
  match insts s !! h with
  | Some inst =>
      if decide (opcode inst = SpvOpGroupDecorate)
      then (λ _, h) <$> targets_equal inst k
      else []
  | None => []
  end.

(** [h] is in none of the collections of the record. *)
Definition not_in_record (h : InstPtr) (td : TargetData) : Prop :=
  (h ∉ direct_decorations td) ∧ (h ∉ indirect_decorations td)
  ∧ (h ∉ decorate_insts td).

(** Everything but the index. *)
Definition same_but_index (s s' : State) : Prop :=
  insts s' = insts s ∧ next_ptr s' = next_ptr s ∧ module_ s' = module_ s
  ∧ id_to_def s' = id_to_def s ∧ trace s' = trace s.

(** The update that [at_found] makes. *)
Definition update_found (f : TargetData → TargetData) (w : N) (s : State)
  : State :=
  match id_to_decoration_insts_ s !! w with
  | Some td => set_index <[w := f td]> s
  | None => s
  end.

(** ** Taking a target out of a group-apply instruction *)

(** The state after the operands of the instruction at [h] were written
    once, with [inst'] as the result. *)
Definition written (h : InstPtr) (inst' : Instruction) (s : State) : State :=
  mkState (<[h := inst']> (insts s)) (next_ptr s) (module_ s) (id_to_def s)
    (id_to_decoration_insts_ s) (trace s ++ [EvOperandWrite h]).

(** From [s] to [s'] nothing happened but operand writes to [h]. *)
Definition only_writes (h : InstPtr) (s s' : State) : Prop :=
  next_ptr s' = next_ptr s ∧ module_ s' = module_ s
  ∧ id_to_def s' = id_to_def s
  ∧ id_to_decoration_insts_ s' = id_to_decoration_insts_ s
  ∧ ∃ n, trace s' = trace s ++ replicate n (EvOperandWrite h).

(** One round of the loop, on the instruction alone: the slot at [i] is
    overwritten by the last one and the last one is removed. *)
Definition swap_remove (stride i : nat) (inst : Instruction)
  : Result Instruction :=
  let last_operand_index := NumInOperands inst - stride in
  inst1 <- (if i <? last_operand_index then
              op <- GetInOperand inst last_operand_index ;;
              AssignInOperand inst i op
            else Ok inst) ;;
  inst2 <- (if stride =? 2 then
              inst' <- (if i <? last_operand_index then
                          op <- GetInOperand inst1 (last_operand_index + 1) ;;
                          AssignInOperand inst1 (i + 1) op
                        else Ok inst1) ;;
              RemoveInOperand inst' (last_operand_index + 1)
            else Ok inst1) ;;
  RemoveInOperand inst2 last_operand_index.

(** A target of a group-apply instruction with what goes with it: the
    member literal after the target of an [OpGroupMemberDecorate],
    nothing for [OpGroupDecorate]. *)
Definition Slot : Type := Operand * list Operand.

Definition slot_operands (c : Slot) : list Operand := c.1 :: c.2.

Definition operands_of (group : Operand) (slots : list Slot) : list Operand :=
  group :: concat (slot_operands <$> slots).

(** The slot is a target [id]. *)
Definition slot_is (id : N) (c : Slot) : bool :=
  bool_decide (words c.1 = [id]).

(** A slot of [stride] operands whose target is one word. *)
Definition well_sized (stride : nat) (c : Slot) : Prop :=
  S (length c.2) = stride ∧ ∃ w, words c.1 = [w].

(** ** Removing direct decorations *)

(** The state after the instructions at [killed], direct decorations of
    [id], were deleted one after the other. *)
Definition after_kills (id : N) (killed : list InstPtr) (s s' : State)
  : Prop :=
  (∀ h, insts s' !! h = if decide (h ∈ killed) then None else insts s !! h)
  ∧ module_ s' = filter (λ h, h ∉ killed) <$> module_ s
  ∧ trace s' = trace s ++ (EvKillInst <$> killed)
  ∧ next_ptr s' = next_ptr s
  ∧ id_to_def s' = id_to_def s
  ∧ ∀ k, k ≠ id →
         id_to_decoration_insts_ s' !! k = id_to_decoration_insts_ s !! k.

(** ** Cloning direct decorations *)

(** The events of one clone: the copy is added to the module, then its
    uses are analyzed. *)
Definition clone_events (h : InstPtr) : list Event :=
  [EvAddAnnotationInst h; EvAnalyzeUses h].

(** The state [s'] holds, after [s], one copy of each instruction of
    [ds], retargeted to [to], at the next free addresses, at the end of
    the annotations and at the end of the direct decorations of [to]. *)
Definition cloned_onto (to : N) (ds : list InstPtr) (s s' : State) : Prop :=
  let copies := seq (next_ptr s) (length ds) in
  next_ptr s' = next_ptr s + length ds
  ∧ module_ s' = (λ annotations, annotations ++ copies) <$> module_ s
  ∧ id_to_def s' = id_to_def s
  ∧ trace s' = trace s ++ (copies ≫= clone_events)
  ∧ (∀ h : InstPtr, h < next_ptr s ∨ next_ptr s + length ds ≤ h →
                    insts s' !! h = insts s !! h)
  ∧ (∀ j h inst, ds !! j = Some h → insts s !! h = Some inst →
       ∃ inst', SetInOperand inst 0 [to] = Ok inst'
                ∧ insts s' !! (next_ptr s + j : InstPtr) = Some inst')
  ∧ record s' to
    = mkTargetData (direct_decorations (record s to) ++ copies)
        (indirect_decorations (record s to)) (decorate_insts (record s to))
  ∧ ∀ k, k ≠ to →
         id_to_decoration_insts_ s' !! k = id_to_decoration_insts_ s !! k.

(** A direct decoration that can be cloned: live, at an address that was
    handed out, of a direct form and with a target operand. *)
Definition clonable (s : State) (h : InstPtr) : bool :=
  match insts s !! h with
  | Some inst =>
      bool_decide (h < next_ptr s) && is_direct_form (opcode inst)
      && bool_decide (is_Some (in_operands inst !! 0))
  | None => false
  end.

(** ** Cloning through a group *)

(** The words of the operands of [inst] are the one-word operands [G],
    [t1], ..., [tn]. *)
Definition group_apply_words (inst : Instruction) (G : N) (targets : list N)
  : Prop :=
  words <$> in_operands inst = (λ w, [w]) <$> (G :: targets).

(** From [s] to [s'] the context was told [events]; instructions, module
    and definitions are the same. *)
Definition told (events : list Event) (s s' : State) : Prop :=
  insts s' = insts s ∧ next_ptr s' = next_ptr s ∧ module_ s' = module_ s
  ∧ id_to_def s' = id_to_def s ∧ trace s' = trace s ++ events.

(** ** Removing decorations through a group *)

(** The first word of an operand. *)
Definition word_of (op : Operand) : N :=
  match words op with
  | w :: _ => w
  | [] => 0%N
  end.

(** The operand is the one word [k]. *)
Definition is_word (k : N) (op : Operand) : bool :=
  bool_decide (words op = [k]).

(** [OpDecorate %1 LinkageAttributes], [OpDecorate %1 Restrict]. *)
Definition linkage_module : State :=
  module_state
    [decoration SpvOpDecorate 1%N
       (kind_operand SpvDecorationLinkageAttributes) [];
     decoration SpvOpDecorate 1%N (kind_operand 19%N) []]
    ∅.

(** A callback that counts its calls and stops after the first. *)
Definition count_one (inst : Instruction) (n : nat) : bool * nat :=
  (false, S n).

Definition count_all (inst : Instruction) (n : nat) : nat := S n.

Definition never (inst : Instruction) : bool := false.

(** The instructions at [h1] and [h2] are the same decoration, the
    target aside, as [AreDecorationsTheSame] sees it. *)
Definition same_but_target (s : State) (h1 h2 : InstPtr) : Prop :=
  ∃ inst1 inst2,
    insts s !! h1 = Some inst1 ∧ insts s !! h2 = Some inst2
    ∧ AreDecorationsTheSame inst1 inst2 true = Ok true.

(** ** Cloning through an [OpGroupMemberDecorate] *)

(** The operand holds exactly one word. *)
Definition one_word (op : Operand) : Prop := ∃ w, words op = [w].

(** The operands of the pairs (target, literal) of an
    [OpGroupMemberDecorate], in order. *)
Definition member_operands (pairs : list (Operand * Operand))
  : list Operand :=
  pairs ≫= (λ p, [p.1; p.2]).

(** The pairs that the loop of [CloneDecorations] adds: ([to], literal)
    for every pair whose target is [from], in order. *)
Definition member_clones (from to : N) (pairs : list (Operand * Operand))
  : list (Operand * Operand) :=
  (λ p, (id_operand to, p.2)) <$> filter (λ p, word_of p.1 = from) pairs.

(** * Properties *)

(** ** The monads *)

Lemma rbind_Ok {A B} (r : Result A) (k : A → Result B) b :
  rbind r k = Ok b ↔ ∃ a, r = Ok a ∧ k a = Ok b.
Proof.
  destruct r as [a|f]; simpl; split.
  - eauto.
  - by intros (a' & [= ->] & ?).
  - done.
  - by intros (a' & ? & ?).
Qed.

Lemma bindM_Ok {A B} (m : M A) (k : A → M B) s b s' :
  bindM m k s = Ok (b, s') ↔ ∃ a s1, m s = Ok (a, s1) ∧ k a s1 = Ok (b, s').
Proof.
  unfold bindM. destruct (m s) as [[a s1]|f]; split.
  - eauto.
  - by intros (a' & s1' & [= -> ->] & ?).
  - done.
  - by intros (a' & s1' & ? & ?).
Qed.

Lemma lift_Ok {A} (r : Result A) s a s' :
  lift r s = Ok (a, s') ↔ r = Ok a ∧ s' = s.
Proof.
  unfold lift. destruct r; split; try done.
  - by intros [= -> ->].
  - by intros [[= ->] ->].
  - by intros [? ?].
Qed.

Lemma deref_Ok h s inst s' :
  deref h s = Ok (inst, s') ↔ insts s !! h = Some inst ∧ s' = s.
Proof.
  unfold deref. destruct (insts s !! h); split; try done.
  - by intros [= -> ->].
  - by intros [[= ->] ->].
  - by intros [? ?].
Qed.

(** ** Lookup *)

Lemma is_linkage_spec inst b :
  is_linkage inst = Ok b → is_linkage_decorate inst = b.
Proof.
  unfold is_linkage, is_linkage_decorate, GetSingleWordInOperand, GetInOperand.
  destruct (decide (opcode inst = SpvOpDecorate)) as [Hop|Hop].
  - rewrite (bool_decide_eq_true_2 _ Hop). simpl.
    destruct (in_operands inst !! 1) as [op|]; simpl; [|done].
    destruct (words op) as [|w [|w' ws]]; simpl; try done.
    intros [= <-]. apply bool_decide_ext. split; congruence.
  - rewrite (bool_decide_eq_false_2 _ Hop). by intros [= <-].
Qed.

Lemma readable_direct_shown s incl h :
  readable_direct s h = true →
  ∃ inst linkage, read s h = Ok inst ∧ is_linkage inst = Ok linkage
    ∧ shown s incl h = (incl || negb linkage).
Proof.
  unfold readable_direct, shown, read.
  destruct (insts s !! h) as [inst|]; [|done].
  destruct (is_linkage inst) as [b|] eqn:Hb; [|done].
  intros _. exists inst, b. by rewrite (is_linkage_spec _ _ Hb).
Qed.

Lemma process_direct_decorations_spec s incl direct decorations :
  forallb (readable_direct s) direct = true →
  process_direct_decorations s incl direct decorations
  = Ok (decorations ++ filter (λ h, shown s incl h) direct).
Proof.
  unfold process_direct_decorations.
  revert decorations. induction direct as [|h direct IH]; intros acc Hall.
  - simpl. by rewrite app_nil_r.
  - simpl in Hall. apply andb_prop in Hall as [Hh Hall].
    destruct (readable_direct_shown s incl h Hh) as (inst & b & Hr & Hl & Hs).
    simpl. rewrite Hr. simpl. rewrite Hl. simpl.
    rewrite (IH _ Hall). rewrite filter_cons.
    rewrite Hs. destruct (incl || negb b); simpl.
    + by rewrite <- app_assoc.
    + done.
Qed.

Lemma resolvable_group_inv s h :
  resolvable_group s h = true →
  ∃ inst group_id group,
    read s h = Ok inst ∧ GetSingleWordInOperand inst 0 = Ok group_id
    ∧ id_to_decoration_insts_ s !! group_id = Some group
    ∧ group_record s h = Some group
    ∧ forallb (readable_direct s) (direct_decorations group) = true.
Proof.
  unfold resolvable_group.
  destruct (group_record s h) as [group|] eqn:Hg; [|done].
  intros Hall. revert Hg. unfold group_record.
  destruct (insts s !! h) as [inst|] eqn:Hi; [|done]. simpl.
  destruct (in_operands inst !! 0) as [op|] eqn:Hop; [|done]. simpl.
  destruct (words op) as [|w [|w' ws]] eqn:Hw; try done.
  intros Hg. exists inst, w, group.
  unfold read, GetSingleWordInOperand, GetInOperand.
  rewrite Hi, Hop. simpl. by rewrite Hw.
Qed.

(** C5: [decorationsFor(id, includeLinkage)] returns the direct
    decorations of [id] in stored order, followed, for each group-apply
    instruction of the indirect list in order, by the direct decorations
    of the group it names (one level only); a [Decorate] of the
    linkage-attributes kind is left out unless [includeLinkage] is set;
    and an id without record gets the empty sequence, not an error. *)
Theorem C5_decorations_for (s : State) (id : N) (include_linkage : bool) :
  (∀ td, id_to_decoration_insts_ s !! id = Some td →
         well_formed_record s td = true) →
  InternalGetDecorationsFor s id include_linkage
  = Ok (decorationsFor_spec s id include_linkage)
  ∧ (id_to_decoration_insts_ s !! id = None →
     InternalGetDecorationsFor s id include_linkage = Ok []).
Proof.
  intros Hwf. unfold InternalGetDecorationsFor, decorationsFor_spec.
  destruct (id_to_decoration_insts_ s !! id) as [td|]; [|done].
  split; [|done].
  specialize (Hwf td eq_refl). unfold well_formed_record in Hwf.
  apply andb_prop in Hwf as [Hdirect Hindirect].
  rewrite (process_direct_decorations_spec _ _ _ _ Hdirect). simpl.
  generalize (filter (λ h, shown s include_linkage h) (direct_decorations td)).
  induction (indirect_decorations td) as [|h l IH]; intros acc.
  - simpl. by rewrite app_nil_r.
  - simpl in Hindirect. apply andb_prop in Hindirect as [Hh Hl].
    destruct (resolvable_group_inv s h Hh)
      as (inst & g & group & Hr & Hw & Hg & Hrec & Hall).
    simpl. rewrite Hr. simpl. rewrite Hw. simpl. rewrite Hg.
    rewrite (process_direct_decorations_spec _ _ _ _ Hall). simpl.
    rewrite (IH Hl). rewrite Hrec. simpl. by rewrite <- app_assoc.
Qed.

(** C10: two ids without record compare as carrying the same
    decorations. *)
Theorem C10_undecorated_ids_same (s : State) (X Y : N) :
  id_to_decoration_insts_ s !! X = None →
  id_to_decoration_insts_ s !! Y = None →
  HaveTheSameDecorations s X Y = Ok true.
Proof.
  intros HX HY.
  unfold HaveTheSameDecorations, GetDecorationsFor, InternalGetDecorationsFor.
  rewrite HX, HY. reflexivity.
Qed.

(** C9: when [from] has no record, [cloneDecorations(from, to)] does
    nothing: instructions, module, index and the calls received by the
    context are what they were. *)
Theorem C9_clone_without_record (s : State) (from to : N) :
  id_to_decoration_insts_ s !! from = None →
  CloneDecorations from to s = Ok (tt, s).
Proof.
  intros Hfrom. unfold CloneDecorations, bindM, find, gets.
  by rewrite Hfrom.
Qed.

(** ** Equivalence *)

Lemma emplace_payload_content inst1 inst2 sets :
  opcode inst1 = opcode inst2 →
  drop 1 (in_operands inst1) = drop 1 (in_operands inst2) →
  emplace_payload inst1 sets = emplace_payload inst2 sets.
Proof.
  intros Hop Hdrop. unfold emplace_payload, decoration_payload.
  by rewrite Hop, Hdrop.
Qed.

Lemma payloads_of_emplace op inst sets p :
  p ∈ payloads_of op (emplace_payload inst sets)
  ↔ p ∈ payloads_of op sets
    ∨ (is_direct_form op = true ∧ opcode inst = op
       ∧ decoration_payload inst = p).
Proof.
  unfold emplace_payload.
  destruct (decide (is_direct_form op = true ∧ opcode inst = op))
    as [[Hd Ho]|Hn].
  - subst op. destruct (opcode inst); try discriminate Hd; simpl;
      rewrite elem_of_union, elem_of_singleton;
      (split;
       [ intros [->|Hp]; [by right | by left]
       | intros [Hp|(_ & _ & <-)]; [by right | by left] ]).
  - destruct op, (opcode inst); simpl;
      first [ exfalso; by apply Hn
            | split; [ by left
                     | intros [Hp|(Hd & Ho & _)];
                       [ done | exfalso; by apply Hn ] ] ].
Qed.

Lemma fill_payloads s l acc sets op p :
  rfold (λ sets h, inst <- read s h ;; Ok (emplace_payload inst sets)) l acc
  = Ok sets →
  p ∈ payloads_of op sets
  ↔ p ∈ payloads_of op acc
    ∨ ∃ h inst, h ∈ l ∧ insts s !! h = Some inst
                ∧ is_direct_form op = true ∧ opcode inst = op
                ∧ decoration_payload inst = p.
Proof.
  revert acc. induction l as [|h l IH]; intros acc H.
  - injection H as <-. split; [by left|].
    intros [Hp|(h & inst & Hh & _)]; [done|]. by apply elem_of_nil in Hh.
  - simpl in H. unfold read in H.
    destruct (insts s !! h) as [inst|] eqn:Hinst; [|done]. simpl in H.
    rewrite (IH _ H), payloads_of_emplace. split.
    + intros [[Hp|(Hd & Hop & Hpay)]|(h' & inst' & Hh' & Hrest)].
      * by left.
      * right. exists h, inst. split; [by left|done].
      * right. exists h', inst'. split; [by right|done].
    + intros [Hp|(h' & inst' & Hh' & Hi' & Hrest)]; [by left; left|].
      apply elem_of_cons in Hh' as [->|Hh'].
      * left. right. by assert (inst' = inst) as -> by congruence.
      * right. by exists h', inst'.
Qed.

Lemma fill_returns s l acc :
  (∀ h, h ∈ l → is_Some (insts s !! h)) →
  ∃ sets,
    rfold (λ sets h, inst <- read s h ;; Ok (emplace_payload inst sets)) l acc
    = Ok sets.
Proof.
  revert acc. induction l as [|h l IH]; intros acc Hl; [by eexists|].
  destruct (Hl h) as [inst Hinst]; [by left|].
  simpl. unfold read. rewrite Hinst. simpl.
  apply IH. intros h' Hh'. apply Hl. by right.
Qed.

Lemma decoration_payload_content inst1 inst2 :
  drop 1 (in_operands inst1) = drop 1 (in_operands inst2) →
  decoration_payload inst1 = decoration_payload inst2.
Proof. unfold decoration_payload. by intros ->. Qed.

Lemma fill_content_within s l1 l2 sets1 sets2 op :
  content_within s l1 l2 →
  fillDecorationSets s l1 = Ok sets1 →
  fillDecorationSets s l2 = Ok sets2 →
  payloads_of op sets1 ⊆ payloads_of op sets2.
Proof.
  intros Hwithin H1 H2 p Hp. unfold fillDecorationSets in *.
  apply (fill_payloads _ _ _ _ op p H1) in Hp
    as [Hp|(h1 & inst1 & Hh1 & Hi1 & Hd & Hop & Hpay)].
  { by destruct op. }
  destruct (Hwithin h1 Hh1) as (h2 & Hh2 & i1 & i2 & Hi1' & Hi2 & Hop' & Hdrop).
  assert (i1 = inst1) as -> by congruence.
  apply (fill_payloads _ _ _ _ op p H2). right. exists h2, i2.
  repeat split; try done; [congruence|].
  by rewrite <- (decoration_payload_content _ _ Hdrop).
Qed.

Lemma content_within_live_l s l1 l2 h :
  content_within s l1 l2 → h ∈ l1 → is_Some (insts s !! h).
Proof. intros Hw Hh. destruct (Hw h Hh) as (h2 & _ & i1 & i2 & Hi1 & _). eauto. Qed.

Lemma HaveTheSameDecorations_content s X Y lx ly :
  GetDecorationsFor s X false = Ok lx →
  GetDecorationsFor s Y false = Ok ly →
  content_within s lx ly →
  content_within s ly lx →
  HaveTheSameDecorations s X Y = Ok true.
Proof.
  intros HX HY Hxy Hyx. unfold HaveTheSameDecorations.
  rewrite HX, HY. simpl.
  destruct (fill_returns s lx no_DecorationSets) as [sets1 H1].
  { intros h Hh. apply (content_within_live_l s lx ly h Hxy Hh). }
  destruct (fill_returns s ly no_DecorationSets) as [sets2 H2].
  { intros h Hh. apply (content_within_live_l s ly lx h Hyx Hh). }
  fold (fillDecorationSets s lx) in H1. fold (fillDecorationSets s ly) in H2.
  rewrite H1, H2. simpl.
  assert (∀ op, payloads_of op sets1 = payloads_of op sets2) as Heq.
  { intros op. apply set_eq. intros p. split.
    - by apply (fill_content_within s lx ly).
    - by apply (fill_content_within s ly lx). }
  pose proof (Heq SpvOpDecorate) as E1. pose proof (Heq SpvOpDecorateId) as E2.
  pose proof (Heq SpvOpMemberDecorate) as E3.
  pose proof (Heq SpvOpDecorateStringGOOGLE) as E4. simpl in *.
  by rewrite !bool_decide_eq_true_2.
Qed.

Lemma drop_1_insert_0 {A} (l : list A) (x : A) :
  drop 1 (<[0 := x]> l) = drop 1 l.
Proof. by destruct l. Qed.

Lemma SetInOperand_0_inv inst t inst' :
  SetInOperand inst 0 [t] = Ok inst' →
  opcode inst' = opcode inst
  ∧ drop 1 (in_operands inst') = drop 1 (in_operands inst)
  ∧ in_operands inst' !! 1 = in_operands inst !! 1.
Proof.
  unfold SetInOperand, GetInOperand.
  destruct (in_operands inst !! 0) as [op|]; [|done]. simpl.
  intros [= <-]. simpl. rewrite drop_1_insert_0.
  by destruct (in_operands inst).
Qed.

Lemma is_linkage_retarget inst t inst' :
  SetInOperand inst 0 [t] = Ok inst' → is_linkage inst' = is_linkage inst.
Proof.
  intros H. destruct (SetInOperand_0_inv _ _ _ H) as (Hop & _ & H1).
  unfold is_linkage, GetSingleWordInOperand, GetInOperand.
  by rewrite Hop, H1.
Qed.

Lemma rfold_ext {A B} (f g : B → A → Result B) l acc :
  (∀ b a, a ∈ l → f b a = g b a) → rfold f l acc = rfold g l acc.
Proof.
  revert acc. induction l as [|a l IH]; intros acc Hfg; [done|].
  simpl. rewrite Hfg by left.
  destruct (g acc a); [|done]. simpl.
  apply IH. intros b a' Ha'. apply Hfg. by right.
Qed.

Lemma rfold_app {A B} (f : B → A → Result B) l1 l2 acc :
  rfold f (l1 ++ l2) acc = (acc' <- rfold f l1 acc ;; rfold f l2 acc').
Proof.
  revert acc. induction l1 as [|a l1 IH]; intros acc; [done|].
  simpl. destruct (f acc a); [|done]. simpl. apply IH.
Qed.

Section retarget.
Context (s : State) (h : InstPtr) (inst inst' : Instruction) (t : N).
Hypothesis Hh : insts s !! h = Some inst.
Hypothesis Hset : SetInOperand inst 0 [t] = Ok inst'.

Lemma read_retarget_other h' :
  h' ≠ h → read (set_insts <[h := inst']> s) h' = read s h'.
Proof.
  intros Hne. unfold read. simpl. by rewrite lookup_insert_ne.
Qed.

Lemma read_retarget_same :
  read (set_insts <[h := inst']> s) h = Ok inst' ∧ read s h = Ok inst.
Proof.
  unfold read. simpl. by rewrite lookup_insert_eq, Hh.
Qed.

Lemma process_direct_retarget incl direct decorations :
  process_direct_decorations (set_insts <[h := inst']> s) incl direct
    decorations
  = process_direct_decorations s incl direct decorations.
Proof.
  unfold process_direct_decorations. apply rfold_ext.
  intros acc h' _. destruct (decide (h' = h)) as [->|Hne].
  - destruct read_retarget_same as [-> ->]. simpl.
    by rewrite (is_linkage_retarget _ _ _ Hset).
  - by rewrite read_retarget_other.
Qed.

Lemma GetDecorationsFor_retarget id incl :
  (∀ td, id_to_decoration_insts_ s !! id = Some td →
         h ∉ indirect_decorations td) →
  GetDecorationsFor (set_insts <[h := inst']> s) id incl
  = GetDecorationsFor s id incl.
Proof.
  intros Hnot. unfold GetDecorationsFor, InternalGetDecorationsFor.
  replace (id_to_decoration_insts_ (set_insts <[h := inst']> s))
    with (id_to_decoration_insts_ s) by done.
  destruct (id_to_decoration_insts_ s !! id) as [td|]; [|done].
  rewrite process_direct_retarget.
  destruct (process_direct_decorations s incl (direct_decorations td) [])
    as [acc|]; [|done]. simpl.
  apply rfold_ext. intros acc' h' Hin.
  assert (h' ≠ h) as Hne by (intros ->; by eapply Hnot).
  rewrite (read_retarget_other _ Hne).
  destruct (read s h') as [i|]; [|done]. simpl.
  destruct (GetSingleWordInOperand i 0) as [g|]; [|done]. simpl.
  destruct (id_to_decoration_insts_ s !! g); [|done].
  apply process_direct_retarget.
Qed.

Lemma fillDecorationSets_retarget l :
  fillDecorationSets (set_insts <[h := inst']> s) l = fillDecorationSets s l.
Proof.
  unfold fillDecorationSets. apply rfold_ext.
  intros acc h' _. destruct (decide (h' = h)) as [->|Hne].
  - destruct read_retarget_same as [-> ->]. simpl.
    destruct (SetInOperand_0_inv _ _ _ Hset) as (Hop & Hdrop & _).
    by rewrite (emplace_payload_content inst' inst acc Hop Hdrop).
  - by rewrite read_retarget_other.
Qed.

Lemma HaveTheSameDecorations_retarget X Y :
  (∀ id td, id_to_decoration_insts_ s !! id = Some td →
            h ∉ indirect_decorations td) →
  HaveTheSameDecorations (set_insts <[h := inst']> s) X Y
  = HaveTheSameDecorations s X Y.
Proof.
  intros Hnot. unfold HaveTheSameDecorations.
  rewrite !GetDecorationsFor_retarget by eauto.
  destruct (GetDecorationsFor s X false) as [l1|]; [|done]. simpl.
  destruct (GetDecorationsFor s Y false) as [l2|]; [|done]. simpl.
  by rewrite !fillDecorationSets_retarget.
Qed.
End retarget.

Lemma HaveTheSameDecorations_sym s X Y b :
  HaveTheSameDecorations s X Y = Ok b → HaveTheSameDecorations s Y X = Ok b.
Proof.
  unfold HaveTheSameDecorations.
  destruct (GetDecorationsFor s X false) as [l1|]; [|done].
  destruct (GetDecorationsFor s Y false) as [l2|]; [|done]. simpl.
  destruct (fillDecorationSets s l1) as [s1|]; [|done].
  destruct (fillDecorationSets s l2) as [s2|]; [|done]. simpl.
  intros [= <-]. f_equal.
  repeat f_equal; apply bool_decide_ext; split; congruence.
Qed.

(** C8: ids whose decorations have the same content (each decoration of
    one has the opcode and the operands after the target of a decoration
    of the other) have the same decorations; [sameDecorations] is
    symmetric; and rewriting only the target operand of a decoration
    instruction does not change what [sameDecorations] answers. *)
Theorem C8_same_decorations (s : State) (X Y : N) (lx ly : list InstPtr)
    (b : bool) (h : InstPtr) (inst inst' : Instruction) (t : N) :
  (GetDecorationsFor s X false = Ok lx →
   GetDecorationsFor s Y false = Ok ly →
   content_within s lx ly →
   content_within s ly lx →
   HaveTheSameDecorations s X Y = Ok true)
  ∧ (HaveTheSameDecorations s X Y = Ok b →
     HaveTheSameDecorations s Y X = Ok b)
  ∧ (insts s !! h = Some inst →
     is_direct_form (opcode inst) = true →
     (∀ id td, id_to_decoration_insts_ s !! id = Some td →
               h ∉ indirect_decorations td) →
     SetInOperand inst 0 [t] = Ok inst' →
     HaveTheSameDecorations (set_insts <[h := inst']> s) X Y
     = HaveTheSameDecorations s X Y).
Proof.
  split; [|split].
  - apply HaveTheSameDecorations_content.
  - apply HaveTheSameDecorations_sym.
  - intros Hh _ Hnot Hset.
    by apply (HaveTheSameDecorations_retarget s h inst inst' t Hh Hset).
Qed.

(** ** Failed assertions and silent returns *)

Lemma select_live p l s :
  Forall (λ h, is_Some (insts s !! h)) l →
  select p l s = Ok (filter (λ h, holds s p h) l, s).
Proof.
  induction 1 as [|h l [inst Hh] _ IH]; [done|].
  assert (holds s p h = p inst) as Hhold by (unfold holds; by rewrite Hh).
  simpl. unfold bindM, deref. rewrite Hh, IH. unfold ret.
  rewrite filter_cons, Hhold. by destruct (p inst).
Qed.

Lemma InternalGetDecorationsFor_unknown_group s id td incl pre h post
    inst group_id :
  id_to_decoration_insts_ s !! id = Some td →
  forallb (readable_direct s) (direct_decorations td) = true →
  indirect_decorations td = pre ++ h :: post →
  forallb (resolvable_group s) pre = true →
  insts s !! h = Some inst →
  GetSingleWordInOperand inst 0 = Ok group_id →
  id_to_decoration_insts_ s !! group_id = None →
  InternalGetDecorationsFor s id incl = Fail (AssertFail "Unknown group ID").
Proof.
  intros Htd Hdirect Hind Hpre Hh Hw Hg.
  unfold InternalGetDecorationsFor. rewrite Htd.
  rewrite (process_direct_decorations_spec _ _ _ _ Hdirect). simpl.
  rewrite Hind, rfold_app. clear Hind.
  generalize (filter (λ h, shown s incl h) (direct_decorations td)).
  induction pre as [|h' pre IH]; intros acc.
  - simpl. unfold read. rewrite Hh. simpl. rewrite Hw. simpl. by rewrite Hg.
  - simpl in Hpre. apply andb_prop in Hpre as [Hh' Hpre].
    destruct (resolvable_group_inv s h' Hh')
      as (inst' & g' & group' & Hr' & Hw' & Hg' & _ & Hall').
    simpl. rewrite Hr'. simpl. rewrite Hw'. simpl. rewrite Hg'.
    rewrite (process_direct_decorations_spec _ _ _ _ Hall'). simpl.
    apply (IH Hpre).
Qed.

Lemma RemoveDecorationsFrom_unknown_group s id td pred h rest inst group_id :
  id_to_decoration_insts_ s !! id = Some td →
  is_Some (module_ s) →
  Forall (λ h, is_Some (insts s !! h)) (direct_decorations td) →
  indirect_decorations td = h :: rest →
  insts s !! h = Some inst →
  is_group_apply (opcode inst) = true →
  GetSingleWordInOperand inst 0 = Ok group_id →
  id_to_decoration_insts_ s !! group_id = None →
  RemoveDecorationsFrom id pred s
  = Fail (AssertFail "Unknown decoration group").
Proof.
  intros Htd [anns Hm] Hdirect Hind Hh Hop Hw Hg.
  unfold RemoveDecorationsFrom, bindM at 1, find at 1, gets. rewrite Htd.
  unfold bindM at 1, module_context. rewrite Hm.
  unfold bindM at 1. rewrite (select_live _ _ _ Hdirect).
  unfold bindM at 1. rewrite Hind. simpl.
  unfold bindM at 1, remove_from_group.
  unfold bindM at 1, deref. rewrite Hh.
  unfold bindM at 1, assertM. rewrite Hop. unfold ret.
  unfold bindM at 1, lift. rewrite Hw.
  unfold bindM at 1, find, gets. by rewrite Hg.
Qed.

Lemma AreDecorationsTheSame_other_opcode inst1 inst2 ignore_target :
  is_direct_form (opcode inst1) = false →
  AreDecorationsTheSame inst1 inst2 ignore_target = Ok false.
Proof.
  unfold AreDecorationsTheSame. by destruct (opcode inst1).
Qed.

Lemma while_each_unexpected {X} s decoration (f : Instruction → X → bool * X)
    pre h post inst x :
  forallb (visitable s) pre = true →
  (∀ i y, (f i y).1 = true) →
  insts s !! h = Some inst →
  is_direct_form (opcode inst) = false →
  while_each s decoration f (pre ++ h :: post) x
  = Fail (AssertFail "Unexpected decoration instruction").
Proof.
  intros Hpre Hf Hh Hop. revert x.
  induction pre as [|h' pre IH]; intros x.
  - simpl. unfold read. rewrite Hh. simpl.
    by destruct (opcode inst).
  - simpl in Hpre. apply andb_prop in Hpre as [Hh' Hpre].
    unfold visitable in Hh'.
    destruct (insts s !! h') as [inst'|] eqn:Hi'; [|done].
    apply andb_prop in Hh' as [Hd Hk].
    simpl. unfold read. rewrite Hi'. simpl.
    destruct (opcode inst'); try done; simpl in Hk;
      match type of Hk with
      | context [GetSingleWordInOperand ?i ?n] =>
          destruct (GetSingleWordInOperand i n) as [w|]; [|done]
      end; simpl;
      (destruct (bool_decide (w = decoration)); [|by apply IH]);
      specialize (Hf inst' x); destruct (f inst' x) as [go_on x'];
      simpl in Hf; subst go_on; by apply IH.
Qed.

Lemma RemoveDecoration_other_opcode s h inst :
  insts s !! h = Some inst →
  IsDecoration inst = false →
  RemoveDecoration h s = Ok (tt, s).
Proof.
  intros Hh Hop. unfold RemoveDecoration, bindM, deref. rewrite Hh.
  unfold IsDecoration in Hop. by destruct (opcode inst).
Qed.

(** C6, as the code has it: a group-apply instruction that names a group
    without record makes [decorationsFor] and [removeDecorationsFrom] fail
    an assertion; [forEachDecoration] and its early-exit variant fail an
    assertion on an instruction that is not one of the four direct forms;
    but [sameDecoration] answers false for an opcode outside the four
    direct forms, and [unindex] returns with the index untouched for an
    opcode outside the six forms. *)
Theorem C6_assertions (s : State) (id group_id : N) (td : TargetData)
    (incl ignore_target : bool) (pred : Instruction → bool)
    (pre post : list InstPtr) (h : InstPtr) (inst inst2 : Instruction)
    (X : Type) (decoration : N) (f : Instruction → X → bool * X)
    (g : Instruction → X → X) (x : X) :
  (id_to_decoration_insts_ s !! id = Some td →
   forallb (readable_direct s) (direct_decorations td) = true →
   indirect_decorations td = pre ++ h :: post →
   forallb (resolvable_group s) pre = true →
   insts s !! h = Some inst →
   GetSingleWordInOperand inst 0 = Ok group_id →
   id_to_decoration_insts_ s !! group_id = None →
   aborts (InternalGetDecorationsFor s id incl))
  ∧ (id_to_decoration_insts_ s !! id = Some td →
     is_Some (module_ s) →
     Forall (λ h, is_Some (insts s !! h)) (direct_decorations td) →
     indirect_decorations td = h :: post →
     insts s !! h = Some inst →
     is_group_apply (opcode inst) = true →
     GetSingleWordInOperand inst 0 = Ok group_id →
     id_to_decoration_insts_ s !! group_id = None →
     aborts (RemoveDecorationsFrom id pred s))
  ∧ (is_direct_form (opcode inst) = false →
     AreDecorationsTheSame inst inst2 ignore_target = Ok false)
  ∧ (GetDecorationsFor s id true = Ok (pre ++ h :: post) →
     forallb (visitable s) pre = true →
     (∀ i y, (f i y).1 = true) →
     insts s !! h = Some inst →
     is_direct_form (opcode inst) = false →
     aborts (WhileEachDecoration s id decoration f x)
     ∧ aborts (ForEachDecoration s id decoration g x))
  ∧ (insts s !! h = Some inst →
     IsDecoration inst = false →
     RemoveDecoration h s = Ok (tt, s)).
Proof.
  split; [|split; [|split; [|split]]].
  - intros. eexists. by eapply InternalGetDecorationsFor_unknown_group.
  - intros. eexists. by eapply RemoveDecorationsFrom_unknown_group.
  - apply AreDecorationsTheSame_other_opcode.
  - intros Hl Hpre Hf Hh Hop. split; eexists.
    + unfold WhileEachDecoration.
      rewrite Hl. simpl. by eapply while_each_unexpected.
    + unfold ForEachDecoration, WhileEachDecoration.
      rewrite Hl. simpl. by erewrite while_each_unexpected.
  - apply RemoveDecoration_other_opcode.
Qed.

(** ** Running the code on a module *)

Lemma eval_bind {A B} (m : M A) (k : A → M B) s a s1 r :
  m s = Ok (a, s1) → k a s1 = r → bindM m k s = r.
Proof. intros Hm Hk. unfold bindM. by rewrite Hm. Qed.

Lemma IsDecoration_direct inst :
  is_direct_form (opcode inst) = true → IsDecoration inst = true.
Proof. unfold IsDecoration. by destruct (opcode inst). Qed.

Lemma eval_AddDecoration_direct h inst s r :
  insts s !! h = Some inst →
  is_direct_form (opcode inst) = true →
  (target_id <~ lift (GetSingleWordInOperand inst 0) ;;
   at_id target_id (push_direct h)) s = r →
  AddDecoration h s = r.
Proof.
  intros Hh Hop <-. unfold AddDecoration, bindM at 1, deref. rewrite Hh.
  by destruct (opcode inst).
Qed.

Lemma eval_RemoveDecoration_direct h inst s r :
  insts s !! h = Some inst →
  is_direct_form (opcode inst) = true →
  (target_id <~ lift (GetSingleWordInOperand inst 0) ;;
   at_found target_id (remove_direct h)) s = r →
  RemoveDecoration h s = r.
Proof.
  intros Hh Hop <-. unfold RemoveDecoration, bindM at 1, deref. rewrite Hh.
  by destruct (opcode inst).
Qed.

Arguments bindM : simpl never.
Arguments deref : simpl never.
Arguments AddDecoration : simpl never.
Arguments RemoveDecoration : simpl never.
Arguments forM_ : simpl nomatch.
Arguments foldM : simpl nomatch.
Arguments select : simpl nomatch.
Arguments remove_target_loop : simpl nomatch.

Ltac lookups :=
  repeat first
    [ rewrite lookup_insert_eq
    | rewrite lookup_insert_ne by (done || congruence)
    | rewrite lookup_delete_eq
    | rewrite lookup_delete_ne by (done || congruence)
    | rewrite lookup_singleton_eq
    | rewrite lookup_singleton_ne by (done || congruence)
    | rewrite lookup_empty ].

Ltac closed_bool :=
  match goal with
  | |- context [if ?b then _ else _] =>
      is_closed_term b;
      lazymatch b with true => fail | false => fail | _ => idtac end;
      let v := eval vm_compute in b in
      first [ change b with v | replace b with v by (vm_compute; reflexivity) ]
  end.

Ltac decide_step :=
  match goal with
  | H : ?p ?x = true |- context [?p ?x] => rewrite H
  | H : ?p ?x = false |- context [?p ?x] => rewrite H
  | |- context [IsDecoration ?i] =>
      rewrite (IsDecoration_direct i) by (simpl; assumption)
  | |- context [bool_decide ?P] =>
      first [ rewrite (bool_decide_eq_true_2 P) by (done || congruence)
            | rewrite (bool_decide_eq_false_2 P)
                by (done || congruence || (intros ?; congruence)) ]
  | |- context [decide ?P] =>
      first [ rewrite (decide_True (P:=P)) by (done || congruence)
            | rewrite (decide_False (P:=P)) by (done || congruence) ]
  end.

(** Runs a monadic program on a state given by explicit maps, one bind at
    a time. *)
Ltac mrun :=
  cbv beta;
  lazymatch goal with
  | |- bindM _ _ _ = _ => eapply eval_bind; [ solve [mrun] | mrun ]
  | |- ret _ _ = _ => reflexivity
  | |- Ok _ = _ => reflexivity
  | |- deref _ _ = _ => unfold deref; simpl; lookups; reflexivity
  | |- find _ _ = _ => reflexivity
  | |- gets _ _ = _ => reflexivity
  | |- modify _ _ = _ => reflexivity
  | |- at_id _ _ _ = _ => reflexivity
  | |- log _ _ = _ => reflexivity
  | |- lift _ _ = _ => unfold lift; simpl; reflexivity
  | |- module_context _ = _ => unfold module_context; simpl; reflexivity
  | |- assertM _ _ _ = _ => unfold assertM; simpl; reflexivity
  | |- AddAnnotationInst _ _ = _ =>
      unfold AddAnnotationInst; simpl; reflexivity
  | |- at_found _ _ _ = _ => unfold at_found; mrun
  | |- AddDecoration _ _ = _ =>
      first [ eapply eval_AddDecoration_direct;
              [ solve [simpl; lookups; reflexivity]
              | solve [simpl; assumption] | ]
            | unfold AddDecoration ];
      mrun
  | |- RemoveDecoration _ _ = _ =>
      first [ eapply eval_RemoveDecoration_direct;
              [ solve [simpl; lookups; reflexivity]
              | solve [simpl; assumption] | ]
            | unfold RemoveDecoration ];
      mrun
  | |- ForgetUses _ _ = _ => unfold ForgetUses; mrun
  | |- AnalyzeUses _ _ = _ => unfold AnalyzeUses; mrun
  | |- AnalyzeDecorations _ = _ => unfold AnalyzeDecorations; mrun
  | |- KillInst _ _ = _ => unfold KillInst; mrun
  | |- KillDef _ _ = _ => unfold KillDef; mrun
  | |- clone_onto _ _ _ = _ => unfold clone_onto; mrun
  | |- clone_through_group _ _ _ _ = _ => unfold clone_through_group; mrun
  | |- mutate _ _ _ = _ => unfold mutate; mrun
  | |- remove_target _ _ _ _ = _ => unfold remove_target; mrun
  | |- remove_from_group _ _ _ _ _ = _ => unfold remove_from_group; mrun
  | |- RemoveDecorationsFrom _ _ _ = _ => unfold RemoveDecorationsFrom; mrun
  | |- CloneDecorations _ _ _ = _ => unfold CloneDecorations; mrun
  | |- _ =>
      first [ progress (simpl; lookups) | decide_step | closed_bool ]; mrun
  end.

(** Checks facts about the state that a run ended in. *)
Ltac mcheck :=
  simpl; lookups; repeat split;
  first [ reflexivity | vm_compute; reflexivity ].

(** ** Removal from a group *)

(** C4, as the code has it: for a group [G] with one decoration that is
    applied only to [A], [removeDecorationsFrom(A, alwaysTrue)] deletes
    the group-apply instruction and the record of [A]; the instruction
    that defines [G], the decoration of [G] and the record of [G] stay.
    The definition of the group is deleted when the id passed is the
    group itself. *)
Theorem C4_group_emptying (G A : N) (op : SpvOp) (kind : Operand)
    (payload : list Operand) :
  G ≠ A →
  is_direct_form op = true →
  let d := decoration op G kind payload in
  let s := module_state [d; decoration_group; group_decorate G [A]]
             {[G := 1]} in
  (∃ s',
     (AnalyzeDecorations ;;; RemoveDecorationsFrom A always_true) s
     = Ok (tt, s')
     ∧ insts s' !! 2 = None
     ∧ module_ s' = Some [0; 1]
     ∧ id_to_decoration_insts_ s' !! A = None
     ∧ insts s' !! 1 = Some decoration_group
     ∧ insts s' !! 0 = Some d
     ∧ id_to_decoration_insts_ s' !! G = Some (mkTargetData [0] [] []))
  ∧ (∃ s',
       (AnalyzeDecorations ;;; RemoveDecorationsFrom G always_true) s
       = Ok (tt, s')
       ∧ insts s' !! 0 = None ∧ insts s' !! 1 = None ∧ insts s' !! 2 = None
       ∧ module_ s' = Some []
       ∧ id_to_decoration_insts_ s' !! G = None).
Proof.
  intros Hne Hop d s. subst d s. unfold module_state, always_true.
  split; eexists; (split; [mrun | mcheck]).
Qed.

Lemma same_operands_retarget inst opc op l :
  Forall (λ i, 1 ≤ i < length (in_operands inst)) l →
  same_operands inst (mkInstruction opc (<[0 := op]> (in_operands inst))) l
  = Ok true.
Proof.
  induction 1 as [|i l Hi _ IH]; [done|].
  simpl. unfold GetInOperand. simpl.
  rewrite list_lookup_insert_ne by lia.
  destruct (lookup_lt_is_Some_2 (in_operands inst) i) as [o Ho]; [lia|].
  rewrite Ho. simpl.
  by rewrite (bool_decide_eq_false_2 (o ≠ o)) by tauto.
Qed.

Lemma AreDecorationsTheSame_retarget inst t inst' :
  is_direct_form (opcode inst) = true →
  SetInOperand inst 0 [t] = Ok inst' →
  AreDecorationsTheSame inst inst' true = Ok true.
Proof.
  intros Hop Hset. unfold SetInOperand, GetInOperand in Hset.
  destruct (in_operands inst !! 0) as [op|] eqn:H0; [|done].
  simpl in Hset. injection Hset as <-.
  unfold AreDecorationsTheSame, NumInOperands. simpl.
  rewrite length_insert.
  rewrite (bool_decide_eq_false_2 (opcode inst ≠ opcode inst)) by tauto.
  rewrite (bool_decide_eq_false_2 (length _ ≠ length _)) by tauto.
  destruct (opcode inst); try discriminate Hop; simpl;
    (apply same_operands_retarget; apply Forall_forall; intros i Hi;
     apply list_elem_of_In, in_seq in Hi; lia).
Qed.

Lemma is_linkage_single_word inst ty k :
  in_operands inst !! 1 = Some (mkOperand ty [k]) →
  is_linkage inst = Ok (is_linkage_decorate inst).
Proof.
  intros H1. unfold is_linkage, is_linkage_decorate, GetSingleWordInOperand,
    GetInOperand.
  rewrite H1. simpl. destruct (decide (opcode inst = SpvOpDecorate)) as [Hop|Hop].
  - rewrite (bool_decide_eq_true_2 _ Hop). simpl. f_equal.
    apply bool_decide_ext. split; congruence.
  - by rewrite (bool_decide_eq_false_2 _ Hop).
Qed.

(** Evaluates the read-only code on a state given by explicit maps. *)
Ltac rrun :=
  repeat first
    [ progress (simpl; lookups)
    | erewrite is_linkage_single_word by reflexivity
    | progress unfold GetDecorationsFor, InternalGetDecorationsFor,
        process_direct_decorations, read
    | match goal with
      | |- context [direct_decorations ?td] =>
          is_closed_term td;
          let v := eval vm_compute in (direct_decorations td) in
          progress change (direct_decorations td) with v
      | |- context [indirect_decorations ?td] =>
          is_closed_term td;
          let v := eval vm_compute in (indirect_decorations td) in
          progress change (indirect_decorations td) with v
      end ].

(** C1: a group [G] with the decorations [d1] (kept by the predicate)
    and [d2] (dropped by it) is applied by one [OpGroupDecorate] to [A]
    and [B].  After [removeDecorationsFrom(A, predicate)] the decorations
    of [A] are a clone of [d1] that targets [A] directly, [A] is no
    longer an operand of the group-apply instruction, and [B] still gets
    [d1] and [d2] through the group. *)
Theorem C1_partial_removal (G A B : N) (op1 op2 : SpvOp)
    (ty1 ty2 : spv_operand_type_t) (k1 k2 : N)
    (payload1 payload2 : list Operand) (pred : Instruction → bool)
    (targets : list N) :
  G ≠ A → G ≠ B → A ≠ B →
  is_direct_form op1 = true → is_direct_form op2 = true →
  let d1 := decoration op1 G (mkOperand ty1 [k1]) payload1 in
  let d2 := decoration op2 G (mkOperand ty2 [k2]) payload2 in
  let clone := decoration op1 A (mkOperand ty1 [k1]) payload1 in
  pred d1 = false → pred d2 = true →
  targets = [A; B] ∨ targets = [B; A] →
  ∃ s',
    (AnalyzeDecorations ;;; RemoveDecorationsFrom A pred)
      (module_state [d1; d2; decoration_group; group_decorate G targets]
         {[G := 2]})
    = Ok (tt, s')
    ∧ GetDecorationsFor s' A true = Ok [4]
    ∧ id_to_decoration_insts_ s' !! A = Some (mkTargetData [4] [] [])
    ∧ insts s' !! 4 = Some clone
    ∧ AreDecorationsTheSame d1 clone true = Ok true
    ∧ insts s' !! 3 = Some (group_decorate G [B])
    ∧ GetDecorationsFor s' B true = Ok [0; 1]
    ∧ id_to_decoration_insts_ s' !! B = Some (mkTargetData [] [3] [])
    ∧ insts s' !! 0 = Some d1
    ∧ insts s' !! 1 = Some d2.
Proof.
  intros HGA HGB HAB Hop1 Hop2 d1 d2 clone Hp1 Hp2 Htargets.
  assert (AreDecorationsTheSame d1 clone true = Ok true) as Hsame.
  { apply (AreDecorationsTheSame_retarget d1 A); [done|].
    subst d1 clone. unfold SetInOperand, decoration. reflexivity. }
  subst d1 d2 clone. unfold module_state.
  destruct Htargets as [-> | ->];
    (eexists; split; [mrun|]);
    (split; [rrun; reflexivity|]);
    (split; [mcheck|]); (split; [mcheck|]); (split; [exact Hsame|]);
    (split; [mcheck|]); (split; [rrun; reflexivity|]); mcheck.
Qed.

(** ** What the context is told *)

Lemma silent_ret {A} (a : A) : silent (ret a).
Proof. by intros s a' s' [= _ <-]. Qed.

Lemma silent_bind {A B} (m : M A) (k : A → M B) :
  silent m → (∀ a, silent (k a)) → silent (bindM m k).
Proof.
  intros Hm Hk s b s' H. apply bindM_Ok in H as (a & s1 & H1 & H2).
  rewrite (Hk _ _ _ _ H2). by eapply Hm.
Qed.

Lemma silent_failM {A} f : silent (@failM A f).
Proof. by intros s a s' H. Qed.

Lemma silent_lift {A} (r : Result A) : silent (lift r).
Proof. intros s a s' H. apply lift_Ok in H as [_ ->]. done. Qed.

Lemma silent_deref h : silent (deref h).
Proof. intros s a s' H. apply deref_Ok in H as [_ ->]. done. Qed.

Lemma silent_gets {A} (f : State → A) : silent (gets f).
Proof. by intros s a s' [= _ <-]. Qed.

Lemma silent_find id : silent (find id).
Proof. apply silent_gets. Qed.

Lemma silent_set_index f : silent (modify (set_index f)).
Proof. by intros s a s' [= _ <-]. Qed.

Lemma silent_set_insts f : silent (modify (set_insts f)).
Proof. by intros s a s' [= _ <-]. Qed.

Lemma silent_set_module f : silent (modify (set_module f)).
Proof. by intros s a s' [= _ <-]. Qed.

Lemma silent_module_context : silent module_context.
Proof.
  intros s a s'. unfold module_context.
  destruct (module_ s); [|done]. by intros [= _ <-].
Qed.

Lemma silent_assertM b msg : silent (assertM b msg).
Proof. destruct b; [apply silent_ret | apply silent_failM]. Qed.

Lemma silent_forM_ {A} (l : list A) (body : A → M unit) :
  (∀ x, silent (body x)) → silent (forM_ l body).
Proof.
  intros Hbody. induction l as [|x l IH]; [apply silent_ret|].
  apply silent_bind; [apply Hbody | intros _; apply IH].
Qed.

Lemma silent_at_id id f : silent (at_id id f).
Proof. apply silent_set_index. Qed.

Lemma silent_at_found id f : silent (at_found id f).
Proof.
  apply silent_bind; [apply silent_find|]. intros [td|].
  - apply silent_set_index.
  - apply silent_ret.
Qed.

Ltac silent_step :=
  first
    [ apply silent_ret | apply silent_failM | apply silent_lift
    | apply silent_deref | apply silent_find | apply silent_gets
    | apply silent_set_index | apply silent_set_insts
    | apply silent_set_module | apply silent_module_context
    | apply silent_assertM | apply silent_at_id | apply silent_at_found
    | apply silent_bind; [|intros ?]
    | apply silent_forM_; intros ?
    | match goal with
      | |- silent (match ?x with _ => _ end) => destruct x
      end ].

Lemma silent_AddDecoration h : silent (AddDecoration h).
Proof. unfold AddDecoration. repeat silent_step. Qed.

Lemma silent_RemoveDecoration h : silent (RemoveDecoration h).
Proof. unfold RemoveDecoration. repeat silent_step. Qed.

Lemma silent_select p l : silent (select p l).
Proof.
  induction l as [|h l IH]; [apply silent_ret|].
  simpl. repeat silent_step. apply IH.
Qed.

Lemma log_trace e s a s' :
  log e s = Ok (a, s') → trace s' = trace s ++ [e].
Proof. by intros [= _ <-]. Qed.

Lemma tells_log_then {A} e (m : M A) :
  silent m → tells (log e ;;; m) (λ _, e).
Proof.
  intros Hm s a s' H. apply bindM_Ok in H as ([] & s1 & H1 & H2).
  rewrite (Hm _ _ _ H2). by eapply log_trace.
Qed.

Lemma tells_ForgetUses h : tells (ForgetUses h) (λ _, EvForgetUses h).
Proof.
  apply tells_log_then. repeat silent_step.
Qed.

Lemma tells_AnalyzeUses h : tells (AnalyzeUses h) (λ _, EvAnalyzeUses h).
Proof.
  apply tells_log_then. repeat silent_step.
Qed.

Lemma tells_KillInst h : tells (KillInst h) (λ _, EvKillInst h).
Proof.
  apply tells_log_then. repeat silent_step.
Qed.

Lemma tells_mutate h f : tells (mutate h f) (λ _, EvOperandWrite h).
Proof.
  intros s a s' H. unfold mutate in H.
  apply bindM_Ok in H as (inst & s1 & H1 & H).
  apply bindM_Ok in H as (inst' & s2 & H2 & H).
  apply bindM_Ok in H as ([] & s3 & H3 & H).
  apply log_trace in H. rewrite H.
  rewrite (silent_set_insts _ _ _ _ H3), (silent_lift _ _ _ _ H2).
  by rewrite (silent_deref _ _ _ _ H1).
Qed.

Lemma tells_AddAnnotationInst inst :
  tells (AddAnnotationInst inst) EvAddAnnotationInst.
Proof.
  intros s a s'. unfold AddAnnotationInst.
  destruct (module_ s); [|done]. by intros [= <- <-].
Qed.

Section steps.
Context {St : Type} (step : St → Event → option St).

Lemma run_from_app st t1 t2 st1 :
  run_from step st t1 = Some st1 →
  run_from step st (t1 ++ t2) = run_from step st1 t2.
Proof.
  revert st. induction t1 as [|e t1 IH]; intros st; simpl.
  - by intros [= ->].
  - destruct (step st e); [apply IH | done].
Qed.

Lemma steps_weaken {A} (m : M A) st (Q Q' : A → St → Prop) :
  steps_to step m st Q → (∀ a st', Q a st' → Q' a st') →
  steps_to step m st Q'.
Proof.
  intros Hm HQ s a s' H.
  destruct (Hm _ _ _ H) as (tr & st' & ? & ? & ?). eauto 6.
Qed.

Lemma steps_silent {A} (m : M A) st (Q : A → St → Prop) :
  silent m → (∀ a, Q a st) → steps_to step m st Q.
Proof.
  intros Hm HQ s a s' H. exists [], st.
  rewrite app_nil_r. split; [by eapply Hm | done].
Qed.

Lemma steps_ret {A} (a : A) st (Q : A → St → Prop) :
  Q a st → steps_to step (ret a) st Q.
Proof.
  intros HQ s a' s' [= <- <-]. exists [], st. by rewrite app_nil_r.
Qed.

Lemma steps_bind {A B} (m : M A) (k : A → M B) st
    (Q1 : A → St → Prop) (Q2 : B → St → Prop) :
  steps_to step m st Q1 →
  (∀ a st1, Q1 a st1 → steps_to step (k a) st1 Q2) →
  steps_to step (bindM m k) st Q2.
Proof.
  intros Hm Hk s b s' H. apply bindM_Ok in H as (a & s1 & H1 & H2).
  destruct (Hm _ _ _ H1) as (t1 & st1 & Ht1 & Hr1 & HQ1).
  destruct (Hk _ _ HQ1 _ _ _ H2) as (t2 & st2 & Ht2 & Hr2 & HQ2).
  exists (t1 ++ t2), st2. split; [|split; [|done]].
  - by rewrite Ht2, Ht1, app_assoc.
  - by rewrite (run_from_app _ _ _ _ Hr1).
Qed.

Lemma steps_tells {A} (m : M A) e st (Q : A → St → Prop) :
  tells m e →
  (∀ a, ∃ st', step st (e a) = Some st' ∧ Q a st') →
  steps_to step m st Q.
Proof.
  intros Hm HQ s a s' H. destruct (HQ a) as (st' & Hstep & Hq).
  exists [e a], st'. split; [by eapply Hm|]. simpl. by rewrite Hstep.
Qed.

Lemma steps_failM {A} f st (Q : A → St → Prop) :
  steps_to step (failM f) st Q.
Proof. by intros s a s' H. Qed.

Lemma steps_forM_ {A} (l : list A) (body : A → M unit) (I : St → Prop) st :
  (∀ x st, I st → steps_to step (body x) st (λ _, I)) →
  I st → steps_to step (forM_ l body) st (λ _, I).
Proof.
  intros Hbody. revert st. induction l as [|x l IH]; intros st HI.
  - apply steps_silent; [apply silent_ret | done].
  - simpl. eapply steps_bind; [by apply Hbody|].
    intros [] st1 HI1. by apply IH.
Qed.

Lemma steps_foldM {A B} (l : list A) (body : B → A → M B) (I : St → Prop)
    st acc :
  (∀ acc x st, I st → steps_to step (body acc x) st (λ _, I)) →
  I st → steps_to step (foldM body l acc) st (λ _, I).
Proof.
  intros Hbody. revert st acc. induction l as [|x l IH]; intros st acc HI.
  - apply steps_silent; [apply silent_ret | done].
  - simpl. eapply steps_bind; [by apply Hbody|].
    intros acc1 st1 HI1. by apply IH.
Qed.

End steps.

(** Steps over a silent program or over a program that tells one event,
    and goes on with the rest of a bind. *)
Ltac steps_over Q' :=
  eapply steps_bind with (Q1 := Q');
  [ first
      [ apply steps_silent; [solve [repeat silent_step] | done]
      | eapply steps_tells;
        [ first [ apply tells_ForgetUses | apply tells_AnalyzeUses
                | apply tells_KillInst | apply tells_mutate
                | apply tells_AddAnnotationInst ]
        | intros ?; simpl; rewrite ?decide_True by done; eauto ] ]
  | ].

Lemma clone_onto_bracket id h :
  steps_to bracket_step (clone_onto id h) Idle (λ _ st, st = Idle).
Proof.
  unfold clone_onto.
  steps_over (λ (_ : Instruction) st, st = Idle). intros inst ? ->.
  steps_over (λ (_ : Instruction) st, st = Idle). intros new_inst ? ->.
  steps_over (λ (_ : InstPtr) st, st = Idle). intros n ? ->.
  eapply steps_tells; [apply tells_AnalyzeUses | by eexists].
Qed.

Lemma CloneDecorations_bracket from to :
  steps_to bracket_step (CloneDecorations from to) Idle (λ _ st, st = Idle).
Proof.
  unfold CloneDecorations.
  steps_over (λ (_ : option TargetData) st, st = Idle).
  intros [td|] ? ->; [|by apply steps_silent; [apply silent_ret|]].
  steps_over (λ (_ : unit) st, st = Idle). intros [] ? ->.
  eapply steps_bind.
  { apply steps_forM_ with (I := λ st, st = Idle); [|done].
    intros h ? ->. apply clone_onto_bracket. }
  intros [] ? ->.
  steps_over (λ (_ : option TargetData) st, st = Idle). intros current ? ->.
  apply steps_forM_ with (I := λ st, st = Idle); [|done].
  intros h ? ->. unfold clone_through_group.
  steps_over (λ (_ : Instruction) st, st = Idle). intros inst ? ->.
  destruct (opcode inst); try apply steps_failM.
  - (* OpGroupDecorate *)
    steps_over (λ (_ : unit) st, st = Open h). intros [] ? ->.
    steps_over (λ (_ : unit) st, st = Open h). intros [] ? ->.
    eapply steps_tells; [apply tells_AnalyzeUses|].
    intros []. simpl. rewrite decide_True by done. eauto.
  - (* OpGroupMemberDecorate *)
    steps_over (λ (_ : unit) st, st = Open h). intros [] ? ->.
    steps_over (λ (_ : Instruction) st, st = Open h). intros inst' ? ->.
    eapply steps_bind.
    { apply steps_forM_ with (I := λ st, st = Open h); [|done].
      intros i ? ->.
      steps_over (λ (_ : Instruction) st, st = Open h). intros inst1 ? ->.
      steps_over (λ (_ : Operand) st, st = Open h). intros op ? ->.
      destruct (words op) as [|w ws]; [apply steps_failM|].
      destruct (bool_decide (w = from));
        [|by apply steps_silent; [apply silent_ret|]].
      steps_over (λ (_ : unit) st, st = Open h). intros [] ? ->.
      steps_over (λ (_ : Instruction) st, st = Open h). intros inst2 ? ->.
      steps_over (λ (_ : Operand) st, st = Open h). intros op2 ? ->.
      eapply steps_tells; [apply tells_mutate|].
      intros []. simpl. rewrite decide_True by done. eauto. }
    intros [] ? ->.
    eapply steps_tells; [apply tells_AnalyzeUses|].
    intros []. simpl. rewrite decide_True by done. eauto.
Qed.

Lemma steps_foldM_with {St A B} (step : St → Event → option St)
    (l : list A) (body : B → A → M B) (I : B → St → Prop) st acc :
  (∀ acc x st, I acc st → steps_to step (body acc x) st I) →
  I acc st → steps_to step (foldM body l acc) st I.
Proof.
  intros Hbody. revert st acc. induction l as [|x l IH]; intros st acc HI.
  - by apply steps_ret.
  - simpl. eapply steps_bind; [by apply Hbody|].
    intros acc1 st1 HI1. by apply IH.
Qed.

Lemma awaiting_mono kill kill' st :
  (∀ x, x ∈ kill → x ∈ kill') → awaiting kill st → awaiting kill' st.
Proof. intros Hsub [Hphase Hpending]. split; [done|]. auto. Qed.

Lemma awaiting_nil st : awaiting [] st → st = settled.
Proof.
  intros [Hphase Hpending]. unfold settled.
  destruct st as [[|h|h] owed]; simpl in *.
  - destruct owed as [|x owed]; [done|].
    specialize (Hpending x (list_elem_of_here _ _)). by inversion Hpending.
  - specialize (Hpending h (list_elem_of_here _ _)). by inversion Hpending.
  - by destruct (Hphase h).
Qed.

Lemma notify_write kill h st :
  awaiting kill st ∨ editing kill h st →
  ∃ st', notify_step st (EvOperandWrite h) = Some st' ∧ editing kill h st'.
Proof.
  destruct st as [[|h0|h0] owed]; unfold awaiting, editing; simpl.
  - intros [[_ Hp]|[[=] _]]. by eexists.
  - intros Hst. eexists. split; [done|]. split; [done|]. simpl.
    destruct (decide (h = h0)) as [->|Hne].
    + destruct Hst as [[_ Hp]|[_ Hp]]; [|done].
      intros x Hx. apply Hp. by right.
    + destruct Hst as [[_ Hp]|[[=] _]]; [done|congruence].
  - intros [[Hphase _]|[[=] _]]. by destruct (Hphase h0).
Qed.

Lemma notify_other kill st e :
  awaiting kill st →
  (∃ h, e = EvAddAnnotationInst h) ∨ (∃ h, e = EvAnalyzeUses h) →
  ∃ st', notify_step st e = Some st' ∧ awaiting kill st'.
Proof.
  intros [Hphase Hp] He. exists (Quiet, pending st). split.
  - destruct st as [[|h0|h0] owed]; simpl in *.
    + by destruct He as [[h ->]|[h ->]].
    + by destruct He as [[h ->]|[h ->]].
    + by destruct (Hphase h0).
  - by split.
Qed.

Lemma notify_kill k l st :
  awaiting (k :: l) st →
  ∃ st', notify_step st (EvKillInst k) = Some st' ∧ awaiting l st'.
Proof.
  intros [Hphase Hp]. exists (Quiet, filter (λ x, x ≠ k) (pending st)).
  split.
  - destruct st as [[|h0|h0] owed]; simpl in *; [done|done|].
    by destruct (Hphase h0).
  - split; [done|]. unfold pending. simpl.
    intros x [Hne Hx]%list_elem_of_filter.
    specialize (Hp x Hx). apply elem_of_cons in Hp as [->|Hp]; done.
Qed.

Lemma notify_report kill h st :
  editing kill h st →
  ∃ st1 st2, notify_step st (EvForgetUses h) = Some st1
             ∧ notify_step st1 (EvAnalyzeUses h) = Some st2
             ∧ awaiting kill st2.
Proof.
  destruct st as [phase owed]. intros [Hphase Hp]. simpl in *. subst phase.
  exists (Forgotten h, owed), (Quiet, owed). unfold notify_step. simpl.
  rewrite !decide_True by done. by repeat split.
Qed.

Lemma steps_mutate_notify kill h f st :
  awaiting kill st ∨ editing kill h st →
  steps_to notify_step (mutate h f) st (λ _ st', editing kill h st').
Proof.
  intros Hst. eapply steps_tells; [apply tells_mutate|].
  intros []. by apply notify_write.
Qed.

Lemma steps_KillInst_notify k l st :
  awaiting (k :: l) st →
  steps_to notify_step (KillInst k) st (λ _ st', awaiting l st').
Proof.
  intros Hst. eapply steps_tells; [apply tells_KillInst|].
  intros []. by apply notify_kill.
Qed.

Lemma steps_KillInst_settled k :
  steps_to notify_step (KillInst k) settled (λ _ st', st' = settled).
Proof.
  eapply steps_tells; [apply tells_KillInst|]. intros []. by eexists.
Qed.

Lemma kill_loop_notify l st :
  awaiting l st →
  steps_to notify_step (forM_ l KillInst) st (λ _ st', st' = settled).
Proof.
  revert st. induction l as [|k l IH]; intros st Hst.
  - apply steps_ret. by apply awaiting_nil.
  - simpl. eapply steps_bind; [by apply steps_KillInst_notify|].
    intros [] st1 Hst1. by apply IH.
Qed.

Lemma clone_onto_notify kill id h st :
  awaiting kill st →
  steps_to notify_step (clone_onto id h) st (λ _ st', awaiting kill st').
Proof.
  intros Hst. unfold clone_onto.
  steps_over (λ (_ : Instruction) st', st' = st). intros inst ? ->.
  steps_over (λ (_ : Instruction) st', st' = st). intros new_inst ? ->.
  eapply steps_bind with (Q1 := λ _ st', awaiting kill st').
  { eapply steps_tells; [apply tells_AddAnnotationInst|].
    intros n. apply notify_other; [done|]. left. by eexists. }
  intros n st1 Hst1.
  eapply steps_tells; [apply tells_AnalyzeUses|].
  intros []. apply notify_other; [done|]. right. by eexists.
Qed.

Lemma remove_target_loop_notify kill st0 fuel h id stride i wm st :
  awaiting kill st0 →
  (wm = true → editing kill h st) →
  (wm = false → st = st0) →
  steps_to notify_step (remove_target_loop fuel h id stride i wm) st
    (λ wm' st',
       (wm' = true → editing kill h st') ∧ (wm' = false → st' = st0)).
Proof.
  intros Hst0. revert i wm st.
  induction fuel as [|fuel IH]; intros i wm st Htrue Hfalse.
  { apply steps_failM. }
  simpl.
  steps_over (λ (_ : Instruction) st', st' = st). intros inst ? ->.
  destruct (i <? NumInOperands inst); [|by apply steps_ret].
  steps_over (λ (_ : N) st', st' = st). intros w ? ->.
  destruct (bool_decide (w ≠ id)); [by apply IH|].
  assert (awaiting kill st ∨ editing kill h st) as Hst.
  { destruct wm; [right; by apply Htrue | left; by rewrite Hfalse]. }
  eapply steps_bind
    with (Q1 := λ _ st', awaiting kill st' ∨ editing kill h st').
  { destruct (i <? NumInOperands inst - stride).
    - eapply steps_weaken; [by apply steps_mutate_notify|].
      intros [] st1 Hst1. by right.
    - by apply steps_ret. }
  intros [] st1 Hst1.
  eapply steps_bind
    with (Q1 := λ _ st', awaiting kill st' ∨ editing kill h st').
  { destruct (stride =? 2); [|by apply steps_ret].
    eapply steps_bind
      with (Q1 := λ _ st', awaiting kill st' ∨ editing kill h st').
    - destruct (i <? NumInOperands inst - stride).
      + eapply steps_weaken; [by apply steps_mutate_notify|].
        intros [] st2 Hst2. by right.
      + by apply steps_ret.
    - intros [] st2 Hst2.
      eapply steps_weaken; [by apply steps_mutate_notify|].
      intros [] st3 Hst3. by right. }
  intros [] st2 Hst2.
  eapply steps_bind; [by apply steps_mutate_notify|].
  intros [] st3 Hst3. by apply IH.
Qed.

Lemma remove_from_group_notify id pred acc h st :
  awaiting acc.1 st →
  steps_to notify_step (remove_from_group id pred acc h) st
    (λ acc' st', awaiting acc'.1 st').
Proof.
  intros Hst. unfold remove_from_group. destruct acc as [kill to_remove].
  simpl in Hst.
  steps_over (λ (_ : Instruction) st', st' = st). intros inst ? ->.
  steps_over (λ (_ : unit) st', st' = st). intros [] ? ->.
  steps_over (λ (_ : N) st', st' = st). intros group_id ? ->.
  steps_over (λ (_ : option TargetData) st', st' = st).
  intros [group|] ? ->; [|apply steps_failM].
  eapply steps_bind with (Q1 := λ _ st', st' = st).
  { apply steps_silent; [apply silent_select | done]. }
  intros keep ? ->.
  destruct (length keep =? length (direct_decorations group));
    [by apply steps_ret|].
  eapply steps_bind.
  { unfold remove_target.
    steps_over (λ (_ : Instruction) st', st' = st). intros inst0 ? ->.
    by apply (remove_target_loop_notify kill st). }
  intros wm st1 [Htrue Hfalse].
  steps_over (λ (_ : Instruction) st', st' = st1). intros inst1 ? ->.
  eapply steps_bind
    with (Q1 := λ (acc' : list InstPtr * gset InstPtr) st',
                  awaiting acc'.1 st').
  { destruct (NumInOperands inst1 =? 1).
    - apply steps_ret. simpl. destruct wm.
      + destruct (Htrue eq_refl) as [Hphase Hp]. split.
        * intros h0. rewrite Hphase. discriminate.
        * unfold pending. rewrite Hphase.
          intros x [->|Hx]%elem_of_cons; apply elem_of_app;
            [right; by left | left; by apply Hp].
      + rewrite (Hfalse eq_refl).
        eapply awaiting_mono; [|done]. intros x Hx. apply elem_of_app.
        by left.
    - destruct wm.
      + destruct (notify_report kill h st1 (Htrue eq_refl))
          as (st2 & st3 & Hforget & Hanalyze & Hst3).
        eapply steps_bind with (Q1 := λ _ st', st' = st2).
        { eapply steps_tells; [apply tells_ForgetUses|].
          intros []. by exists st2. }
        intros [] ? ->.
        eapply steps_bind with (Q1 := λ _ st', st' = st3).
        { eapply steps_tells; [apply tells_AnalyzeUses|].
          intros []. by exists st3. }
        intros [] ? ->. by apply steps_ret.
      + apply steps_ret. simpl. by rewrite (Hfalse eq_refl). }
  intros acc' st2 Hst2.
  eapply steps_bind.
  { apply steps_forM_ with (I := λ st', awaiting acc'.1 st'); [|done].
    intros d st3 Hst3. by apply clone_onto_notify. }
  intros [] st3 Hst3. by apply steps_ret.
Qed.

Lemma RemoveDecorationsFrom_notify id pred :
  steps_to notify_step (RemoveDecorationsFrom id pred) settled
    (λ _ st', st' = settled).
Proof.
  unfold RemoveDecorationsFrom.
  steps_over (λ (_ : option TargetData) st', st' = settled).
  intros [td|] ? ->; [|by apply steps_ret].
  steps_over (λ (_ : unit) st', st' = settled). intros [] ? ->.
  eapply steps_bind with (Q1 := λ _ st', st' = settled).
  { apply steps_silent; [apply silent_select | done]. }
  intros kill ? ->.
  eapply steps_bind.
  { apply steps_foldM_with
      with (I := λ (acc : list InstPtr * gset InstPtr) st',
                   awaiting acc.1 st').
    - intros acc h st Hst. by apply remove_from_group_notify.
    - split; [done|]. simpl. intros x Hx. by inversion Hx. }
  intros [kill' to_remove] st1 Hst1. simpl in Hst1.
  steps_over (λ (_ : unit) st', st' = st1). intros [] ? ->.
  eapply steps_bind; [by apply kill_loop_notify|].
  intros [] ? ->.
  steps_over (λ (_ : option TargetData) st', st' = settled).
  intros current ? ->.
  eapply steps_bind.
  { apply steps_forM_ with (I := λ st', st' = settled); [|done].
    intros h ? ->. apply steps_KillInst_settled. }
  intros [] ? ->.
  steps_over (λ (_ : option TargetData) st', st' = settled).
  intros current' ? ->.
  destruct (all_empty _); [|by apply steps_ret].
  steps_over (λ (_ : unit) st', st' = settled). intros [] ? ->.
  destruct (negb _); [|by apply steps_ret].
  unfold KillDef.
  steps_over (λ (_ : option InstPtr) st', st' = settled).
  intros [def|] ? ->.
  - apply steps_KillInst_settled.
  - by apply steps_ret.
Qed.

(** *** What the order says of one instruction *)

Lemma run_from_app_inv {St} (step : St → Event → option St) st t1 t2 st' :
  run_from step st (t1 ++ t2) = Some st' →
  ∃ st1, run_from step st t1 = Some st1 ∧ run_from step st1 t2 = Some st'.
Proof.
  revert st. induction t1 as [|e t1 IH]; intros st; simpl.
  - intros H. by exists st.
  - destruct (step st e) as [st1|]; [apply IH | done].
Qed.

Lemma notify_step_owed st e st1 h :
  notify_step st e = Some st1 →
  h ∈ st.2 → e ≠ EvKillInst h → h ∈ st1.2.
Proof.
  destruct st as [[|h0|h0] owed]; destruct e as [k|k|k|k|k];
    unfold notify_step, pending; simpl;
    repeat case_decide; intros [= <-] Hh He; simpl;
    rewrite ?list_elem_of_filter, ?elem_of_cons; try tauto;
    (split; [congruence|tauto]).
Qed.

Lemma run_from_owed tr h : ∀ st st',
  run_from notify_step st tr = Some st' →
  h ∈ st.2 → EvKillInst h ∉ tr → h ∈ st'.2.
Proof.
  induction tr as [|e tr IH]; intros st st'; simpl.
  - by intros [= <-].
  - destruct (notify_step st e) as [st1|] eqn:Hstep; [|done].
    intros Hrun Hh [He Htr]%not_elem_of_cons.
    eapply IH; [exact Hrun| |done].
    eapply notify_step_owed; [exact Hstep|done|congruence].
Qed.

Lemma owed_pending (st : Notify * list InstPtr) h :
  h ∈ st.2 → h ∈ pending st.
Proof.
  unfold pending. destruct st.1; [done| |done]. intros. by right.
Qed.

Lemma notify_step_write st h st1 :
  notify_step st (EvOperandWrite h) = Some st1 → st1.1 = Edited h.
Proof.
  destruct st as [[|h0|h0] owed]; unfold notify_step; simpl;
    by intros [= <-].
Qed.

(** After the last write to [h]: when [h] is neither killed nor left
    pending, the report comes next. *)
Lemma after_last_write h owed post st' :
  run_from notify_step (Edited h, owed) post = Some st' →
  EvOperandWrite h ∉ post → EvKillInst h ∉ post →
  h ∉ pending st' → (∀ k, st'.1 ≠ Forgotten k) →
  ∃ post', post = EvForgetUses h :: EvAnalyzeUses h :: post'.
Proof.
  intros Hrun Hwrite Hkill Hpending Hphase.
  destruct post as [|e post].
  { injection Hrun as <-. destruct Hpending. by left. }
  simpl in Hrun.
  destruct (notify_step (Edited h, owed) e) as [st1|] eqn:Hstep; [|done].
  apply not_elem_of_cons in Hwrite as [Hwrite1 Hwrite].
  apply not_elem_of_cons in Hkill as [Hkill1 Hkill].
  assert (h ∈ st1.2 → False) as Howed.
  { intros Hin. apply Hpending, owed_pending.
    by eapply run_from_owed. }
  destruct e as [k|k|k|k|k]; unfold notify_step, pending in Hstep;
    simpl in Hstep.
  - (* [ForgetUses] *)
    destruct (decide (k = h)) as [->|]; [|done]. injection Hstep as <-.
    destruct post as [|e post].
    { injection Hrun as <-. by destruct (Hphase h). }
    exists post. simpl in Hrun.
    destruct e as [k|k|k|k|k]; try done.
    unfold notify_step in Hrun. simpl in Hrun.
    by destruct (decide (k = h)) as [->|].
  - injection Hstep as <-. destruct Howed. by left.
  - injection Hstep as <-. destruct Howed. simpl.
    rewrite decide_False by congruence. by left.
  - injection Hstep as <-. destruct Howed. by left.
  - injection Hstep as <-. destruct Howed. simpl.
    apply list_elem_of_filter. split; [congruence|by left].
Qed.

(** An instruction that was written to and not killed was reported. *)
Lemma run_reported tr h :
  run_from notify_step settled tr = Some settled →
  EvOperandWrite h ∈ tr → EvKillInst h ∉ tr → reported tr h.
Proof.
  intros Hrun (pre & post & -> & Hlast)%list_elem_of_split_r Hkill.
  apply run_from_app_inv in Hrun as (st1 & _ & Hrun). simpl in Hrun.
  destruct (notify_step st1 (EvOperandWrite h)) as [[phase owed]|] eqn:Hstep;
    [|done].
  apply notify_step_write in Hstep. simpl in Hstep. subst phase.
  apply not_elem_of_app in Hkill as [_ [_ Hkill]%not_elem_of_cons].
  destruct (after_last_write h owed post settled Hrun Hlast Hkill)
    as [post' ->].
  - intros Hin. by apply elem_of_nil in Hin.
  - done.
  - exists pre, post'. split; [done|].
    by apply not_elem_of_cons in Hlast as [_ [_ ?]%not_elem_of_cons].
Qed.

(** ** Records without decorations *)

Lemma keeps_ret {A} P (a : A) : keeps P (ret a).
Proof. by intros s a' s' [= _ <-]. Qed.

Lemma keeps_failM {A} P f : keeps P (@failM A f).
Proof. by intros s a s' H. Qed.

Lemma keeps_bind {A B} P (m : M A) (k : A → M B) :
  keeps P m → (∀ a, keeps P (k a)) → keeps P (bindM m k).
Proof.
  intros Hm Hk s b s' H HP. apply bindM_Ok in H as (a & s1 & H1 & H2).
  eapply Hk; [done|]. by eapply Hm.
Qed.

(** The same, when the rest of the bind may use how the result was
    obtained. *)
Lemma keeps_bind_with {A B} P (m : M A) (k : A → M B) :
  keeps P m →
  (∀ a, (∃ s s', m s = Ok (a, s')) → keeps P (k a)) →
  keeps P (bindM m k).
Proof.
  intros Hm Hk s b s' H HP. apply bindM_Ok in H as (a & s1 & H1 & H2).
  eapply Hk; [by eauto|done|]. by eapply Hm.
Qed.

Lemma keeps_lift {A} P (r : Result A) : keeps P (lift r).
Proof. intros s a s' H. apply lift_Ok in H as [_ ->]. done. Qed.

Lemma keeps_deref P h : keeps P (deref h).
Proof. intros s a s' H. apply deref_Ok in H as [_ ->]. done. Qed.

Lemma keeps_gets {A} P (f : State → A) : keeps P (gets f).
Proof. by intros s a s' [= _ <-]. Qed.

Lemma keeps_assertM P b msg : keeps P (assertM b msg).
Proof. destruct b; [apply keeps_ret | apply keeps_failM]. Qed.

Lemma keeps_module_context P : keeps P module_context.
Proof.
  intros s a s'. unfold module_context.
  destruct (module_ s); [|done]. by intros [= _ <-].
Qed.

Lemma keeps_forM_ {A} P (l : list A) (body : A → M unit) :
  (∀ x, x ∈ l → keeps P (body x)) → keeps P (forM_ l body).
Proof.
  induction l as [|x l IH]; intros Hbody; [apply keeps_ret|].
  simpl. apply keeps_bind; [apply Hbody; by left|].
  intros _. apply IH. intros y Hy. apply Hbody. by right.
Qed.

Lemma keeps_modify P f :
  (∀ s, P s → P (f s)) → keeps P (modify f).
Proof. intros Hf s a s' [= _ <-]. apply Hf. Qed.

Lemma keeps_at_found P id f :
  (∀ s td, id_to_decoration_insts_ s !! id = Some td →
           P s → P (set_index <[id := f td]> s)) →
  keeps P (at_found id f).
Proof.
  intros Hf s a s' H HP. unfold at_found in H.
  apply bindM_Ok in H as (iter & s1 & [= <- <-] & H).
  destruct (id_to_decoration_insts_ s !! id) as [td|] eqn:Htd.
  - injection H as H. subst s'. by apply Hf.
  - injection H as H. by subst s'.
Qed.

Ltac keeps_step :=
  first
    [ apply keeps_ret | apply keeps_failM | apply keeps_lift
    | apply keeps_deref | apply keeps_gets | apply keeps_assertM
    | apply keeps_module_context
    | apply keeps_bind; [|intros ?]
    | apply keeps_forM_; intros ? _
    | match goal with
      | |- keeps _ (match ?x with _ => _ end) => destruct x
      end ].

Lemma keeps_insts_only_at_id P id f : insts_only P → keeps P (at_id id f).
Proof. intros HP. apply keeps_modify. intros s. by apply HP. Qed.

Lemma keeps_insts_only_at_found P id f :
  insts_only P → keeps P (at_found id f).
Proof. intros HP. apply keeps_at_found. intros s td _. by apply HP. Qed.

Lemma keeps_insts_only_AddDecoration P h :
  insts_only P → keeps P (AddDecoration h).
Proof.
  intros HP. unfold AddDecoration.
  repeat first [ by apply keeps_insts_only_at_id | keeps_step ].
Qed.

Lemma keeps_insts_only_RemoveDecoration P h :
  insts_only P → keeps P (RemoveDecoration h).
Proof.
  intros HP. unfold RemoveDecoration.
  repeat first [ by apply keeps_insts_only_at_found | keeps_step ].
Qed.

Lemma insts_only_no_member : insts_only no_member.
Proof. intros s s' Heq. unfold no_member. by rewrite Heq. Qed.

Lemma index_only_all_nonempty : index_only all_nonempty.
Proof. intros s s' Heq. unfold all_nonempty. by rewrite Heq. Qed.

Lemma push_direct_nonempty h td : all_empty (push_direct h td) = false.
Proof. unfold all_empty. simpl. by destruct (direct_decorations td). Qed.

Lemma push_indirect_nonempty h td : all_empty (push_indirect h td) = false.
Proof.
  unfold all_empty. simpl.
  destruct (indirect_decorations td); simpl; by rewrite andb_false_r.
Qed.

Lemma push_decorate_inst_nonempty h td :
  all_empty (push_decorate_inst h td) = false.
Proof.
  unfold all_empty. simpl.
  destruct (decorate_insts td); simpl; by rewrite andb_false_r.
Qed.

Lemma keeps_all_nonempty_at_id id f :
  (∀ td, all_empty (f td) = false) → keeps all_nonempty (at_id id f).
Proof.
  intros Hf. apply keeps_modify. intros s Hs. unfold all_nonempty. simpl.
  by apply map_Forall_insert_2.
Qed.

Lemma keeps_all_nonempty_AddDecoration h : keeps all_nonempty (AddDecoration h).
Proof.
  unfold AddDecoration.
  repeat first
    [ apply keeps_all_nonempty_at_id;
      first [ apply push_direct_nonempty | apply push_indirect_nonempty
            | apply push_decorate_inst_nonempty ]
    | keeps_step ].
Qed.

Lemma AnalyzeDecorations_all_nonempty s s' :
  all_nonempty s → AnalyzeDecorations s = Ok (tt, s') → all_nonempty s'.
Proof.
  intros Hs H. revert H Hs. apply (keeps_bind all_nonempty).
  - apply keeps_gets.
  - intros [anns|]; [|apply keeps_ret].
    apply keeps_forM_. intros h _. apply keeps_all_nonempty_AddDecoration.
Qed.

Lemma keeps_index_only_log P e : index_only P → keeps P (log e).
Proof. intros HP. apply keeps_modify. intros s. by apply HP. Qed.

Lemma keeps_index_only_set_insts P f :
  index_only P → keeps P (modify (set_insts f)).
Proof. intros HP. apply keeps_modify. intros s. by apply HP. Qed.

Lemma keeps_index_only_set_module P f :
  index_only P → keeps P (modify (set_module f)).
Proof. intros HP. apply keeps_modify. intros s. by apply HP. Qed.

Lemma keeps_insts_only_log P e : insts_only P → keeps P (log e).
Proof. intros HP. apply keeps_modify. intros s. by apply HP. Qed.

(** *** [unindex] deletes no record *)

Lemma index_only_absent k :
  index_only (λ s, id_to_decoration_insts_ s !! k = None).
Proof. intros s s' Heq. by rewrite Heq. Qed.

Lemma keeps_absent_RemoveDecoration k h :
  keeps (λ s, id_to_decoration_insts_ s !! k = None) (RemoveDecoration h).
Proof.
  unfold RemoveDecoration.
  repeat first
    [ apply keeps_at_found; intros s td Htd Hk; simpl;
      rewrite lookup_insert_ne; [done | congruence]
    | keeps_step ].
Qed.

Lemma keeps_present_RemoveDecoration k h :
  keeps (λ s, is_Some (id_to_decoration_insts_ s !! k)) (RemoveDecoration h).
Proof.
  unfold RemoveDecoration.
  repeat first
    [ apply keeps_at_found; intros s td Htd Hk; simpl;
      rewrite lookup_insert; case_decide; [by eexists | done]
    | keeps_step ].
Qed.

Lemma keeps_absent_KillInst k h :
  keeps (λ s, id_to_decoration_insts_ s !! k = None) (KillInst h).
Proof.
  unfold KillInst.
  repeat first
    [ apply keeps_index_only_log; apply index_only_absent
    | apply keeps_index_only_set_insts; apply index_only_absent
    | apply keeps_index_only_set_module; apply index_only_absent
    | apply keeps_absent_RemoveDecoration
    | keeps_step ].
Qed.

(** *** The record of the id that [RemoveDecorationsFrom] is called on *)

Lemma RemoveDecorationsFrom_tail id (is_group : bool) s a s' :
  (current <~ find id ;;
   let decorations_info := default empty_TargetData current in
   if all_empty decorations_info then
     modify (set_index (delete id)) ;;;
     (if is_group then KillDef id else ret tt)
   else ret tt) s = Ok (a, s') →
  own_record_nonempty id s'.
Proof.
  intros H. apply bindM_Ok in H as (current & s1 & [= <- <-] & H).
  simpl in H.
  destruct (all_empty (default empty_TargetData
                         (id_to_decoration_insts_ s !! id))) eqn:Hempty.
  - apply bindM_Ok in H as ([] & s2 & [= <-] & H).
    assert (id_to_decoration_insts_ s' !! id = None) as Hnone.
    { destruct is_group.
      - unfold KillDef in H.
        apply bindM_Ok in H as (def & s3 & [= <- <-] & H).
        destruct (id_to_def _ !! id) as [h|].
        + eapply keeps_absent_KillInst; [exact H|].
          simpl. apply lookup_delete_eq.
        + injection H as H. subst s'. simpl. apply lookup_delete_eq.
      - injection H as H. subst s'. simpl. apply lookup_delete_eq. }
    intros td Htd. congruence.
  - injection H as H. subst s'. intros td Htd. by rewrite Htd in Hempty.
Qed.

Lemma RemoveDecorationsFrom_own_record id pred s s' :
  RemoveDecorationsFrom id pred s = Ok (tt, s') →
  own_record_nonempty id s'.
Proof.
  intros H. unfold RemoveDecorationsFrom in H.
  apply bindM_Ok in H as (ids_iter & s0 & [= <- <-] & H).
  destruct (id_to_decoration_insts_ s !! id) as [td|] eqn:Htd.
  - apply bindM_Ok in H as ([] & s1 & _ & H).
    apply bindM_Ok in H as (kill & s2 & _ & H).
    apply bindM_Ok in H as ([kill' to_remove] & s3 & _ & H).
    apply bindM_Ok in H as ([] & s4 & _ & H).
    apply bindM_Ok in H as ([] & s5 & _ & H).
    apply bindM_Ok in H as (current & s6 & _ & H).
    apply bindM_Ok in H as ([] & s7 & _ & H).
    by eapply RemoveDecorationsFrom_tail.
  - injection H as H. subst s'. intros td Htd'. congruence.
Qed.

(** *** Cloning through [OpGroupDecorate] *)

Lemma GetSingleWordInOperand_single_words inst i w :
  GetSingleWordInOperand inst i = Ok w → w ∈ single_words inst.
Proof.
  unfold GetSingleWordInOperand, GetInOperand, single_words.
  destruct (in_operands inst !! i) as [op|] eqn:Hop; [|done]. simpl.
  destruct (words op) as [|w' [|w'' ws]] eqn:Hw; try done.
  intros [= <-]. apply list_elem_of_omap. exists op.
  split; [by eapply list_elem_of_lookup_2 | by rewrite Hw].
Qed.

Lemma single_words_inv inst w :
  w ∈ single_words inst →
  ∃ i, i < NumInOperands inst ∧ GetSingleWordInOperand inst i = Ok w.
Proof.
  unfold single_words. intros H.
  apply list_elem_of_omap in H as (op & Hop & Hw).
  apply list_elem_of_lookup_1 in Hop as [i Hi]. exists i.
  split; [by eapply lookup_lt_Some|].
  unfold GetSingleWordInOperand, GetInOperand. rewrite Hi. simpl.
  by destruct (words op) as [|w' [|w'' ws]]; try done; injection Hw as ->.
Qed.

Lemma single_words_AddOperand inst op w :
  w ∈ single_words inst → w ∈ single_words (AddOperand inst op).
Proof.
  unfold single_words, AddOperand. simpl. rewrite omap_app.
  intros H. apply elem_of_app. by left.
Qed.

Lemma stride_from_1_covers fuel a bound i :
  a ≤ i < bound → bound - a ≤ fuel → i ∈ stride_from fuel a 1 bound.
Proof.
  revert a. induction fuel as [|fuel IH]; intros a Hi Hfuel; [lia|].
  simpl. destruct (Nat.ltb_spec a bound) as [Hlt|Hge]; [|lia].
  destruct (decide (i = a)) as [->|Hne]; [by left|].
  right. apply IH; lia.
Qed.

Lemma strided_1_covers bound i : 1 ≤ i < bound → i ∈ strided 1 1 bound.
Proof. intros Hi. apply stride_from_1_covers; lia. Qed.

Lemma keeps_lookup_at_id k v id f :
  id ≠ k → keeps (λ s, id_to_decoration_insts_ s !! k = v) (at_id id f).
Proof.
  intros Hne. apply keeps_modify. intros s Hs. simpl.
  by rewrite lookup_insert_ne.
Qed.

Lemma keeps_lookup_at_found k v id f :
  id ≠ k → keeps (λ s, id_to_decoration_insts_ s !! k = v) (at_found id f).
Proof.
  intros Hne. apply keeps_at_found. intros s td _ Hs. simpl.
  by rewrite lookup_insert_ne.
Qed.

(** A key that is not a single word of the instruction is left alone by
    [RemoveDecoration] and by [AddDecoration]. *)
Lemma lift_word_not_key {A} inst i k (P : State → Prop) (body : N → M A) :
  k ∉ single_words inst →
  (∀ w, w ≠ k → keeps P (body w)) →
  keeps P (w <~ lift (GetSingleWordInOperand inst i) ;; body w).
Proof.
  intros Hk Hbody. apply keeps_bind_with; [apply keeps_lift|].
  intros w (s & s' & Hw). apply lift_Ok in Hw as [Hw _].
  apply Hbody. intros ->.
  by apply Hk, (GetSingleWordInOperand_single_words inst i).
Qed.

Lemma RemoveDecoration_frame h inst s s' k :
  insts s !! h = Some inst →
  k ∉ single_words inst →
  RemoveDecoration h s = Ok (tt, s') →
  id_to_decoration_insts_ s' !! k = id_to_decoration_insts_ s !! k.
Proof.
  intros Hh Hk H. unfold RemoveDecoration in H.
  apply bindM_Ok in H as (inst0 & s0 & Hd & H).
  apply deref_Ok in Hd as [Hd ->].
  assert (inst0 = inst) as -> by congruence.
  match type of H with
  | ?body _ = _ =>
      assert (keeps (λ s0, id_to_decoration_insts_ s0 !! k
                           = id_to_decoration_insts_ s !! k) body) as Hkeeps
  end; [|exact (Hkeeps _ _ _ H eq_refl)].
  clear H. destruct (opcode inst);
    repeat first
      [ apply keeps_ret
      | apply (lift_word_not_key _ _ k); [done|]; intros w Hw;
        by apply keeps_lookup_at_found
      | apply keeps_bind; [|intros ?]
      | apply keeps_forM_; intros ? _ ].
Qed.

Lemma AddDecoration_frame h inst s s' k :
  insts s !! h = Some inst →
  k ∉ single_words inst →
  AddDecoration h s = Ok (tt, s') →
  id_to_decoration_insts_ s' !! k = id_to_decoration_insts_ s !! k.
Proof.
  intros Hh Hk H. unfold AddDecoration in H.
  apply bindM_Ok in H as (inst0 & s0 & Hd & H).
  apply deref_Ok in Hd as [Hd ->].
  assert (inst0 = inst) as -> by congruence.
  match type of H with
  | ?body _ = _ =>
      assert (keeps (λ s0, id_to_decoration_insts_ s0 !! k
                           = id_to_decoration_insts_ s !! k) body) as Hkeeps
  end; [|exact (Hkeeps _ _ _ H eq_refl)].
  clear H. destruct (opcode inst);
    repeat first
      [ apply keeps_ret
      | apply (lift_word_not_key _ _ k); [done|]; intros w Hw;
        by apply keeps_lookup_at_id
      | apply keeps_bind; [|intros ?]
      | apply keeps_forM_; intros ? _ ].
Qed.

Lemma keeps_has_nonempty_at_id k id f :
  (∀ td, all_empty (f td) = false) → keeps (has_nonempty k) (at_id id f).
Proof.
  intros Hf. apply keeps_modify. intros s (td & Htd & Hne).
  unfold has_nonempty. simpl. destruct (decide (id = k)) as [->|Hk].
  - rewrite lookup_insert_eq. eauto.
  - rewrite lookup_insert_ne by done. eauto.
Qed.

Lemma at_id_has_nonempty k f s a s' :
  (∀ td, all_empty (f td) = false) →
  at_id k f s = Ok (a, s') → has_nonempty k s'.
Proof.
  intros Hf [= _ <-]. unfold has_nonempty. simpl.
  rewrite lookup_insert_eq. eauto.
Qed.

Lemma forM__reaches {A} (l : list A) (body : A → M unit) x
    (P : State → Prop) :
  x ∈ l →
  (∀ s a s', body x s = Ok (a, s') → P s') →
  (∀ y, keeps P (body y)) →
  ∀ s a s', forM_ l body s = Ok (a, s') → P s'.
Proof.
  intros Hx Hreach Hkeeps.
  induction l as [|y l IH]; intros s a s' H; [by apply elem_of_nil in Hx|].
  simpl in H. apply bindM_Ok in H as ([] & s1 & H1 & H2).
  apply elem_of_cons in Hx as [->|Hx].
  - eapply (keeps_forM_ P l body); [by intros | exact H2 |].
    by eapply Hreach.
  - by eapply IH.
Qed.

(** After [AddDecoration] of an [OpGroupDecorate], every id among its
    operands has a record that is not empty. *)
Lemma AddDecoration_group_covers h inst s s' k :
  insts s !! h = Some inst →
  opcode inst = SpvOpGroupDecorate →
  AddDecoration h s = Ok (tt, s') →
  k ∈ single_words inst →
  has_nonempty k s'.
Proof.
  intros Hh Hop H Hk. unfold AddDecoration in H.
  apply bindM_Ok in H as (inst0 & s0 & Hd & H).
  apply deref_Ok in Hd as [Hd ->].
  assert (inst0 = inst) as -> by congruence.
  rewrite Hop in H. simpl in H.
  apply bindM_Ok in H as ([] & s1 & Hloop & H).
  apply bindM_Ok in H as (g & s2 & Hg & H).
  apply lift_Ok in Hg as [Hg ->].
  apply single_words_inv in Hk as (i & Hi & Hw).
  destruct (decide (i = 0)) as [->|Hi0].
  - assert (g = k) as -> by congruence.
    eapply at_id_has_nonempty; [|exact H]. apply push_decorate_inst_nonempty.
  - eapply keeps_has_nonempty_at_id;
      [apply push_decorate_inst_nonempty | exact H |].
    eapply (forM__reaches _ _ i (has_nonempty k)); [| | |exact Hloop].
    + apply strided_1_covers. lia.
    + intros s3 a s3' Hbody.
      apply bindM_Ok in Hbody as (w & s4 & Hw' & Hbody).
      apply lift_Ok in Hw' as [Hw' ->].
      assert (w = k) as -> by congruence.
      eapply at_id_has_nonempty; [|exact Hbody]. apply push_indirect_nonempty.
    + intros y. apply keeps_bind; [apply keeps_lift|].
      intros w. apply keeps_has_nonempty_at_id. apply push_indirect_nonempty.
Qed.

Lemma RemoveDecoration_insts h s a s' :
  RemoveDecoration h s = Ok (a, s') → insts s' = insts s.
Proof.
  intros H.
  by apply (keeps_insts_only_RemoveDecoration (λ s0, insts s0 = insts s) h
              (λ _ _ Heq Hs, eq_trans Heq Hs) _ _ _ H).
Qed.

Lemma ForgetUses_inv h s s' :
  ForgetUses h s = Ok (tt, s') →
  insts s' = insts s
  ∧ ∀ inst k, insts s !! h = Some inst → k ∉ single_words inst →
      id_to_decoration_insts_ s' !! k = id_to_decoration_insts_ s !! k.
Proof.
  intros H. unfold ForgetUses in H.
  apply bindM_Ok in H as ([] & s1 & [= <-] & H).
  apply bindM_Ok in H as (inst0 & s2 & Hd & H).
  apply deref_Ok in Hd as [Hd ->]. simpl in Hd.
  destruct (IsDecoration inst0).
  - split; [by rewrite (RemoveDecoration_insts _ _ _ _ H)|].
    intros inst k Hh Hk. assert (inst0 = inst) as -> by congruence.
    refine (RemoveDecoration_frame h inst _ _ k _ Hk H). exact Hd.
  - injection H as H. by subst s'.
Qed.

Lemma mutate_inv h f s s' :
  mutate h f s = Ok (tt, s') →
  ∃ inst inst', insts s !! h = Some inst ∧ f inst = Ok inst'
    ∧ insts s' = <[h := inst']> (insts s)
    ∧ id_to_decoration_insts_ s' = id_to_decoration_insts_ s.
Proof.
  intros H. unfold mutate in H.
  apply bindM_Ok in H as (inst & s1 & Hd & H).
  apply deref_Ok in Hd as [Hd ->].
  apply bindM_Ok in H as (inst' & s2 & Hf & H).
  apply lift_Ok in Hf as [Hf ->].
  apply bindM_Ok in H as ([] & s3 & [= <-] & H).
  injection H as H. subst s'. by exists inst, inst'.
Qed.

Lemma no_member_insert h inst s :
  opcode inst ≠ SpvOpGroupMemberDecorate →
  no_member s → no_member (set_insts <[h := inst]> s).
Proof. intros Hop Hs. unfold no_member. simpl. by apply map_Forall_insert_2. Qed.

Lemma keeps_no_member_AnalyzeUses h : keeps no_member (AnalyzeUses h).
Proof.
  unfold AnalyzeUses.
  repeat first
    [ apply keeps_insts_only_log; apply insts_only_no_member
    | apply keeps_insts_only_AddDecoration; apply insts_only_no_member
    | keeps_step ].
Qed.

Lemma keeps_no_member_ForgetUses h : keeps no_member (ForgetUses h).
Proof.
  unfold ForgetUses.
  repeat first
    [ apply keeps_insts_only_log; apply insts_only_no_member
    | apply keeps_insts_only_RemoveDecoration; apply insts_only_no_member
    | keeps_step ].
Qed.

Lemma keeps_all_nonempty_AnalyzeUses h : keeps all_nonempty (AnalyzeUses h).
Proof.
  unfold AnalyzeUses.
  repeat first
    [ apply keeps_index_only_log; apply index_only_all_nonempty
    | apply keeps_all_nonempty_AddDecoration
    | keeps_step ].
Qed.

Lemma group_reindex_all_nonempty h to inst s s' :
  all_nonempty s →
  insts s !! h = Some inst →
  opcode inst = SpvOpGroupDecorate →
  (ForgetUses h ;;;
   mutate h (λ inst, Ok (AddOperand inst (id_operand to))) ;;;
   AnalyzeUses h) s = Ok (tt, s') →
  all_nonempty s'.
Proof.
  intros Hs Hh Hop H.
  apply bindM_Ok in H as ([] & s1 & HF & H).
  apply bindM_Ok in H as ([] & s2 & HM & HA).
  destruct (ForgetUses_inv _ _ _ HF) as [Hi1 Hframe1].
  destruct (mutate_inv _ _ _ _ HM) as (inst1 & inst2 & Hh1 & Hf & Hi2 & Hx2).
  rewrite Hi1, Hh in Hh1. injection Hh1 as <-. injection Hf as <-.
  unfold AnalyzeUses in HA.
  apply bindM_Ok in HA as ([] & s3 & [= <-] & HA).
  apply bindM_Ok in HA as (inst3 & s4 & Hd & HA).
  apply deref_Ok in Hd as [Hd ->]. simpl in Hd.
  rewrite Hi2, lookup_insert_eq in Hd. injection Hd as <-.
  unfold IsDecoration in HA. simpl in HA. rewrite Hop in HA.
  match type of HA with
  | AddDecoration h ?s3 = _ =>
      assert (insts s3 !! h = Some (AddOperand inst (id_operand to))) as Hh3
        by (simpl; by rewrite Hi2, lookup_insert_eq)
  end.
  intros k td Hk.
  destruct (decide (k ∈ single_words (AddOperand inst (id_operand to))))
    as [Hin|Hnotin].
  - destruct (AddDecoration_group_covers _ _ _ _ k Hh3 Hop HA Hin)
      as (td' & Htd' & Hne).
    congruence.
  - rewrite (AddDecoration_frame _ _ _ _ k Hh3 Hnotin HA) in Hk.
    simpl in Hk. rewrite Hx2 in Hk.
    rewrite (Hframe1 inst k Hh) in Hk; [by eapply Hs|].
    intros Hin. apply Hnotin. by apply single_words_AddOperand.
Qed.

Lemma SetInOperand_opcode inst i ws inst' :
  SetInOperand inst i ws = Ok inst' → opcode inst' = opcode inst.
Proof.
  unfold SetInOperand. destruct (GetInOperand inst i); [|done].
  by intros [= <-].
Qed.

Lemma clone_onto_keeps id h :
  keeps (λ s, no_member s ∧ all_nonempty s) (clone_onto id h).
Proof.
  intros s a s' H [Hm Hn]. unfold clone_onto in H.
  apply bindM_Ok in H as (inst & s1 & Hd & H).
  apply deref_Ok in Hd as [Hd ->].
  apply bindM_Ok in H as (new_inst & s1 & Hset & H).
  apply lift_Ok in Hset as [Hset ->].
  apply bindM_Ok in H as (n & s2 & Hadd & H).
  assert (no_member s2 ∧ all_nonempty s2) as [Hm2 Hn2].
  { unfold AddAnnotationInst in Hadd.
    destruct (module_ s); [|done]. injection Hadd as <- <-.
    split; [|done].
    unfold no_member. simpl. apply map_Forall_insert_2; [|done].
    rewrite (SetInOperand_opcode _ _ _ _ Hset). by eapply Hm. }
  split.
  - by eapply keeps_no_member_AnalyzeUses.
  - by eapply keeps_all_nonempty_AnalyzeUses.
Qed.

Lemma clone_through_group_keeps from to h :
  keeps (λ s, no_member s ∧ all_nonempty s) (clone_through_group from to h).
Proof.
  intros s a s' H [Hm Hn]. unfold clone_through_group in H.
  apply bindM_Ok in H as (inst & s1 & Hd & H).
  apply deref_Ok in Hd as [Hd ->].
  destruct (opcode inst) eqn:Hop; try discriminate H.
  - destruct a. split.
    + revert H Hm.
      apply (keeps_bind no_member); [apply keeps_no_member_ForgetUses|].
      intros _. intros s1 a1 s2 H Hm1.
      apply bindM_Ok in H as ([] & s3 & HM & HA).
      eapply keeps_no_member_AnalyzeUses; [exact HA|].
      destruct (mutate_inv _ _ _ _ HM) as (i1 & i2 & Hh1 & Hf & Hi2 & _).
      injection Hf as <-. unfold no_member. rewrite Hi2.
      apply map_Forall_insert_2; [|done]. simpl. by eapply Hm1.
    + by eapply group_reindex_all_nonempty.
  - exfalso. by eapply Hm.
Qed.

Lemma CloneDecorations_keeps from to :
  keeps (λ s, no_member s ∧ all_nonempty s) (CloneDecorations from to).
Proof.
  unfold CloneDecorations.
  apply keeps_bind; [apply keeps_gets|]. intros [td|]; [|apply keeps_ret].
  apply keeps_bind; [apply keeps_module_context|]. intros _.
  apply keeps_bind.
  { apply keeps_forM_. intros h _. apply clone_onto_keeps. }
  intros _. apply keeps_bind; [apply keeps_gets|]. intros current.
  apply keeps_forM_. intros h _. apply clone_through_group_keeps.
Qed.

Lemma RemoveDecoration_keys h s s' k :
  RemoveDecoration h s = Ok (tt, s') →
  is_Some (id_to_decoration_insts_ s' !! k)
  ↔ is_Some (id_to_decoration_insts_ s !! k).
Proof.
  intros H. split.
  - intros Hs'. destruct (id_to_decoration_insts_ s !! k) eqn:Hk; [done|].
    rewrite (keeps_absent_RemoveDecoration k h _ _ _ H Hk) in Hs'.
    by destruct Hs'.
  - by apply (keeps_present_RemoveDecoration k h _ _ _ H).
Qed.

(** C7, as the code has it: after [build] on an empty index every record
    has a collection that is not empty; after [removeDecorationsFrom] the
    id it was called on has no record with three empty collections;
    [cloneDecorations] adds no such record when the store holds no
    [OpGroupMemberDecorate]; [unindex] deletes no record at all, whatever
    is left in it. *)
Theorem C7_records_and_collections (s s' : State) (id from to k : N)
    (pred : Instruction → bool) (h : InstPtr) :
  (id_to_decoration_insts_ s = ∅ →
   AnalyzeDecorations s = Ok (tt, s') → all_nonempty s')
  ∧ (RemoveDecorationsFrom id pred s = Ok (tt, s') →
     own_record_nonempty id s')
  ∧ (no_member s → all_nonempty s →
     CloneDecorations from to s = Ok (tt, s') → all_nonempty s')
  ∧ (RemoveDecoration h s = Ok (tt, s') →
     (is_Some (id_to_decoration_insts_ s' !! k)
      ↔ is_Some (id_to_decoration_insts_ s !! k))).
Proof.
  split; [|split; [|split]].
  - intros Hempty. apply AnalyzeDecorations_all_nonempty.
    unfold all_nonempty. rewrite Hempty. apply map_Forall_empty.
  - apply RemoveDecorationsFrom_own_record.
  - intros Hm Hn H. by apply (CloneDecorations_keeps from to _ _ _ H).
  - apply RemoveDecoration_keys.
Qed.

(** ** The fuel of the loop over the targets is enough *)

Lemma within_bind_at {A B} (m : M A) (k : A → M B) s :
  m s ≠ Fail OutOfFuel →
  (∀ a s1, m s = Ok (a, s1) → k a s1 ≠ Fail OutOfFuel) →
  bindM m k s ≠ Fail OutOfFuel.
Proof.
  intros Hm Hk. unfold bindM. destruct (m s) as [[a s1]|f]; [by apply Hk|].
  congruence.
Qed.

Lemma within_ret {A} (a : A) : within_fuel (ret a).
Proof. by intros s. Qed.

Lemma within_bind {A B} (m : M A) (k : A → M B) :
  within_fuel m → (∀ a, within_fuel (k a)) → within_fuel (bindM m k).
Proof. intros Hm Hk s. apply within_bind_at; [apply Hm|]. intros. apply Hk. Qed.

Lemma within_failM {A} f : f ≠ OutOfFuel → within_fuel (@failM A f).
Proof. intros Hf s. unfold failM. congruence. Qed.

Lemma within_gets {A} (f : State → A) : within_fuel (gets f).
Proof. by intros s. Qed.

Lemma within_modify f : within_fuel (modify f).
Proof. by intros s. Qed.

Lemma within_deref h : within_fuel (deref h).
Proof. intros s. unfold deref. by destruct (insts s !! h). Qed.

Lemma within_module_context : within_fuel module_context.
Proof. intros s. unfold module_context. by destruct (module_ s). Qed.

Lemma within_assertM b msg : within_fuel (assertM b msg).
Proof. destruct b; [apply within_ret | by apply within_failM]. Qed.

Lemma within_AddAnnotationInst inst : within_fuel (AddAnnotationInst inst).
Proof. intros s. unfold AddAnnotationInst. by destruct (module_ s). Qed.

Lemma GetInOperand_failure inst i :
  GetInOperand inst i ≠ Fail OutOfFuel.
Proof. unfold GetInOperand. by destruct (in_operands inst !! i). Qed.

Lemma rbind_failure {A B} (r : Result A) (k : A → Result B) :
  r ≠ Fail OutOfFuel → (∀ a, k a ≠ Fail OutOfFuel) →
  rbind r k ≠ Fail OutOfFuel.
Proof.
  intros Hr Hk. destruct r; simpl; [apply Hk|].
  intros [= ->]. by apply Hr.
Qed.

Lemma GetSingleWordInOperand_failure inst i :
  GetSingleWordInOperand inst i ≠ Fail OutOfFuel.
Proof.
  apply rbind_failure; [apply GetInOperand_failure|].
  intros op. by destruct (words op) as [|w [|w' ws]].
Qed.

Lemma within_lift {A} (r : Result A) :
  r ≠ Fail OutOfFuel → within_fuel (lift r).
Proof.
  intros Hr s. unfold lift. destruct r; [done|].
  intros [= ->]. by apply Hr.
Qed.

Lemma within_mutate h f :
  (∀ inst, f inst ≠ Fail OutOfFuel) → within_fuel (mutate h f).
Proof.
  intros Hf. unfold mutate.
  apply within_bind; [apply within_deref|]. intros inst.
  apply within_bind; [by apply within_lift|]. intros inst'.
  apply within_bind; [apply within_modify|]. intros _. apply within_modify.
Qed.

Lemma within_forM_ {A} (l : list A) (body : A → M unit) :
  (∀ x, within_fuel (body x)) → within_fuel (forM_ l body).
Proof.
  intros Hbody. induction l as [|x l IH]; [apply within_ret|].
  apply within_bind; [apply Hbody | intros _; apply IH].
Qed.

Lemma within_foldM {A B} (l : list A) (body : B → A → M B) acc :
  (∀ acc x, within_fuel (body acc x)) → within_fuel (foldM body l acc).
Proof.
  intros Hbody. revert acc. induction l as [|x l IH]; intros acc.
  - apply within_ret.
  - apply within_bind; [apply Hbody | intros acc'; apply IH].
Qed.

Ltac within_step :=
  first
    [ apply within_ret | apply within_gets | apply within_modify
    | apply within_deref | apply within_module_context
    | apply within_assertM | apply within_AddAnnotationInst
    | apply within_failM; discriminate
    | apply within_lift;
      first [ apply GetSingleWordInOperand_failure
            | apply GetInOperand_failure
            | apply rbind_failure;
              [ apply GetInOperand_failure | intros ?; discriminate ] ]
    | apply within_mutate; intros ?;
      first [ discriminate
            | apply rbind_failure;
              [ apply GetInOperand_failure
              | intros ?; first [ discriminate
                                | apply rbind_failure;
                                  [ apply GetInOperand_failure
                                  | intros ?; discriminate ] ] ] ]
    | apply within_bind; [|intros ?]
    | apply within_forM_; intros ?
    | match goal with
      | |- within_fuel (match ?x with _ => _ end) => destruct x
      end ].

Lemma within_AddDecoration h : within_fuel (AddDecoration h).
Proof. unfold AddDecoration, at_id. repeat within_step. Qed.

Lemma within_RemoveDecoration h : within_fuel (RemoveDecoration h).
Proof. unfold RemoveDecoration, at_found, find. repeat within_step. Qed.

Lemma within_ForgetUses h : within_fuel (ForgetUses h).
Proof.
  unfold ForgetUses, log.
  repeat first [ apply within_RemoveDecoration | within_step ].
Qed.

Lemma within_AnalyzeUses h : within_fuel (AnalyzeUses h).
Proof.
  unfold AnalyzeUses, log.
  repeat first [ apply within_AddDecoration | within_step ].
Qed.

Lemma within_KillInst h : within_fuel (KillInst h).
Proof.
  unfold KillInst, log.
  repeat first [ apply within_RemoveDecoration | within_step ].
Qed.

Lemma within_clone_onto id h : within_fuel (clone_onto id h).
Proof.
  unfold clone_onto, SetInOperand.
  repeat first [ apply within_AnalyzeUses | within_step ].
Qed.

Lemma within_select p l : within_fuel (select p l).
Proof.
  induction l as [|h l IH]; [apply within_ret|].
  simpl. apply within_bind; [apply within_deref|]. intros inst.
  apply within_bind; [apply IH|]. intros rest. apply within_ret.
Qed.

Lemma keeps_at_most_mutate h n h' f :
  (∀ inst inst', f inst = Ok inst' → NumInOperands inst' ≤ NumInOperands inst) →
  keeps (at_most_operands h n) (mutate h' f).
Proof.
  intros Hf s a s' H (inst & Hh & Hn). destruct a.
  destruct (mutate_inv _ _ _ _ H) as (inst1 & inst2 & Hh1 & Hf1 & Hi & _).
  unfold at_most_operands. rewrite Hi.
  destruct (decide (h' = h)) as [->|Hne].
  - rewrite lookup_insert_eq. exists inst2. split; [done|].
    assert (inst1 = inst) as -> by congruence.
    specialize (Hf _ _ Hf1). lia.
  - rewrite lookup_insert_ne by done. by exists inst.
Qed.

Lemma AssignInOperand_length inst i op inst' :
  AssignInOperand inst i op = Ok inst' →
  NumInOperands inst' ≤ NumInOperands inst.
Proof.
  unfold AssignInOperand. destruct (GetInOperand inst i); [|done].
  intros [= <-]. unfold NumInOperands. simpl. by rewrite length_insert.
Qed.

Lemma RemoveInOperand_length inst i inst' :
  RemoveInOperand inst i = Ok inst' →
  S (NumInOperands inst') = NumInOperands inst.
Proof.
  unfold RemoveInOperand, GetInOperand.
  destruct (in_operands inst !! i) as [op|] eqn:Hop; [|done].
  intros [= <-]. unfold NumInOperands. simpl.
  rewrite length_delete; [|by eexists].
  apply lookup_lt_Some in Hop. lia.
Qed.

Lemma remove_target_loop_within fuel h id stride i wm s inst :
  1 ≤ stride →
  insts s !! h = Some inst →
  NumInOperands inst - i < fuel →
  remove_target_loop fuel h id stride i wm s ≠ Fail OutOfFuel.
Proof.
  intros Hstride. revert i wm s inst.
  induction fuel as [|fuel IH]; intros i wm s inst Hh Hfuel; [lia|].
  simpl. apply within_bind_at; [apply within_deref|].
  intros inst0 s0 Hd. apply deref_Ok in Hd as [Hd ->].
  assert (inst0 = inst) as -> by congruence.
  destruct (Nat.ltb_spec i (NumInOperands inst)) as [Hlt|Hge];
    [|apply within_ret].
  apply within_bind_at;
    [apply within_lift, GetSingleWordInOperand_failure|].
  intros w s0 Hw. apply lift_Ok in Hw as [Hw ->].
  destruct (bool_decide (w ≠ id)); [apply (IH _ _ _ inst Hh); lia|].
  assert (at_most_operands h (NumInOperands inst) s) as Hs
    by (by exists inst).
  apply within_bind_at.
  { destruct (i <? _); [|apply within_ret]. repeat within_step. }
  intros [] s1 H1.
  assert (at_most_operands h (NumInOperands inst) s1) as Hs1.
  { revert H1 Hs. destruct (i <? _); [|apply keeps_ret].
    apply keeps_at_most_mutate. intros i1 i2 Hi.
    apply rbind_Ok in Hi as (op & _ & Hi).
    by eapply AssignInOperand_length. }
  apply within_bind_at.
  { destruct (stride =? 2); [|apply within_ret].
    apply within_bind; [|intros _; repeat within_step].
    destruct (i <? _); [|apply within_ret]. repeat within_step. }
  intros [] s2 H2.
  assert (at_most_operands h (NumInOperands inst) s2) as Hs2.
  { revert H2 Hs1. destruct (stride =? 2); [|apply keeps_ret].
    apply keeps_bind.
    - destruct (i <? _); [|apply keeps_ret].
      apply keeps_at_most_mutate. intros i1 i2 Hi.
      apply rbind_Ok in Hi as (op & _ & Hi).
      by eapply AssignInOperand_length.
    - intros _. apply keeps_at_most_mutate. intros i1 i2 Hi.
      apply RemoveInOperand_length in Hi. lia. }
  apply within_bind_at; [by repeat within_step|].
  intros [] s3 H3.
  destruct (mutate_inv _ _ _ _ H3) as (inst2 & inst3 & Hh2 & Hf & Hi3 & _).
  destruct Hs2 as (inst2' & Hh2' & Hn2).
  assert (inst2' = inst2) as -> by congruence.
  apply RemoveInOperand_length in Hf.
  apply (IH _ _ _ inst3); [by rewrite Hi3, lookup_insert_eq | lia].
Qed.

Lemma within_remove_target h id stride :
  1 ≤ stride → within_fuel (remove_target h id stride).
Proof.
  intros Hstride s. unfold remove_target.
  apply within_bind_at; [apply within_deref|].
  intros inst s0 Hd. apply deref_Ok in Hd as [Hd ->].
  apply (remove_target_loop_within _ _ _ _ _ _ _ inst Hstride Hd). lia.
Qed.

Lemma within_remove_from_group id pred acc h :
  within_fuel (remove_from_group id pred acc h).
Proof.
  unfold remove_from_group, find. destruct acc as [kill to_remove].
  repeat first
    [ apply within_select
    | apply within_remove_target; case_decide; lia
    | apply within_ForgetUses | apply within_AnalyzeUses
    | apply within_clone_onto | within_step ].
Qed.

(** [RemoveDecorationsFrom] does not stop for lack of fuel: when it does
    not return, an assertion failed or a pointer was dangling. *)
Lemma within_RemoveDecorationsFrom id pred :
  within_fuel (RemoveDecorationsFrom id pred).
Proof.
  unfold RemoveDecorationsFrom, find, at_found, find, KillDef.
  apply within_bind; [apply within_gets|]. intros [td|]; [|apply within_ret].
  apply within_bind; [apply within_module_context|]. intros _.
  apply within_bind; [apply within_select|]. intros kill.
  apply within_bind.
  { apply within_foldM. intros. apply within_remove_from_group. }
  intros [kill' to_remove].
  repeat first [ apply within_KillInst | within_step ].
Qed.

(** ** What becomes of the instructions that [RemoveDecorationsFrom] edits *)

Lemma keeps_select P p l : keeps P (select p l).
Proof.
  induction l as [|h l IH]; simpl; repeat first [ apply IH | keeps_step ].
Qed.

Lemma keeps_blind_at_found P id f :
  (∀ s g, P s → P (set_index g s)) → keeps P (at_found id f).
Proof. intros HP. apply keeps_at_found. intros s td _. apply HP. Qed.

Lemma keeps_blind_RemoveDecoration P h :
  (∀ s g, P s → P (set_index g s)) → keeps P (RemoveDecoration h).
Proof.
  intros HP. unfold RemoveDecoration.
  repeat first [ by apply keeps_blind_at_found | keeps_step ].
Qed.

Lemma keeps_blind_AddDecoration P h :
  (∀ s g, P s → P (set_index g s)) → keeps P (AddDecoration h).
Proof.
  intros HP. unfold AddDecoration, at_id.
  repeat first [ apply keeps_modify; intros ?; by apply HP | keeps_step ].
Qed.

(** [ForgetUses], [AnalyzeUses] and [KillInst] say what they do and then
    work on the index; [KillInst] deletes the instruction at the end. *)
Lemma notified_store e (m : M unit) s s' :
  (∀ P, (∀ s g, P s → P (set_index g s)) → keeps P m) →
  (log e ;;; m) s = Ok (tt, s') →
  insts s' = insts s ∧ next_ptr s' = next_ptr s
  ∧ trace s' = trace s ++ [e].
Proof.
  intros Hm H. apply bindM_Ok in H as ([] & s1 & [= <-] & H).
  by eapply (Hm (λ s0, insts s0 = insts s ∧ next_ptr s0 = next_ptr s
                       ∧ trace s0 = trace s ++ [e])); [|exact H|].
Qed.

Lemma ForgetUses_store h s s' :
  ForgetUses h s = Ok (tt, s') →
  insts s' = insts s ∧ next_ptr s' = next_ptr s
  ∧ trace s' = trace s ++ [EvForgetUses h].
Proof.
  apply notified_store. intros P HP.
  repeat first [ by apply keeps_blind_RemoveDecoration | keeps_step ].
Qed.

Lemma AnalyzeUses_store h s s' :
  AnalyzeUses h s = Ok (tt, s') →
  insts s' = insts s ∧ next_ptr s' = next_ptr s
  ∧ trace s' = trace s ++ [EvAnalyzeUses h].
Proof.
  apply notified_store. intros P HP.
  repeat first [ by apply keeps_blind_AddDecoration | keeps_step ].
Qed.

Lemma KillInst_store k s s' :
  KillInst k s = Ok (tt, s') →
  insts s' = delete k (insts s) ∧ trace s' = trace s ++ [EvKillInst k].
Proof.
  intros H. unfold KillInst in H.
  apply bindM_Ok in H as ([] & s1 & [= <-] & H).
  apply bindM_Ok in H as (inst & s2 & [_ ->]%deref_Ok & H).
  apply bindM_Ok in H as ([] & s3 & Hindex & H).
  apply bindM_Ok in H as ([] & s4 & [= <-] & [= <-]). simpl.
  assert (keeps (λ s0, insts s0 = insts s
                       ∧ trace s0 = trace s ++ [EvKillInst k])
            (if IsDecoration inst then RemoveDecoration k else ret tt))
    as Hkeeps.
  { destruct (IsDecoration inst); [|apply keeps_ret].
    by apply keeps_blind_RemoveDecoration. }
  by destruct (Hkeeps _ _ _ Hindex) as [-> ->].
Qed.

Lemma mutate_store h f s s' :
  mutate h f s = Ok (tt, s') →
  ∃ inst inst',
    insts s !! h = Some inst
    ∧ insts s' = <[h := inst']> (insts s)
    ∧ next_ptr s' = next_ptr s
    ∧ trace s' = trace s ++ [EvOperandWrite h].
Proof.
  intros H. unfold mutate in H.
  apply bindM_Ok in H as (inst & s1 & [Hi ->]%deref_Ok & H).
  apply bindM_Ok in H as (inst' & s2 & [_ ->]%lift_Ok & H).
  apply bindM_Ok in H as ([] & s3 & [= <-] & [= <-]).
  by exists inst, inst'.
Qed.

Lemma clone_onto_store id d s s' :
  clone_onto id d s = Ok (tt, s') →
  ∃ new,
    insts s' = <[next_ptr s := new]> (insts s)
    ∧ next_ptr s' = S (next_ptr s)
    ∧ trace s'
      = trace s ++ [EvAddAnnotationInst (next_ptr s);
                    EvAnalyzeUses (next_ptr s)].
Proof.
  intros H. unfold clone_onto in H.
  apply bindM_Ok in H as (inst & s1 & [_ ->]%deref_Ok & H).
  apply bindM_Ok in H as (new & s2 & [_ ->]%lift_Ok & H).
  apply bindM_Ok in H as (n & s3 & Hadd & H).
  unfold AddAnnotationInst in Hadd.
  destruct (module_ s) as [anns|]; [|done]. injection Hadd as <- <-.
  apply AnalyzeUses_store in H as (Hi & Hn & Ht). simpl in *.
  exists new. by rewrite Hi, Hn, Ht, <- app_assoc.
Qed.

Section edits.
Context (tr0 : list Event).

Lemma edits_live_index kill cur s g :
  edits_live tr0 kill cur s → edits_live tr0 kill cur (set_index g s).
Proof. done. Qed.

Lemma edits_closing_index rem s g :
  edits_closing tr0 rem s → edits_closing tr0 rem (set_index g s).
Proof. done. Qed.

Lemma edits_live_told kill cur s s' e :
  edits_live tr0 kill cur s →
  insts s' = insts s → next_ptr s' = next_ptr s →
  trace s' = trace s ++ [e] →
  (∀ h, e ≠ EvOperandWrite h) → (∀ h, e ≠ EvKillInst h) →
  edits_live tr0 kill cur s'.
Proof.
  intros (Hfresh & tr & Htr & Hkill & Hw) Hi Hn Ht Hwrite Hnokill. split.
  - intros h Hh. rewrite Hi. apply Hfresh. by rewrite <- Hn.
  - exists (tr ++ [e]). split; [by rewrite Ht, Htr, app_assoc|]. split.
    + intros h [Hin|Hin%list_elem_of_singleton]%elem_of_app.
      * by eapply Hkill.
      * by eapply Hnokill.
    + intros h [Hin|Hin%list_elem_of_singleton]%elem_of_app.
      * rewrite Hi. by apply Hw.
      * by destruct (Hwrite h).
Qed.

Lemma edits_live_weaken kill h s :
  edits_live tr0 kill None s → edits_live tr0 kill (Some h) s.
Proof.
  intros (Hfresh & tr & Htr & Hkill & Hw). split; [done|].
  exists tr. split; [done|]. split; [done|]. intros h' Hh'.
  destruct (Hw h' Hh') as (inst & Hi & [[=]|Hrest]). exists inst. tauto.
Qed.

Lemma edits_live_schedule kill h s :
  edits_live tr0 kill (Some h) s → edits_live tr0 (kill ++ [h]) None s.
Proof.
  intros (Hfresh & tr & Htr & Hkill & Hw). split; [done|].
  exists tr. split; [done|]. split; [done|]. intros h' Hh'.
  destruct (Hw h' Hh') as (inst & Hi & Hrest). exists inst.
  split; [done|]. right. rewrite elem_of_app, list_elem_of_singleton.
  destruct Hrest as [[= ->]|[Hin|Hn]]; tauto.
Qed.

Lemma edits_live_settle kill h s inst :
  edits_live tr0 kill (Some h) s →
  insts s !! h = Some inst → NumInOperands inst ≠ 1 →
  edits_live tr0 kill None s.
Proof.
  intros (Hfresh & tr & Htr & Hkill & Hw) Hh Hn. split; [done|].
  exists tr. split; [done|]. split; [done|]. intros h' Hh'.
  destruct (Hw h' Hh') as (inst' & Hi & Hrest). exists inst'.
  split; [done|]. destruct Hrest as [[= ->]|[Hin|Hn']]; [|tauto|tauto].
  right. right. congruence.
Qed.

Lemma keeps_edits_live_mutate kill h f :
  keeps (edits_live tr0 kill (Some h)) (mutate h f).
Proof.
  intros s [] s' (inst & inst' & Hh & Hi & Hn & Ht)%mutate_store.
  intros (Hfresh & tr & Htr & Hkill & Hw). split.
  - intros h' Hh'. rewrite Hi, lookup_insert_ne; [apply Hfresh; lia|].
    intros <-. rewrite Hfresh in Hh; [done|lia].
  - exists (tr ++ [EvOperandWrite h]).
    split; [by rewrite Ht, Htr, app_assoc|]. split.
    + intros h' [Hin|Hin%list_elem_of_singleton]%elem_of_app; [|done].
      by eapply Hkill.
    + intros h' Hh'. rewrite Hi. destruct (decide (h' = h)) as [->|Hne].
      * rewrite lookup_insert_eq. exists inst'. split; [done|]. by left.
      * rewrite lookup_insert_ne by done. apply Hw.
        apply elem_of_app in Hh' as [Hin|Hin%list_elem_of_singleton];
          [done|congruence].
Qed.

Lemma keeps_edits_live_ForgetUses kill cur h :
  keeps (edits_live tr0 kill cur) (ForgetUses h).
Proof.
  intros s [] s' (Hi & Hn & Ht)%ForgetUses_store HP.
  by eapply edits_live_told.
Qed.

Lemma keeps_edits_live_AnalyzeUses kill cur h :
  keeps (edits_live tr0 kill cur) (AnalyzeUses h).
Proof.
  intros s [] s' (Hi & Hn & Ht)%AnalyzeUses_store HP.
  by eapply edits_live_told.
Qed.

Lemma keeps_edits_live_clone_onto kill cur id d :
  keeps (edits_live tr0 kill cur) (clone_onto id d).
Proof.
  intros s [] s' (new & Hi & Hn & Ht)%clone_onto_store.
  intros (Hfresh & tr & Htr & Hkill & Hw). split.
  - intros h Hh. rewrite Hi, lookup_insert_ne by lia. apply Hfresh. lia.
  - exists (tr ++ [EvAddAnnotationInst (next_ptr s);
                   EvAnalyzeUses (next_ptr s)]).
    split; [by rewrite Ht, Htr, app_assoc|]. split.
    + intros h [Hin|Hin]%elem_of_app; [by eapply Hkill|].
      apply elem_of_cons in Hin as [[=]|Hin%list_elem_of_singleton]; done.
    + intros h [Hin|Hin]%elem_of_app.
      * destruct (Hw h Hin) as (inst & Hh & Hrest). exists inst.
        split; [|done]. rewrite Hi, lookup_insert_ne; [done|].
        intros <-. rewrite Hfresh in Hh; [done|lia].
      * apply elem_of_cons in Hin as [[=]|Hin%list_elem_of_singleton];
          done.
Qed.

Lemma keeps_edits_live_remove_target_loop kill fuel h id stride i wm :
  keeps (edits_live tr0 kill (Some h))
    (remove_target_loop fuel h id stride i wm).
Proof.
  revert i wm. induction fuel as [|fuel IH]; intros i wm; simpl.
  { apply keeps_failM. }
  repeat first [ apply IH | apply keeps_edits_live_mutate | keeps_step ].
Qed.

Lemma remove_from_group_edits id pred acc h s acc' s' :
  remove_from_group id pred acc h s = Ok (acc', s') →
  edits_live tr0 acc.1 None s → edits_live tr0 acc'.1 None s'.
Proof.
  destruct acc as [kill to_remove]. intros H HP. simpl in HP.
  unfold remove_from_group in H.
  apply bindM_Ok in H as (inst & s1 & [_ ->]%deref_Ok & H).
  apply bindM_Ok in H as ([] & s2 & Hassert & H).
  apply (keeps_assertM _ _ _ _ _ _ Hassert) in HP.
  apply bindM_Ok in H as (group_id & s3 & [_ ->]%lift_Ok & H).
  apply bindM_Ok in H as (group_iter & s4 & [= <- <-] & H).
  destruct (id_to_decoration_insts_ s2 !! group_id) as [group|]; [|done].
  apply bindM_Ok in H as (keep & s5 & Hselect & H).
  apply (keeps_select _ _ _ _ _ _ Hselect) in HP.
  destruct (length keep =? length (direct_decorations group)).
  { by injection H as <- <-. }
  apply bindM_Ok in H as (wm & s6 & Hloop & H).
  assert (edits_live tr0 kill (Some h) s6) as HP6.
  { unfold remove_target in Hloop.
    apply bindM_Ok in Hloop as (inst0 & s0 & [_ ->]%deref_Ok & Hloop).
    eapply keeps_edits_live_remove_target_loop; [exact Hloop|].
    by apply edits_live_weaken. }
  apply bindM_Ok in H as (inst1 & s7 & [Hh1 ->]%deref_Ok & H).
  apply bindM_Ok in H as (acc1 & s8 & Hdecide & H).
  assert (edits_live tr0 acc1.1 None s8) as HP8.
  { destruct (NumInOperands inst1 =? 1) eqn:Hcount.
    - injection Hdecide as <- <-. by apply edits_live_schedule.
    - apply Nat.eqb_neq in Hcount.
      pose proof (edits_live_settle _ _ _ _ HP6 Hh1 Hcount) as HP6'.
      destruct wm.
      + apply bindM_Ok in Hdecide as ([] & s9 & Hforget & Hdecide).
        apply bindM_Ok in Hdecide as ([] & s10 & Hanalyze & Hdecide).
        injection Hdecide as <- <-. simpl.
        eapply keeps_edits_live_AnalyzeUses; [exact Hanalyze|].
        by eapply keeps_edits_live_ForgetUses.
      + by injection Hdecide as <- <-. }
  apply bindM_Ok in H as ([] & s9 & Hclones & H). injection H as <- <-.
  eapply keeps_forM_; [|exact Hclones|exact HP8].
  intros d _. apply keeps_edits_live_clone_onto.
Qed.

Lemma foldM_remove_from_group_edits id pred l : ∀ acc s acc' s',
  foldM (remove_from_group id pred) l acc s = Ok (acc', s') →
  edits_live tr0 acc.1 None s → edits_live tr0 acc'.1 None s'.
Proof.
  induction l as [|h l IH]; intros acc s acc' s' H HP; simpl in H.
  - by injection H as <- <-.
  - apply bindM_Ok in H as (acc1 & s1 & Hround & H).
    eapply IH; [exact H|]. by eapply remove_from_group_edits.
Qed.

Lemma edits_live_closing kill s :
  edits_live tr0 kill None s → edits_closing tr0 kill s.
Proof.
  intros (_ & tr & Htr & Hkill & Hw). exists tr. split; [done|].
  intros h Hh. destruct (Hw h Hh) as (inst & -> & [[=]|Hrest]).
  split; [apply Hkill | done].
Qed.

Lemma edits_closing_kill k rem rem' s s' :
  (∀ x, x ∈ rem → x = k ∨ x ∈ rem') →
  edits_closing tr0 rem s →
  KillInst k s = Ok (tt, s') →
  edits_closing tr0 rem' s'.
Proof.
  intros Hrem (tr & Htr & Hw) [Hi Ht]%KillInst_store.
  exists (tr ++ [EvKillInst k]). split; [by rewrite Ht, Htr, app_assoc|].
  intros h [Hin|Hin%list_elem_of_singleton]%elem_of_app; [|done].
  specialize (Hw h Hin). rewrite Hi.
  destruct (decide (h = k)) as [->|Hne].
  - rewrite lookup_delete_eq. apply elem_of_app. right. by left.
  - rewrite lookup_delete_ne by done.
    destruct (insts s !! h) as [inst|].
    + destruct Hw as [Hnot Hrest]. split.
      * intros [?|[=]%list_elem_of_singleton]%elem_of_app; done.
      * destruct Hrest as [Hin'|Hn]; [|by right].
        destruct (Hrem h Hin') as [->|?]; [done|by left].
    + apply elem_of_app. by left.
Qed.

Lemma keeps_edits_closing_KillInst k :
  keeps (edits_closing tr0 []) (KillInst k).
Proof.
  intros s [] s' H HP. eapply edits_closing_kill; [|exact HP|exact H].
  intros x Hx. by right.
Qed.

Lemma kill_loop_edits l : ∀ s s',
  forM_ l KillInst s = Ok (tt, s') →
  edits_closing tr0 l s → edits_closing tr0 [] s'.
Proof.
  induction l as [|k l IH]; intros s s' H HP; simpl in H.
  - by injection H as <-.
  - apply bindM_Ok in H as ([] & s1 & Hkill & H).
    eapply IH; [exact H|].
    eapply edits_closing_kill; [|exact HP|exact Hkill].
    intros x [->|Hx]%elem_of_cons; [by left|by right].
Qed.

End edits.

Lemma RemoveDecorationsFrom_edits id pred s s' :
  RemoveDecorationsFrom id pred s = Ok (tt, s') →
  fresh_store s →
  edits_closing (trace s) [] s'.
Proof.
  intros H Hfresh.
  assert (edits_live (trace s) [] None s) as HP.
  { split; [done|]. exists []. rewrite app_nil_r.
    split; [done|]. split; intros h Hh; by apply elem_of_nil in Hh. }
  unfold RemoveDecorationsFrom in H.
  apply bindM_Ok in H as (ids_iter & s0 & [= <- <-] & H).
  destruct (id_to_decoration_insts_ s !! id) as [td|].
  - apply bindM_Ok in H as ([] & s1 & Hcontext & H).
    apply (keeps_module_context _ _ _ _ Hcontext) in HP.
    apply bindM_Ok in H as (kill & s2 & Hselect & H).
    apply (keeps_select _ _ _ _ _ _ Hselect) in HP.
    assert (edits_live (trace s) kill None s2) as HP2.
    { destruct HP as (? & tr & ? & ? & Hw). split; [done|].
      exists tr. repeat split; try done. intros h Hh.
      destruct (Hw h Hh) as (inst & ? & [?|[Hin|?]]); exists inst; try tauto.
      by apply elem_of_nil in Hin. }
    apply bindM_Ok in H as ([kill' to_remove] & s3 & Hrounds & H).
    apply (foldM_remove_from_group_edits (trace s)) in Hrounds; [|done].
    simpl in Hrounds.
    apply bindM_Ok in H as ([] & s4 & Hindex & H).
    assert (edits_live (trace s) kill' None s4) as HP4.
    { eapply (keeps_blind_at_found (edits_live (trace s) kill' None));
        [|exact Hindex|exact Hrounds].
      intros. by apply edits_live_index. }
    apply edits_live_closing in HP4.
    apply bindM_Ok in H as ([] & s5 & Hkills & H).
    apply (kill_loop_edits (trace s)) in Hkills; [|done].
    match type of H with
    | ?m _ = _ => assert (keeps (edits_closing (trace s) []) m) as Hkeeps
    end.
    { unfold find, KillDef.
      repeat first
        [ apply keeps_edits_closing_KillInst
        | apply keeps_modify; intros ?; by apply edits_closing_index
        | keeps_step ]. }
    exact (Hkeeps _ _ _ H Hkills).
  - injection H as <-. by apply (edits_live_closing (trace s) []).
Qed.

(** C2, as the code has it.  [cloneDecorations] puts every operand write
    to a group-apply instruction between [forgetUses] and [analyzeUses]
    of that instruction, with nothing else in between.
    [removeDecorationsFrom] writes the operands first.  Every instruction
    it writes to is then reported or killed: reported by a [forgetUses]
    that comes directly after the last write and is directly followed by
    [analyzeUses], or else killed before the call returns; [forgetUses]
    is not called in any other place.  In a store whose addresses from
    [next_ptr] on are free, an instruction that was written to and is
    still there afterwards has a target left, was reported and was not
    killed, and one that is gone was killed: what is left without
    targets is killed, the rest is reported. *)
Theorem C2_notification_order (s s' : State) (from to id : N)
    (pred : Instruction → bool) :
  (CloneDecorations from to s = Ok (tt, s') →
   ∃ tr, trace s' = trace s ++ tr ∧ bracketed tr = true)
  ∧ (RemoveDecorationsFrom id pred s = Ok (tt, s') →
     ∃ tr, trace s' = trace s ++ tr
           ∧ reported_or_killed tr = true
           ∧ (∀ h, EvOperandWrite h ∈ tr →
                   reported tr h ∨ EvKillInst h ∈ tr)
           ∧ (fresh_store s →
              ∀ h, EvOperandWrite h ∈ tr → edit_outcome tr s' h)).
Proof.
  split; intros H.
  - destruct (CloneDecorations_bracket from to _ _ _ H)
      as (tr & st & Htr & Hrun & ->).
    exists tr. split; [done|]. unfold bracketed.
    by apply bool_decide_eq_true_2.
  - destruct (RemoveDecorationsFrom_notify id pred _ _ _ H)
      as (tr & st & Htr & Hrun & ->).
    exists tr. split; [done|]. split; [|split].
    + unfold reported_or_killed. by apply bool_decide_eq_true_2.
    + intros h Hh. destruct (decide (EvKillInst h ∈ tr)); [by right|].
      left. by apply run_reported.
    + intros Hfresh h Hh.
      destruct (RemoveDecorationsFrom_edits _ _ _ _ H Hfresh)
        as (tr' & Htr' & Hw).
      assert (tr' = tr) as ->
        by (apply (app_inv_head (trace s)); congruence).
      specialize (Hw h Hh). unfold edit_outcome.
      destruct (insts s' !! h) as [inst|]; [|done].
      destruct Hw as [Hnot [Hin|Hn]]; [by apply elem_of_nil in Hin|].
      split; [done|]. split; [|done]. by apply run_reported.
Qed.

(** * Concrete modules *)

(** C3: [OpGroupMemberDecorate %10 %5 5] applies the group [%10] to
    member 5 of [%5].  [cloneDecorations(5, 7)] appends the pair of [%7]
    to the instruction, but [AddDecoration] indexes it under its member
    literals (it starts at operand 2) and not under its targets (operands
    1, 3, ..., as [RemoveDecoration] has them): the id 7 gets no
    decoration and the id 5 gets the decoration of the group twice.
    Through an [OpGroupDecorate] the same call does what the claim says:
    the clone target gets the decorations of the group and those of the
    source stay as they were. *)
Theorem C3_clone_through_member_group :
  let s := exec AnalyzeDecorations member_module in
  let s' := exec (CloneDecorations 5%N 7%N) s in
  let t := exec AnalyzeDecorations partial_removal_module in
  let t' := exec (CloneDecorations 1%N 7%N) t in
  (AnalyzeDecorations member_module = Ok (tt, s)
   ∧ GetDecorationsFor s 5%N true = Ok [0]
   ∧ CloneDecorations 5%N 7%N s = Ok (tt, s')
   ∧ insts s' !! 2
     = Some (group_member_decorate 10%N [(5%N, 5%N); (7%N, 5%N)])
   ∧ GetDecorationsFor s' 7%N true = Ok []
   ∧ GetDecorationsFor s' 5%N true = Ok [0; 0])
  ∧ (AnalyzeDecorations partial_removal_module = Ok (tt, t)
     ∧ GetDecorationsFor t 1%N true = Ok [0; 1]
     ∧ CloneDecorations 1%N 7%N t = Ok (tt, t')
     ∧ insts t' !! 3 = Some (group_decorate 10%N [1%N; 2%N; 7%N])
     ∧ GetDecorationsFor t' 7%N true = Ok [0; 1]
     ∧ GetDecorationsFor t' 1%N true = Ok [0; 1]).
Proof. vm_compute. repeat split. Qed.

Lemma C1_partial_removal_witness :
  ∃ s',
    (AnalyzeDecorations ;;; RemoveDecorationsFrom 1%N (drops_kind 19%N))
      partial_removal_module
    = Ok (tt, s')
    ∧ GetDecorationsFor s' 1%N true = Ok [4]
    ∧ id_to_decoration_insts_ s' !! 1%N = Some (mkTargetData [4] [] [])
    ∧ insts s' !! 4
      = Some (decoration SpvOpDecorate 1%N (kind_operand 22%N) [])
    ∧ AreDecorationsTheSame
        (decoration SpvOpDecorate 10%N (kind_operand 22%N) [])
        (decoration SpvOpDecorate 1%N (kind_operand 22%N) []) true
      = Ok true
    ∧ insts s' !! 3 = Some (group_decorate 10%N [2%N])
    ∧ GetDecorationsFor s' 2%N true = Ok [0; 1]
    ∧ id_to_decoration_insts_ s' !! 2%N = Some (mkTargetData [] [3] [])
    ∧ insts s' !! 0
      = Some (decoration SpvOpDecorate 10%N (kind_operand 22%N) [])
    ∧ insts s' !! 1
      = Some (decoration SpvOpDecorate 10%N (kind_operand 19%N) []).
Proof.
  apply (C1_partial_removal 10%N 1%N 2%N SpvOpDecorate SpvOpDecorate
           SPV_OPERAND_TYPE_DECORATION SPV_OPERAND_TYPE_DECORATION
           22%N 19%N [] [] (drops_kind 19%N) [1%N; 2%N]);
    first [ done | reflexivity | by left ].
Defined.

Lemma C2_counterexample : ¬ bracketing_claim.
Proof.
  intros [Hremove _].
  pose (s := exec AnalyzeDecorations partial_removal_module).
  destruct (Hremove s 1%N (drops_kind 19%N)
              (exec (RemoveDecorationsFrom 1%N (drops_kind 19%N)) s))
    as (tr & Htr & Hbracketed).
  { vm_compute. reflexivity. }
  vm_compute in Htr. subst tr. vm_compute in Hbracketed. discriminate.
Qed.

Lemma C2_notification_order_witness :
  let s := exec AnalyzeDecorations partial_removal_module in
  let s' := exec (RemoveDecorationsFrom 1%N (drops_kind 19%N)) s in
  (∃ tr, trace (exec (CloneDecorations 1%N 7%N) s) = trace s ++ tr
         ∧ bracketed tr = true)
  ∧ (∃ tr, trace s' = trace s ++ tr
           ∧ reported_or_killed tr = true
           ∧ (∀ h, EvOperandWrite h ∈ tr →
                   reported tr h ∨ EvKillInst h ∈ tr)
           ∧ ∀ h, EvOperandWrite h ∈ tr → edit_outcome tr s' h).
Proof.
  intros s s'. split.
  - destruct (C2_notification_order s (exec (CloneDecorations 1%N 7%N) s)
                1%N 7%N 1%N (drops_kind 19%N)) as [Hclone _].
    apply Hclone. vm_compute. reflexivity.
  - destruct (C2_notification_order s s' 1%N 7%N 1%N (drops_kind 19%N))
      as [_ Hremove].
    destruct Hremove as (tr & Htr & Hreported & Heach & Houtcome).
    { vm_compute. reflexivity. }
    exists tr. split; [done|]. split; [done|]. split; [done|].
    apply Houtcome.
    intros h Hh.
    destruct (insts s !! h) as [inst|] eqn:Hinst; [|done].
    apply elem_of_map_to_list in Hinst.
    vm_compute (map_to_list _) in Hinst.
    apply list_elem_of_In in Hinst. simpl in Hinst.
    change (next_ptr s) with 4 in Hh.
    destruct Hinst as [Hinst|[Hinst|[Hinst|[Hinst|[]]]]];
      injection Hinst as <- _; lia.
Defined.

Lemma C4_counterexample :
  ¬ group_emptying_claim 10%N 1%N
      (decoration SpvOpDecorate 10%N (kind_operand 19%N) []).
Proof.
  intros Hclaim.
  destruct (Hclaim (exec (AnalyzeDecorations ;;;
                          RemoveDecorationsFrom 1%N always_true)
                      group_emptying_module))
    as (_ & Hdef & _).
  { vm_compute. reflexivity. }
  vm_compute in Hdef. discriminate.
Qed.

Lemma C4_group_emptying_witness :
  (∃ s',
     (AnalyzeDecorations ;;; RemoveDecorationsFrom 1%N always_true)
       group_emptying_module
     = Ok (tt, s')
     ∧ insts s' !! 2 = None
     ∧ module_ s' = Some [0; 1]
     ∧ id_to_decoration_insts_ s' !! 1%N = None
     ∧ insts s' !! 1 = Some decoration_group
     ∧ insts s' !! 0
       = Some (decoration SpvOpDecorate 10%N (kind_operand 19%N) [])
     ∧ id_to_decoration_insts_ s' !! 10%N = Some (mkTargetData [0] [] []))
  ∧ (∃ s',
       (AnalyzeDecorations ;;; RemoveDecorationsFrom 10%N always_true)
         group_emptying_module
       = Ok (tt, s')
       ∧ insts s' !! 0 = None ∧ insts s' !! 1 = None ∧ insts s' !! 2 = None
       ∧ module_ s' = Some []
       ∧ id_to_decoration_insts_ s' !! 10%N = None).
Proof.
  apply (C4_group_emptying 10%N 1%N SpvOpDecorate (kind_operand 19%N) []);
    done.
Defined.

Lemma C5_decorations_for_witness :
  let s := exec AnalyzeDecorations partial_removal_module in
  InternalGetDecorationsFor s 1%N false = Ok (decorationsFor_spec s 1%N false)
  ∧ (id_to_decoration_insts_ s !! 1%N = None →
     InternalGetDecorationsFor s 1%N false = Ok []).
Proof.
  intros s. apply C5_decorations_for.
  intros td Htd. vm_compute in Htd. injection Htd as <-.
  vm_compute. reflexivity.
Defined.

Lemma C6_counterexample : ¬ fatal_conditions_claim.
Proof.
  intros (_ & Hcomparator & _ & _).
  destruct (Hcomparator decoration_group decoration_group true eq_refl)
    as [msg Hmsg].
  vm_compute in Hmsg. discriminate.
Qed.

Lemma C6_assertions_witness :
  aborts (InternalGetDecorationsFor unknown_group_state 1%N true)
  ∧ aborts (RemoveDecorationsFrom 1%N always_true unknown_group_state)
  ∧ AreDecorationsTheSame decoration_group decoration_group true = Ok false
  ∧ (aborts (WhileEachDecoration stray_direct_state 1%N 19%N
               (λ _ (x : unit), (true, x)) tt)
     ∧ aborts (ForEachDecoration stray_direct_state 1%N 19%N
                 (λ _ (x : unit), x) tt))
  ∧ RemoveDecoration 2 (exec AnalyzeDecorations partial_removal_module)
    = Ok (tt, exec AnalyzeDecorations partial_removal_module).
Proof.
  pose proof (C6_assertions unknown_group_state 1%N 10%N
                (mkTargetData [] [0] []) true true always_true [] [] 0
                (group_decorate 10%N [1%N]) decoration_group unit 19%N
                (λ _ x, (true, x)) (λ _ x, x) tt)
    as (Hlookup & Hremove & _).
  pose proof (C6_assertions stray_direct_state 1%N 10%N
                (mkTargetData [0] [] []) true true always_true [] [] 0
                decoration_group decoration_group unit 19%N
                (λ _ x, (true, x)) (λ _ x, x) tt)
    as (_ & _ & Hsame & Heach & _).
  pose proof (C6_assertions (exec AnalyzeDecorations partial_removal_module)
                1%N 10%N (mkTargetData [] [] []) true true always_true
                [] [] 2 decoration_group decoration_group unit 19%N
                (λ _ x, (true, x)) (λ _ x, x) tt)
    as (_ & _ & _ & _ & Hunindex).
  split; [|split; [|split; [|split]]].
  - apply Hlookup; first [ reflexivity | vm_compute; reflexivity ].
  - apply Hremove;
      first [ reflexivity | by eexists | by constructor
            | vm_compute; reflexivity ].
  - apply Hsame. reflexivity.
  - apply Heach; first [ reflexivity | done | vm_compute; reflexivity ].
  - apply Hunindex; first [ reflexivity | vm_compute; reflexivity ].
Defined.

Lemma C7_counterexample : ¬ records_pruned_claim.
Proof.
  intros (_ & Hunindex & _ & _).
  pose (s := exec AnalyzeDecorations twin_module).
  assert (all_nonempty (exec (RemoveDecoration 0) s)) as Hafter.
  { apply (Hunindex s 0).
    - apply (bool_decide_unpack _). vm_compute. exact I.
    - vm_compute. reflexivity. }
  assert (id_to_decoration_insts_ (exec (RemoveDecoration 0) s) !! 1%N
          = Some (mkTargetData [] [] [])) as Hrecord
    by (vm_compute; reflexivity).
  specialize (Hafter _ _ Hrecord). vm_compute in Hafter. discriminate.
Qed.

Lemma C7_records_and_collections_witness :
  let built := exec AnalyzeDecorations partial_removal_module in
  all_nonempty built
  ∧ own_record_nonempty 1%N
      (exec (RemoveDecorationsFrom 1%N (drops_kind 19%N)) built)
  ∧ all_nonempty (exec (CloneDecorations 1%N 7%N) built)
  ∧ (is_Some (id_to_decoration_insts_ (exec (RemoveDecoration 0) built)
              !! 10%N)
     ↔ is_Some (id_to_decoration_insts_ built !! 10%N)).
Proof.
  intros built. split; [|split; [|split]].
  - destruct (C7_records_and_collections partial_removal_module built
                1%N 1%N 7%N 10%N (drops_kind 19%N) 0) as (Hbuild & _).
    apply Hbuild; [reflexivity | vm_compute; reflexivity].
  - destruct (C7_records_and_collections built
                (exec (RemoveDecorationsFrom 1%N (drops_kind 19%N)) built)
                1%N 1%N 7%N 10%N (drops_kind 19%N) 0) as (_ & Hremove & _).
    apply Hremove. vm_compute. reflexivity.
  - destruct (C7_records_and_collections built
                (exec (CloneDecorations 1%N 7%N) built)
                1%N 1%N 7%N 10%N (drops_kind 19%N) 0) as (_ & _ & Hclone & _).
    apply Hclone.
    + apply (bool_decide_unpack _). vm_compute. exact I.
    + apply (bool_decide_unpack _). vm_compute. exact I.
    + vm_compute. reflexivity.
  - destruct (C7_records_and_collections built
                (exec (RemoveDecoration 0) built)
                1%N 1%N 7%N 10%N (drops_kind 19%N) 0) as (_ & _ & _ & Hkeys).
    apply Hkeys. vm_compute. reflexivity.
Defined.

Lemma C8_same_decorations_witness :
  let s := exec AnalyzeDecorations twin_module in
  HaveTheSameDecorations s 1%N 2%N = Ok true
  ∧ HaveTheSameDecorations s 2%N 1%N = Ok true
  ∧ HaveTheSameDecorations
      (set_insts <[0 := decoration SpvOpDecorate 7%N (kind_operand 19%N) []]> s)
      1%N 2%N
    = HaveTheSameDecorations s 1%N 2%N.
Proof.
  intros s.
  destruct (C8_same_decorations s 1%N 2%N [0] [1] true 0
              (decoration SpvOpDecorate 1%N (kind_operand 19%N) [])
              (decoration SpvOpDecorate 7%N (kind_operand 19%N) []) 7%N)
    as (Hsame & Hsym & Htarget).
  assert (HaveTheSameDecorations s 1%N 2%N = Ok true) as H12.
  { apply Hsame; [vm_compute; reflexivity | vm_compute; reflexivity | |].
    - intros h1 Hh1. apply list_elem_of_singleton in Hh1 as ->.
      exists 1. split; [by left|]. eexists _, _.
      split; [vm_compute; reflexivity|]. split; [vm_compute; reflexivity|].
      split; reflexivity.
    - intros h1 Hh1. apply list_elem_of_singleton in Hh1 as ->.
      exists 0. split; [by left|]. eexists _, _.
      split; [vm_compute; reflexivity|]. split; [vm_compute; reflexivity|].
      split; reflexivity. }
  split; [exact H12|]. split; [by apply Hsym|].
  apply Htarget; [vm_compute; reflexivity | reflexivity | | reflexivity].
  assert (map_Forall (λ _ td, 0 ∉ indirect_decorations td)
            (id_to_decoration_insts_ s)) as Hall
    by (apply (bool_decide_unpack _); vm_compute; exact I).
  intros id td Htd. by eapply Hall.
Defined.

Lemma C9_clone_without_record_witness :
  CloneDecorations 7%N 8%N (exec AnalyzeDecorations partial_removal_module)
  = Ok (tt, exec AnalyzeDecorations partial_removal_module).
Proof. apply C9_clone_without_record. vm_compute. reflexivity. Defined.

Lemma C10_undecorated_ids_same_witness :
  HaveTheSameDecorations (exec AnalyzeDecorations partial_removal_module)
    7%N 8%N
  = Ok true.
Proof.
  apply C10_undecorated_ids_same; vm_compute; reflexivity.
Defined.

(** * Further properties of the code *)

(** ** [AreDecorationsTheSame] *)

Lemma same_operands_forallb inst1 inst2 l :
  Forall (λ i, i < NumInOperands inst1 ∧ i < NumInOperands inst2) l →
  same_operands inst1 inst2 l
  = Ok (forallb (λ i, bool_decide (in_operands inst1 !! i
                                   = in_operands inst2 !! i)) l).
Proof.
  induction 1 as [|i l [Hi1 Hi2] _ IH]; [done|].
  simpl. unfold GetInOperand.
  destruct (lookup_lt_is_Some_2 (in_operands inst1) i Hi1) as [o1 Ho1].
  destruct (lookup_lt_is_Some_2 (in_operands inst2) i Hi2) as [o2 Ho2].
  rewrite Ho1, Ho2. simpl. rewrite IH.
  destruct (decide (o1 = o2)) as [->|Hne].
  - rewrite (bool_decide_eq_false_2 (o2 ≠ o2)) by tauto.
    by rewrite bool_decide_eq_true_2.
  - rewrite (bool_decide_eq_true_2 (o1 ≠ o2)) by done.
    rewrite (bool_decide_eq_false_2 (Some o1 = Some o2)) by congruence.
    done.
Qed.

Lemma drop_eq_lookups {A} (l1 l2 : list A) k :
  length l1 = length l2 →
  drop k l1 = drop k l2
  ↔ ∀ i, i ∈ seq k (length l1 - k) → l1 !! i = l2 !! i.
Proof.
  intros Hlen. split.
  - intros Hdrop i Hi. apply list_elem_of_In, in_seq in Hi.
    replace i with (k + (i - k)) by lia.
    by rewrite <- !lookup_drop, Hdrop.
  - intros Hall. apply list_eq. intros j. rewrite !lookup_drop.
    destruct (decide (k + j < length l1)) as [Hlt|Hge].
    + apply Hall. apply list_elem_of_In, in_seq. lia.
    + rewrite !lookup_ge_None_2; [done | lia | lia].
Qed.

Lemma AreDecorationsTheSame_decides (inst1 inst2 : Instruction)
    (ignore_target : bool) :
  AreDecorationsTheSame inst1 inst2 ignore_target
  = Ok (bool_decide (same_decoration inst1 inst2 ignore_target)).
Proof.
  unfold AreDecorationsTheSame.
  destruct (is_direct_form (opcode inst1)) eqn:Hdirect.
  2: { rewrite (bool_decide_eq_false_2 (same_decoration _ _ _)).
       - revert Hdirect. by destruct (opcode inst1).
       - intros (Hd & _). congruence. }
  assert ((if bool_decide (opcode inst1 ≠ opcode inst2)
              || bool_decide (NumInOperands inst1 ≠ NumInOperands inst2)
           then Ok false
           else same_operands inst1 inst2
                  (seq (first_compared ignore_target)
                     (NumInOperands inst1 - first_compared ignore_target)))
          = Ok (bool_decide (same_decoration inst1 inst2 ignore_target)))
    as Hbody.
  { destruct (decide (opcode inst1 = opcode inst2)) as [Hop|Hop].
    2: { rewrite (bool_decide_eq_true_2 (_ ≠ _)) by done. simpl.
         rewrite (bool_decide_eq_false_2 (same_decoration _ _ _)); [done|].
         by intros (_ & ? & _). }
    rewrite (bool_decide_eq_false_2 (opcode inst1 ≠ _)) by tauto. simpl.
    destruct (decide (NumInOperands inst1 = NumInOperands inst2))
      as [Hnum|Hnum].
    2: { rewrite (bool_decide_eq_true_2 (_ ≠ _)) by done.
         rewrite (bool_decide_eq_false_2 (same_decoration _ _ _)); [done|].
         by intros (_ & _ & ? & _). }
    rewrite (bool_decide_eq_false_2 (NumInOperands inst1 ≠ _)) by tauto.
    rewrite same_operands_forallb.
    2: { apply Forall_forall. intros i Hi.
         apply list_elem_of_In, in_seq in Hi. lia. }
    f_equal. apply eq_true_iff_eq.
    rewrite forallb_forall.
    rewrite (bool_decide_eq_true (same_decoration inst1 inst2 ignore_target)).
    unfold same_decoration.
    rewrite (drop_eq_lookups _ _ _ Hnum). unfold NumInOperands. split.
    - intros Hall. repeat split; try done.
      intros i Hi. apply list_elem_of_In, Hall in Hi.
      by apply bool_decide_eq_true in Hi.
    - intros (_ & _ & _ & Hall) i Hi. apply bool_decide_eq_true_2, Hall.
      by apply list_elem_of_In. }
  unfold first_compared in Hbody. revert Hdirect Hbody.
  generalize (bool_decide (same_decoration inst1 inst2 ignore_target)).
  intros b. by destruct (opcode inst1).
Qed.

(** X1: [AreDecorationsTheSame] always returns, and it returns true
    exactly when the two instructions are of the same direct form, have
    the same number of operands and the same operands from operand 1
    (target ignored) or operand 0 on. *)
Theorem X1_AreDecorationsTheSame_decides (inst1 inst2 : Instruction)
    (ignore_target : bool) :
  AreDecorationsTheSame inst1 inst2 ignore_target
  = Ok (bool_decide (same_decoration inst1 inst2 ignore_target)).
Proof. apply AreDecorationsTheSame_decides. Qed.

(** X2: where [AreDecorationsTheSame] answers true it behaves as an
    equivalence: from true for [inst1], [inst2] and for [inst2], [inst3]
    follow true for the swapped pair, for [inst1], [inst3] and for
    [inst1] with itself. *)
Theorem X2_AreDecorationsTheSame_equivalence (inst1 inst2 inst3 : Instruction)
    (ignore_target : bool) :
  AreDecorationsTheSame inst1 inst2 ignore_target = Ok true →
  AreDecorationsTheSame inst2 inst3 ignore_target = Ok true →
  AreDecorationsTheSame inst2 inst1 ignore_target = Ok true
  ∧ AreDecorationsTheSame inst1 inst3 ignore_target = Ok true
  ∧ AreDecorationsTheSame inst1 inst1 ignore_target = Ok true.
Proof.
  rewrite !AreDecorationsTheSame_decides.
  intros [= H12] [= H23].
  apply bool_decide_eq_true in H12 as (Hd & Hop & Hn & Hdrop).
  apply bool_decide_eq_true in H23 as (Hd' & Hop' & Hn' & Hdrop').
  repeat split; f_equal; apply bool_decide_eq_true; unfold same_decoration;
    repeat split; congruence.
Qed.

(** ** [WhileEachDecoration] and [ForEachDecoration] *)

Lemma GetSingleWordInOperand_Ok inst i w :
  GetSingleWordInOperand inst i = Ok w
  ↔ words <$> in_operands inst !! i = Some [w].
Proof.
  unfold GetSingleWordInOperand, GetInOperand.
  destruct (in_operands inst !! i) as [op|]; simpl; [|split; discriminate].
  destruct (words op) as [|w' [|]]; split; intros [=]; by subst.
Qed.

Lemma while_each_visit {X} s decoration (f : Instruction → X → bool * X) l x :
  forallb (visitable s) l = true →
  while_each s decoration f l x = Ok (visit f (matching s decoration l) x).
Proof.
  revert x. induction l as [|h l IH]; intros x Hl; [done|].
  simpl in Hl. apply andb_prop in Hl as [Hh Hl].
  unfold visitable in Hh. unfold matching in *. simpl. unfold read.
  destruct (insts s !! h) as [inst|]; [|done]. simpl.
  apply andb_prop in Hh as [Hdirect Hkind].
  assert (∀ r : Result (bool * X),
    (w <- GetSingleWordInOperand inst (kind_index inst) ;;
     if bool_decide (w = decoration) then
       let '(go_on, x') := f inst x in
       if go_on then while_each s decoration f l x' else Ok (false, x')
     else while_each s decoration f l x) = r →
    match opcode inst with
    | SpvOpMemberDecorate =>
        w <- GetSingleWordInOperand inst 2 ;;
        if bool_decide (w = decoration) then
          let '(go_on, x') := f inst x in
          if go_on then while_each s decoration f l x' else Ok (false, x')
        else while_each s decoration f l x
    | SpvOpDecorate | SpvOpDecorateId | SpvOpDecorateStringGOOGLE =>
        w <- GetSingleWordInOperand inst 1 ;;
        if bool_decide (w = decoration) then
          let '(go_on, x') := f inst x in
          if go_on then while_each s decoration f l x' else Ok (false, x')
        else while_each s decoration f l x
    | _ => Fail (AssertFail "Unexpected decoration instruction")
    end = r) as Hcase.
  { unfold kind_index. intros r <-. revert Hdirect.
    by destruct (opcode inst). }
  apply Hcase. clear Hcase.
  fold (kind_index inst) in Hkind.
  destruct (GetSingleWordInOperand inst (kind_index inst)) as [w|] eqn:Hw;
    [|done].
  apply GetSingleWordInOperand_Ok in Hw. simpl.
  assert (of_kind decoration inst = bool_decide (w = decoration)) as Hkind'.
  { unfold of_kind. rewrite Hw. apply bool_decide_ext. split; congruence. }
  rewrite filter_cons, Hkind'.
  destruct (decide (w = decoration)) as [->|Hne].
  - rewrite !bool_decide_eq_true_2 by done.
    rewrite decide_True by done. simpl.
    destruct (f inst x) as [[] x']; [|done]. by apply IH.
  - rewrite (bool_decide_eq_false_2 (w = decoration)) by done.
    rewrite decide_False by done. by apply IH.
Qed.

Lemma visit_always {X} (g : Instruction → X → X) l x :
  visit (λ inst x, (true, g inst x)) l x = (true, foldl (λ x inst, g inst x) x l).
Proof. revert x. induction l as [|inst l IH]; intros x; simpl; [done|apply IH]. Qed.

(** X3: when the decorations of [id] (linkage included) are all direct
    forms whose kind can be read, [WhileEachDecoration] calls [f] on
    those of the kind [decoration], in the order of [GetDecorationsFor],
    up to the first call that answers false, which it answers itself;
    [ForEachDecoration] calls [g] on all of them. *)
Theorem X3_enumeration_visits_matching (X : Type) (s : State)
    (id decoration : N) (l : list InstPtr)
    (f : Instruction → X → bool * X) (g : Instruction → X → X) (x : X) :
  GetDecorationsFor s id true = Ok l →
  forallb (visitable s) l = true →
  WhileEachDecoration s id decoration f x
  = Ok (visit f (matching s decoration l) x)
  ∧ ForEachDecoration s id decoration g x
    = Ok (foldl (λ x inst, g inst x) x (matching s decoration l)).
Proof.
  intros Hl Hv. unfold ForEachDecoration, WhileEachDecoration.
  rewrite Hl. simpl. rewrite !while_each_visit by done.
  split; [done|]. simpl. by rewrite visit_always.
Qed.

(** ** [GetDecorationsFor] *)

Lemma process_direct_decorations_returns s incl direct decorations l :
  process_direct_decorations s incl direct decorations = Ok l →
  forallb (readable_direct s) direct = true.
Proof.
  unfold process_direct_decorations.
  revert decorations. induction direct as [|h direct IH]; intros acc; [done|].
  simpl. intros (acc' & Hstep & Hrest)%rbind_Ok.
  apply rbind_Ok in Hstep as (inst & Hr & Hstep).
  apply rbind_Ok in Hstep as (b & Hb & _).
  unfold readable_direct at 1. rewrite Hr, Hb. simpl. by eapply IH.
Qed.

Lemma InternalGetDecorationsFor_returns s id incl l td :
  InternalGetDecorationsFor s id incl = Ok l →
  id_to_decoration_insts_ s !! id = Some td →
  well_formed_record s td = true.
Proof.
  unfold InternalGetDecorationsFor. intros Hl Htd. rewrite Htd in Hl.
  apply rbind_Ok in Hl as (acc & Hdirect & Hl).
  unfold well_formed_record.
  rewrite (process_direct_decorations_returns _ _ _ _ _ Hdirect). simpl.
  clear Hdirect Htd. revert acc Hl.
  induction (indirect_decorations td) as [|h hs IH]; intros acc; [done|].
  simpl. intros (acc' & Hstep & Hrest)%rbind_Ok.
  rewrite (IH _ Hrest), andb_true_r.
  apply rbind_Ok in Hstep as (inst & Hr & Hstep).
  apply rbind_Ok in Hstep as (g & Hg & Hstep).
  destruct (id_to_decoration_insts_ s !! g) as [group|] eqn:Hgroup; [|done].
  apply process_direct_decorations_returns in Hstep.
  unfold resolvable_group, group_record.
  unfold read in Hr. destruct (insts s !! h) as [inst'|]; [|done].
  injection Hr as ->. simpl.
  unfold GetSingleWordInOperand, GetInOperand in Hg.
  destruct (in_operands inst !! 0) as [op|]; [|done]. simpl in *.
  destruct (words op) as [|w [|]]; try done.
  injection Hg as ->. by rewrite Hgroup.
Qed.

Lemma InternalGetDecorationsFor_well_formed s id incl :
  (∀ td, id_to_decoration_insts_ s !! id = Some td →
         well_formed_record s td = true) →
  InternalGetDecorationsFor s id incl = Ok (decorationsFor_spec s id incl).
Proof.
  intros Hwf. unfold InternalGetDecorationsFor, decorationsFor_spec.
  destruct (id_to_decoration_insts_ s !! id) as [td|]; [|done].
  specialize (Hwf td eq_refl). unfold well_formed_record in Hwf.
  apply andb_prop in Hwf as [Hdirect Hindirect].
  rewrite (process_direct_decorations_spec _ _ _ _ Hdirect). simpl.
  generalize (filter (λ h, shown s incl h) (direct_decorations td)).
  induction (indirect_decorations td) as [|h l IH]; intros acc.
  - simpl. by rewrite app_nil_r.
  - simpl in Hindirect. apply andb_prop in Hindirect as [Hh Hl].
    destruct (resolvable_group_inv s h Hh)
      as (inst & g & group & Hr & Hw & Hg & Hrec & Hall).
    simpl. rewrite Hr. simpl. rewrite Hw. simpl. rewrite Hg.
    rewrite (process_direct_decorations_spec _ _ _ _ Hall). simpl.
    rewrite (IH Hl). rewrite Hrec. simpl. by rewrite <- app_assoc.
Qed.

Lemma GetDecorationsFor_Ok s id incl l :
  GetDecorationsFor s id incl = Ok l
  ↔ (∀ td, id_to_decoration_insts_ s !! id = Some td →
           well_formed_record s td = true)
    ∧ l = decorationsFor_spec s id incl.
Proof.
  unfold GetDecorationsFor. split.
  - intros Hl.
    assert (∀ td, id_to_decoration_insts_ s !! id = Some td →
                  well_formed_record s td = true) as Hwf
      by (intros td; by eapply InternalGetDecorationsFor_returns).
    split; [done|].
    rewrite (InternalGetDecorationsFor_well_formed _ _ _ Hwf) in Hl.
    by injection Hl.
  - intros [Hwf ->]. by apply InternalGetDecorationsFor_well_formed.
Qed.

Lemma filter_concat {A} (P : A → Prop) `{!∀ x, Decision (P x)}
    (ls : list (list A)) :
  filter P (concat ls) = concat (filter P <$> ls).
Proof.
  induction ls as [|l ls IH]; [done|]. simpl. by rewrite filter_app, IH.
Qed.

Lemma shown_without_linkage s (l : list InstPtr) :
  filter (λ h, shown s false h) l
  = filter (λ h, holds s is_linkage_decorate h = false)
      (filter (λ h, shown s true h) l).
Proof.
  rewrite list_filter_filter. apply list_filter_iff. intros h.
  unfold shown, holds. destruct (insts s !! h) as [inst|]; simpl.
  - destruct (is_linkage_decorate inst); simpl; intuition congruence.
  - simpl. tauto.
Qed.

Lemma decorationsFor_spec_without_linkage s id :
  decorationsFor_spec s id false
  = filter (λ h, holds s is_linkage_decorate h = false)
      (decorationsFor_spec s id true).
Proof.
  unfold decorationsFor_spec.
  destruct (id_to_decoration_insts_ s !! id) as [td|]; [|done].
  rewrite filter_app, filter_concat, <- list_fmap_compose.
  rewrite <- shown_without_linkage. f_equal. f_equal.
  apply list_fmap_ext. intros _ h _. simpl. apply shown_without_linkage.
Qed.

(** X4: [GetDecorationsFor] returns exactly when the record of the id
    can be read through: the direct decorations are live (with a one-word
    kind where [OpDecorate]), and each instruction of the indirect list
    is live and names, in a one-word operand 0, a group that has a record
    whose direct decorations can be read the same way.  The linkage flag
    plays no part in it. *)
Theorem X4_lookup_returns_iff_readable (s : State) (id : N) (td : TargetData)
    (include_linkage : bool) :
  id_to_decoration_insts_ s !! id = Some td →
  (∃ l, GetDecorationsFor s id include_linkage = Ok l)
  ↔ well_formed_record s td = true.
Proof.
  intros Htd. split.
  - intros [l Hl]. apply GetDecorationsFor_Ok in Hl as [Hwf _]. by apply Hwf.
  - intros Hwf. eexists. apply GetDecorationsFor_Ok. split; [|done].
    intros td' Htd'. congruence.
Qed.

(** X5: the lookup without linkage is the lookup with linkage, minus the
    [OpDecorate] instructions of the linkage-attributes kind: same
    instructions otherwise, same order. *)
Theorem X5_linkage_only_filters (s : State) (id : N) (l : list InstPtr) :
  GetDecorationsFor s id true = Ok l →
  GetDecorationsFor s id false
  = Ok (filter (λ h, holds s is_linkage_decorate h = false) l).
Proof.
  intros [Hwf ->]%GetDecorationsFor_Ok.
  apply GetDecorationsFor_Ok. split; [done|].
  symmetry. apply decorationsFor_spec_without_linkage.
Qed.

(** ** [HaveTheSameDecorations] *)

Lemma elem_of_concat {A} (x : A) (ls : list (list A)) :
  x ∈ concat ls ↔ ∃ l, x ∈ l ∧ l ∈ ls.
Proof.
  induction ls as [|l ls IH]; simpl.
  - split; [by intros ?%elem_of_nil|by intros (? & _ & ?%elem_of_nil)].
  - rewrite elem_of_app, IH. split.
    + intros [?|(l' & ? & ?)]; [exists l|exists l']; split; try done.
      * by left.
      * by right.
    + intros (l' & Hx & [->|?]%elem_of_cons); [by left|right; by exists l'].
Qed.

Lemma decorationsFor_spec_live s id incl h :
  h ∈ decorationsFor_spec s id incl → is_Some (insts s !! h).
Proof.
  assert (∀ l : list InstPtr,
            h ∈ filter (λ h, shown s incl h) l → is_Some (insts s !! h))
    as Hshown.
  { intros l [Hs _]%list_elem_of_filter. unfold shown in Hs.
    by destruct (insts s !! h). }
  unfold decorationsFor_spec.
  destruct (id_to_decoration_insts_ s !! id) as [td|];
    [|by intros ?%elem_of_nil].
  intros [Hd|Hg]%elem_of_app; [by eapply Hshown|].
  apply elem_of_concat in Hg as (l & Hh & Hl).
  apply list_elem_of_fmap in Hl as (g & -> & _). by eapply Hshown.
Qed.

Lemma GetDecorationsFor_live s id incl l h :
  GetDecorationsFor s id incl = Ok l → h ∈ l → is_Some (insts s !! h).
Proof.
  intros [_ ->]%GetDecorationsFor_Ok. apply decorationsFor_spec_live.
Qed.

Lemma payloads_of_none op : payloads_of op no_DecorationSets = ∅.
Proof. by destruct op. Qed.

Lemma fillDecorationSets_carries s l sets op p :
  fillDecorationSets s l = Ok sets →
  is_direct_form op = true →
  p ∈ payloads_of op sets ↔ carries s l op p.
Proof.
  intros Hfill Hop. unfold fillDecorationSets in Hfill.
  rewrite (fill_payloads _ _ _ _ op p Hfill), payloads_of_none.
  unfold carries. split.
  - intros [[]%elem_of_empty|(h & inst & ?)]. exists h, inst. tauto.
  - intros (h & inst & ?). right. exists h, inst. tauto.
Qed.

Lemma sets_equal_payloads sets1 sets2 :
  bool_decide (decorate_set sets1 = decorate_set sets2)
  && bool_decide (decorate_id_set sets1 = decorate_id_set sets2)
  && bool_decide (member_decorate_set sets1 = member_decorate_set sets2)
  && bool_decide (decorate_string_set sets1 = decorate_string_set sets2)
  = true
  ↔ ∀ op, is_direct_form op = true →
          payloads_of op sets1 = payloads_of op sets2.
Proof.
  rewrite !andb_true_iff, !bool_decide_eq_true. split.
  - intros [[[H1 H2] H3] H4] op Hop. by destruct op.
  - intros Hall.
    pose proof (Hall SpvOpDecorate eq_refl).
    pose proof (Hall SpvOpDecorateId eq_refl).
    pose proof (Hall SpvOpMemberDecorate eq_refl).
    pose proof (Hall SpvOpDecorateStringGOOGLE eq_refl). done.
Qed.

Lemma HaveTheSameDecorations_decides s X Y lx ly :
  GetDecorationsFor s X false = Ok lx →
  GetDecorationsFor s Y false = Ok ly →
  ∃ b, HaveTheSameDecorations s X Y = Ok b
       ∧ (b = true ↔ same_payloads s lx ly).
Proof.
  intros Hx Hy.
  destruct (fill_returns s lx no_DecorationSets) as [sets1 H1];
    [intros h; by eapply GetDecorationsFor_live|].
  destruct (fill_returns s ly no_DecorationSets) as [sets2 H2];
    [intros h; by eapply GetDecorationsFor_live|].
  fold (fillDecorationSets s lx) in H1. fold (fillDecorationSets s ly) in H2.
  unfold HaveTheSameDecorations. rewrite Hx, Hy. simpl. rewrite H1, H2. simpl.
  eexists. split; [done|].
  rewrite sets_equal_payloads. unfold same_payloads.
  split.
  - intros Heq op p Hop.
    rewrite <- (fillDecorationSets_carries _ _ _ _ _ H1 Hop).
    rewrite <- (fillDecorationSets_carries _ _ _ _ _ H2 Hop).
    by rewrite (Heq op Hop).
  - intros Hsame op Hop. apply set_eq. intros p.
    rewrite (fillDecorationSets_carries _ _ _ _ _ H1 Hop).
    rewrite (fillDecorationSets_carries _ _ _ _ _ H2 Hop).
    by apply Hsame.
Qed.

(** X6: when the two lookups (without linkage) return,
    [HaveTheSameDecorations] returns, and it answers true exactly when,
    under each of the four direct forms, the two ids carry the same set
    of payloads.  Order, repetition, the targets and where one operand
    ends and the next begins play no part. *)
Theorem X6_HaveTheSameDecorations_decides (s : State) (X Y : N)
    (lx ly : list InstPtr) :
  GetDecorationsFor s X false = Ok lx →
  GetDecorationsFor s Y false = Ok ly →
  ∃ b, HaveTheSameDecorations s X Y = Ok b
       ∧ (b = true ↔ same_payloads s lx ly).
Proof. apply HaveTheSameDecorations_decides. Qed.

Lemma HaveTheSameDecorations_lookups s X Y b :
  HaveTheSameDecorations s X Y = Ok b →
  ∃ lx ly, GetDecorationsFor s X false = Ok lx
           ∧ GetDecorationsFor s Y false = Ok ly.
Proof.
  unfold HaveTheSameDecorations.
  intros (lx & Hx & (ly & Hy & _)%rbind_Ok)%rbind_Ok. by exists lx, ly.
Qed.

(** X7: [HaveTheSameDecorations] is transitive, and an id whose
    decorations it could compare with those of another has the same
    decorations as itself. *)
Theorem X7_HaveTheSameDecorations_equivalence (s : State) (X Y Z : N)
    (b : bool) :
  HaveTheSameDecorations s X Y = Ok true →
  HaveTheSameDecorations s Y Z = Ok b →
  HaveTheSameDecorations s X Z = Ok b
  ∧ HaveTheSameDecorations s X X = Ok true.
Proof.
  intros Hxy Hyz.
  destruct (HaveTheSameDecorations_lookups _ _ _ _ Hxy) as (lx & ly & Hx & Hy).
  destruct (HaveTheSameDecorations_lookups _ _ _ _ Hyz) as (? & lz & _ & Hz).
  destruct (HaveTheSameDecorations_decides _ _ _ _ _ Hx Hy) as (? & Hr & Hxy').
  rewrite Hxy in Hr. injection Hr as <-.
  destruct (HaveTheSameDecorations_decides _ _ _ _ _ Hy Hz) as (? & Hr & Hyz').
  rewrite Hyz in Hr. injection Hr as <-.
  destruct (HaveTheSameDecorations_decides _ _ _ _ _ Hx Hz) as (b' & Hr & Hxz).
  destruct (HaveTheSameDecorations_decides _ _ _ _ _ Hx Hx) as (b'' & Hr' & Hxx).
  assert (same_payloads s lx ly) as Hsame by tauto.
  split.
  - rewrite Hr. f_equal. apply eq_true_iff_eq. rewrite Hxz, Hyz'.
    unfold same_payloads in *. split; intros H op p Hop.
    + by rewrite <- (Hsame op p Hop), (H op p Hop).
    + by rewrite (Hsame op p Hop), (H op p Hop).
  - rewrite Hr'. f_equal. apply Hxx. by intros op p Hop.
Qed.

(** ** The loops of [AddDecoration] and [RemoveDecoration] *)

Lemma stride_from_1_seq fuel a bound :
  bound - a ≤ fuel → stride_from fuel a 1 bound = seq a (bound - a).
Proof.
  revert a. induction fuel as [|fuel IH]; intros a Hfuel; simpl.
  - by replace (bound - a) with 0 by lia.
  - destruct (a <? bound) eqn:Hlt.
    + apply Nat.ltb_lt in Hlt. rewrite IH by lia.
      replace (bound - a) with (S (bound - (a + 1))) by lia. simpl.
      by replace (S a) with (a + 1) by lia.
    + apply Nat.ltb_ge in Hlt. by replace (bound - a) with 0 by lia.
Qed.

Lemma strided_1_seq bound : strided 1 1 bound = seq 1 (bound - 1).
Proof. unfold strided. apply stride_from_1_seq. lia. Qed.

Lemma at_found_modify id f s :
  at_found id f s
  = Ok (tt, match id_to_decoration_insts_ s !! id with
            | Some td => set_index <[id := f td]> s
            | None => s
            end).
Proof.
  unfold at_found, find, gets, bindM.
  by destruct (id_to_decoration_insts_ s !! id).
Qed.

Lemma record_at_id id f s k :
  record (set_index
            (λ m, <[id := f (default empty_TargetData (m !! id))]> m) s) k
  = if decide (k = id) then f (record s k) else record s k.
Proof.
  unfold record. simpl. destruct (decide (k = id)) as [->|Hne].
  - by rewrite lookup_insert_eq.
  - by rewrite lookup_insert_ne.
Qed.

Lemma record_at_found id f s k :
  f empty_TargetData = empty_TargetData →
  record (match id_to_decoration_insts_ s !! id with
          | Some td => set_index <[id := f td]> s
          | None => s
          end) k
  = if decide (k = id) then f (record s k) else record s k.
Proof.
  intros Hf. unfold record.
  destruct (decide (k = id)) as [->|Hne].
  - destruct (id_to_decoration_insts_ s !! id) as [td|] eqn:Hid; simpl.
    + by rewrite lookup_insert_eq.
    + by rewrite Hid, Hf.
  - destruct (id_to_decoration_insts_ s !! id) as [td|]; simpl; [|done].
    by rewrite lookup_insert_ne.
Qed.

Section word_loop.
Context (inst : Instruction) (upd : N → State → State).
Context (g : TargetData → TargetData).
Hypothesis upd_record :
  ∀ w s k, record (upd w s) k
           = if decide (k = w) then g (record s k) else record s k.
Hypothesis upd_rest : ∀ w s, same_but_index s (upd w s).

Lemma word_step_Ok i s s' :
  (w <~ lift (GetSingleWordInOperand inst i) ;; modify (upd w)) s
  = Ok (tt, s')
  ↔ ∃ w, GetSingleWordInOperand inst i = Ok w ∧ s' = upd w s.
Proof.
  unfold bindM, lift, modify.
  destruct (GetSingleWordInOperand inst i) as [w|]; split.
  - intros [= <-]. by exists w.
  - by intros (? & [= <-] & ->).
  - done.
  - by intros (? & ? & _).
Qed.

Lemma word_loop_Ok idxs s s' :
  forM_ idxs (λ i, w <~ lift (GetSingleWordInOperand inst i) ;;
                   modify (upd w)) s
  = Ok (tt, s')
  ↔ ∃ ws, Forall2 (λ i w, GetSingleWordInOperand inst i = Ok w) idxs ws
          ∧ s' = foldl (λ s w, upd w s) s ws.
Proof.
  revert s. induction idxs as [|i idxs IH]; intros s; simpl.
  - split.
    + intros [= <-]. exists []. by split; [constructor|].
    + intros (ws & ->%Forall2_nil_inv_l & ->). done.
  - rewrite bindM_Ok. split.
    + intros ([] & s1 & (w & Hw & ->)%word_step_Ok & (ws & Hws & ->)%IH).
      exists (w :: ws). by split; [constructor|].
    + intros (ws & (w & ws' & Hw & Hws & ->)%Forall2_cons_inv_l & ->).
      exists tt, (upd w s). split.
      * apply word_step_Ok. by exists w.
      * apply IH. by exists ws'.
Qed.

Lemma word_loop_record ws s k :
  record (foldl (λ s w, upd w s) s ws) k
  = Nat.iter (length (filter (λ w, w = k) ws)) g (record s k).
Proof.
  revert s. induction ws as [|w ws IH]; intros s; [done|].
  simpl. rewrite IH, upd_record, filter_cons.
  destruct (decide (k = w)) as [->|Hne].
  - rewrite decide_True by done. simpl length.
    by rewrite Nat.iter_succ_r.
  - by rewrite decide_False by done.
Qed.

Lemma word_loop_rest ws s :
  same_but_index s (foldl (λ s w, upd w s) s ws).
Proof.
  revert s. induction ws as [|w ws IH]; intros s; [done|]. simpl.
  destruct (IH (upd w s)) as (? & ? & ? & ? & ?).
  destruct (upd_rest w s) as (? & ? & ? & ? & ?).
  unfold same_but_index. repeat split; congruence.
Qed.

End word_loop.

Lemma forM__ext {A} (l : list A) (b1 b2 : A → M unit) s :
  (∀ x s, b1 x s = b2 x s) → forM_ l b1 s = forM_ l b2 s.
Proof.
  intros Hb. revert s. induction l as [|x l IH]; intros s; [done|].
  simpl. unfold bindM. rewrite Hb. destruct (b2 x s) as [[[] s1]|]; [|done].
  apply IH.
Qed.

(** The update of [at_id] and that of [at_found]. *)
Lemma at_id_upd_record push w s k :
  record (set_index
            (λ m, <[w := push (default empty_TargetData (m !! w))]> m) s) k
  = if decide (k = w) then push (record s k) else record s k.
Proof. apply record_at_id. Qed.

Lemma same_but_index_set_index f s : same_but_index s (set_index f s).
Proof. by unfold same_but_index. Qed.

Lemma same_but_index_found id f s :
  same_but_index s (match id_to_decoration_insts_ s !! id with
                    | Some td => set_index <[id := f td]> s
                    | None => s
                    end).
Proof. by destruct (id_to_decoration_insts_ s !! id). Qed.

Lemma same_but_index_trans s1 s2 s3 :
  same_but_index s1 s2 → same_but_index s2 s3 → same_but_index s1 s3.
Proof.
  unfold same_but_index. intros (? & ? & ? & ? & ?) (? & ? & ? & ? & ?).
  repeat split; congruence.
Qed.

Lemma iter_push_indirect n h td :
  Nat.iter n (push_indirect h) td
  = mkTargetData (direct_decorations td)
      (indirect_decorations td ++ replicate n h) (decorate_insts td).
Proof.
  induction n as [|n IH]; simpl.
  - rewrite app_nil_r. by destruct td.
  - rewrite IH. unfold push_indirect. simpl. f_equal.
    rewrite <- app_assoc. f_equal.
    change (replicate n h ++ [h] = replicate (S n) h).
    by rewrite replicate_S_end.
Qed.

Lemma remove_from_container_idemp h v :
  remove_from_container h (remove_from_container h v)
  = remove_from_container h v.
Proof.
  unfold remove_from_container. by apply list_filter_filter_l.
Qed.

Lemma iter_remove_indirect n h td :
  Nat.iter n (remove_indirect h) td
  = if decide (n = 0) then td else remove_indirect h td.
Proof.
  induction n as [|n IH]; [done|]. simpl. rewrite IH.
  destruct n; [done|]. simpl. unfold remove_indirect. simpl.
  by rewrite remove_from_container_idemp.
Qed.

Lemma words_after inst k (h : InstPtr) (l : list Operand) a ws :
  (∀ j, l !! j = in_operands inst !! (a + j)) →
  Forall2 (λ i w, GetSingleWordInOperand inst i = Ok w) (seq a (length l)) ws →
  replicate (length (filter (λ w, w = k) ws)) h
  = (λ _, h) <$> filter (λ op, words op = [k]) l.
Proof.
  revert a ws. induction l as [|op l IH]; intros a ws Hl Hws; simpl in Hws.
  - by apply Forall2_nil_inv_l in Hws as ->.
  - apply Forall2_cons_inv_l in Hws as (w & ws' & Hw & Hws & ->).
    apply GetSingleWordInOperand_Ok in Hw.
    specialize (Hl 0) as Hop. rewrite Nat.add_0_r in Hop. simpl in Hop.
    rewrite <- Hop in Hw. simpl in Hw. injection Hw as Hw.
    rewrite !filter_cons, Hw.
    assert (replicate (length (filter (λ w, w = k) ws')) h
            = (λ _, h) <$> filter (λ op, words op = [k]) l) as Hrest.
    { apply (IH (S a)); [|done]. intros j. specialize (Hl (S j)).
      simpl in Hl. rewrite Hl. f_equal. lia. }
    destruct (decide (w = k)) as [->|Hne].
    + rewrite decide_True by done. simpl. by rewrite Hrest.
    + by rewrite decide_False by congruence.
Qed.

Lemma group_targets_count inst k (h : InstPtr) ws :
  Forall2 (λ i w, GetSingleWordInOperand inst i = Ok w)
    (strided 1 1 (NumInOperands inst)) ws →
  replicate (length (filter (λ w, w = k) ws)) h
  = (λ _, h) <$> targets_equal inst k.
Proof.
  rewrite strided_1_seq. unfold NumInOperands, targets_equal. intros Hws.
  apply (words_after inst k h (drop 1 (in_operands inst)) 1 ws).
  - intros j. by rewrite lookup_drop.
  - by rewrite length_drop.
Qed.

Lemma names_word inst w k :
  GetSingleWordInOperand inst 0 = Ok w →
  names inst k = bool_decide (k = w).
Proof.
  intros Hw%GetSingleWordInOperand_Ok. unfold names. rewrite Hw.
  apply bool_decide_ext. split; congruence.
Qed.

Lemma AddDecoration_cases h inst s :
  insts s !! h = Some inst →
  AddDecoration h s
  = if is_direct_form (opcode inst) then
      (target_id <~ lift (GetSingleWordInOperand inst 0) ;;
       at_id target_id (push_direct h)) s
    else if is_group_apply (opcode inst) then
      let start :=
        if decide (opcode inst = SpvOpGroupDecorate) then 1 else 2 in
      (forM_ (strided start start (NumInOperands inst)) (λ i,
         target_id <~ lift (GetSingleWordInOperand inst i) ;;
         at_id target_id (push_indirect h)) ;;;
       target_id <~ lift (GetSingleWordInOperand inst 0) ;;
       at_id target_id (push_decorate_inst h)) s
    else Ok (tt, s).
Proof.
  intros Hh. unfold AddDecoration. unfold bindM at 1. unfold deref.
  rewrite Hh. by destruct (opcode inst).
Qed.

Lemma RemoveDecoration_cases h inst s :
  insts s !! h = Some inst →
  RemoveDecoration h s
  = if is_direct_form (opcode inst) then
      (target_id <~ lift (GetSingleWordInOperand inst 0) ;;
       at_found target_id (remove_direct h)) s
    else if is_group_apply (opcode inst) then
      let stride :=
        if decide (opcode inst = SpvOpGroupDecorate) then 1 else 2 in
      (forM_ (strided 1 stride (NumInOperands inst)) (λ i,
         target_id <~ lift (GetSingleWordInOperand inst i) ;;
         at_found target_id (remove_indirect h)) ;;;
       group_id <~ lift (GetSingleWordInOperand inst 0) ;;
       at_found group_id (remove_decorate_inst h)) s
    else Ok (tt, s).
Proof.
  intros Hh. unfold RemoveDecoration. unfold bindM at 1. unfold deref.
  rewrite Hh. by destruct (opcode inst).
Qed.

Lemma direct_not_group op :
  is_direct_form op = true →
  is_group_apply op = false ∧ op ≠ SpvOpGroupDecorate.
Proof. by destruct op. Qed.

Lemma group_not_member op :
  is_group_apply op = true → op ≠ SpvOpGroupMemberDecorate →
  op = SpvOpGroupDecorate.
Proof. by destruct op. Qed.

Lemma neither_not_group op :
  is_direct_form op = false → is_group_apply op = false →
  op ≠ SpvOpGroupDecorate.
Proof. by destruct op. Qed.

(** What [AddDecoration] does to the records. *)
Lemma AddDecoration_effect h inst s s' :
  insts s !! h = Some inst →
  AddDecoration h s = Ok (tt, s') →
  same_but_index s s'
  ∧ ∀ k,
      direct_decorations (record s' k)
      = direct_decorations (record s k)
        ++ (if targets_directly s k h then [h] else [])
      ∧ decorate_insts (record s' k)
        = decorate_insts (record s k)
          ++ (if applies_group s k h then [h] else [])
      ∧ (opcode inst ≠ SpvOpGroupMemberDecorate →
         indirect_decorations (record s' k)
         = indirect_decorations (record s k) ++ decorated_by_group s k h).
Proof.
  intros Hh. rewrite (AddDecoration_cases _ _ _ Hh).
  unfold targets_directly, applies_group, decorated_by_group. rewrite Hh.
  destruct (is_direct_form (opcode inst)) eqn:Hdirect;
    [|destruct (is_group_apply (opcode inst)) eqn:Hgroup].
  - destruct (direct_not_group _ Hdirect) as [-> Hne]. intros Hrun.
    apply (word_step_Ok inst
             (λ w, set_index
                     (λ m, <[w := push_direct h
                                    (default empty_TargetData (m !! w))]> m)))
      in Hrun as (w & Hw & ->).
    split; [apply same_but_index_set_index|]. intros k.
    rewrite at_id_upd_record, (names_word _ _ _ Hw).
    rewrite (decide_False (P := opcode inst = SpvOpGroupDecorate)) by done.
    simpl.
    destruct (decide (k = w)) as [->|Hk].
    + rewrite bool_decide_eq_true_2 by done. simpl. by rewrite !app_nil_r.
    + rewrite bool_decide_eq_false_2 by done. by rewrite !app_nil_r.
  - intros Hrun. apply bindM_Ok in Hrun as ([] & s1 & Hloop & Hlast).
    apply (word_loop_Ok inst
             (λ w, set_index
                     (λ m, <[w := push_indirect h
                                    (default empty_TargetData (m !! w))]> m)))
      in Hloop as (ws & Hws & ->).
    apply (word_step_Ok inst
             (λ w, set_index
                     (λ m, <[w := push_decorate_inst h
                                    (default empty_TargetData (m !! w))]> m)))
      in Hlast as (w & Hw & ->).
    split.
    { eapply same_but_index_trans; [|apply same_but_index_set_index].
      apply word_loop_rest. intros. apply same_but_index_set_index. }
    intros k. rewrite at_id_upd_record.
    rewrite (word_loop_record _ (push_indirect h))
      by (intros; apply at_id_upd_record).
    rewrite iter_push_indirect, (names_word _ _ _ Hw). simpl.
    assert (opcode inst ≠ SpvOpGroupMemberDecorate →
            replicate (length (filter (λ w, w = k) ws)) h
            = (if decide (opcode inst = SpvOpGroupDecorate)
               then (λ _, h) <$> targets_equal inst k else [])) as Hcount.
    { intros Hne. pose proof (group_not_member _ Hgroup Hne) as Hop.
      rewrite !(decide_True (P := opcode inst = SpvOpGroupDecorate))
        in Hws by done.
      rewrite (decide_True (P := opcode inst = SpvOpGroupDecorate)) by done.
      by apply group_targets_count. }
    destruct (decide (k = w)) as [->|Hk].
    + rewrite bool_decide_eq_true_2 by done. simpl.
      rewrite app_nil_r. repeat split; try done.
      intros Hop. by rewrite Hcount.
    + rewrite bool_decide_eq_false_2 by done. simpl.
      rewrite !app_nil_r. repeat split; try done.
      intros Hop. by rewrite Hcount.
  - intros [= <-]. split; [done|]. intros k.
    rewrite (decide_False (P := opcode inst = SpvOpGroupDecorate))
      by by apply neither_not_group.
    simpl. by rewrite !app_nil_r.
Qed.

Lemma filter_cons_bool {A} (p : A → bool) x (l : list A) :
  filter (λ x, p x) (x :: l) = (if p x then [x] else []) ++ filter (λ x, p x) l.
Proof.
  rewrite filter_cons. by destruct (p x).
Qed.

Lemma AddDecoration_live h s a s' :
  AddDecoration h s = Ok (a, s') → is_Some (insts s !! h).
Proof.
  unfold AddDecoration.
  intros (inst & ? & [Hi _]%deref_Ok & _)%bindM_Ok. by exists inst.
Qed.

Lemma forM_AddDecoration_effect l s s' :
  forM_ l AddDecoration s = Ok (tt, s') →
  same_but_index s s'
  ∧ ∀ k,
      direct_decorations (record s' k)
      = direct_decorations (record s k)
        ++ filter (λ h, targets_directly s k h) l
      ∧ decorate_insts (record s' k)
        = decorate_insts (record s k) ++ filter (λ h, applies_group s k h) l
      ∧ ((∀ h inst, h ∈ l → insts s !! h = Some inst →
                    opcode inst ≠ SpvOpGroupMemberDecorate) →
         indirect_decorations (record s' k)
         = indirect_decorations (record s k)
           ++ (l ≫= decorated_by_group s k)).
Proof.
  revert s. induction l as [|h l IH]; intros s.
  - intros [= <-]. split; [done|]. intros k. by rewrite !app_nil_r.
  - simpl. intros ([] & s1 & Hadd & Hrest)%bindM_Ok.
    destruct (AddDecoration_live _ _ _ _ Hadd) as [inst Hh].
    destruct (AddDecoration_effect _ _ _ _ Hh Hadd) as [Hsame1 Hone].
    destruct (IH _ Hrest) as [Hsame Hall].
    split; [by eapply same_but_index_trans|]. intros k.
    destruct (Hone k) as (Hd1 & Hg1 & Hi1).
    destruct (Hall k) as (Hd & Hg & Hi).
    destruct Hsame1 as (Hinsts & _).
    unfold targets_directly, applies_group, decorated_by_group in Hd, Hg, Hi.
    rewrite Hinsts in Hd, Hg, Hi.
    fold (targets_directly s k) in Hd. fold (applies_group s k) in Hg.
    fold (decorated_by_group s k) in Hi.
    rewrite !filter_cons_bool, !app_assoc, <- Hd1, <- Hg1.
    repeat split; try done.
    intros Hno. rewrite <- Hi1 by (eapply Hno; [by left|done]).
    apply Hi. intros h' inst' Hin. apply Hno. by right.
Qed.

(** X8: [AnalyzeDecorations] adds to the index what the annotations of
    the module say, in their order, and touches nothing else: the direct
    decorations of an id grow by the annotations of a direct form whose
    operand 0 is the id; its group-apply collection by the
    [OpGroupDecorate] and [OpGroupMemberDecorate] annotations whose
    operand 0 is the id; and, in a module without
    [OpGroupMemberDecorate], its indirect decorations by each
    [OpGroupDecorate], once for every time it lists the id as a target.
    It does not start from an empty index: what the records held stays
    in front. *)
Theorem X8_AnalyzeDecorations_mirrors_module (s s' : State)
    (annotations : list InstPtr) (k : N) :
  module_ s = Some annotations →
  AnalyzeDecorations s = Ok (tt, s') →
  same_but_index s s'
  ∧ direct_decorations (record s' k)
    = direct_decorations (record s k)
      ++ filter (λ h, targets_directly s k h) annotations
  ∧ decorate_insts (record s' k)
    = decorate_insts (record s k)
      ++ filter (λ h, applies_group s k h) annotations
  ∧ ((∀ h inst, h ∈ annotations → insts s !! h = Some inst →
                opcode inst ≠ SpvOpGroupMemberDecorate) →
     indirect_decorations (record s' k)
     = indirect_decorations (record s k)
       ++ (annotations ≫= decorated_by_group s k)).
Proof.
  intros Hm. unfold AnalyzeDecorations, bindM, gets. rewrite Hm.
  intros Hrun. destruct (forM_AddDecoration_effect _ _ _ Hrun) as [Hsame Hall].
  split; [done|]. apply Hall.
Qed.

(** ** [RemoveDecoration] after [AddDecoration] *)

Lemma word_step_found inst i f s :
  (w <~ lift (GetSingleWordInOperand inst i) ;; at_found w f) s
  = (w <~ lift (GetSingleWordInOperand inst i) ;; modify (update_found f w)) s.
Proof.
  unfold bindM, lift. destruct (GetSingleWordInOperand inst i); [|done].
  apply at_found_modify.
Qed.

Lemma record_update_found f w s k :
  f empty_TargetData = empty_TargetData →
  record (update_found f w s) k
  = if decide (k = w) then f (record s k) else record s k.
Proof. apply record_at_found. Qed.

Lemma same_but_index_update_found f w s :
  same_but_index s (update_found f w s).
Proof. apply same_but_index_found. Qed.

Lemma remove_from_container_absent h (l : list InstPtr) n :
  h ∉ l → remove_from_container h (l ++ replicate n h) = l.
Proof.
  intros Hh. unfold remove_from_container. rewrite filter_app.
  assert (filter (λ x, x ≠ h) (replicate n h) = []) as ->.
  { induction n as [|n IH]; [done|]. simpl.
    rewrite filter_cons, decide_False by tauto. done. }
  rewrite app_nil_r. induction l as [|x l IH]; [done|].
  apply not_elem_of_cons in Hh as [Hx Hl].
  rewrite filter_cons, decide_True by done. by rewrite IH.
Qed.

Lemma RemoveDecoration_after_AddDecoration h inst s s1 :
  insts s !! h = Some inst →
  opcode inst ≠ SpvOpGroupMemberDecorate →
  (∀ k, not_in_record h (record s k)) →
  AddDecoration h s = Ok (tt, s1) →
  ∃ s2, RemoveDecoration h s1 = Ok (tt, s2)
        ∧ same_but_index s s2
        ∧ ∀ k, record s2 k = record s k.
Proof.
  intros Hh Hne Hfresh Hadd.
  destruct (AddDecoration_effect _ _ _ _ Hh Hadd) as [(Hinsts & Hrest) _].
  revert Hadd. rewrite (AddDecoration_cases _ _ _ Hh).
  rewrite <- Hinsts in Hh. rewrite (RemoveDecoration_cases _ _ _ Hh).
  destruct (is_direct_form (opcode inst)) eqn:Hdirect;
    [|destruct (is_group_apply (opcode inst)) eqn:Hgroup].
  - intros Hadd.
    apply (word_step_Ok inst
             (λ w, set_index
                     (λ m, <[w := push_direct h
                                    (default empty_TargetData (m !! w))]> m)))
      in Hadd as (w & Hw & ->).
    eexists. rewrite word_step_found. split; [|split].
    + apply word_step_Ok. by exists w.
    + eapply same_but_index_trans; [apply same_but_index_set_index|].
      apply same_but_index_update_found.
    + intros k. rewrite record_update_found, at_id_upd_record by done.
      destruct (decide (k = w)) as [->|Hk]; [|done].
      destruct (Hfresh w) as (Hd & _). destruct (record s w) as [d i g].
      unfold remove_direct, push_direct. simpl in *. f_equal.
      by apply (remove_from_container_absent h d 1).
  - pose proof (group_not_member _ Hgroup Hne) as Hop.
    simpl. rewrite !(decide_True (P := opcode inst = SpvOpGroupDecorate))
      by done.
    intros Hadd. apply bindM_Ok in Hadd as ([] & s0 & Hloop & Hlast).
    apply (word_loop_Ok inst
             (λ w, set_index
                     (λ m, <[w := push_indirect h
                                    (default empty_TargetData (m !! w))]> m)))
      in Hloop as (ws & Hws & ->).
    apply (word_step_Ok inst
             (λ w, set_index
                     (λ m, <[w := push_decorate_inst h
                                    (default empty_TargetData (m !! w))]> m)))
      in Hlast as (w & Hw & ->).
    eexists. split; [|split].
    + apply bindM_Ok. eexists tt, _. split.
      * erewrite forM__ext by (intros; apply word_step_found).
        apply word_loop_Ok. by exists ws.
      * rewrite word_step_found. apply word_step_Ok. by exists w.
    + eapply same_but_index_trans;
        [|apply same_but_index_update_found].
      eapply same_but_index_trans;
        [|apply word_loop_rest; intros; apply same_but_index_update_found].
      eapply same_but_index_trans; [|apply same_but_index_set_index].
      apply word_loop_rest. intros. apply same_but_index_set_index.
    + intros k. rewrite record_update_found by done.
      rewrite (word_loop_record _ (remove_indirect h))
        by (intros; by apply record_update_found).
      rewrite at_id_upd_record.
      rewrite (word_loop_record _ (push_indirect h))
        by (intros; apply at_id_upd_record).
      rewrite iter_remove_indirect, iter_push_indirect.
      destruct (Hfresh k) as (Hd & Hi & Hg).
      destruct (record s k) as [d i g]. simpl in *.
      set (n := length (filter (λ w, w = k) ws)).
      assert (remove_from_container h (i ++ replicate n h) = i) as Hi'
        by by apply remove_from_container_absent.
      assert (remove_from_container h (g ++ [h]) = g) as Hg'
        by by apply (remove_from_container_absent h g 1).
      destruct (decide (k = w)) as [->|Hk];
        destruct (decide (n = 0)) as [Hn|Hn];
        unfold remove_decorate_inst, remove_indirect, push_decorate_inst;
        simpl; rewrite ?Hi', ?Hg', ?Hn; simpl; rewrite ?app_nil_r; done.
  - intros [= <-]. by exists s.
Qed.

Lemma keeps_present_AddDecoration k h :
  keeps (λ s, is_Some (id_to_decoration_insts_ s !! k)) (AddDecoration h).
Proof.
  unfold AddDecoration.
  repeat first
    [ apply keeps_modify; intros s Hk; simpl;
      rewrite lookup_insert; case_decide; [by eexists | done]
    | keeps_step ].
Qed.

(** X9: [RemoveDecoration] undoes [AddDecoration].  For an instruction
    that is not an [OpGroupMemberDecorate] and that the index does not
    hold yet, removing it after adding it returns and leaves every record
    that was there as it was; an id that had no record has none or an
    empty one.  Nothing but the index is touched. *)
Theorem X9_RemoveDecoration_undoes_AddDecoration (h : InstPtr)
    (inst : Instruction) (s s1 : State) :
  insts s !! h = Some inst →
  opcode inst ≠ SpvOpGroupMemberDecorate →
  (∀ k, not_in_record h (record s k)) →
  AddDecoration h s = Ok (tt, s1) →
  ∃ s2, RemoveDecoration h s1 = Ok (tt, s2)
        ∧ same_but_index s s2
        ∧ ∀ k, id_to_decoration_insts_ s2 !! k
               = id_to_decoration_insts_ s !! k
               ∨ (id_to_decoration_insts_ s !! k = None
                  ∧ id_to_decoration_insts_ s2 !! k = Some empty_TargetData).
Proof.
  intros Hh Hne Hfresh Hadd.
  destruct (RemoveDecoration_after_AddDecoration _ _ _ _ Hh Hne Hfresh Hadd)
    as (s2 & Hrem & Hsame & Hrec).
  exists s2. split; [done|]. split; [done|].
  intros k. specialize (Hrec k). unfold record in Hrec.
  destruct (id_to_decoration_insts_ s !! k) as [td|] eqn:Hk.
  - left.
    assert (is_Some (id_to_decoration_insts_ s2 !! k)) as [td2 Hk2].
    { apply (keeps_present_RemoveDecoration k h _ _ _ Hrem).
      apply (keeps_present_AddDecoration k h _ _ _ Hadd). by rewrite Hk. }
    rewrite Hk2 in Hrec |- *. simpl in Hrec. by rewrite Hrec.
  - destruct (id_to_decoration_insts_ s2 !! k) as [td2|]; [right|by left].
    simpl in Hrec. by rewrite Hrec.
Qed.

(** ** [RemoveDecorationsFrom] with a predicate that rejects *)

Lemma set_index_same id td s :
  id_to_decoration_insts_ s !! id = Some td →
  set_index <[id := td]> s = s.
Proof.
  intros Hid. destruct s as [i n m d idx t]. unfold set_index. simpl in *.
  by rewrite insert_id.
Qed.

Lemma keep_indirect_none td : keep_indirect ∅ td = td.
Proof.
  destruct td as [d i g]. unfold keep_indirect. simpl. f_equal.
  induction i as [|h i IH]; [done|].
  rewrite filter_cons, decide_True by set_solver. by rewrite IH.
Qed.

Lemma readable_direct_live s h :
  readable_direct s h = true → is_Some (insts s !! h).
Proof.
  unfold readable_direct, read. by destruct (insts s !! h).
Qed.

Lemma shown_live s h : is_Some (insts s !! h) → shown s true h = true.
Proof. unfold shown. by intros [inst ->]. Qed.

Lemma select_none p l s :
  Forall (λ h, is_Some (insts s !! h)) l →
  Forall (λ h, holds s p h = false) l →
  select p l s = Ok ([], s).
Proof.
  intros Hlive Hp. rewrite select_live by done. f_equal. f_equal.
  induction Hp as [|h l Hh _ IH]; [done|].
  apply Forall_cons in Hlive as [_ Hlive].
  rewrite filter_cons, decide_False by (rewrite Hh; by intros []).
  by apply IH.
Qed.

Lemma select_all p l s :
  Forall (λ h, is_Some (insts s !! h)) l →
  Forall (λ h, holds s p h = false) l →
  select (λ decoration, negb (p decoration)) l s = Ok (l, s).
Proof.
  intros Hlive Hp. rewrite select_live by done. f_equal. f_equal.
  induction Hp as [|h l Hh _ IH]; [done|].
  apply Forall_cons in Hlive as [[inst Hi] Hlive].
  rewrite filter_cons. unfold holds in Hh |- *. rewrite Hi in Hh |- *.
  rewrite Hh. simpl. f_equal. by apply IH.
Qed.

Lemma remove_from_group_all_kept id pred acc h s inst group_id group :
  insts s !! h = Some inst →
  is_group_apply (opcode inst) = true →
  GetSingleWordInOperand inst 0 = Ok group_id →
  id_to_decoration_insts_ s !! group_id = Some group →
  Forall (λ h, is_Some (insts s !! h)) (direct_decorations group) →
  Forall (λ h, holds s pred h = false) (direct_decorations group) →
  remove_from_group id pred acc h s = Ok (acc, s).
Proof.
  intros Hh Hop Hg Hgroup Hlive Hpred. unfold remove_from_group.
  destruct acc as [insts_to_kill to_remove].
  eapply eval_bind; [by apply deref_Ok|]. rewrite Hop.
  eapply eval_bind; [reflexivity|].
  eapply eval_bind; [unfold lift; by rewrite Hg|].
  eapply eval_bind; [reflexivity|]. simpl. rewrite Hgroup.
  eapply eval_bind; [by apply select_all|].
  by rewrite Nat.eqb_refl.
Qed.

(** X10: a predicate that rejects every decoration that
    [GetDecorationsFor] returns for [id] makes [RemoveDecorationsFrom]
    return with the state as it was (index, instructions, module and
    trace), for an id whose record holds a direct or an indirect
    decoration and whose indirect decorations are group-apply
    instructions. *)
Theorem X10_rejecting_pred_changes_nothing (s : State) (id : N)
    (td : TargetData) (pred : Instruction → bool) (l : list InstPtr) :
  id_to_decoration_insts_ s !! id = Some td →
  is_Some (module_ s) →
  direct_decorations td ≠ [] ∨ indirect_decorations td ≠ [] →
  Forall (λ h, holds s (λ inst, is_group_apply (opcode inst)) h = true)
    (indirect_decorations td) →
  GetDecorationsFor s id true = Ok l →
  Forall (λ h, holds s pred h = false) l →
  RemoveDecorationsFrom id pred s = Ok (tt, s).
Proof.
  intros Hid [m Hm] Hsome Hops [Hwf ->]%GetDecorationsFor_Ok Hpred.
  specialize (Hwf td Hid). unfold well_formed_record in Hwf.
  apply andb_prop in Hwf as [Hdirect Hindirect].
  rewrite forallb_forall in Hdirect. rewrite forallb_forall in Hindirect.
  rewrite Forall_forall in Hpred. unfold decorationsFor_spec in Hpred.
  rewrite Hid in Hpred.
  assert (Forall (λ h, is_Some (insts s !! h)) (direct_decorations td))
    as Hlive.
  { apply Forall_forall. intros h Hh%list_elem_of_In.
    by apply readable_direct_live, Hdirect. }
  assert (Forall (λ h, holds s pred h = false) (direct_decorations td))
    as Hrej.
  { apply Forall_forall. intros h Hh. apply Hpred, elem_of_app. left.
    apply list_elem_of_filter. split; [|done].
    rewrite shown_live; [done|].
    by apply readable_direct_live, Hdirect, list_elem_of_In. }
  assert (foldM (remove_from_group id pred) (indirect_decorations td)
            ([], ∅) s = Ok (([], ∅), s)) as Hfold.
  { assert (∀ h, h ∈ indirect_decorations td →
                 remove_from_group id pred ([], ∅) h s = Ok (([], ∅), s))
      as Hround.
    { intros h Hh.
      destruct (resolvable_group_inv s h)
        as (inst & g & group & Hr & Hw & Hg & Hrec & Hall);
        [by apply Hindirect, list_elem_of_In|].
      rewrite forallb_forall in Hall.
      unfold read in Hr. destruct (insts s !! h) as [inst'|] eqn:Hh';
        [|done]. injection Hr as ->.
      rewrite Forall_forall in Hops. specialize (Hops h Hh).
      unfold holds in Hops. rewrite Hh' in Hops.
      eapply remove_from_group_all_kept; try done.
      - apply Forall_forall. intros d Hd%list_elem_of_In.
        by apply readable_direct_live, Hall.
      - apply Forall_forall. intros d Hd. apply Hpred, elem_of_app. right.
        apply elem_of_concat. eexists. split; [|apply list_elem_of_fmap].
        2: { exists h. split; [done|]. done. }
        simpl. rewrite Hrec. simpl. apply list_elem_of_filter.
        split; [|done]. rewrite shown_live; [done|].
        by apply readable_direct_live, Hall, list_elem_of_In. }
    revert Hround. generalize (indirect_decorations td). intros hs.
    induction hs as [|h hs IH]; intros Hround; [done|]. simpl.
    eapply eval_bind; [apply Hround; by left|].
    apply IH. intros h' Hh'. apply Hround. by right. }
  unfold RemoveDecorationsFrom.
  eapply eval_bind; [reflexivity|]. simpl. rewrite Hid.
  eapply eval_bind; [unfold module_context; by rewrite Hm|].
  eapply eval_bind; [by apply select_none|].
  eapply eval_bind; [apply Hfold|]. cbv beta iota.
  eapply eval_bind.
  { rewrite at_found_modify, Hid, keep_indirect_none.
    by rewrite (set_index_same _ _ _ Hid). }
  eapply eval_bind; [reflexivity|].
  eapply eval_bind; [reflexivity|]. simpl. rewrite Hid. simpl.
  assert (negb (bool_decide (decorate_insts td = []))
          && bool_decide (direct_decorations td = [])
          && bool_decide (indirect_decorations td = []) = false) as ->.
  { destruct Hsome as [Hne|Hne].
    - rewrite (bool_decide_eq_false_2 (direct_decorations td = [])) by done.
      by rewrite andb_false_r.
    - rewrite (bool_decide_eq_false_2 (indirect_decorations td = []))
        by done.
      by rewrite andb_false_r. }
  eapply eval_bind; [reflexivity|].
  eapply eval_bind; [reflexivity|]. simpl. rewrite Hid. simpl.
  assert (all_empty td = false) as ->; [|done].
  unfold all_empty. destruct Hsome as [Hne|Hne].
  - by rewrite (bool_decide_eq_false_2 (direct_decorations td = [])).
  - rewrite (bool_decide_eq_false_2 (indirect_decorations td = []))
      by done.
    by rewrite andb_false_r.
Qed.

(** ** The loop that takes a target out of a group-apply instruction *)

Lemma mutate_run h f s inst inst' :
  insts s !! h = Some inst → f inst = Ok inst' →
  mutate h f s = Ok (tt, written h inst' s).
Proof.
  intros Hh Hf. unfold mutate.
  eapply eval_bind; [by apply deref_Ok|].
  eapply eval_bind; [unfold lift; by rewrite Hf|]. done.
Qed.

Lemma only_writes_refl h s : only_writes h s s.
Proof.
  unfold only_writes. repeat split; try done. exists 0. by rewrite app_nil_r.
Qed.

Lemma only_writes_written h inst' s s1 :
  only_writes h s s1 → only_writes h s (written h inst' s1).
Proof.
  intros (? & ? & ? & ? & n & Htr). unfold only_writes, written. simpl.
  repeat split; try done. exists (S n).
  rewrite Htr, <- app_assoc. f_equal. by rewrite replicate_S_end.
Qed.

Lemma only_writes_trans h s1 s2 s3 :
  only_writes h s1 s2 → only_writes h s2 s3 → only_writes h s1 s3.
Proof.
  intros (? & ? & ? & ? & n & Hn) (? & ? & ? & ? & m & Hm).
  unfold only_writes. repeat split; try congruence.
  exists (n + m). rewrite Hm, Hn, <- app_assoc. f_equal.
  by rewrite replicate_add.
Qed.

Lemma written_lookup h inst' s : insts (written h inst' s) !! h = Some inst'.
Proof. simpl. by rewrite lookup_insert_eq. Qed.

Lemma written_twice h inst1 inst2 s :
  insts (written h inst2 (written h inst1 s)) = <[h := inst2]> (insts s).
Proof. simpl. by rewrite insert_insert_eq. Qed.

(** The writes of one round of the loop are those of [swap_remove]. *)
Lemma swap_remove_run {B} h stride i s inst inst' (k : M B) :
  insts s !! h = Some inst →
  swap_remove stride i inst = Ok inst' →
  ∃ s1,
    insts s1 = <[h := inst']> (insts s)
    ∧ only_writes h s s1
    ∧ ((if i <? NumInOperands inst - stride then
          mutate h (λ inst0,
            op <- GetInOperand inst0 (NumInOperands inst - stride) ;;
            AssignInOperand inst0 i op)
        else ret tt) ;;;
       (if stride =? 2 then
          (if i <? NumInOperands inst - stride then
             mutate h (λ inst0,
               op <- GetInOperand inst0 (NumInOperands inst - stride + 1) ;;
               AssignInOperand inst0 (i + 1) op)
           else ret tt) ;;;
          mutate h (λ inst0,
            RemoveInOperand inst0 (NumInOperands inst - stride + 1))
        else ret tt) ;;;
       mutate h (λ inst0,
         RemoveInOperand inst0 (NumInOperands inst - stride)) ;;;
       k) s = k s1.
Proof.
  intros Hh. unfold swap_remove. cbv zeta.
  intros (inst1 & H1 & (inst2 & H2 & H3)%rbind_Ok)%rbind_Ok.
  destruct (i <? NumInOperands inst - stride);
    destruct (stride =? 2).
  - apply rbind_Ok in H2 as (inst1' & H2 & H2').
    eexists. split; [|split]; cycle 2.
    + eapply eval_bind; [by apply (mutate_run _ _ _ _ _ Hh H1)|].
      eapply eval_bind.
      { eapply eval_bind;
          [by apply (mutate_run _ _ _ _ _ (written_lookup _ _ _) H2)|].
        by apply (mutate_run _ _ _ _ _ (written_lookup _ _ _) H2'). }
      eapply eval_bind;
        [by apply (mutate_run _ _ _ _ _ (written_lookup _ _ _) H3)|].
      reflexivity.
    + simpl. by rewrite !insert_insert_eq.
    + by do 4 apply only_writes_written; apply only_writes_refl.
  - injection H2 as <-.
    eexists. split; [|split]; cycle 2.
    + eapply eval_bind; [by apply (mutate_run _ _ _ _ _ Hh H1)|].
      eapply eval_bind; [reflexivity|].
      eapply eval_bind;
        [by apply (mutate_run _ _ _ _ _ (written_lookup _ _ _) H3)|].
      reflexivity.
    + simpl. by rewrite !insert_insert_eq.
    + by do 2 apply only_writes_written; apply only_writes_refl.
  - injection H1 as <-. apply rbind_Ok in H2 as (inst1' & [= <-] & H2').
    eexists. split; [|split]; cycle 2.
    + eapply eval_bind; [reflexivity|].
      eapply eval_bind.
      { eapply eval_bind; [reflexivity|].
        by apply (mutate_run _ _ _ _ _ Hh H2'). }
      eapply eval_bind;
        [by apply (mutate_run _ _ _ _ _ (written_lookup _ _ _) H3)|].
      reflexivity.
    + simpl. by rewrite !insert_insert_eq.
    + by do 2 apply only_writes_written; apply only_writes_refl.
  - injection H1 as <-. injection H2 as <-.
    eexists. split; [|split]; cycle 2.
    + eapply eval_bind; [reflexivity|].
      eapply eval_bind; [reflexivity|].
      eapply eval_bind; [by apply (mutate_run _ _ _ _ _ Hh H3)|].
      reflexivity.
    + done.
    + by apply only_writes_written, only_writes_refl.
Qed.

Lemma delete_app_r_at {A} (l1 l2 : list A) j :
  delete (length l1 + j) (l1 ++ l2) = l1 ++ delete j l2.
Proof. induction l1 as [|x l1 IH]; [done|]. simpl. by rewrite IH. Qed.

Lemma lookup_app_r_at {A} (l1 l2 : list A) j :
  (l1 ++ l2) !! (length l1 + j) = l2 !! j.
Proof. rewrite lookup_app_r by lia. f_equal. lia. Qed.

Lemma GetInOperand_at op front l j o :
  l !! j = Some o →
  GetInOperand (mkInstruction op (front ++ l)) (length front + j) = Ok o.
Proof. intros Hj. unfold GetInOperand. simpl. by rewrite lookup_app_r_at, Hj. Qed.

Lemma AssignInOperand_at op front l j o :
  j < length l →
  AssignInOperand (mkInstruction op (front ++ l)) (length front + j) o
  = Ok (mkInstruction op (front ++ <[j := o]> l)).
Proof.
  intros Hj. unfold AssignInOperand.
  destruct (lookup_lt_is_Some_2 l j Hj) as [o' Ho'].
  rewrite (GetInOperand_at _ _ _ _ _ Ho'). simpl. by rewrite insert_app_r.
Qed.

Lemma RemoveInOperand_at op front l j :
  j < length l →
  RemoveInOperand (mkInstruction op (front ++ l)) (length front + j)
  = Ok (mkInstruction op (front ++ delete j l)).
Proof.
  intros Hj. unfold RemoveInOperand.
  destruct (lookup_lt_is_Some_2 l j Hj) as [o' Ho'].
  rewrite (GetInOperand_at _ _ _ _ _ Ho'). simpl. by rewrite delete_app_r_at.
Qed.

Lemma swap_remove_1_middle op front x mid y :
  swap_remove 1 (length front)
    (mkInstruction op (front ++ x :: mid ++ [y]))
  = Ok (mkInstruction op (front ++ y :: mid)).
Proof.
  unfold swap_remove, NumInOperands. simpl in_operands.
  replace (length (front ++ x :: mid ++ [y]) - 1)
    with (length front + S (length mid))
    by (rewrite length_app; simpl; rewrite length_app; simpl; lia).
  replace (length front <? length front + S (length mid)) with true
    by (symmetry; apply Nat.ltb_lt; lia).
  rewrite (GetInOperand_at _ _ _ _ y)
    by (simpl; by apply list_lookup_middle).
  simpl rbind at 2.
  replace (length front) with (length front + 0) at 1 by lia.
  rewrite AssignInOperand_at by (simpl; lia). simpl.
  rewrite RemoveInOperand_at by (simpl; rewrite length_app; simpl; lia).
  simpl. by rewrite (delete_middle mid [] y), app_nil_r.
Qed.

Lemma swap_remove_1_last op front x :
  swap_remove 1 (length front) (mkInstruction op (front ++ [x]))
  = Ok (mkInstruction op front).
Proof.
  unfold swap_remove, NumInOperands. simpl in_operands.
  replace (length (front ++ [x]) - 1) with (length front + 0)
    by (rewrite length_app; simpl; lia).
  replace (length front <? length front + 0) with false
    by (symmetry; apply Nat.ltb_ge; lia).
  simpl. rewrite RemoveInOperand_at by (simpl; lia).
  simpl. by rewrite app_nil_r.
Qed.

Lemma delete_last_but_one {A} (l : list A) y1 y2 :
  delete (S (length l)) (l ++ [y1; y2]) = l ++ [y1].
Proof. induction l as [|x l IH]; [done|]. simpl. by rewrite IH. Qed.

Lemma delete_last {A} (l : list A) y : delete (length l) (l ++ [y]) = l.
Proof. induction l as [|x l IH]; [done|]. simpl. by rewrite IH. Qed.

Lemma lookup_last_of_two {A} (l : list A) y1 y2 :
  (l ++ [y1; y2]) !! S (length l) = Some y2.
Proof. induction l as [|x l IH]; [done|]. simpl. by rewrite IH. Qed.

Lemma swap_remove_2_middle op front x1 x2 mid y1 y2 :
  swap_remove 2 (length front)
    (mkInstruction op (front ++ x1 :: x2 :: mid ++ [y1; y2]))
  = Ok (mkInstruction op (front ++ y1 :: y2 :: mid)).
Proof.
  unfold swap_remove, NumInOperands. simpl in_operands.
  replace (length (front ++ x1 :: x2 :: mid ++ [y1; y2]) - 2)
    with (length front + S (S (length mid)))
    by (rewrite length_app; simpl; rewrite length_app; simpl; lia).
  replace (length front <? length front + S (S (length mid))) with true
    by (symmetry; apply Nat.ltb_lt; lia).
  rewrite (GetInOperand_at _ _ _ _ y1)
    by (simpl; by apply list_lookup_middle).
  simpl rbind at 2.
  replace (length front) with (length front + 0) at 1 by lia.
  rewrite AssignInOperand_at by (simpl; lia). simpl.
  replace (length front + S (S (length mid)) + 1)
    with (length front + S (S (S (length mid)))) by lia.
  rewrite (GetInOperand_at _ _ _ _ y2)
    by (simpl; apply lookup_last_of_two).
  simpl. rewrite AssignInOperand_at by (simpl; lia). simpl.
  rewrite RemoveInOperand_at
    by (simpl; rewrite length_app; simpl; lia).
  simpl. rewrite delete_last_but_one.
  rewrite RemoveInOperand_at by (simpl; rewrite length_app; simpl; lia).
  simpl. by rewrite delete_last.
Qed.

Lemma swap_remove_2_last op front x1 x2 :
  swap_remove 2 (length front) (mkInstruction op (front ++ [x1; x2]))
  = Ok (mkInstruction op front).
Proof.
  unfold swap_remove, NumInOperands. simpl in_operands.
  replace (length (front ++ [x1; x2]) - 2) with (length front + 0)
    by (rewrite length_app; simpl; lia).
  replace (length front <? length front + 0) with false
    by (symmetry; apply Nat.ltb_ge; lia).
  simpl.
  replace (length front + 0 + 1) with (length front + 1) by lia.
  rewrite RemoveInOperand_at by (simpl; lia). simpl.
  rewrite RemoveInOperand_at by (simpl; lia).
  simpl. by rewrite app_nil_r.
Qed.

Lemma swap_remove_slot_middle stride op front c mid lastc :
  stride = 1 ∨ stride = 2 →
  well_sized stride c → well_sized stride lastc →
  swap_remove stride (length front)
    (mkInstruction op
       (front ++ slot_operands c ++ concat (slot_operands <$> mid)
        ++ slot_operands lastc))
  = Ok (mkInstruction op
          (front ++ slot_operands lastc ++ concat (slot_operands <$> mid))).
Proof.
  destruct c as [x cx], lastc as [y cy]. unfold well_sized, slot_operands.
  simpl. intros [->| ->] [Hcx _] [Hcy _].
  - destruct cx; [|done]. destruct cy; [|done]. apply swap_remove_1_middle.
  - destruct cx as [|x2 [|]]; try done. destruct cy as [|y2 [|]]; try done.
    apply swap_remove_2_middle.
Qed.

Lemma swap_remove_slot_last stride op front c :
  stride = 1 ∨ stride = 2 →
  well_sized stride c →
  swap_remove stride (length front)
    (mkInstruction op (front ++ slot_operands c))
  = Ok (mkInstruction op front).
Proof.
  destruct c as [x cx]. unfold well_sized, slot_operands.
  simpl. intros [->| ->] [Hcx _].
  - destruct cx; [|done]. apply swap_remove_1_last.
  - destruct cx as [|x2 [|]]; try done. apply swap_remove_2_last.
Qed.

Lemma operands_of_app g done todo :
  operands_of g (done ++ todo)
  = operands_of g done ++ concat (slot_operands <$> todo).
Proof. unfold operands_of. by rewrite fmap_app, concat_app. Qed.

Lemma remove_target_loop_S fuel h id stride i was_modified :
  remove_target_loop (S fuel) h id stride i was_modified
  = (inst <~ deref h ;;
     if i <? NumInOperands inst then
       w <~ lift (GetSingleWordInOperand inst i) ;;
       if bool_decide (w ≠ id) then
         remove_target_loop fuel h id stride (i + stride) was_modified
       else
         let last_operand_index := NumInOperands inst - stride in
         (if i <? last_operand_index then
            mutate h (λ inst, op <- GetInOperand inst last_operand_index ;;
                              AssignInOperand inst i op)
          else ret tt) ;;;
         (if stride =? 2 then
            (if i <? last_operand_index then
               mutate h (λ inst,
                 op <- GetInOperand inst (last_operand_index + 1) ;;
                 AssignInOperand inst (i + 1) op)
             else ret tt) ;;;
            mutate h (λ inst, RemoveInOperand inst (last_operand_index + 1))
          else ret tt) ;;;
         mutate h (λ inst, RemoveInOperand inst last_operand_index) ;;;
         remove_target_loop fuel h id stride i true
     else ret was_modified).
Proof. reflexivity. Qed.

Lemma same_instruction inst ops :
  in_operands inst = ops → mkInstruction (opcode inst) ops = inst.
Proof. intros <-. by destruct inst. Qed.

Lemma list_last_split {A} (l : list A) :
  l ≠ [] → ∃ mid last, l = mid ++ [last].
Proof.
  induction l as [|x l IH] using rev_ind; [done|]. intros _. by exists l, x.
Qed.

Lemma swap_remove_last_slot stride inst g done c :
  stride = 1 ∨ stride = 2 →
  well_sized stride c →
  in_operands inst = operands_of g (done ++ [c]) →
  swap_remove stride (length (operands_of g done)) inst
  = Ok (mkInstruction (opcode inst) (operands_of g done)).
Proof.
  intros Hstride Hc Hops. destruct inst as [op ops]. simpl in *. subst ops.
  rewrite operands_of_app.
  change (concat (slot_operands <$> [c])) with (slot_operands c ++ []).
  rewrite app_nil_r. by apply swap_remove_slot_last.
Qed.

Lemma swap_remove_middle_slot stride inst g done c mid lastc :
  stride = 1 ∨ stride = 2 →
  well_sized stride c → well_sized stride lastc →
  in_operands inst = operands_of g (done ++ c :: mid ++ [lastc]) →
  swap_remove stride (length (operands_of g done)) inst
  = Ok (mkInstruction (opcode inst) (operands_of g (done ++ lastc :: mid))).
Proof.
  intros Hstride Hc Hlast Hops. destruct inst as [op ops]. simpl in *.
  subst ops. rewrite !operands_of_app.
  change (concat (slot_operands <$> c :: mid ++ [lastc]))
    with (slot_operands c ++ concat (slot_operands <$> mid ++ [lastc])).
  rewrite fmap_app, concat_app.
  change (concat (slot_operands <$> [lastc])) with (slot_operands lastc ++ []).
  rewrite app_nil_r.
  change (concat (slot_operands <$> lastc :: mid))
    with (slot_operands lastc ++ concat (slot_operands <$> mid)).
  by apply swap_remove_slot_middle.
Qed.

Lemma remove_target_loop_spec stride h id g :
  stride = 1 ∨ stride = 2 →
  ∀ fuel done todo wm s inst,
    insts s !! h = Some inst →
    in_operands inst = operands_of g (done ++ todo) →
    Forall (well_sized stride) (done ++ todo) →
    length todo < fuel →
    ∃ s' res,
      remove_target_loop fuel h id stride (length (operands_of g done)) wm s
      = Ok (wm || existsb (slot_is id) todo, s')
      ∧ insts s'
        = <[h := mkInstruction (opcode inst) (operands_of g (done ++ res))]>
            (insts s)
      ∧ res ≡ₚ filter (λ c, slot_is id c = false) todo
      ∧ only_writes h s s'.
Proof.
  intros Hstride fuel.
  induction fuel as [|fuel IH]; intros done todo wm s inst Hh Hops Hsized Hfuel;
    [lia|].
  rewrite remove_target_loop_S.
  destruct todo as [|c rest].
  - exists s, []. split; [|split; [|split]].
    + eapply eval_bind; [by apply deref_Ok|].
      unfold NumInOperands. rewrite Hops, app_nil_r, Nat.ltb_irrefl.
      simpl. by rewrite orb_false_r.
    + by rewrite (same_instruction _ _ Hops), insert_id.
    + done.
    + apply only_writes_refl.
  - assert (in_operands inst
            = operands_of g done ++ slot_operands c
              ++ concat (slot_operands <$> rest)) as Hops'.
    { by rewrite Hops, operands_of_app. }
    pose proof Hsized as Hsized'.
    apply Forall_app in Hsized' as [Hdone Htodo].
    apply Forall_cons in Htodo as [Hsize Hrest].
    pose proof Hsize as [Hlen [w Hw]].
    assert (length (slot_operands c) = stride) as Hclen by done.
    assert ((length (operands_of g done) <? NumInOperands inst) = true)
      as Hlt.
    { apply Nat.ltb_lt. unfold NumInOperands.
      rewrite Hops', !length_app, Hclen. lia. }
    assert (GetSingleWordInOperand inst (length (operands_of g done)) = Ok w)
      as Hread.
    { apply GetSingleWordInOperand_Ok. rewrite Hops'.
      unfold slot_operands. simpl.
      rewrite (list_lookup_middle _ _ c.1) by done. simpl. by rewrite Hw. }
    destruct (decide (w = id)) as [->|Hne].
    + assert (slot_is id c = true) as Hc
        by (unfold slot_is; by rewrite bool_decide_eq_true_2).
      destruct (decide (rest = [])) as [->|Hrest'].
      * assert (swap_remove stride (length (operands_of g done)) inst
                = Ok (mkInstruction (opcode inst) (operands_of g done)))
          as Hswap.
        { by apply (swap_remove_last_slot stride inst g done c). }
        destruct (swap_remove_run h stride _ s _ _
                    (remove_target_loop fuel h id stride
                       (length (operands_of g done)) true) Hh Hswap)
          as (s1 & Hs1 & Hw1 & Hround).
        destruct (IH done [] true s1
                    (mkInstruction (opcode inst) (operands_of g done)))
          as (s' & res & Hrun & Hinsts & Hperm & Hw').
        { by rewrite Hs1, lookup_insert_eq. }
        { simpl. by rewrite app_nil_r. }
        { by rewrite app_nil_r. }
        { simpl in Hfuel |- *. lia. }
        exists s', res. split; [|split; [|split]].
        -- eapply eval_bind; [by apply deref_Ok|]. rewrite Hlt.
           eapply eval_bind; [unfold lift; by rewrite Hread|].
           rewrite (bool_decide_eq_false_2 (id ≠ id)) by tauto. cbv zeta.
           rewrite Hround, Hrun. simpl. by rewrite Hc, !orb_true_r.
        -- rewrite Hinsts, Hs1. simpl. by rewrite insert_insert_eq.
        -- simpl in Hperm. by rewrite filter_cons, Hc, decide_False.
        -- by eapply only_writes_trans.
      * destruct (list_last_split rest Hrest') as (mid & lastc & ->).
        apply Forall_app in Hrest as [Hmid Hlast].
        apply Forall_cons in Hlast as [Hlast _].
        assert (swap_remove stride (length (operands_of g done)) inst
                = Ok (mkInstruction (opcode inst)
                        (operands_of g (done ++ lastc :: mid))))
          as Hswap.
        { by apply (swap_remove_middle_slot stride inst g done c mid lastc). }
        destruct (swap_remove_run h stride _ s _ _
                    (remove_target_loop fuel h id stride
                       (length (operands_of g done)) true) Hh Hswap)
          as (s1 & Hs1 & Hw1 & Hround).
        destruct (IH done (lastc :: mid) true s1
                    (mkInstruction (opcode inst)
                       (operands_of g (done ++ lastc :: mid))))
          as (s' & res & Hrun & Hinsts & Hperm & Hw').
        { by rewrite Hs1, lookup_insert_eq. }
        { done. }
        { apply Forall_app. split; [done|]. by apply Forall_cons. }
        { simpl in Hfuel |- *. rewrite length_app in Hfuel.
          simpl in Hfuel. lia. }
        exists s', res. split; [|split; [|split]].
        -- eapply eval_bind; [by apply deref_Ok|]. rewrite Hlt.
           eapply eval_bind; [unfold lift; by rewrite Hread|].
           rewrite (bool_decide_eq_false_2 (id ≠ id)) by tauto. cbv zeta.
           rewrite Hround, Hrun. simpl. by rewrite Hc, !orb_true_r.
        -- rewrite Hinsts, Hs1. simpl. by rewrite insert_insert_eq.
        -- rewrite Hperm, (filter_cons _ c), Hc, decide_False by done.
           apply filter_Permutation.
           by rewrite (Permutation_app_comm mid [lastc]).
        -- by eapply only_writes_trans.
    + assert (slot_is id c = false) as Hc.
      { unfold slot_is. rewrite Hw. apply bool_decide_eq_false_2. congruence. }
      assert (length (operands_of g done) + stride
              = length (operands_of g (done ++ [c]))) as Hnext.
      { rewrite operands_of_app, length_app.
        change (concat (slot_operands <$> [c])) with (slot_operands c ++ []).
        by rewrite app_nil_r, Hclen. }
      destruct (IH (done ++ [c]) rest wm s inst)
        as (s' & res & Hrun & Hinsts & Hperm & Hw'); try done.
      { by rewrite <- app_assoc. }
      { by rewrite <- app_assoc. }
      { simpl in Hfuel. lia. }
      exists s', (c :: res). split; [|split; [|split]].
      * eapply eval_bind; [by apply deref_Ok|]. rewrite Hlt.
        eapply eval_bind; [unfold lift; by rewrite Hread|].
        rewrite (bool_decide_eq_true_2 (w ≠ id)) by done.
        rewrite Hnext, Hrun. simpl. by rewrite Hc.
      * rewrite Hinsts. by rewrite <- app_assoc.
      * rewrite filter_cons, decide_True by done. by rewrite Hperm.
      * done.
Qed.

Lemma slots_length (slots : list Slot) :
  length slots ≤ length (concat (slot_operands <$> slots)).
Proof.
  induction slots as [|c slots IH]; [done|].
  change (concat (slot_operands <$> c :: slots))
    with (slot_operands c ++ concat (slot_operands <$> slots)).
  rewrite length_app. unfold slot_operands at 1. simpl. lia.
Qed.

Lemma remove_target_spec h id stride s inst g slots :
  insts s !! h = Some inst →
  stride = 1 ∨ stride = 2 →
  in_operands inst = operands_of g slots →
  Forall (well_sized stride) slots →
  ∃ s' res,
    remove_target h id stride s = Ok (existsb (slot_is id) slots, s')
    ∧ insts s'
      = <[h := mkInstruction (opcode inst) (operands_of g res)]> (insts s)
    ∧ res ≡ₚ filter (λ c, slot_is id c = false) slots
    ∧ only_writes h s s'.
Proof.
  intros Hh Hstride Hops Hsized.
  destruct (remove_target_loop_spec stride h id g Hstride
              (S (NumInOperands inst)) [] slots false s inst)
    as (s' & res & Hrun & Hinsts & Hperm & Hw); try done.
  { unfold NumInOperands. rewrite Hops. unfold operands_of. simpl.
    pose proof (slots_length slots). lia. }
  exists s', res. repeat split; try done; try apply Hw.
  unfold remove_target. eapply eval_bind; [by apply deref_Ok|]. apply Hrun.
Qed.

(** X11: the loop of [RemoveDecorationsFrom] that takes [id] out of the
    targets of a group-apply instruction returns, with the fuel the
    model gives it.  Afterwards the instruction has the same group
    operand, and its targets (each with its member literal when the
    stride is 2) are those that are not [id], in some order: moving the
    last target into the freed place does not keep the order.  The answer
    says whether [id] was among the targets, and nothing happened but
    operand writes to that one instruction. *)
Theorem X11_target_removal_loop (h : InstPtr) (id : N) (stride : nat)
    (s : State) (inst : Instruction) (g : Operand) (slots : list Slot) :
  insts s !! h = Some inst →
  stride = 1 ∨ stride = 2 →
  in_operands inst = operands_of g slots →
  Forall (well_sized stride) slots →
  ∃ s' res,
    remove_target h id stride s = Ok (existsb (slot_is id) slots, s')
    ∧ insts s'
      = <[h := mkInstruction (opcode inst) (operands_of g res)]> (insts s)
    ∧ res ≡ₚ filter (λ c, slot_is id c = false) slots
    ∧ only_writes h s s'.
Proof. apply remove_target_spec. Qed.

(** ** [RemoveDecorationsFrom] on an id with direct decorations only *)

Lemma RemoveDecoration_direct_run h s inst id td :
  insts s !! h = Some inst →
  is_direct_form (opcode inst) = true →
  GetSingleWordInOperand inst 0 = Ok id →
  id_to_decoration_insts_ s !! id = Some td →
  RemoveDecoration h s = Ok (tt, set_index <[id := remove_direct h td]> s).
Proof.
  intros Hh Hdirect Hw Hid.
  rewrite (RemoveDecoration_cases _ _ _ Hh), Hdirect, word_step_found.
  unfold bindM, lift. rewrite Hw. unfold modify, update_found. by rewrite Hid.
Qed.

Lemma KillInst_direct h s inst id td :
  insts s !! h = Some inst →
  is_direct_form (opcode inst) = true →
  GetSingleWordInOperand inst 0 = Ok id →
  id_to_decoration_insts_ s !! id = Some td →
  KillInst h s
  = Ok (tt, mkState (delete h (insts s)) (next_ptr s)
              (filter (λ x, x ≠ h) <$> module_ s) (id_to_def s)
              (<[id := remove_direct h td]> (id_to_decoration_insts_ s))
              (trace s ++ [EvKillInst h])).
Proof.
  intros Hh Hdirect Hw Hid. unfold KillInst.
  eapply eval_bind; [reflexivity|].
  eapply eval_bind; [by apply deref_Ok|].
  rewrite (IsDecoration_direct _ Hdirect).
  eapply eval_bind; [by eapply RemoveDecoration_direct_run|].
  eapply eval_bind; reflexivity.
Qed.

Lemma targets_directly_inv s id h :
  targets_directly s id h = true →
  ∃ inst, insts s !! h = Some inst ∧ is_direct_form (opcode inst) = true
          ∧ GetSingleWordInOperand inst 0 = Ok id.
Proof.
  unfold targets_directly, names.
  destruct (insts s !! h) as [inst|]; [|done].
  intros [Hd Hn%bool_decide_eq_true]%andb_prop. exists inst.
  by rewrite GetSingleWordInOperand_Ok.
Qed.

Lemma filter_not_in_nil (l : list InstPtr) : filter (λ h, h ∉ []) l = l.
Proof.
  induction l as [|x l IH]; [done|].
  rewrite filter_cons, decide_True by apply not_elem_of_nil. by rewrite IH.
Qed.

Lemma kill_direct_loop id killed :
  NoDup killed →
  ∀ s td,
    id_to_decoration_insts_ s !! id = Some td →
    Forall (λ h, targets_directly s id h = true) killed →
    ∃ s',
      forM_ killed KillInst s = Ok (tt, s')
      ∧ after_kills id killed s s'
      ∧ id_to_decoration_insts_ s' !! id
        = Some (mkTargetData
                  (filter (λ h, h ∉ killed) (direct_decorations td))
                  (indirect_decorations td) (decorate_insts td)).
Proof.
  induction 1 as [|h killed Hh Hnodup IH]; intros s td Hid Hall.
  - exists s. split; [done|]. split.
    + unfold after_kills. repeat split; try done.
      * by destruct (module_ s) as [m|]; simpl; [rewrite filter_not_in_nil|].
      * by rewrite app_nil_r.
    + rewrite Hid. destruct td as [d i g]. simpl.
      by rewrite filter_not_in_nil.
  - apply Forall_cons in Hall as [Hhead Hall].
    destruct (targets_directly_inv _ _ _ Hhead) as (inst & Hi & Hd & Hw).
    pose proof (KillInst_direct _ _ _ _ _ Hi Hd Hw Hid) as Hkill.
    set (s1 := mkState (delete h (insts s)) (next_ptr s)
                 (filter (λ x, x ≠ h) <$> module_ s) (id_to_def s)
                 (<[id := remove_direct h td]> (id_to_decoration_insts_ s))
                 (trace s ++ [EvKillInst h])) in *.
    destruct (IH s1 (remove_direct h td)) as (s' & Hrun & Hafter & Hrec).
    { simpl. by rewrite lookup_insert_eq. }
    { rewrite Forall_forall in Hall |- *. intros h' Hh'.
      specialize (Hall h' Hh'). unfold targets_directly in *. simpl.
      rewrite lookup_delete_ne; [done|]. intros ->. done. }
    exists s'. split; [|split].
    + simpl. eapply eval_bind; [apply Hkill|]. apply Hrun.
    + destruct Hafter as (Hinsts & Hmod & Htr & Hnp & Hdef & Hidx).
      unfold after_kills. split; [|split; [|split; [|split; [|split]]]].
      * intros h'. rewrite Hinsts. simpl.
        destruct (decide (h' ∈ killed)) as [Hin|Hin].
        -- rewrite decide_True; [done|by right].
        -- destruct (decide (h' = h)) as [->|Hne].
           ++ rewrite decide_True by by left. by rewrite lookup_delete_eq.
           ++ rewrite decide_False, lookup_delete_ne; [done|done|].
              by intros [?|?]%elem_of_cons.
      * rewrite Hmod. simpl. destruct (module_ s) as [m|]; [|done]. simpl.
        f_equal. rewrite list_filter_filter. apply list_filter_iff.
        intros x. rewrite not_elem_of_cons. tauto.
      * rewrite Htr. simpl. by rewrite <- app_assoc.
      * by rewrite Hnp.
      * by rewrite Hdef.
      * intros k Hk. rewrite (Hidx k Hk). simpl.
        by rewrite lookup_insert_ne.
    + rewrite Hrec. simpl. f_equal. f_equal.
      unfold remove_from_container. rewrite list_filter_filter.
      apply list_filter_iff. intros x. rewrite not_elem_of_cons. tauto.
Qed.

Lemma filter_ext_elem_of {A} (P Q : A → Prop) `{!∀ x, Decision (P x)}
    `{!∀ x, Decision (Q x)} (l : list A) :
  (∀ x, x ∈ l → P x ↔ Q x) → filter P l = filter Q l.
Proof.
  induction l as [|x l IH]; intros Hext; [done|].
  rewrite !filter_cons, IH by (intros y Hy; apply Hext; by right).
  destruct (decide (P x)) as [HP|HP].
  - rewrite decide_True; [done|]. apply Hext; [by left|done].
  - rewrite decide_False; [done|]. intros HQ. apply HP, Hext; [by left|done].
Qed.

Lemma not_killed_kept s pred (ds : list InstPtr) :
  filter (λ h, h ∉ filter (λ h, holds s pred h) ds) ds
  = filter (λ h, holds s pred h = false) ds.
Proof.
  apply filter_ext_elem_of. intros h Hh. rewrite list_elem_of_filter.
  destruct (holds s pred h); simpl; split; try done.
  - intros Hno. exfalso. by apply Hno.
  - by intros _ [[] _].
Qed.

Lemma RemoveDecorationsFrom_direct (s : State) (id : N) (td : TargetData)
    (pred : Instruction → bool) :
  id_to_decoration_insts_ s !! id = Some td →
  is_Some (module_ s) →
  indirect_decorations td = [] →
  decorate_insts td = [] →
  NoDup (direct_decorations td) →
  Forall (λ h, targets_directly s id h = true) (direct_decorations td) →
  ∃ s',
    RemoveDecorationsFrom id pred s = Ok (tt, s')
    ∧ after_kills id (filter (λ h, holds s pred h) (direct_decorations td))
        s s'
    ∧ id_to_decoration_insts_ s' !! id
      = (let kept :=
           filter (λ h, holds s pred h = false) (direct_decorations td) in
         if decide (kept = []) then None
         else Some (mkTargetData kept [] [])).
Proof.
  intros Hid [m Hm] Hindirect Hgroup Hnodup Hall.
  set (killed := filter (λ h, holds s pred h) (direct_decorations td)).
  assert (Forall (λ h, is_Some (insts s !! h)) (direct_decorations td))
    as Hlive.
  { eapply Forall_impl; [apply Hall|]. simpl.
    intros h (inst & Hi & _)%targets_directly_inv. by exists inst. }
  destruct (kill_direct_loop id killed) with (s := s) (td := td)
    as (s1 & Hrun & Hafter & Hrec); try done.
  { by apply NoDup_filter. }
  { apply Forall_forall. intros h [_ Hh]%list_elem_of_filter.
    rewrite Forall_forall in Hall. by apply Hall. }
  rewrite Hindirect, Hgroup in Hrec. unfold killed in Hrec.
  rewrite not_killed_kept in Hrec. cbv zeta.
  set (kept := filter (λ h, holds s pred h = false) (direct_decorations td))
    in *.
  assert (∀ s',
    (if all_empty (mkTargetData kept [] []) then
       modify (set_index (delete id)) ;;;
       (if negb (bool_decide (decorate_insts td = []))
        then KillDef id else ret tt)
     else ret tt) s1 = Ok (tt, s') →
    RemoveDecorationsFrom id pred s = Ok (tt, s')) as Hfinish.
  { intros s' Htail. unfold RemoveDecorationsFrom.
    eapply eval_bind; [reflexivity|]. simpl. rewrite Hid.
    eapply eval_bind; [unfold module_context; by rewrite Hm|].
    eapply eval_bind; [by apply select_live|]. rewrite Hindirect.
    eapply eval_bind; [reflexivity|]. cbv beta iota.
    eapply eval_bind.
    { rewrite at_found_modify, Hid, keep_indirect_none.
      by rewrite (set_index_same _ _ _ Hid). }
    eapply eval_bind; [apply Hrun|].
    eapply eval_bind; [reflexivity|]. simpl. rewrite Hrec. simpl.
    eapply eval_bind.
    { match goal with
      | |- context [if ?b then @nil InstPtr else []] => by destruct b
      end. }
    eapply eval_bind; [reflexivity|]. simpl. rewrite Hrec. simpl.
    apply Htail. }
  destruct (decide (kept = [])) as [Hkept|Hkept].
  - eexists. split; [apply Hfinish|split].
    + rewrite Hkept. simpl. rewrite Hgroup.
      rewrite (bool_decide_eq_true_2 ([] = [])) by done. simpl.
      eapply eval_bind; reflexivity.
    + destruct Hafter as (? & ? & ? & ? & ? & Hidx).
      unfold after_kills. repeat split; try done.
      intros k Hk. simpl. rewrite lookup_delete_ne by done. by apply Hidx.
    + simpl. by rewrite lookup_delete_eq.
  - exists s1. split; [apply Hfinish|split; [done|done]].
    assert (all_empty (mkTargetData kept [] []) = false) as ->; [|done].
    unfold all_empty. simpl. by rewrite (bool_decide_eq_false_2 (kept = [])).
Qed.

(** X12: on an id whose record holds direct decorations only (each
    stored once, live, of a direct form and with the id as its target),
    [RemoveDecorationsFrom] returns and deletes exactly the decorations
    that satisfy the predicate: they leave the instruction store and the
    annotations of the module, one [KillInst] each, in stored order.  The
    record keeps the others in their order, or is erased when none is
    left; no other record changes. *)
Theorem X12_direct_decorations_removed (s : State) (id : N) (td : TargetData)
    (pred : Instruction → bool) :
  id_to_decoration_insts_ s !! id = Some td →
  is_Some (module_ s) →
  indirect_decorations td = [] →
  decorate_insts td = [] →
  NoDup (direct_decorations td) →
  Forall (λ h, targets_directly s id h = true) (direct_decorations td) →
  ∃ s',
    RemoveDecorationsFrom id pred s = Ok (tt, s')
    ∧ after_kills id (filter (λ h, holds s pred h) (direct_decorations td))
        s s'
    ∧ id_to_decoration_insts_ s' !! id
      = (let kept :=
           filter (λ h, holds s pred h = false) (direct_decorations td) in
         if decide (kept = []) then None
         else Some (mkTargetData kept [] [])).
Proof. apply RemoveDecorationsFrom_direct. Qed.


(** ** [CloneDecorations] from an id with direct decorations only *)

Lemma SetInOperand_0_word inst to inst' :
  SetInOperand inst 0 [to] = Ok inst' →
  GetSingleWordInOperand inst' 0 = Ok to.
Proof.
  unfold SetInOperand, GetInOperand.
  destruct (in_operands inst !! 0) as [op|] eqn:Hop; [|done].
  simpl. intros [= <-]. apply GetSingleWordInOperand_Ok. simpl.
  rewrite list_lookup_insert_eq; [done|].
  by apply lookup_lt_Some in Hop.
Qed.

Lemma clone_onto_direct to h s inst inst' anns :
  insts s !! h = Some inst →
  is_direct_form (opcode inst) = true →
  SetInOperand inst 0 [to] = Ok inst' →
  module_ s = Some anns →
  clone_onto to h s
  = Ok (tt, mkState (<[next_ptr s := inst']> (insts s)) (S (next_ptr s))
              (Some (anns ++ [next_ptr s])) (id_to_def s)
              (<[to := push_direct (next_ptr s) (record s to)]>
                 (id_to_decoration_insts_ s))
              (trace s ++ clone_events (next_ptr s))).
Proof.
  intros Hh Hdirect Hset Hm. unfold clone_onto.
  eapply eval_bind; [by apply deref_Ok|].
  eapply eval_bind; [unfold lift; by rewrite Hset|].
  eapply eval_bind; [unfold AddAnnotationInst; by rewrite Hm|].
  unfold AnalyzeUses.
  eapply eval_bind; [reflexivity|].
  eapply eval_bind; [apply deref_Ok; simpl; by rewrite lookup_insert_eq|].
  assert (is_direct_form (opcode inst') = true) as Hdirect'
    by by rewrite (SetInOperand_opcode _ _ _ _ Hset).
  rewrite (IsDecoration_direct _ Hdirect').
  eapply eval_AddDecoration_direct;
    [simpl; by rewrite lookup_insert_eq|done|].
  eapply eval_bind;
    [unfold lift; by rewrite (SetInOperand_0_word _ _ _ Hset)|].
  unfold at_id, modify, set_index, record, clone_events. simpl.
  by rewrite <- app_assoc.
Qed.

Lemma clonable_inv s h :
  clonable s h = true →
  ∃ inst op, insts s !! h = Some inst ∧ h < next_ptr s
             ∧ is_direct_form (opcode inst) = true
             ∧ in_operands inst !! 0 = Some op.
Proof.
  unfold clonable. destruct (insts s !! h) as [inst|]; [|done].
  intros [[Hlt%bool_decide_eq_true Hd]%andb_prop
            [op Hop]%bool_decide_eq_true]%andb_prop.
  by exists inst, op.
Qed.

Lemma SetInOperand_returns inst op ws :
  in_operands inst !! 0 = Some op →
  ∃ inst', SetInOperand inst 0 ws = Ok inst'.
Proof.
  intros Hop. unfold SetInOperand, GetInOperand. rewrite Hop. by eexists.
Qed.

Lemma clone_loop to ds :
  ∀ s anns,
    module_ s = Some anns →
    Forall (λ h, clonable s h = true) ds →
    ∃ s', forM_ ds (clone_onto to) s = Ok (tt, s') ∧ cloned_onto to ds s s'
          ∧ ∀ k, is_Some (id_to_decoration_insts_ s !! k) →
                 is_Some (id_to_decoration_insts_ s' !! k).
Proof.
  induction ds as [|h ds IH]; intros s anns Hm Hall.
  - exists s. split; [done|]. split; [|done]. unfold cloned_onto. simpl.
    rewrite Hm, !app_nil_r. simpl. rewrite app_nil_r.
    split; [lia|]. do 4 (split; [done|]). split; [|split; [|done]].
    + intros j h inst Hj. by rewrite lookup_nil in Hj.
    + by destruct (record s to).
  - apply Forall_cons in Hall as [Hh Hall].
    destruct (clonable_inv _ _ Hh) as (inst & op & Hi & Hlt & Hd & Hop).
    destruct (SetInOperand_returns inst op [to] Hop) as [inst' Hset].
    pose proof (clone_onto_direct to h s inst inst' anns Hi Hd Hset Hm)
      as Hstep.
    set (s1 := mkState (<[next_ptr s := inst']> (insts s)) (S (next_ptr s))
                 (Some (anns ++ [next_ptr s])) (id_to_def s)
                 (<[to := push_direct (next_ptr s) (record s to)]>
                    (id_to_decoration_insts_ s))
                 (trace s ++ clone_events (next_ptr s))) in *.
    destruct (IH s1 (anns ++ [next_ptr s])) as (s' & Hrun & Hcl & Hkeys);
      [done| |].
    { rewrite Forall_forall in Hall |- *. intros h' Hh'.
      specialize (Hall h' Hh').
      destruct (clonable_inv _ _ Hall) as (i' & o' & Hi' & Hlt' & Hd' & Ho').
      unfold clonable. simpl. rewrite lookup_insert_ne by lia.
      rewrite Hi', Hd', Ho'. simpl.
      by rewrite bool_decide_eq_true_2 by lia. }
    exists s'. split.
    { simpl. eapply eval_bind; [apply Hstep|]. apply Hrun. }
    split; cycle 1.
    { intros k Hk. apply Hkeys. simpl. rewrite lookup_insert.
      by destruct (decide (to = k)). }
    destruct Hcl as (Hnp & Hmod & Hdef & Htr & Hold & Hnew & Hto & Hother).
    unfold cloned_onto. cbv zeta. simpl length. simpl seq.
    split; [|split; [|split; [|split; [|split; [|split; [|split]]]]]].
    + rewrite Hnp. simpl. lia.
    + rewrite Hmod, Hm. simpl. by rewrite <- app_assoc.
    + by rewrite Hdef.
    + rewrite Htr. simpl. by rewrite <- app_assoc.
    + intros h' Hh'. rewrite Hold by (simpl in *; lia). simpl.
      rewrite lookup_insert_ne; [done|]. simpl in Hh'. lia.
    + intros j h' i' Hj Hi'. destruct j as [|j]; simpl in Hj.
      * injection Hj as <-. rewrite Hi in Hi'. injection Hi' as <-.
        exists inst'. split; [done|]. rewrite Nat.add_0_r.
        rewrite Hold by (simpl; lia). simpl. by rewrite lookup_insert_eq.
      * assert (h' < next_ptr s) as Hlt'.
        { rewrite Forall_forall in Hall.
          destruct (clonable_inv s h') as (? & ? & ? & ? & _); [|done].
          by apply Hall, list_elem_of_lookup_2 with j. }
        destruct (Hnew j h' i' Hj) as (i'' & Hset' & Hi'').
        { simpl. by rewrite lookup_insert_ne by lia. }
        exists i''. split; [done|]. simpl in Hi''.
        by replace (next_ptr s + S j) with (S (next_ptr s + j)) by lia.
    + rewrite Hto. unfold record at 1 2 3. simpl.
      rewrite lookup_insert_eq. simpl. by rewrite <- app_assoc.
    + intros k Hk. rewrite (Hother k Hk). simpl.
      by rewrite lookup_insert_ne.
Qed.

Lemma CloneDecorations_direct s from to td :
  id_to_decoration_insts_ s !! from = Some td →
  from ≠ to →
  is_Some (module_ s) →
  indirect_decorations td = [] →
  Forall (λ h, clonable s h = true) (direct_decorations td) →
  ∃ s', CloneDecorations from to s = Ok (tt, s')
        ∧ cloned_onto to (direct_decorations td) s s'.
Proof.
  intros Hid Hne [anns Hm] Hind Hall.
  destruct (clone_loop to (direct_decorations td) s anns Hm Hall)
    as (s' & Hrun & Hcl & _).
  exists s'. split; [|done]. unfold CloneDecorations.
  eapply eval_bind; [reflexivity|]. simpl. rewrite Hid.
  eapply eval_bind; [unfold module_context; by rewrite Hm|].
  eapply eval_bind; [apply Hrun|].
  eapply eval_bind; [reflexivity|]. simpl.
  destruct Hcl as (_ & _ & _ & _ & _ & _ & _ & Hother).
  rewrite (Hother from Hne), Hid. simpl. by rewrite Hind.
Qed.

(** X13: from an id whose record holds direct decorations only, each
    live, of a direct form and with a target operand, [CloneDecorations]
    returns (for [to] another id, in a module) and makes one copy of each
    decoration, retargeted to [to].  The copies take the next free
    addresses, in the order of the originals, at the end of the
    annotations and of the direct decorations of [to]; the context sees
    each added and analyzed; the originals and the other records stay as
    they were. *)
Theorem X13_direct_decorations_cloned (s : State) (from to : N)
    (td : TargetData) :
  id_to_decoration_insts_ s !! from = Some td →
  from ≠ to →
  is_Some (module_ s) →
  indirect_decorations td = [] →
  Forall (λ h, clonable s h = true) (direct_decorations td) →
  ∃ s', CloneDecorations from to s = Ok (tt, s')
        ∧ cloned_onto to (direct_decorations td) s s'.
Proof. apply CloneDecorations_direct. Qed.

Lemma is_linkage_decorate_retarget inst to inst' b :
  SetInOperand inst 0 [to] = Ok inst' →
  is_linkage inst = Ok b →
  is_linkage inst' = Ok b ∧ is_linkage_decorate inst' = b
  ∧ is_linkage_decorate inst = b.
Proof.
  intros Hset Hb. pose proof (is_linkage_retarget _ _ _ Hset) as Heq.
  rewrite Hb in Heq. split; [done|].
  split; by apply is_linkage_spec.
Qed.

Lemma readable_direct_inv s h :
  readable_direct s h = true →
  ∃ inst b, insts s !! h = Some inst ∧ is_linkage inst = Ok b.
Proof.
  unfold readable_direct, read. destruct (insts s !! h) as [inst|]; [|done].
  destruct (is_linkage inst) as [b|] eqn:Hb; [|done]. by exists inst, b.
Qed.

Lemma cloned_have_the_same s s' from to td :
  id_to_decoration_insts_ s !! from = Some td →
  from ≠ to →
  id_to_decoration_insts_ s !! to = None →
  indirect_decorations td = [] →
  Forall (λ h, clonable s h = true) (direct_decorations td) →
  Forall (λ h, readable_direct s h = true) (direct_decorations td) →
  cloned_onto to (direct_decorations td) s s' →
  HaveTheSameDecorations s' from to = Ok true.
Proof.
  intros Hid Hne Hto Hind Hall Hread
    (Hnp & _ & _ & _ & Hold & Hnew & Hrec & Hother).
  set (ds := direct_decorations td) in *.
  set (np := next_ptr s) in *.
  assert (∀ j h, ds !! j = Some h →
    ∃ inst inst' b,
      insts s' !! h = Some inst
      ∧ insts s' !! (np + j : InstPtr) = Some inst'
      ∧ SetInOperand inst 0 [to] = Ok inst'
      ∧ is_linkage inst = Ok b ∧ is_linkage inst' = Ok b
      ∧ shown s' false h = negb b ∧ shown s' false (np + j) = negb b)
    as Hpair.
  { intros j h Hj. pose proof (list_elem_of_lookup_2 _ _ _ Hj) as Hin.
    rewrite Forall_forall in Hall. rewrite Forall_forall in Hread.
    destruct (clonable_inv _ _ (Hall h Hin)) as (inst & _ & Hi & Hlt & _).
    destruct (readable_direct_inv _ _ (Hread h Hin)) as (inst0 & b & Hi0 & Hb).
    rewrite Hi in Hi0. injection Hi0 as <-.
    destruct (Hnew j h inst Hj Hi) as (inst' & Hset & Hi').
    destruct (is_linkage_decorate_retarget _ _ _ _ Hset Hb)
      as (Hb' & Hl' & Hl).
    exists inst, inst', b. unfold shown.
    rewrite (Hold h (or_introl Hlt)), Hi, Hi', Hl, Hl'. by repeat split. }
  assert (record s to = empty_TargetData) as Hempty
    by (unfold record; by rewrite Hto).
  rewrite Hempty in Hrec. simpl in Hrec. fold ds in Hrec.
  assert (id_to_decoration_insts_ s' !! from = Some td) as Hfrom
    by by rewrite (Hother from Hne).
  apply (HaveTheSameDecorations_content s' from to
           (decorationsFor_spec s' from false)
           (decorationsFor_spec s' to false)).
  - apply GetDecorationsFor_Ok. split; [|done]. intros td'.
    rewrite Hfrom. intros [= <-]. unfold well_formed_record.
    rewrite Hind. simpl. rewrite andb_true_r. apply forallb_forall.
    intros h Hh%list_elem_of_In.
    apply list_elem_of_lookup_1 in Hh as [j Hj].
    destruct (Hpair j h Hj) as (inst & inst' & b & Hi & _ & _ & Hb & _).
    unfold readable_direct, read. by rewrite Hi, Hb.
  - apply GetDecorationsFor_Ok. split; [|done]. intros td' Htd'.
    unfold record in Hrec. rewrite Htd' in Hrec. simpl in Hrec. subst td'.
    unfold well_formed_record. simpl. rewrite andb_true_r.
    apply forallb_forall. intros h Hh%list_elem_of_In%list_elem_of_In.
    apply in_seq in Hh.
    destruct (lookup_lt_is_Some_2 ds (h - np)) as [h0 Hj]; [lia|].
    destruct (Hpair _ h0 Hj) as (inst & inst' & b & _ & Hi' & _ & _ & Hb' & _).
    replace (np + (h - np)) with h in Hi' by lia.
    unfold readable_direct, read. by rewrite Hi', Hb'.
  - unfold decorationsFor_spec. rewrite Hfrom, Hind. simpl.
    rewrite app_nil_r. intros h [Hs Hh]%list_elem_of_filter.
    apply list_elem_of_lookup_1 in Hh as [j Hj].
    destruct (Hpair j h Hj)
      as (inst & inst' & b & Hi & Hi' & Hset & _ & _ & Hsh & Hsh').
    exists (np + j). split.
    + unfold record in Hrec.
      destruct (id_to_decoration_insts_ s' !! to) as [td'|] eqn:Htd'.
      * simpl in Hrec. subst td'. simpl. rewrite app_nil_r.
        apply list_elem_of_filter. split; [by rewrite Hsh', <- Hsh|].
        apply list_elem_of_In, in_seq. apply lookup_lt_Some in Hj.
        fold ds in Hj. lia.
      * simpl in Hrec. injection Hrec as Hseq.
        apply lookup_lt_Some in Hj. fold ds in Hj.
        destruct (length ds); [lia|done].
    + exists inst, inst'. destruct (SetInOperand_0_inv _ _ _ Hset)
        as (Hop & Hdrop & _). by repeat split.
  - unfold decorationsFor_spec at 1. unfold record in Hrec.
    destruct (id_to_decoration_insts_ s' !! to) as [td'|] eqn:Htd';
      [|by intros h ?%elem_of_nil].
    simpl in Hrec. subst td'. simpl. rewrite app_nil_r.
    intros h [Hs Hh%list_elem_of_In%in_seq]%list_elem_of_filter.
    destruct (lookup_lt_is_Some_2 ds (h - np)) as [h0 Hj]; [lia|].
    destruct (Hpair _ h0 Hj)
      as (inst & inst' & b & Hi & Hi' & Hset & _ & _ & Hsh & Hsh').
    replace (np + (h - np)) with h in Hi', Hsh' by lia.
    exists h0. split.
    + unfold decorationsFor_spec. rewrite Hfrom, Hind. simpl.
      rewrite app_nil_r. apply list_elem_of_filter.
      split; [by rewrite Hsh, <- Hsh'|]. by eapply list_elem_of_lookup_2.
    + exists inst', inst. destruct (SetInOperand_0_inv _ _ _ Hset)
        as (Hop & Hdrop & _). by repeat split.
Qed.

(** X14: after [CloneDecorations(from, to)], for [from] with direct
    decorations only that can be cloned and looked up, and [to] an id
    that had no record, [HaveTheSameDecorations(from, to)] answers
    true. *)
Theorem X14_clone_has_the_same_decorations (s s' : State) (from to : N)
    (td : TargetData) :
  id_to_decoration_insts_ s !! from = Some td →
  from ≠ to →
  id_to_decoration_insts_ s !! to = None →
  is_Some (module_ s) →
  indirect_decorations td = [] →
  Forall (λ h, clonable s h = true) (direct_decorations td) →
  Forall (λ h, readable_direct s h = true) (direct_decorations td) →
  CloneDecorations from to s = Ok (tt, s') →
  HaveTheSameDecorations s' from to = Ok true.
Proof.
  intros Hid Hne Hto Hm Hind Hall Hread Hrun.
  destruct (CloneDecorations_direct s from to td) as (s'' & Hrun' & Hcl);
    try done.
  rewrite Hrun in Hrun'. injection Hrun' as <-.
  by eapply cloned_have_the_same.
Qed.

(** ** [CloneDecorations] from an id decorated through one group *)

Lemma group_apply_words_read inst G targets :
  group_apply_words inst G targets →
  GetSingleWordInOperand inst 0 = Ok G
  ∧ Forall2 (λ i w, GetSingleWordInOperand inst i = Ok w)
      (strided 1 1 (NumInOperands inst)) targets.
Proof.
  unfold group_apply_words. intros Hw.
  assert (∀ i w, (G :: targets) !! i = Some w →
                 GetSingleWordInOperand inst i = Ok w) as Hread.
  { intros i w Hi. apply GetSingleWordInOperand_Ok.
    rewrite <- list_lookup_fmap, Hw, list_lookup_fmap, Hi. done. }
  split; [by apply Hread|].
  rewrite strided_1_seq.
  assert (NumInOperands inst = S (length targets)) as ->.
  { unfold NumInOperands.
    rewrite <- (length_fmap words), Hw, length_fmap. done. }
  replace (S (length targets) - 1) with (length targets) by lia.
  apply Forall2_same_length_lookup_2; [by rewrite length_seq|].
  intros i j w Hj Hi. apply lookup_seq in Hj as [-> _]. by apply Hread.
Qed.

Lemma RemoveDecoration_group_run h s inst G targets :
  insts s !! h = Some inst →
  opcode inst = SpvOpGroupDecorate →
  group_apply_words inst G targets →
  RemoveDecoration h s
  = Ok (tt, update_found (remove_decorate_inst h) G
              (foldl (λ s w, update_found (remove_indirect h) w s) s targets)).
Proof.
  intros Hh Hop [HG Hws]%group_apply_words_read.
  rewrite (RemoveDecoration_cases _ _ _ Hh), Hop. simpl.
  eapply eval_bind.
  - erewrite forM__ext by (intros; apply word_step_found).
    apply word_loop_Ok. by exists targets.
  - rewrite word_step_found. apply word_step_Ok. by exists G.
Qed.

Lemma AddDecoration_group_run h s inst G targets :
  insts s !! h = Some inst →
  opcode inst = SpvOpGroupDecorate →
  group_apply_words inst G targets →
  AddDecoration h s
  = Ok (tt,
        set_index
          (λ m, <[G := push_decorate_inst h
                          (default empty_TargetData (m !! G))]> m)
          (foldl (λ s w,
                    set_index
                      (λ m, <[w := push_indirect h
                                      (default empty_TargetData (m !! w))]> m)
                      s)
             s targets)).
Proof.
  intros Hh Hop [HG Hws]%group_apply_words_read.
  rewrite (AddDecoration_cases _ _ _ Hh), Hop. simpl.
  eapply eval_bind.
  - apply (word_loop_Ok inst
             (λ w, set_index
                     (λ m, <[w := push_indirect h
                                    (default empty_TargetData (m !! w))]> m))).
    by exists targets.
  - apply (word_step_Ok inst
             (λ w, set_index
                     (λ m, <[w := push_decorate_inst h
                                    (default empty_TargetData (m !! w))]> m))).
    by exists G.
Qed.

Lemma record_after_remove h G targets s k :
  record (update_found (remove_decorate_inst h) G
            (foldl (λ s w, update_found (remove_indirect h) w s) s targets)) k
  = (if decide (k = G) then remove_decorate_inst h else id)
      (if decide (k ∈ targets) then remove_indirect h (record s k)
       else record s k).
Proof.
  rewrite record_update_found by done.
  rewrite (word_loop_record _ (remove_indirect h))
    by (intros; by apply record_update_found).
  rewrite iter_remove_indirect.
  assert ((length (filter (λ w, w = k) targets) = 0) ↔ k ∉ targets) as Hcount.
  { induction targets as [|t ts IH]; simpl.
    - split; [intros _; apply not_elem_of_nil|done].
    - rewrite filter_cons, not_elem_of_cons.
      destruct (decide (t = k)) as [->|Hne]; simpl.
      + split; [done|]. by intros [? _].
      + rewrite IH. split; [by split; [congruence|]|by intros [_ ?]]. }
  destruct (decide (k ∈ targets)) as [Hin|Hin].
  - rewrite (decide_False (P := length (filter (λ w, w = k) targets) = 0))
      by by intros ?%Hcount.
    by destruct (decide (k = G)).
  - rewrite (decide_True (P := length (filter (λ w, w = k) targets) = 0))
      by by apply Hcount.
    by destruct (decide (k = G)).
Qed.

Lemma record_after_add h G targets s k :
  record (set_index
            (λ m, <[G := push_decorate_inst h
                            (default empty_TargetData (m !! G))]> m)
            (foldl (λ s w,
                      set_index
                        (λ m, <[w := push_indirect h
                                       (default empty_TargetData (m !! w))]> m)
                        s)
               s targets)) k
  = (if decide (k = G) then push_decorate_inst h else id)
      (mkTargetData (direct_decorations (record s k))
         (indirect_decorations (record s k)
          ++ replicate (length (filter (λ w, w = k) targets)) h)
         (decorate_insts (record s k))).
Proof.
  rewrite at_id_upd_record.
  rewrite (word_loop_record _ (push_indirect h))
    by (intros; apply at_id_upd_record).
  rewrite iter_push_indirect. by destruct (decide (k = G)).
Qed.

Lemma ForgetUses_group h s inst G targets :
  insts s !! h = Some inst →
  opcode inst = SpvOpGroupDecorate →
  group_apply_words inst G targets →
  ∃ s1,
    ForgetUses h s = Ok (tt, s1)
    ∧ told [EvForgetUses h] s s1
    ∧ (∀ k, record s1 k
            = (if decide (k = G) then remove_decorate_inst h else id)
                (if decide (k ∈ targets) then remove_indirect h (record s k)
                 else record s k))
    ∧ ∀ k, is_Some (id_to_decoration_insts_ s !! k) →
           is_Some (id_to_decoration_insts_ s1 !! k).
Proof.
  intros Hh Hop Hw.
  set (s0 := mkState (insts s) (next_ptr s) (module_ s) (id_to_def s)
               (id_to_decoration_insts_ s) (trace s ++ [EvForgetUses h])).
  set (s1 := update_found (remove_decorate_inst h) G
               (foldl (λ s w, update_found (remove_indirect h) w s)
                  s0 targets)).
  assert (RemoveDecoration h s0 = Ok (tt, s1)) as Hrun
    by by eapply RemoveDecoration_group_run.
  assert (same_but_index s0 s1) as (Hi & Hn & Hm & Hd & Ht).
  { eapply same_but_index_trans; [|apply same_but_index_update_found].
    apply word_loop_rest. intros. apply same_but_index_update_found. }
  exists s1. split; [|split; [|split]].
  - unfold ForgetUses. eapply eval_bind; [reflexivity|].
    eapply eval_bind; [by apply deref_Ok|].
    unfold IsDecoration. by rewrite Hop.
  - unfold told. by rewrite Hi, Hn, Hm, Hd, Ht.
  - intros k. unfold s1. by rewrite record_after_remove.
  - intros k Hk. by eapply (keeps_present_RemoveDecoration k h _ _ _ Hrun).
Qed.

Lemma AnalyzeUses_group h s inst G targets :
  insts s !! h = Some inst →
  opcode inst = SpvOpGroupDecorate →
  group_apply_words inst G targets →
  ∃ s1,
    AnalyzeUses h s = Ok (tt, s1)
    ∧ told [EvAnalyzeUses h] s s1
    ∧ (∀ k, record s1 k
            = (if decide (k = G) then push_decorate_inst h else id)
                (mkTargetData (direct_decorations (record s k))
                   (indirect_decorations (record s k)
                    ++ replicate (length (filter (λ w, w = k) targets)) h)
                   (decorate_insts (record s k))))
    ∧ ∀ k, is_Some (id_to_decoration_insts_ s !! k) →
           is_Some (id_to_decoration_insts_ s1 !! k).
Proof.
  intros Hh Hop Hw.
  set (s0 := mkState (insts s) (next_ptr s) (module_ s) (id_to_def s)
               (id_to_decoration_insts_ s) (trace s ++ [EvAnalyzeUses h])).
  set (s1 :=
         set_index
           (λ m, <[G := push_decorate_inst h
                           (default empty_TargetData (m !! G))]> m)
           (foldl (λ s w,
                     set_index
                       (λ m, <[w := push_indirect h
                                      (default empty_TargetData (m !! w))]> m)
                       s)
              s0 targets)).
  assert (AddDecoration h s0 = Ok (tt, s1)) as Hrun
    by by eapply AddDecoration_group_run.
  assert (same_but_index s0 s1) as (Hi & Hn & Hm & Hd & Ht).
  { eapply same_but_index_trans; [|apply same_but_index_set_index].
    apply word_loop_rest. intros. apply same_but_index_set_index. }
  exists s1. split; [|split; [|split]].
  - unfold AnalyzeUses. eapply eval_bind; [reflexivity|].
    eapply eval_bind; [by apply deref_Ok|].
    unfold IsDecoration. by rewrite Hop.
  - unfold told. by rewrite Hi, Hn, Hm, Hd, Ht.
  - intros k. unfold s1. by rewrite record_after_add.
  - intros k Hk. by eapply (keeps_present_AddDecoration k h _ _ _ Hrun).
Qed.

Lemma InternalGetDecorationsFor_record s id incl :
  InternalGetDecorationsFor s id incl
  = (decorations <- process_direct_decorations s incl
                      (direct_decorations (record s id)) [] ;;
     rfold (λ decorations h,
              inst <- read s h ;;
              group_id <- GetSingleWordInOperand inst 0 ;;
              match id_to_decoration_insts_ s !! group_id with
              | None => Fail (AssertFail "Unknown group ID")
              | Some group =>
                  process_direct_decorations s incl
                    (direct_decorations group) decorations
              end)
           (indirect_decorations (record s id)) decorations).
Proof.
  unfold InternalGetDecorationsFor, record.
  by destruct (id_to_decoration_insts_ s !! id).
Qed.

Lemma process_direct_decorations_ext s s' incl direct decorations :
  (∀ d, d ∈ direct →
        (inst <- read s' d ;; is_linkage inst)
        = (inst <- read s d ;; is_linkage inst)) →
  process_direct_decorations s' incl direct decorations
  = process_direct_decorations s incl direct decorations.
Proof.
  unfold process_direct_decorations. intros Hext. apply rfold_ext.
  intros acc d Hd. specialize (Hext d Hd).
  destruct (read s' d) as [i'|]; destruct (read s d) as [i|]; simpl in *.
  - by rewrite Hext.
  - by rewrite Hext.
  - by rewrite <- Hext.
  - by injection Hext as ->.
Qed.

Lemma count_in_NoDup (k : N) (l : list N) :
  NoDup l →
  length (filter (λ w, w = k) l) = if decide (k ∈ l) then 1 else 0.
Proof.
  induction 1 as [|x l Hx Hnd IH]; [done|].
  rewrite filter_cons. destruct (decide (x = k)) as [->|Hne].
  - rewrite decide_True by by left. simpl. rewrite IH.
    by rewrite decide_False.
  - rewrite IH. destruct (decide (k ∈ l)) as [Hin|Hin].
    + rewrite decide_True; [done|by right].
    + rewrite decide_False; [done|]. by intros [?|?]%elem_of_cons.
Qed.

Lemma group_apply_words_AddOperand inst G targets to :
  group_apply_words inst G targets →
  group_apply_words (AddOperand inst (id_operand to)) G (targets ++ [to]).
Proof.
  unfold group_apply_words, AddOperand. simpl. intros Hw.
  by rewrite !fmap_app, Hw.
Qed.

Lemma is_linkage_group_apply inst :
  opcode inst = SpvOpGroupDecorate → is_linkage inst = Ok false.
Proof. unfold is_linkage. intros ->. by rewrite decide_False. Qed.

Lemma clone_through_group_run from to h s inst G targets :
  insts s !! h = Some inst →
  opcode inst = SpvOpGroupDecorate →
  group_apply_words inst G targets →
  ∃ s',
    clone_through_group from to h s = Ok (tt, s')
    ∧ insts s' = <[h := AddOperand inst (id_operand to)]> (insts s)
    ∧ next_ptr s' = next_ptr s ∧ module_ s' = module_ s
    ∧ id_to_def s' = id_to_def s
    ∧ trace s'
      = trace s ++ [EvForgetUses h; EvOperandWrite h; EvAnalyzeUses h]
    ∧ (∀ k,
         let forgotten :=
           (if decide (k = G) then remove_decorate_inst h else id)
             (if decide (k ∈ targets) then remove_indirect h (record s k)
              else record s k) in
         record s' k
         = (if decide (k = G) then push_decorate_inst h else id)
             (mkTargetData (direct_decorations forgotten)
                (indirect_decorations forgotten
                 ++ replicate
                      (length (filter (λ w, w = k) (targets ++ [to]))) h)
                (decorate_insts forgotten)))
    ∧ ∀ k, is_Some (id_to_decoration_insts_ s !! k) →
           is_Some (id_to_decoration_insts_ s' !! k).
Proof.
  intros Hh Hop Hw.
  destruct (ForgetUses_group h s inst G targets Hh Hop Hw)
    as (s1 & Hforget & (Hi1 & Hn1 & Hm1 & Hd1 & Ht1) & Hrec1 & Hkeys1).
  set (inst' := AddOperand inst (id_operand to)).
  assert (insts s1 !! h = Some inst) as Hh1 by by rewrite Hi1.
  pose proof (mutate_run h (λ inst, Ok (AddOperand inst (id_operand to)))
                s1 inst inst' Hh1 eq_refl) as Hmutate.
  destruct (AnalyzeUses_group h (written h inst' s1) inst' G (targets ++ [to]))
    as (s3 & Hanalyze & (Hi3 & Hn3 & Hm3 & Hd3 & Ht3) & Hrec3 & Hkeys3).
  { apply written_lookup. }
  { done. }
  { by apply group_apply_words_AddOperand. }
  exists s3. split; [|split; [|split; [|split; [|split; [|split; [|split]]]]]].
  - unfold clone_through_group.
    eapply eval_bind; [by apply deref_Ok|]. rewrite Hop.
    eapply eval_bind; [apply Hforget|].
    eapply eval_bind; [apply Hmutate|]. apply Hanalyze.
  - rewrite Hi3. simpl. by rewrite Hi1.
  - by rewrite Hn3.
  - by rewrite Hm3.
  - by rewrite Hd3.
  - rewrite Ht3. simpl. rewrite Ht1, <- !app_assoc. done.
  - intros k. cbv zeta. rewrite Hrec3.
    change (record (written h inst' s1) k) with (record s1 k).
    by rewrite Hrec1.
  - intros k Hk. apply Hkeys3. simpl. by apply Hkeys1.
Qed.

(** X15: from an id decorated through one [OpGroupDecorate] only,
    [CloneDecorations] returns and adds [to] as the last target of that
    instruction, between a [ForgetUses] and an [AnalyzeUses] of it.
    Afterwards the lookup for [to], an id without record that was no
    target, returns what the lookup for [from] returned before, and the
    lookup for [from] still does. *)
Theorem X15_clone_through_group (s : State) (from to G : N) (h : InstPtr)
    (inst : Instruction) (targets : list N) (include_linkage : bool)
    (l : list InstPtr) :
  id_to_decoration_insts_ s !! from = Some (mkTargetData [] [h] []) →
  id_to_decoration_insts_ s !! to = None →
  is_Some (module_ s) →
  insts s !! h = Some inst →
  opcode inst = SpvOpGroupDecorate →
  group_apply_words inst G targets →
  NoDup targets → to ∉ targets → to ≠ G →
  GetDecorationsFor s from include_linkage = Ok l →
  ∃ s',
    CloneDecorations from to s = Ok (tt, s')
    ∧ insts s' = <[h := AddOperand inst (id_operand to)]> (insts s)
    ∧ module_ s' = module_ s
    ∧ trace s'
      = trace s ++ [EvForgetUses h; EvOperandWrite h; EvAnalyzeUses h]
    ∧ GetDecorationsFor s' to include_linkage = Ok l
    ∧ GetDecorationsFor s' from include_linkage = Ok l.
Proof.
  intros Hfrom Hto [anns Hm] Hh Hop Hw Hnodup Hnot HG Hl.
  assert (from ≠ to) as Hne by (intros ->; congruence).
  destruct (clone_through_group_run from to h s inst G targets Hh Hop Hw)
    as (s' & Hrun & Hi & _ & Hm' & _ & Htr & Hrec & Hkeys).
  destruct (group_apply_words_read _ _ _ Hw) as [HG0 _].
  (* what the lookup for [from] read before *)
  unfold GetDecorationsFor in Hl.
  rewrite InternalGetDecorationsFor_record in Hl.
  unfold record in Hl. rewrite Hfrom in Hl. simpl in Hl.
  unfold read in Hl. rewrite Hh in Hl. simpl in Hl. rewrite HG0 in Hl.
  simpl in Hl.
  destruct (id_to_decoration_insts_ s !! G) as [group|] eqn:Hgroup; [|done].
  apply rbind_Ok in Hl as (l' & Hl & [= ->]).
  (* the records afterwards *)
  assert (direct_decorations (record s' G) = direct_decorations group)
    as Hdirect.
  { rewrite (Hrec G). cbv zeta. rewrite !decide_True by done.
    unfold record. rewrite Hgroup. simpl. by destruct (decide (G ∈ targets)). }
  destruct (Hkeys G) as [group' Hgroup']; [by rewrite Hgroup|].
  assert (direct_decorations group' = direct_decorations group) as Hdirect'.
  { rewrite <- Hdirect. unfold record. by rewrite Hgroup'. }
  assert (∀ k, k ≠ G →
               (k = to ∨ k = from) →
               direct_decorations (record s' k) = []
               ∧ indirect_decorations (record s' k) = [h]) as Hboth.
  { intros k HkG Hk. rewrite (Hrec k). cbv zeta.
    rewrite !(decide_False (P := k = G)) by done. simpl.
    rewrite filter_app, length_app, count_in_NoDup by done.
    destruct Hk as [-> | ->].
    - rewrite !(decide_False (P := to ∈ targets)) by done.
      unfold record. rewrite Hto. simpl.
      rewrite filter_cons, decide_True by done. done.
    - unfold record. rewrite Hfrom.
      rewrite filter_cons, (decide_False (P := to = from)) by done. simpl.
      destruct (decide (from ∈ targets)); simpl; [|done].
      unfold remove_from_container.
      by rewrite filter_cons, decide_False by tauto. }
  assert (∀ k, direct_decorations (record s' k) = [] →
               indirect_decorations (record s' k) = [h] →
               GetDecorationsFor s' k include_linkage = Ok l) as Hlookup.
  { intros k Hd Hind. unfold GetDecorationsFor.
    rewrite InternalGetDecorationsFor_record, Hd, Hind. simpl.
    unfold read. rewrite Hi, lookup_insert_eq. simpl.
    destruct (group_apply_words_read _ _ _
                (group_apply_words_AddOperand _ _ _ to Hw)) as [-> _].
    simpl. rewrite Hgroup', Hdirect'.
    rewrite (process_direct_decorations_ext s s'), Hl; [done|].
    intros d _. unfold read. rewrite Hi.
    destruct (decide (d = h)) as [->|Hd'].
    - rewrite lookup_insert_eq, Hh. simpl.
      by rewrite !is_linkage_group_apply.
    - by rewrite lookup_insert_ne. }
  exists s'. split; [|split; [done|split; [by rewrite Hm'|split; [done|]]]].
  - unfold CloneDecorations.
    eapply eval_bind; [reflexivity|]. simpl. rewrite Hfrom.
    eapply eval_bind; [unfold module_context; by rewrite Hm|].
    eapply eval_bind; [reflexivity|].
    eapply eval_bind; [reflexivity|]. simpl. rewrite Hfrom. simpl.
    eapply eval_bind; [apply Hrun|]. done.
  - destruct (decide (from = G)) as [HfG|HfG].
    + (* the group itself: its record holds no direct decoration *)
      subst from. rewrite Hgroup in Hfrom. injection Hfrom as ->.
      split.
      * destruct (Hboth to) as [Hd Hind]; [done|by left|]. by apply Hlookup.
      * apply Hlookup; [by rewrite Hdirect|].
        rewrite (Hrec G). cbv zeta.
        rewrite !(decide_True (P := G = G)) by done.
        rewrite filter_app, length_app, count_in_NoDup by done.
        rewrite filter_cons, (decide_False (P := to = G)) by done.
        unfold record. rewrite Hgroup. simpl.
        destruct (decide (G ∈ targets)); simpl; [|done].
        unfold remove_from_container.
        by rewrite filter_cons, decide_False by tauto.
    + split.
      * destruct (Hboth to) as [Hd Hind]; [done|by left|]. by apply Hlookup.
      * destruct (Hboth from) as [Hd Hind]; [done|by right|].
        by apply Hlookup.
Qed.

(** ** [RemoveDecorationsFrom] on an id decorated through one group *)

Lemma single_words_fmap (rest : list Operand) :
  Forall (λ op, ∃ w, words op = [w]) rest →
  words <$> rest = (λ w, [w]) <$> (word_of <$> rest).
Proof.
  induction 1 as [|op rest [w Hw] _ IH]; [done|].
  rewrite !fmap_cons, IH. unfold word_of. by rewrite Hw.
Qed.

Lemma group_apply_words_cons op g rest G :
  words g = [G] →
  Forall (λ op, ∃ w, words op = [w]) rest →
  group_apply_words (mkInstruction op (g :: rest)) G (word_of <$> rest).
Proof.
  intros HG Hrest. unfold group_apply_words. simpl in_operands.
  by rewrite !fmap_cons, HG, single_words_fmap.
Qed.

Lemma operands_of_bare g (res : list Slot) :
  Forall (λ c, c.2 = []) res → operands_of g res = g :: (fst <$> res).
Proof.
  unfold operands_of. intros Hres. f_equal.
  induction Hres as [|[op tl] res Hc _ IH]; [done|].
  simpl in Hc. subst tl. rewrite !fmap_cons. simpl. by rewrite IH.
Qed.

Lemma bare_slots_filter id (rest : list Operand) :
  fst <$> filter (λ c, slot_is id c = false)
            ((λ op, (op, []) : Slot) <$> rest)
  = filter (λ op, is_word id op = false) rest.
Proof.
  induction rest as [|op rest IH]; [done|].
  rewrite fmap_cons, !filter_cons.
  change (slot_is id (op, [])) with (is_word id op).
  destruct (decide (is_word id op = false)); [|exact IH].
  rewrite fmap_cons. simpl. f_equal. exact IH.
Qed.

Lemma bare_slots_existsb id (rest : list Operand) :
  existsb (slot_is id) ((λ op, (op, []) : Slot) <$> rest)
  = existsb (is_word id) rest.
Proof.
  induction rest as [|op rest IH]; [done|].
  rewrite fmap_cons. simpl. f_equal. exact IH.
Qed.

Lemma remove_target_group_decorate h id s inst g rest :
  insts s !! h = Some inst →
  in_operands inst = g :: rest →
  Forall (λ op, ∃ w, words op = [w]) rest →
  ∃ s1 rest',
    remove_target h id 1 s = Ok (existsb (is_word id) rest, s1)
    ∧ insts s1 = <[h := mkInstruction (opcode inst) (g :: rest')]> (insts s)
    ∧ rest' ≡ₚ filter (λ op, is_word id op = false) rest
    ∧ only_writes h s s1.
Proof.
  intros Hh Hops Hrest.
  set (slots := (λ op, (op, []) : Slot) <$> rest).
  assert (Forall (λ c : Slot, c.2 = []) slots) as Hbare.
  { apply Forall_fmap. by apply Forall_true. }
  destruct (remove_target_spec h id 1 s inst g slots)
    as (s1 & res & Hrun & Hinsts & Hperm & Hw); try done.
  { by left. }
  { rewrite operands_of_bare by done. unfold slots.
    by rewrite <- list_fmap_compose, list_fmap_id. }
  { apply Forall_fmap. eapply Forall_impl; [apply Hrest|].
    intros op [w Hw]. split; [done|by exists w]. }
  assert (Forall (λ c : Slot, c.2 = []) res) as Hbare'.
  { rewrite Hperm. apply Forall_forall.
    intros c [_ Hc]%list_elem_of_filter.
    rewrite Forall_forall in Hbare. by apply Hbare. }
  exists s1, (fst <$> res). split; [|split; [|split]].
  - rewrite Hrun. unfold slots. by rewrite bare_slots_existsb.
  - by rewrite Hinsts, operands_of_bare.
  - rewrite Hperm. unfold slots. by rewrite bare_slots_filter.
  - done.
Qed.

Lemma lookup_record s k :
  is_Some (id_to_decoration_insts_ s !! k) →
  id_to_decoration_insts_ s !! k = Some (record s k).
Proof. unfold record. by intros [td ->]. Qed.

Lemma record_eta td :
  mkTargetData (direct_decorations td) (indirect_decorations td)
    (decorate_insts td) = td.
Proof. by destruct td. Qed.

Lemma kept_selected s pred (ds : list InstPtr) :
  Forall (λ h, is_Some (insts s !! h)) ds →
  filter (λ h, holds s (λ decoration, negb (pred decoration)) h) ds
  = filter (λ h, holds s pred h = false) ds.
Proof.
  intros Hlive. apply filter_ext_elem_of. intros d Hd.
  rewrite Forall_forall in Hlive. destruct (Hlive d Hd) as [i Hi].
  unfold holds. rewrite Hi. by destruct (pred i).
Qed.

Lemma some_removed s pred (ds : list InstPtr) :
  Exists (λ d, holds s pred d = true) ds →
  (length (filter (λ h, holds s pred h = false) ds) =? length ds) = false.
Proof.
  intros (d & Hd & Hp)%Exists_exists. apply Nat.eqb_neq.
  assert (length (filter (λ h, holds s pred h = false) ds) < length ds)
    as Hlt; [|lia].
  apply (length_filter_lt _ ds d Hd). by rewrite Hp.
Qed.

Lemma clonable_live s d : clonable s d = true → is_Some (insts s !! d).
Proof. intros (i & _ & Hi & _)%clonable_inv. by exists i. Qed.

Lemma word_of_in_rest (rest rest' : list Operand) id k :
  Forall (λ op, ∃ w, words op = [w]) rest →
  rest' ≡ₚ filter (λ op, is_word id op = false) rest →
  (k ∈ word_of <$> rest'
   ↔ k ≠ id ∧ ∃ op, op ∈ rest ∧ words op = [k]).
Proof.
  intros Hrest Hperm. rewrite Hperm, list_elem_of_fmap.
  rewrite Forall_forall in Hrest. split.
  - intros (o & -> & [Ho Hin]%list_elem_of_filter).
    destruct (Hrest o Hin) as [w Hw]. unfold word_of. rewrite Hw.
    unfold is_word in Ho. rewrite Hw in Ho.
    apply bool_decide_eq_false in Ho. split; [congruence|]. by exists o.
  - intros (Hk & o & Hin & Hw). exists o. split.
    + unfold word_of. by rewrite Hw.
    + apply list_elem_of_filter. split; [|done].
      unfold is_word. rewrite Hw. apply bool_decide_eq_false_2. congruence.
Qed.

Lemma filter_eq_absent (k : N) (l : list N) :
  k ∉ l → filter (λ w, w = k) l = [].
Proof.
  induction l as [|x l IH]; [done|]. intros [Hx Hl]%not_elem_of_cons.
  rewrite filter_cons, decide_False by congruence. by apply IH.
Qed.

Lemma filter_eq_present (k : N) (l : list N) :
  k ∈ l → 0 < length (filter (λ w, w = k) l).
Proof.
  induction l as [|x l IH]; [by intros ?%elem_of_nil|].
  rewrite filter_cons. destruct (decide (x = k)); [simpl; lia|].
  intros [?|?]%elem_of_cons; [congruence|by apply IH].
Qed.

Lemma reindexed_direct h G k (targets : list N) n r :
  direct_decorations
    ((if decide (k = G) then push_decorate_inst h else id)
       (let forgotten :=
          (if decide (k = G) then remove_decorate_inst h else id)
            (if decide (k ∈ targets) then remove_indirect h r else r) in
        mkTargetData (direct_decorations forgotten)
          (indirect_decorations forgotten ++ replicate n h)
          (decorate_insts forgotten)))
  = direct_decorations r.
Proof. by destruct (decide (k = G)), (decide (k ∈ targets)). Qed.

Lemma reindexed_indirect h G k (targets : list N) n r :
  indirect_decorations
    ((if decide (k = G) then push_decorate_inst h else id)
       (let forgotten :=
          (if decide (k = G) then remove_decorate_inst h else id)
            (if decide (k ∈ targets) then remove_indirect h r else r) in
        mkTargetData (direct_decorations forgotten)
          (indirect_decorations forgotten ++ replicate n h)
          (decorate_insts forgotten)))
  = (if decide (k ∈ targets)
     then remove_from_container h (indirect_decorations r)
     else indirect_decorations r) ++ replicate n h.
Proof. by destruct (decide (k = G)), (decide (k ∈ targets)). Qed.

Section through_group.
Context (s : State) (id G : N) (h : InstPtr) (inst : Instruction)
  (g : Operand) (rest : list Operand) (group : TargetData)
  (pred : Instruction → bool) (anns : list InstPtr).
Hypothesis Hid :
  id_to_decoration_insts_ s !! id = Some (mkTargetData [] [h] []).
Hypothesis Hm : module_ s = Some anns.
Hypothesis Hh : insts s !! h = Some inst.
Hypothesis Hop : opcode inst = SpvOpGroupDecorate.
Hypothesis Hlt : h < next_ptr s.
Hypothesis Hops : in_operands inst = g :: rest.
Hypothesis HG : words g = [G].
Hypothesis Hrest : Forall (λ op, ∃ w, words op = [w]) rest.
Hypothesis Hin : existsb (is_word id) rest = true.
Hypothesis HidG : id ≠ G.
Hypothesis Hgroup : id_to_decoration_insts_ s !! G = Some group.
Hypothesis Hcl :
  Forall (λ d, clonable s d = true) (direct_decorations group).
Hypothesis Hsome :
  Exists (λ d, holds s pred d = true) (direct_decorations group).

Lemma kept_not_h d :
  d ∈ filter (λ d, holds s pred d = false) (direct_decorations group) →
  d ≠ h ∧ clonable s d = true.
Proof.
  intros [_ Hd]%list_elem_of_filter. rewrite Forall_forall in Hcl.
  split; [|by apply Hcl].
  destruct (clonable_inv _ _ (Hcl d Hd)) as (i & _ & Hi & _ & Hdirect & _).
  intros ->. rewrite Hh in Hi. injection Hi as <-.
  by rewrite Hop in Hdirect.
Qed.

(** The target is taken out and the instruction is re-indexed or
    scheduled for deletion. *)
Lemma group_retargeted :
  ∃ s2 rest',
    (∀ B (K : list InstPtr * gset InstPtr → M B),
       (was_modified <~ remove_target h id 1 ;;
        inst <~ deref h ;;
        acc' <~ (if NumInOperands inst =? 1 then
                   ret ([] ++ [h], {[h]} ∪ (∅ : gset InstPtr))
                 else if was_modified : bool then
                   ForgetUses h ;;;
                   AnalyzeUses h ;;;
                   ret ([], {[h]} ∪ (∅ : gset InstPtr))
                 else ret ([], ∅)) ;;
        K acc') s
       = K (if decide (rest' = []) then [h] else [], {[h]} ∪ ∅) s2)
    ∧ rest' ≡ₚ filter (λ op, is_word id op = false) rest
    ∧ insts s2
      = <[h := mkInstruction SpvOpGroupDecorate (g :: rest')]> (insts s)
    ∧ next_ptr s2 = next_ptr s ∧ module_ s2 = module_ s
    ∧ id_to_decoration_insts_ s2 !! id = Some (mkTargetData [] [h] [])
    ∧ direct_decorations (record s2 G) = direct_decorations group
    ∧ (∀ k op, k ≠ id → op ∈ rest → words op = [k] →
               h ∈ indirect_decorations (record s2 k)).
Proof.
  destruct (remove_target_group_decorate h id s inst g rest Hh Hops Hrest)
    as (s1 & rest' & Hrun & Hinsts & Hperm & Hn1 & Hm1 & Hd1 & Hidx1 & _).
  rewrite Hin, Hop in *.
  set (inst1 := mkInstruction SpvOpGroupDecorate (g :: rest')) in *.
  assert (insts s1 !! h = Some inst1) as Hh1
    by by rewrite Hinsts, lookup_insert_eq.
  assert (Forall (λ op, ∃ w, words op = [w]) rest') as Hrest'.
  { rewrite Hperm. apply Forall_forall.
    intros op [_ Ho]%list_elem_of_filter.
    rewrite Forall_forall in Hrest. by apply Hrest. }
  pose proof (group_apply_words_cons SpvOpGroupDecorate g rest' G HG Hrest')
    as Hwords. fold inst1 in Hwords.
  assert (∀ k, record s1 k = record s k) as Hrec1
    by (intros k; unfold record; by rewrite Hidx1).
  destruct (decide (rest' = [])) as [Hnone|Hleft].
  - exists s1, rest'. split; [|split; [done|split; [done|]]].
    + intros B K. eapply eval_bind; [apply Hrun|].
      eapply eval_bind; [by apply deref_Ok|].
      unfold inst1, NumInOperands. rewrite Hnone.
      eapply eval_bind; reflexivity.
    + split; [done|]. split; [by rewrite Hm1|].
      split; [by rewrite Hidx1|]. split.
      * unfold record. by rewrite Hidx1, Hgroup.
      * intros k op Hk Ho Hw. exfalso.
        assert (k ∈ word_of <$> rest') as Hkin
          by (apply (word_of_in_rest rest rest' id k); eauto).
        rewrite Hnone in Hkin. by apply elem_of_nil in Hkin.
  - destruct (ForgetUses_group h s1 inst1 G (word_of <$> rest'))
      as (s1a & Hforget & (Hia & Hna & Hma & Hda & _) & Hreca & Hkeysa);
      try done.
    destruct (AnalyzeUses_group h s1a inst1 G (word_of <$> rest'))
      as (s2 & Hanalyze & (Hi2 & Hn2 & Hm2 & Hd2 & _) & Hrec2 & Hkeys2);
      try done.
    { by rewrite Hia. }
    assert (id ∉ word_of <$> rest') as Hidout.
    { by intros [Hne _]%(word_of_in_rest rest rest' id id). }
    assert (∀ k,
      direct_decorations (record s2 k) = direct_decorations (record s k)
      ∧ indirect_decorations (record s2 k)
        = (if decide (k ∈ word_of <$> rest')
           then remove_from_container h (indirect_decorations (record s k))
           else indirect_decorations (record s k))
          ++ replicate
               (length (filter (λ w, w = k) (word_of <$> rest'))) h
      ∧ (k ≠ G → decorate_insts (record s2 k) = decorate_insts (record s k)))
      as Hrecs.
    { intros k. rewrite Hrec2, !Hreca, Hrec1.
      rewrite reindexed_direct, reindexed_indirect. split; [done|].
      split; [done|]. intros Hk. rewrite !(decide_False (P := k = G)) by done.
      simpl. by destruct (decide (k ∈ word_of <$> rest')). }
    exists s2, rest'. split; [|split; [done|split; [|split; [|split]]]].
    + intros B K. eapply eval_bind; [apply Hrun|].
      eapply eval_bind; [by apply deref_Ok|].
      assert ((NumInOperands inst1 =? 1) = false) as ->.
      { apply Nat.eqb_neq. unfold inst1, NumInOperands. simpl.
        destruct rest'; [done|simpl; lia]. }
      eapply eval_bind.
      { eapply eval_bind; [apply Hforget|].
        eapply eval_bind; [apply Hanalyze|]. reflexivity. }
      by rewrite (decide_False (P := rest' = [])).
    + by rewrite Hi2, Hia.
    + by rewrite Hn2, Hna.
    + by rewrite Hm2, Hma, Hm1.
    + split; [|split].
      * rewrite lookup_record.
        2: { apply Hkeys2, Hkeysa. by rewrite Hidx1, Hid. }
        f_equal. destruct (Hrecs id) as (Hd & Hi & Hg).
        rewrite <- (record_eta (record s2 id)), Hd, Hi, (Hg HidG).
        rewrite decide_False, (filter_eq_absent _ _ Hidout) by done.
        unfold record. rewrite Hid. simpl. done.
      * destruct (Hrecs G) as (Hd & _). rewrite Hd.
        unfold record. by rewrite Hgroup.
      * intros k op Hk Ho Hw. destruct (Hrecs k) as (_ & Hi & _).
        rewrite Hi. apply elem_of_app. right.
        assert (k ∈ word_of <$> rest') as Hkin
          by (apply (word_of_in_rest rest rest' id k); eauto).
        apply filter_eq_present in Hkin.
        destruct (length (filter (λ w, w = k) (word_of <$> rest')));
          [lia|]. by left.
Qed.

(** One round of the loop of [RemoveDecorationsFrom] over the indirect
    decorations, for this group. *)
Lemma group_round :
  let keep :=
    filter (λ d, holds s pred d = false) (direct_decorations group) in
  let copies := seq (next_ptr s) (length keep) in
  ∃ s3 rest',
    remove_from_group id pred ([], ∅) h s
    = Ok ((if decide (rest' = []) then [h] else [], {[h]} ∪ ∅), s3)
    ∧ rest' ≡ₚ filter (λ op, is_word id op = false) rest
    ∧ insts s3 !! h = Some (mkInstruction SpvOpGroupDecorate (g :: rest'))
    ∧ (∀ d : InstPtr, d < next_ptr s → d ≠ h →
                      insts s3 !! d = insts s !! d)
    ∧ (∀ j d i, keep !! j = Some d → insts s !! d = Some i →
         ∃ i', SetInOperand i 0 [id] = Ok i'
               ∧ insts s3 !! (next_ptr s + j : InstPtr) = Some i')
    ∧ module_ s3 = Some (anns ++ copies)
    ∧ id_to_decoration_insts_ s3 !! id = Some (mkTargetData copies [h] [])
    ∧ direct_decorations (record s3 G) = direct_decorations group
    ∧ (∀ k op, k ≠ id → op ∈ rest → words op = [k] →
               h ∈ indirect_decorations (record s3 k)).
Proof.
  intros keep copies.
  destruct group_retargeted
    as (s2 & rest' & Hrun2 & Hperm & Hi2 & Hn2 & Hm2 & Hid2 & HG2 & Hk2).
  assert (Forall (λ d, clonable s2 d = true) keep) as Hcl2.
  { apply Forall_forall. intros d [Hne Hd]%kept_not_h.
    destruct (clonable_inv _ _ Hd) as (i & o & Hi & Hlt' & Hdir & Ho).
    unfold clonable. rewrite Hi2, lookup_insert_ne, Hi, Hn2, Hdir, Ho by done.
    by rewrite bool_decide_eq_true_2 by done. }
  destruct (clone_loop id keep s2 anns) as (s3 & Hrun3 & Hcl3 & Hkeys3);
    [by rewrite Hm2|done|].
  destruct Hcl3 as (Hn3 & Hm3 & _ & _ & Hold3 & Hnew3 & Hrec3 & Hother3).
  rewrite Hn2 in Hn3, Hm3, Hold3, Hnew3, Hrec3.
  exists s3, rest'. split; [|split; [done|]].
  - unfold remove_from_group.
    eapply eval_bind; [by apply deref_Ok|]. rewrite Hop.
    eapply eval_bind; [reflexivity|].
    eapply eval_bind.
    { unfold lift.
      assert (GetSingleWordInOperand inst 0 = Ok G) as ->; [|done].
      apply GetSingleWordInOperand_Ok. by rewrite Hops, <- HG. }
    eapply eval_bind; [reflexivity|]. simpl. rewrite Hgroup.
    eapply eval_bind.
    { rewrite select_live, kept_selected.
      - reflexivity.
      - eapply Forall_impl; [apply Hcl|]. apply clonable_live.
      - eapply Forall_impl; [apply Hcl|]. apply clonable_live. }
    fold keep. unfold keep at 1. rewrite (some_removed _ _ _ Hsome).
    rewrite Hrun2. eapply eval_bind; [apply Hrun3|]. done.
  - split; [|split; [|split; [|split; [|split; [|split]]]]].
    + rewrite Hold3 by by left. by rewrite Hi2, lookup_insert_eq.
    + intros d Hd Hne. rewrite Hold3 by by left.
      by rewrite Hi2, lookup_insert_ne.
    + intros j d i Hj Hi. apply (Hnew3 j d i Hj).
      pose proof (list_elem_of_lookup_2 _ _ _ Hj) as [Hne _]%kept_not_h.
      by rewrite Hi2, lookup_insert_ne.
    + by rewrite Hm3, Hm2, Hm.
    + rewrite lookup_record by (apply Hkeys3; by rewrite Hid2).
      rewrite Hrec3. unfold record. by rewrite Hid2.
    + unfold record. rewrite (Hother3 G) by done. apply HG2.
    + intros k op Hk Ho Hw. unfold record. rewrite (Hother3 k Hk).
      by eapply Hk2.
Qed.

Lemma keep_indirect_only td :
  keep_indirect ({[h]} ∪ ∅) td
  = mkTargetData (direct_decorations td)
      (remove_from_container h (indirect_decorations td)) (decorate_insts td).
Proof.
  unfold keep_indirect, remove_from_container. f_equal.
  apply list_filter_iff. intros x.
  rewrite not_elem_of_union, not_elem_of_singleton. split; [tauto|].
  intros Hx. split; [done|apply not_elem_of_empty].
Qed.

Lemma through_group_removal :
  let keep :=
    filter (λ d, holds s pred d = false) (direct_decorations group) in
  let copies := seq (next_ptr s) (length keep) in
  ∃ s' rest',
    RemoveDecorationsFrom id pred s = Ok (tt, s')
    ∧ rest' ≡ₚ filter (λ op, is_word id op = false) rest
    ∧ insts s' !! h
      = (if decide (rest' = []) then None
         else Some (mkInstruction SpvOpGroupDecorate (g :: rest')))
    ∧ (∀ d : InstPtr, d < next_ptr s → d ≠ h →
                      insts s' !! d = insts s !! d)
    ∧ (∀ j d i, keep !! j = Some d → insts s !! d = Some i →
         ∃ i', SetInOperand i 0 [id] = Ok i'
               ∧ insts s' !! (next_ptr s + j : InstPtr) = Some i')
    ∧ id_to_decoration_insts_ s' !! id
      = (if decide (keep = []) then None
         else Some (mkTargetData copies [] []))
    ∧ direct_decorations (record s' G) = direct_decorations group
    ∧ (∀ k op, k ≠ id → op ∈ rest → words op = [k] →
               h ∈ indirect_decorations (record s' k)).
Proof.
  intros keep copies.
  destruct group_round
    as (s3 & rest' & Hrun3 & Hperm & Hh3 & Hold3 & Hnew3 & Hm3 & Hid3
        & HG3 & Hk3).
  fold keep in Hnew3, Hm3, Hid3. fold copies in Hm3, Hid3.
  (* the indirect decoration leaves the record of [id] *)
  set (s4 := set_index <[id := mkTargetData copies [] []]> s3).
  assert (at_found id (keep_indirect ({[h]} ∪ ∅)) s3 = Ok (tt, s4)) as Hrun4.
  { rewrite at_found_modify, Hid3, keep_indirect_only. simpl.
    unfold remove_from_container.
    by rewrite filter_cons, decide_False by tauto. }
  pose proof (same_but_index_set_index
                <[id := mkTargetData copies [] []]> s3)
    as (Hi4 & _ & Hm4 & _). fold s4 in Hi4, Hm4.
  assert (id_to_decoration_insts_ s4 !! id = Some (mkTargetData copies [] []))
    as Hid4 by (simpl; by rewrite lookup_insert_eq).
  assert (∀ k, k ≠ id → record s4 k = record s3 k) as Hrec4.
  { intros k Hk. unfold record. simpl. by rewrite lookup_insert_ne. }
  (* the instruction is deleted when it has no target left *)
  assert (∃ s5,
    forM_ (if decide (rest' = []) then [h] else []) KillInst s4 = Ok (tt, s5)
    ∧ insts s5 = (if decide (rest' = []) then delete h (insts s4)
                  else insts s4)
    ∧ id_to_decoration_insts_ s5 !! id = Some (mkTargetData copies [] [])
    ∧ direct_decorations (record s5 G) = direct_decorations group
    ∧ (rest' ≠ [] → ∀ k, k ≠ id → record s5 k = record s3 k))
    as (s5 & Hrun5 & Hi5 & Hid5 & HG5 & Hk5).
  { destruct (decide (rest' = [])) as [Hnone|Hleft].
    - set (s4' := mkState (insts s4) (next_ptr s4) (module_ s4)
                    (id_to_def s4) (id_to_decoration_insts_ s4)
                    (trace s4 ++ [EvKillInst h])).
      set (s4'' := update_found (remove_decorate_inst h) G s4').
      assert (RemoveDecoration h s4' = Ok (tt, s4'')) as Hrem.
      { apply (RemoveDecoration_group_run h s4'
                 (mkInstruction SpvOpGroupDecorate [g]) G []).
        - change (insts s4 !! h = Some (mkInstruction SpvOpGroupDecorate [g])).
          rewrite Hi4, Hh3. by rewrite Hnone.
        - done.
        - unfold group_apply_words. simpl. by rewrite HG. }
      exists (set_module (fmap (filter (λ x, x ≠ h)))
                (set_insts (delete h) s4'')).
      pose proof (same_but_index_update_found (remove_decorate_inst h) G s4')
        as (Hi4'' & _). fold s4'' in Hi4''.
      split; [|split; [|split; [|split]]].
      + simpl. eapply eval_bind; [|reflexivity]. unfold KillInst.
        eapply eval_bind; [reflexivity|].
        eapply eval_bind.
        { apply deref_Ok. split; [|done]. simpl.
          rewrite ?Hi4, Hh3. by rewrite Hnone. }
        eapply eval_bind; [apply Hrem|].
        eapply eval_bind; reflexivity.
      + change (delete h (insts s4'') = delete h (insts s4)).
        by rewrite Hi4''.
      + change (id_to_decoration_insts_ s4'' !! id
                = Some (mkTargetData copies [] [])).
        rewrite <- Hid4. unfold s4'', update_found.
        destruct (id_to_decoration_insts_ s4' !! G); [|done].
        simpl. by rewrite lookup_insert_ne.
      + change (direct_decorations (record s4'' G) = direct_decorations group).
        unfold s4''. rewrite record_update_found by done.
        rewrite decide_True by done.
        change (direct_decorations (record s4 G) = direct_decorations group).
        by rewrite Hrec4.
      + done.
    - exists s4. split; [done|]. split; [done|]. split; [done|].
      split; [|by intros _].
      by rewrite Hrec4. }
  (* the record of [id] is erased when no decoration was kept *)
  assert (∀ s',
    (if all_empty (mkTargetData copies [] []) then
       modify (set_index (delete id)) ;;; ret tt
     else ret tt) s5 = Ok (tt, s') →
    RemoveDecorationsFrom id pred s = Ok (tt, s')) as Hfinish.
  { intros s' Htail. unfold RemoveDecorationsFrom.
    eapply eval_bind; [reflexivity|]. simpl. rewrite Hid.
    eapply eval_bind; [unfold module_context; by rewrite Hm|].
    eapply eval_bind; [reflexivity|]. simpl.
    eapply eval_bind.
    { eapply eval_bind; [apply Hrun3|]. reflexivity. }
    cbv beta iota.
    eapply eval_bind; [apply Hrun4|].
    eapply eval_bind; [apply Hrun5|].
    eapply eval_bind; [reflexivity|].
    eapply eval_bind; [reflexivity|].
    eapply eval_bind; [reflexivity|]. simpl. rewrite Hid5. simpl.
    apply Htail. }
  assert (copies = [] ↔ keep = []) as Hnone.
  { unfold copies. destruct keep; simpl; split; done. }
  assert (∀ d : InstPtr, d ≠ h → insts s5 !! d = insts s3 !! d) as Hother5.
  { intros d Hd. rewrite Hi5, Hi4.
    destruct (decide (rest' = [])); [by rewrite lookup_delete_ne|done]. }
  assert (insts s5 !! h
          = (if decide (rest' = []) then None
             else Some (mkInstruction SpvOpGroupDecorate (g :: rest'))))
    as Hh5.
  { rewrite Hi5, Hi4.
    destruct (decide (rest' = [])); [by rewrite lookup_delete_eq|done]. }
  assert (∀ k op, k ≠ id → op ∈ rest → words op = [k] →
                  h ∈ indirect_decorations (record s5 k)) as Hkept5.
  { intros k op Hk Ho Hw.
    assert (rest' ≠ []) as Hleft.
    { intros Hnil.
      assert (k ∈ word_of <$> rest') as Hkin
        by (apply (word_of_in_rest rest rest' id k); eauto).
      rewrite Hnil in Hkin. by apply elem_of_nil in Hkin. }
    rewrite (Hk5 Hleft k Hk). by eapply Hk3. }
  destruct (decide (keep = [])) as [Hkeep|Hkeep].
  - exists (set_index (delete id) s5), rest'.
    split; [|split; [done|split; [done|split; [|split; [|split; [|split]]]]]].
    + apply Hfinish. rewrite (proj2 Hnone Hkeep). simpl.
      eapply eval_bind; reflexivity.
    + intros d Hd Hne. simpl. rewrite Hother5 by done. by apply Hold3.
    + intros j d i Hj. by rewrite Hkeep in Hj.
    + simpl. by rewrite lookup_delete_eq.
    + unfold record. simpl. rewrite lookup_delete_ne by done. apply HG5.
    + intros k op Hk Ho Hw. unfold record. simpl.
      rewrite lookup_delete_ne by done. by eapply Hkept5.
  - exists s5, rest'.
    split; [|split; [done|split; [done|split; [|split; [|split; [|split]]]]]].
    + apply Hfinish.
      assert (all_empty (mkTargetData copies [] []) = false) as ->; [|done].
      unfold all_empty. simpl.
      rewrite (bool_decide_eq_false_2 (copies = [])); [done|].
      by intros ?%Hnone.
    + intros d Hd Hne. rewrite Hother5 by done. by apply Hold3.
    + intros j d i Hj Hi. destruct (Hnew3 j d i Hj Hi) as (i' & Hset & Hi').
      exists i'. split; [done|]. rewrite Hother5; [done|]. lia.
    + done.
    + done.
    + done.
Qed.

End through_group.

(** X16: [RemoveDecorationsFrom] on an id that is decorated through one
    [OpGroupDecorate] only, with a predicate that holds for some
    decoration of the group.  The call returns.  The id is taken out of
    the targets of the instruction, which keeps its other targets (in
    some order) or, left without target, is deleted.  The decorations of
    the group that the predicate rejects are copied, retargeted to the
    id, to the next free addresses, and these copies are the record of
    the id; with none to keep the record is erased.  The group keeps all
    its decorations, and the other targets keep the instruction among
    their indirect decorations. *)
Theorem X16_removal_through_group (s : State) (id G : N) (h : InstPtr)
    (inst : Instruction) (g : Operand) (rest : list Operand)
    (group : TargetData) (pred : Instruction → bool) :
  id_to_decoration_insts_ s !! id = Some (mkTargetData [] [h] []) →
  is_Some (module_ s) →
  insts s !! h = Some inst →
  opcode inst = SpvOpGroupDecorate →
  h < next_ptr s →
  in_operands inst = g :: rest →
  words g = [G] →
  Forall (λ op, ∃ w, words op = [w]) rest →
  existsb (is_word id) rest = true →
  id ≠ G →
  id_to_decoration_insts_ s !! G = Some group →
  Forall (λ d, clonable s d = true) (direct_decorations group) →
  Exists (λ d, holds s pred d = true) (direct_decorations group) →
  let keep :=
    filter (λ d, holds s pred d = false) (direct_decorations group) in
  let copies := seq (next_ptr s) (length keep) in
  ∃ s' rest',
    RemoveDecorationsFrom id pred s = Ok (tt, s')
    ∧ rest' ≡ₚ filter (λ op, is_word id op = false) rest
    ∧ insts s' !! h
      = (if decide (rest' = []) then None
         else Some (mkInstruction SpvOpGroupDecorate (g :: rest')))
    ∧ (∀ d : InstPtr, d < next_ptr s → d ≠ h →
                      insts s' !! d = insts s !! d)
    ∧ (∀ j d i, keep !! j = Some d → insts s !! d = Some i →
         ∃ i', SetInOperand i 0 [id] = Ok i'
               ∧ insts s' !! (next_ptr s + j : InstPtr) = Some i')
    ∧ id_to_decoration_insts_ s' !! id
      = (if decide (keep = []) then None
         else Some (mkTargetData copies [] []))
    ∧ direct_decorations (record s' G) = direct_decorations group
    ∧ (∀ k op, k ≠ id → op ∈ rest → words op = [k] →
               h ∈ indirect_decorations (record s' k)).
Proof.
  intros Hid [anns Hm] Hh Hop Hlt Hops HG Hrest Hin HidG Hgroup Hcl Hsome.
  eapply through_group_removal; eassumption.
Qed.

(** ** The two comparisons together *)

Lemma same_but_target_content s h1 h2 :
  same_but_target s h1 h2 → same_content s h1 h2 ∧ same_content s h2 h1.
Proof.
  intros (inst1 & inst2 & H1 & H2 & Hsame).
  rewrite AreDecorationsTheSame_decides in Hsame. injection Hsame as Hsame.
  apply bool_decide_eq_true in Hsame as (_ & Hop & _ & Hdrop).
  simpl in Hdrop. split.
  - by exists inst1, inst2.
  - by exists inst2, inst1.
Qed.

(** X17: the two comparisons agree in one direction.  When the
    decorations of two ids (linkage aside) can be matched one to one so
    that [AreDecorationsTheSame] holds of each pair with the target
    ignored, [HaveTheSameDecorations] answers true for the ids. *)
Theorem X17_pairwise_same_have_the_same (s : State) (X Y : N)
    (lx ly : list InstPtr) :
  GetDecorationsFor s X false = Ok lx →
  GetDecorationsFor s Y false = Ok ly →
  Forall2 (same_but_target s) lx ly →
  HaveTheSameDecorations s X Y = Ok true.
Proof.
  intros Hx Hy Hpairs.
  apply (HaveTheSameDecorations_content s X Y lx ly Hx Hy).
  - intros h1 Hh1. apply list_elem_of_lookup_1 in Hh1 as [j Hj].
    destruct (Forall2_lookup_l _ _ _ _ _ Hpairs Hj) as (h2 & Hj2 & Hsame).
    exists h2. split; [by eapply list_elem_of_lookup_2|].
    by apply same_but_target_content in Hsame as [? _].
  - intros h2 Hh2. apply list_elem_of_lookup_1 in Hh2 as [j Hj].
    destruct (Forall2_lookup_r _ _ _ _ _ Hpairs Hj) as (h1 & Hj1 & Hsame).
    exists h1. split; [by eapply list_elem_of_lookup_2|].
    by apply same_but_target_content in Hsame as [_ ?].
Qed.

(** ** [CloneDecorations], then [RemoveDecorationsFrom] *)

Lemma filter_all_live s (l : list InstPtr) :
  Forall (λ h, is_Some (insts s !! h)) l →
  filter (λ h, holds s always_true h) l = l
  ∧ filter (λ h, holds s always_true h = false) l = [].
Proof.
  induction 1 as [|h l [i Hi] _ [IH1 IH2]]; [done|].
  assert (holds s always_true h = true) as Hh
    by (unfold holds; by rewrite Hi).
  rewrite !filter_cons, IH1, IH2.
  rewrite decide_True by by rewrite Hh.
  by rewrite decide_False by by rewrite Hh.
Qed.

Lemma filter_not_in_app (l k : list InstPtr) :
  (∀ x, x ∈ l → x ∉ k) → filter (λ h, h ∉ k) (l ++ k) = l.
Proof.
  intros Hl. rewrite filter_app.
  assert (∀ k', (∀ x, x ∈ k' → x ∈ k) → filter (λ h, h ∉ k) k' = [])
    as Hgen.
  { induction k' as [|x k' IH]; intros Hsub; [done|].
    rewrite filter_cons, decide_False.
    - apply IH. intros y Hy. apply Hsub. by right.
    - intros Hx. apply Hx, Hsub. by left. }
  rewrite (Hgen k), app_nil_r by done.
  induction l as [|x l IH]; [done|].
  rewrite filter_cons, decide_True, IH; [done| |].
  - intros y Hy. apply Hl. by right.
  - apply Hl. by left.
Qed.

Lemma clone_then_remove_all s from to td anns :
  id_to_decoration_insts_ s !! from = Some td →
  from ≠ to →
  id_to_decoration_insts_ s !! to = None →
  module_ s = Some anns →
  indirect_decorations td = [] →
  Forall (λ h, clonable s h = true) (direct_decorations td) →
  (∀ h : InstPtr, next_ptr s ≤ h → insts s !! h = None) →
  Forall (λ h, h < next_ptr s) anns →
  ∃ s' s'',
    CloneDecorations from to s = Ok (tt, s')
    ∧ RemoveDecorationsFrom to always_true s' = Ok (tt, s'')
    ∧ insts s'' = insts s
    ∧ id_to_decoration_insts_ s'' = id_to_decoration_insts_ s
    ∧ module_ s'' = module_ s
    ∧ id_to_def s'' = id_to_def s.
Proof.
  intros Hid Hne Hto Hm Hind Hall Hfresh Hanns.
  destruct (CloneDecorations_direct s from to td) as (s' & Hrun & Hcl);
    try done.
  destruct Hcl as (Hnp & Hmod & Hdef & _ & Hold & Hnew & Hrec & Hother).
  set (ds := direct_decorations td) in *.
  set (np := next_ptr s) in *.
  assert (record s to = empty_TargetData) as Hempty
    by (unfold record; by rewrite Hto).
  rewrite Hempty in Hrec. simpl in Hrec. rewrite Hm in Hmod. simpl in Hmod.
  exists s'.
  destruct (id_to_decoration_insts_ s' !! to) as [td'|] eqn:Hto'.
  - assert (td' = mkTargetData (seq np (length ds)) [] []) as ->.
    { unfold record in Hrec. by rewrite Hto' in Hrec. }
    assert (∀ h, h ∈ seq np (length ds) →
                 targets_directly s' to h = true) as Hcopies.
    { intros h Hh%list_elem_of_In%in_seq.
      destruct (lookup_lt_is_Some_2 ds (h - np)) as [h0 Hj]; [lia|].
      rewrite Forall_forall in Hall.
      destruct (clonable_inv s h0) as (i & _ & Hi & _ & Hd & _);
        [by eapply Hall, list_elem_of_lookup_2|].
      destruct (Hnew _ h0 i Hj Hi) as (i' & Hset & Hi').
      replace (np + (h - np)) with h in Hi' by lia.
      unfold targets_directly. rewrite Hi'.
      rewrite (SetInOperand_opcode _ _ _ _ Hset), Hd. simpl.
      unfold names. apply bool_decide_eq_true.
      by apply GetSingleWordInOperand_Ok, (SetInOperand_0_word i). }
    destruct (RemoveDecorationsFrom_direct s' to
                (mkTargetData (seq np (length ds)) [] []) always_true)
      as (s'' & Hrem & Hafter & Hid''); try done.
    { apply NoDup_seq. }
    { by apply Forall_forall. }
    simpl in Hafter, Hid''.
    assert (Forall (λ h, is_Some (insts s' !! h)) (seq np (length ds)))
      as Hlive.
    { apply Forall_forall. intros h Hh. specialize (Hcopies h Hh).
      destruct (targets_directly_inv _ _ _ Hcopies) as (i & Hi & _).
      by exists i. }
    destruct (filter_all_live s' _ Hlive) as [Hkilled Hkept].
    rewrite Hkilled in Hafter. rewrite Hkept in Hid''.
    rewrite decide_True in Hid'' by done.
    destruct Hafter as (Hins & Hmod'' & _ & _ & Hdef'' & Hidx'').
    exists s''. split; [done|]. split; [done|].
    split; [|split; [|split]].
    + apply map_eq. intros h. rewrite Hins.
      case_decide as Hin.
      * apply list_elem_of_In, in_seq in Hin. symmetry. apply Hfresh.
        fold np. lia.
      * apply Hold. destruct (decide (h < np)); [by left|right].
        destruct (decide (np + length ds ≤ h)); [done|].
        exfalso. apply Hin, list_elem_of_In, in_seq. lia.
    + apply map_eq. intros k. destruct (decide (k = to)) as [->|Hk].
      * by rewrite Hid'', Hto.
      * by rewrite Hidx'', Hother.
    + rewrite Hmod'', Hmod, Hm. simpl. f_equal.
      apply filter_not_in_app. intros x Hx Hin%list_elem_of_In%in_seq.
      rewrite Forall_forall in Hanns. specialize (Hanns x Hx).
      fold np in Hanns. lia.
    + by rewrite Hdef'', Hdef.
  - assert (length ds = 0) as Hnone.
    { unfold record in Hrec. rewrite Hto' in Hrec. simpl in Hrec.
      injection Hrec as Hrec. by destruct (length ds). }
    rewrite Hnone in Hmod, Hold. simpl in Hmod.
    exists s'. split; [done|]. split.
    { unfold RemoveDecorationsFrom. eapply eval_bind; [reflexivity|].
      simpl. by rewrite Hto'. }
    split; [|split; [|split]].
    + apply map_eq. intros h. apply Hold. lia.
    + apply map_eq. intros k. destruct (decide (k = to)) as [->|Hk].
      * by rewrite Hto', Hto.
      * by apply Hother.
    + by rewrite Hmod, app_nil_r, Hm.
    + done.
Qed.

(** X18: cloning the direct decorations of [from] onto an id without
    record and then removing every decoration from that id brings back
    the instruction store, the index and the annotations of the module:
    the copies are deleted again and no record is left for the id. *)
Theorem X18_clone_then_remove_all (s : State) (from to : N)
    (td : TargetData) (annotations : list InstPtr) :
  id_to_decoration_insts_ s !! from = Some td →
  from ≠ to →
  id_to_decoration_insts_ s !! to = None →
  module_ s = Some annotations →
  indirect_decorations td = [] →
  Forall (λ h, clonable s h = true) (direct_decorations td) →
  (∀ h : InstPtr, next_ptr s ≤ h → insts s !! h = None) →
  Forall (λ h, h < next_ptr s) annotations →
  ∃ s' s'',
    CloneDecorations from to s = Ok (tt, s')
    ∧ RemoveDecorationsFrom to always_true s' = Ok (tt, s'')
    ∧ insts s'' = insts s
    ∧ id_to_decoration_insts_ s'' = id_to_decoration_insts_ s
    ∧ module_ s'' = module_ s
    ∧ id_to_def s'' = id_to_def s.
Proof. apply clone_then_remove_all. Qed.

(** ** [CloneDecorations] through an [OpGroupMemberDecorate] *)

Lemma stride_from_below fuel i stride bound :
  Forall (λ x, x < bound) (stride_from fuel i stride bound).
Proof.
  revert i. induction fuel as [|fuel IH]; intros i; simpl; [constructor|].
  destruct (i <? bound) eqn:Hi; constructor; [|apply IH].
  by apply Nat.ltb_lt.
Qed.

Lemma stride_from_2 fuel a m :
  m ≤ fuel →
  stride_from fuel a 2 (a + 2 * m) = (λ j, a + 2 * j) <$> seq 0 m.
Proof.
  revert fuel a. induction m as [|m IH]; intros fuel a Hfuel.
  - destruct fuel; simpl; [done|].
    by rewrite (proj2 (Nat.ltb_ge _ _)) by lia.
  - destruct fuel as [|fuel]; [lia|].
    replace (a + 2 * S m) with ((a + 2) + 2 * m) by lia.
    cbn [stride_from]. rewrite (proj2 (Nat.ltb_lt _ _)) by lia.
    rewrite IH by lia. cbn [seq fmap list_fmap]. f_equal; [lia|].
    rewrite <- fmap_S_seq, <- list_fmap_compose.
    apply list_fmap_ext. intros _ j _. simpl. lia.
Qed.

Lemma member_operands_length pairs :
  length (member_operands pairs) = 2 * length pairs.
Proof.
  induction pairs as [|p pairs IH]; [done|].
  change (member_operands (p :: pairs))
    with (p.1 :: p.2 :: member_operands pairs).
  simpl. rewrite IH. lia.
Qed.

(** Every operand within the instruction can be read as a word. *)
Lemma reads_within inst idxs :
  Forall one_word (in_operands inst) →
  Forall (λ i, i < NumInOperands inst) idxs →
  ∃ ws, Forall2 (λ i w, GetSingleWordInOperand inst i = Ok w) idxs ws.
Proof.
  intros Hone. induction 1 as [|i idxs Hi _ [ws IH]].
  - exists []. constructor.
  - apply lookup_lt_is_Some in Hi as [op Hop].
    destruct (proj1 (Forall_forall _ _) Hone op) as [w Hw].
    { by eapply list_elem_of_lookup_2. }
    exists (w :: ws). constructor; [|done].
    apply GetSingleWordInOperand_Ok.
    rewrite Hop. simpl. by rewrite Hw.
Qed.

Lemma RemoveDecoration_member_returns h s inst :
  insts s !! h = Some inst →
  opcode inst = SpvOpGroupMemberDecorate →
  Forall one_word (in_operands inst) → 0 < NumInOperands inst →
  ∃ s', RemoveDecoration h s = Ok (tt, s') ∧ same_but_index s s'.
Proof.
  intros Hh Hop Hone Hlen.
  destruct (reads_within inst (strided 1 2 (NumInOperands inst)) Hone)
    as [ws Hws]; [apply stride_from_below|].
  destruct (reads_within inst [0] Hone) as [gs HG]; [by constructor|].
  apply Forall2_cons_inv_l in HG as (G & ? & HG & _ & _).
  exists (update_found (remove_decorate_inst h) G
            (foldl (λ s w, update_found (remove_indirect h) w s) s ws)).
  split.
  - rewrite (RemoveDecoration_cases _ _ _ Hh), Hop. simpl.
    eapply eval_bind.
    + erewrite forM__ext by (intros; apply word_step_found).
      apply word_loop_Ok. by exists ws.
    + rewrite word_step_found. apply word_step_Ok. by exists G.
  - eapply same_but_index_trans; [|apply same_but_index_update_found].
    apply word_loop_rest. intros. apply same_but_index_update_found.
Qed.

Lemma AddDecoration_member_returns h s inst :
  insts s !! h = Some inst →
  opcode inst = SpvOpGroupMemberDecorate →
  Forall one_word (in_operands inst) → 0 < NumInOperands inst →
  ∃ s', AddDecoration h s = Ok (tt, s') ∧ same_but_index s s'.
Proof.
  intros Hh Hop Hone Hlen.
  destruct (reads_within inst (strided 2 2 (NumInOperands inst)) Hone)
    as [ws Hws]; [apply stride_from_below|].
  destruct (reads_within inst [0] Hone) as [gs HG]; [by constructor|].
  apply Forall2_cons_inv_l in HG as (G & ? & HG & _ & _).
  exists (set_index
            (λ m, <[G := push_decorate_inst h
                            (default empty_TargetData (m !! G))]> m)
            (foldl (λ s w,
                      set_index
                        (λ m, <[w := push_indirect h
                                        (default empty_TargetData (m !! w))]>
                                m)
                        s)
               s ws)).
  split.
  - rewrite (AddDecoration_cases _ _ _ Hh), Hop. simpl.
    eapply eval_bind.
    + apply (word_loop_Ok inst
               (λ w, set_index
                       (λ m, <[w := push_indirect h
                                      (default empty_TargetData (m !! w))]>
                               m))).
      by exists ws.
    + apply (word_step_Ok inst
               (λ w, set_index
                       (λ m, <[w := push_decorate_inst h
                                      (default empty_TargetData (m !! w))]>
                               m))).
      by exists G.
  - eapply same_but_index_trans; [|apply same_but_index_set_index].
    apply word_loop_rest. intros. apply same_but_index_set_index.
Qed.

Lemma ForgetUses_member h s inst :
  insts s !! h = Some inst →
  opcode inst = SpvOpGroupMemberDecorate →
  Forall one_word (in_operands inst) → 0 < NumInOperands inst →
  ∃ s1, ForgetUses h s = Ok (tt, s1) ∧ told [EvForgetUses h] s s1.
Proof.
  intros Hh Hop Hone Hlen.
  set (s0 := mkState (insts s) (next_ptr s) (module_ s) (id_to_def s)
               (id_to_decoration_insts_ s) (trace s ++ [EvForgetUses h])).
  destruct (RemoveDecoration_member_returns h s0 inst)
    as (s1 & Hrun & Hi & Hn & Hm & Hd & Ht); try done.
  exists s1. split.
  - unfold ForgetUses. eapply eval_bind; [reflexivity|].
    eapply eval_bind; [by apply deref_Ok|].
    unfold IsDecoration. by rewrite Hop.
  - unfold told. by rewrite Hi, Hn, Hm, Hd, Ht.
Qed.

Lemma AnalyzeUses_member h s inst :
  insts s !! h = Some inst →
  opcode inst = SpvOpGroupMemberDecorate →
  Forall one_word (in_operands inst) → 0 < NumInOperands inst →
  ∃ s1, AnalyzeUses h s = Ok (tt, s1) ∧ told [EvAnalyzeUses h] s s1.
Proof.
  intros Hh Hop Hone Hlen.
  set (s0 := mkState (insts s) (next_ptr s) (module_ s) (id_to_def s)
               (id_to_decoration_insts_ s) (trace s ++ [EvAnalyzeUses h])).
  destruct (AddDecoration_member_returns h s0 inst)
    as (s1 & Hrun & Hi & Hn & Hm & Hd & Ht); try done.
  exists s1. split.
  - unfold AnalyzeUses. eapply eval_bind; [reflexivity|].
    eapply eval_bind; [by apply deref_Ok|].
    unfold IsDecoration. by rewrite Hop.
  - unfold told. by rewrite Hi, Hn, Hm, Hd, Ht.
Qed.

Lemma member_clones_cons from to p pairs :
  member_clones from to (p :: pairs)
  = (if bool_decide (word_of p.1 = from) then [(id_operand to, p.2)] else [])
    ++ member_clones from to pairs.
Proof.
  unfold member_clones. rewrite filter_cons.
  destruct (decide (word_of p.1 = from)) as [Hp|Hp].
  - by rewrite bool_decide_eq_true_2.
  - by rewrite bool_decide_eq_false_2.
Qed.

(** The loop over the pairs: the state is only written to at [h], and
    the new pairs are added behind what was there. *)
Lemma member_loop from to h op rest : ∀ pre acc s,
  insts s !! h
  = Some (mkInstruction op (pre ++ member_operands rest ++ acc)) →
  Forall (λ p, one_word p.1) rest →
  ∃ s',
    forM_ ((λ j, length pre + 2 * j) <$> seq 0 (length rest)) (λ i,
      inst <~ deref h ;;
      op <~ lift (GetOperand inst i) ;;
      match words op with
      | [] => failM (Undefined "operand without words")
      | w :: _ =>
          if bool_decide (w = from) then
            mutate h (λ inst, Ok (AddOperand inst (id_operand to))) ;;;
            inst <~ deref h ;;
            op <~ lift (GetOperand inst (i + 1)) ;;
            mutate h (λ inst, Ok (AddOperand inst op))
          else ret tt
      end) s
    = Ok (tt, s')
    ∧ insts s'
      = <[h := mkInstruction op
                 (pre ++ member_operands rest ++ acc
                  ++ member_operands (member_clones from to rest))]>
          (insts s)
    ∧ next_ptr s' = next_ptr s ∧ module_ s' = module_ s
    ∧ id_to_def s' = id_to_def s
    ∧ id_to_decoration_insts_ s' = id_to_decoration_insts_ s
    ∧ trace s'
      = trace s
        ++ replicate (2 * length (member_clones from to rest))
             (EvOperandWrite h).
Proof.
  induction rest as [|p rest IH]; intros pre acc s Hh Hone.
  - exists s. simpl. rewrite !app_nil_r.
    repeat split; try done.
    by rewrite insert_id.
  - apply Forall_cons in Hone as [[w Hw] Hone].
    assert ((λ j, length pre + 2 * j) <$> seq 0 (length (p :: rest))
            = length pre
              :: ((λ j, length (pre ++ [p.1; p.2]) + 2 * j)
                    <$> seq 0 (length rest))) as ->.
    { simpl. f_equal; [lia|].
      rewrite <- fmap_S_seq, <- list_fmap_compose.
      apply list_fmap_ext. intros _ j _. simpl. rewrite length_app. simpl.
      lia. }
    assert (word_of p.1 = w) as Hword by (unfold word_of; by rewrite Hw).
    rewrite member_clones_cons, Hword.
    change (member_operands (p :: rest))
      with (p.1 :: p.2 :: member_operands rest) in *.
    set (inst := mkInstruction op
                   (pre ++ (p.1 :: p.2 :: member_operands rest) ++ acc))
      in *.
    assert (GetOperand inst (length pre) = Ok p.1) as Hread.
    { unfold GetOperand, GetInOperand, inst. simpl.
      by rewrite list_lookup_middle. }
    destruct (bool_decide (w = from)) eqn:Hfrom.
    + set (inst1 := AddOperand inst (id_operand to)).
      set (inst2 := AddOperand inst1 p.2).
      set (s2 := written h inst2 (written h inst1 s)).
      assert (GetOperand inst1 (length pre + 1) = Ok p.2) as Hread1.
      { unfold GetOperand, GetInOperand, inst1, inst. simpl.
        rewrite <- app_assoc. simpl.
        rewrite (cons_middle p.1), (app_assoc pre).
        rewrite list_lookup_middle; [done|].
        rewrite length_app. simpl. lia. }
      destruct (IH (pre ++ [p.1; p.2]) (acc ++ [id_operand to; p.2]) s2)
        as (s' & Hrun & Hi & Hn & Hm & Hd & Hx & Ht); [|done|].
      { unfold s2. rewrite written_lookup. unfold inst2, inst1, inst.
        unfold AddOperand. simpl. f_equal. f_equal.
        rewrite <- !app_assoc. simpl. rewrite <- !app_assoc. done. }
      exists s'. split; [|split; [|repeat split]]; try done.
      * simpl forM_. eapply eval_bind; [|apply Hrun].
        eapply eval_bind; [by apply deref_Ok|].
        eapply eval_bind; [unfold lift; by rewrite Hread|].
        rewrite Hw, Hfrom.
        eapply eval_bind; [by apply (mutate_run _ _ _ inst inst1)|].
        eapply eval_bind;
          [apply deref_Ok; split; [apply written_lookup|done]|].
        eapply eval_bind; [unfold lift; by rewrite Hread1|].
        apply (mutate_run _ _ _ inst1 inst2); [apply written_lookup|done].
      * rewrite Hi. unfold s2. rewrite written_twice. rewrite insert_insert_eq.
        f_equal. f_equal. simpl. unfold member_operands at 3. simpl.
        rewrite <- !app_assoc. simpl. done.
      * rewrite Ht. unfold s2. simpl. rewrite <- !app_assoc. f_equal.
        by rewrite Nat.add_succ_r.
    + destruct (IH (pre ++ [p.1; p.2]) acc s)
        as (s' & Hrun & Hi & Hn & Hm & Hd & Hx & Ht); [|done|].
      { rewrite Hh. unfold inst. f_equal. f_equal.
        rewrite <- !app_assoc. done. }
      exists s'. split; [|split; [|repeat split]]; try done.
      * simpl forM_. eapply eval_bind; [|apply Hrun].
        eapply eval_bind; [by apply deref_Ok|].
        eapply eval_bind; [unfold lift; by rewrite Hread|].
        by rewrite Hw, Hfrom.
      * rewrite Hi. f_equal. f_equal. simpl. rewrite <- !app_assoc. done.
Qed.

Lemma member_operands_app l1 l2 :
  member_operands (l1 ++ l2) = member_operands l1 ++ member_operands l2.
Proof. unfold member_operands. apply bind_app. Qed.

Lemma member_operands_one_word pairs :
  Forall (λ p, one_word p.1 ∧ one_word p.2) pairs →
  Forall one_word (member_operands pairs).
Proof.
  induction 1 as [|p pairs [H1 H2] _ IH]; [constructor|].
  change (member_operands (p :: pairs))
    with (p.1 :: p.2 :: member_operands pairs).
  by repeat constructor.
Qed.

Lemma member_clones_one_word from to pairs :
  Forall (λ p, one_word p.1 ∧ one_word p.2) pairs →
  Forall (λ p, one_word p.1 ∧ one_word p.2) (member_clones from to pairs).
Proof.
  induction 1 as [|p pairs [H1 H2] _ IH]; [constructor|].
  rewrite member_clones_cons.
  destruct (bool_decide (word_of p.1 = from)); [|done].
  constructor; [|done]. split; [by exists to|done].
Qed.

Lemma strided_pairs m :
  strided 1 2 (S (2 * m)) = (λ j, 1 + 2 * j) <$> seq 0 m.
Proof.
  unfold strided. change (S (2 * m)) with (1 + 2 * m) at 2.
  apply stride_from_2. lia.
Qed.

Lemma clone_through_member_run from to h s g pairs :
  insts s !! h
  = Some (mkInstruction SpvOpGroupMemberDecorate
            (g :: member_operands pairs)) →
  one_word g →
  Forall (λ p, one_word p.1 ∧ one_word p.2) pairs →
  ∃ s',
    clone_through_group from to h s = Ok (tt, s')
    ∧ insts s'
      = <[h := mkInstruction SpvOpGroupMemberDecorate
                 (g :: member_operands
                         (pairs ++ member_clones from to pairs))]>
          (insts s)
    ∧ next_ptr s' = next_ptr s ∧ module_ s' = module_ s
    ∧ id_to_def s' = id_to_def s
    ∧ trace s'
      = trace s
        ++ [EvForgetUses h]
        ++ replicate (2 * length (member_clones from to pairs))
             (EvOperandWrite h)
        ++ [EvAnalyzeUses h].
Proof.
  intros Hh Hg Hpairs.
  set (inst := mkInstruction SpvOpGroupMemberDecorate
                 (g :: member_operands pairs)) in *.
  set (inst' := mkInstruction SpvOpGroupMemberDecorate
                  (g :: member_operands
                          (pairs ++ member_clones from to pairs))).
  destruct (ForgetUses_member h s inst)
    as (s1 & Hforget & Hi1 & Hn1 & Hm1 & Hd1 & Ht1); try done.
  { constructor; [done|]. by apply member_operands_one_word. }
  { simpl. unfold NumInOperands. simpl. lia. }
  assert (insts s1 !! h = Some inst) as Hh1 by by rewrite Hi1.
  destruct (member_loop from to h SpvOpGroupMemberDecorate pairs [g] [] s1)
    as (s2 & Hloop & Hi2 & Hn2 & Hm2 & Hd2 & _ & Ht2).
  { by rewrite Hh1, app_nil_r. }
  { eapply Forall_impl; [apply Hpairs|]. by intros p [? _]. }
  assert (insts s2 !! h = Some inst') as Hh2.
  { rewrite Hi2, lookup_insert_eq. unfold inst'.
    by rewrite member_operands_app. }
  destruct (AnalyzeUses_member h s2 inst')
    as (s3 & Hanalyze & Hi3 & Hn3 & Hm3 & Hd3 & Ht3); try done.
  { constructor; [done|]. apply member_operands_one_word.
    apply Forall_app. split; [done|]. by apply member_clones_one_word. }
  { unfold NumInOperands. simpl. lia. }
  exists s3. split; [|split; [|split; [|split; [|split]]]].
  - unfold clone_through_group.
    eapply eval_bind; [by apply deref_Ok|]. simpl opcode. cbv iota.
    eapply eval_bind; [apply Hforget|].
    eapply eval_bind; [by apply deref_Ok|].
    assert (NumOperands inst = S (2 * length pairs)) as ->.
    { unfold NumOperands, NumInOperands. simpl.
      by rewrite member_operands_length. }
    rewrite strided_pairs.
    eapply eval_bind; [apply Hloop|]. apply Hanalyze.
  - rewrite Hi3, Hi2, Hi1. unfold inst'. by rewrite member_operands_app.
  - by rewrite Hn3, Hn2.
  - by rewrite Hm3, Hm2.
  - by rewrite Hd3, Hd2.
  - rewrite Ht3, Ht2, Ht1, <- !app_assoc. done.
Qed.

(** X19: from an id decorated through one [OpGroupMemberDecorate] only,
    whose operands are a group and pairs (target, literal) of one word
    each, [CloneDecorations] returns and appends to that instruction one
    pair ([to], literal) for every pair whose target is [from], in order
    and behind all the pairs it had; nothing else of the instruction
    store or the module changes, and the two operand writes of every new
    pair happen between one [ForgetUses] and one [AnalyzeUses] of the
    instruction. *)
Theorem X19_clone_through_member_group (s : State) (from to : N)
    (h : InstPtr) (td : TargetData) (g : Operand)
    (pairs : list (Operand * Operand)) :
  id_to_decoration_insts_ s !! from = Some td →
  direct_decorations td = [] →
  indirect_decorations td = [h] →
  is_Some (module_ s) →
  insts s !! h
  = Some (mkInstruction SpvOpGroupMemberDecorate
            (g :: member_operands pairs)) →
  one_word g →
  Forall (λ p, one_word p.1 ∧ one_word p.2) pairs →
  ∃ s',
    CloneDecorations from to s = Ok (tt, s')
    ∧ insts s'
      = <[h := mkInstruction SpvOpGroupMemberDecorate
                 (g :: member_operands
                         (pairs ++ member_clones from to pairs))]>
          (insts s)
    ∧ next_ptr s' = next_ptr s ∧ module_ s' = module_ s
    ∧ id_to_def s' = id_to_def s
    ∧ trace s'
      = trace s
        ++ [EvForgetUses h]
        ++ replicate (2 * length (member_clones from to pairs))
             (EvOperandWrite h)
        ++ [EvAnalyzeUses h].
Proof.
  intros Hfrom Hdirect Hindirect [anns Hm] Hh Hg Hpairs.
  destruct (clone_through_member_run from to h s g pairs Hh Hg Hpairs)
    as (s' & Hrun & Hrest).
  exists s'. split; [|done].
  unfold CloneDecorations.
  eapply eval_bind; [reflexivity|]. simpl. rewrite Hfrom.
  eapply eval_bind; [unfold module_context; by rewrite Hm|].
  rewrite Hdirect.
  eapply eval_bind; [reflexivity|].
  eapply eval_bind; [reflexivity|]. simpl. rewrite Hfrom. simpl.
  rewrite Hindirect.
  eapply eval_bind; [apply Hrun|]. done.
Qed.

(** * The further properties on concrete modules *)

Lemma X2_AreDecorationsTheSame_equivalence_witness :
  let d (target : N) :=
    decoration SpvOpDecorate target (kind_operand 19%N) [] in
  AreDecorationsTheSame (d 2%N) (d 1%N) true = Ok true
  ∧ AreDecorationsTheSame (d 1%N) (d 3%N) true = Ok true
  ∧ AreDecorationsTheSame (d 1%N) (d 1%N) true = Ok true.
Proof.
  intros d.
  apply (X2_AreDecorationsTheSame_equivalence (d 1%N) (d 2%N) (d 3%N) true);
    reflexivity.
Defined.

Lemma X3_enumeration_visits_matching_witness :
  let s := exec AnalyzeDecorations partial_removal_module in
  WhileEachDecoration s 1%N 19%N count_one 0
  = Ok (visit count_one (matching s 19%N [0; 1]) 0)
  ∧ ForEachDecoration s 1%N 19%N count_all 0
    = Ok (foldl (λ x inst, count_all inst x) 0 (matching s 19%N [0; 1])).
Proof.
  intros s. apply X3_enumeration_visits_matching; vm_compute; reflexivity.
Defined.

Lemma X4_lookup_returns_iff_readable_witness :
  let s := exec AnalyzeDecorations partial_removal_module in
  (∃ l, GetDecorationsFor s 1%N true = Ok l)
  ↔ well_formed_record s (mkTargetData [] [3] []) = true.
Proof.
  intros s. apply X4_lookup_returns_iff_readable. vm_compute. reflexivity.
Defined.

Lemma X5_linkage_only_filters_witness :
  let s := exec AnalyzeDecorations linkage_module in
  GetDecorationsFor s 1%N false
  = Ok (filter (λ h, holds s is_linkage_decorate h = false) [0; 1]).
Proof.
  intros s. apply X5_linkage_only_filters. vm_compute. reflexivity.
Defined.

Lemma X6_HaveTheSameDecorations_decides_witness :
  let s := exec AnalyzeDecorations twin_module in
  ∃ b, HaveTheSameDecorations s 1%N 2%N = Ok b
       ∧ (b = true ↔ same_payloads s [0] [1]).
Proof.
  intros s. apply X6_HaveTheSameDecorations_decides; vm_compute; reflexivity.
Defined.

Lemma X7_HaveTheSameDecorations_equivalence_witness :
  let s := exec AnalyzeDecorations twin_module in
  HaveTheSameDecorations s 1%N 7%N = Ok false
  ∧ HaveTheSameDecorations s 1%N 1%N = Ok true.
Proof.
  intros s.
  apply (X7_HaveTheSameDecorations_equivalence s 1%N 2%N 7%N false);
    vm_compute; reflexivity.
Defined.

Lemma X8_AnalyzeDecorations_mirrors_module_witness :
  let s := partial_removal_module in
  let s' := exec AnalyzeDecorations s in
  same_but_index s s'
  ∧ direct_decorations (record s' 10%N)
    = direct_decorations (record s 10%N)
      ++ filter (λ h, targets_directly s 10%N h) [0; 1; 2; 3]
  ∧ decorate_insts (record s' 10%N)
    = decorate_insts (record s 10%N)
      ++ filter (λ h, applies_group s 10%N h) [0; 1; 2; 3]
  ∧ ((∀ h inst, h ∈ [0; 1; 2; 3] → insts s !! h = Some inst →
                opcode inst ≠ SpvOpGroupMemberDecorate) →
     indirect_decorations (record s' 10%N)
     = indirect_decorations (record s 10%N)
       ++ ([0; 1; 2; 3] ≫= decorated_by_group s 10%N)).
Proof.
  intros s s'.
  apply X8_AnalyzeDecorations_mirrors_module; vm_compute; reflexivity.
Defined.

Lemma X9_RemoveDecoration_undoes_AddDecoration_witness :
  let s := twin_module in
  ∃ s2,
    RemoveDecoration 0 (exec (AddDecoration 0) s) = Ok (tt, s2)
    ∧ same_but_index s s2
    ∧ ∀ k, id_to_decoration_insts_ s2 !! k = id_to_decoration_insts_ s !! k
           ∨ (id_to_decoration_insts_ s !! k = None
              ∧ id_to_decoration_insts_ s2 !! k = Some empty_TargetData).
Proof.
  intros s.
  apply (X9_RemoveDecoration_undoes_AddDecoration 0
           (decoration SpvOpDecorate 1%N (kind_operand 19%N) []) s).
  - vm_compute. reflexivity.
  - discriminate.
  - intros k. unfold record. simpl. rewrite lookup_empty. simpl.
    repeat split; apply not_elem_of_nil.
  - vm_compute. reflexivity.
Defined.

Lemma X10_rejecting_pred_changes_nothing_witness :
  let s := exec AnalyzeDecorations partial_removal_module in
  RemoveDecorationsFrom 1%N never s = Ok (tt, s).
Proof.
  intros s.
  apply (X10_rejecting_pred_changes_nothing s 1%N (mkTargetData [] [3] [])
           never [0; 1]).
  - vm_compute. reflexivity.
  - by eexists.
  - by right.
  - repeat constructor.
  - vm_compute. reflexivity.
  - repeat constructor.
Defined.

Lemma X11_target_removal_loop_witness :
  let s := partial_removal_module in
  let slots : list Slot := [(id_operand 1%N, []); (id_operand 2%N, [])] in
  ∃ s' res,
    remove_target 3 1%N 1 s = Ok (existsb (slot_is 1%N) slots, s')
    ∧ insts s'
      = <[3 := mkInstruction (opcode (group_decorate 10%N [1%N; 2%N]))
                 (operands_of (id_operand 10%N) res)]> (insts s)
    ∧ res ≡ₚ filter (λ c, slot_is 1%N c = false) slots
    ∧ only_writes 3 s s'.
Proof.
  intros s slots. apply X11_target_removal_loop.
  - vm_compute. reflexivity.
  - by left.
  - reflexivity.
  - repeat constructor; by eexists.
Defined.

Lemma X12_direct_decorations_removed_witness :
  let s := exec AnalyzeDecorations twin_module in
  ∃ s',
    RemoveDecorationsFrom 1%N always_true s = Ok (tt, s')
    ∧ after_kills 1%N (filter (λ h, holds s always_true h) [0]) s s'
    ∧ id_to_decoration_insts_ s' !! 1%N
      = (let kept := filter (λ h, holds s always_true h = false) [0] in
         if decide (kept = []) then None
         else Some (mkTargetData kept [] [])).
Proof.
  intros s.
  apply (X12_direct_decorations_removed s 1%N (mkTargetData [0] [] [])
           always_true).
  - vm_compute. reflexivity.
  - by eexists.
  - reflexivity.
  - reflexivity.
  - apply NoDup_singleton.
  - repeat constructor.
Defined.

Lemma X13_direct_decorations_cloned_witness :
  let s := exec AnalyzeDecorations twin_module in
  ∃ s', CloneDecorations 1%N 7%N s = Ok (tt, s')
        ∧ cloned_onto 7%N [0] s s'.
Proof.
  intros s.
  apply (X13_direct_decorations_cloned s 1%N 7%N (mkTargetData [0] [] [])).
  - vm_compute. reflexivity.
  - discriminate.
  - by eexists.
  - reflexivity.
  - repeat constructor.
Defined.

Lemma X14_clone_has_the_same_decorations_witness :
  let s := exec AnalyzeDecorations twin_module in
  HaveTheSameDecorations (exec (CloneDecorations 1%N 7%N) s) 1%N 7%N
  = Ok true.
Proof.
  intros s.
  apply (X14_clone_has_the_same_decorations s
           (exec (CloneDecorations 1%N 7%N) s) 1%N 7%N
           (mkTargetData [0] [] [])).
  - vm_compute. reflexivity.
  - discriminate.
  - vm_compute. reflexivity.
  - by eexists.
  - reflexivity.
  - repeat constructor.
  - repeat constructor.
  - vm_compute. reflexivity.
Defined.

Lemma X15_clone_through_group_witness :
  let s := exec AnalyzeDecorations group_emptying_module in
  ∃ s',
    CloneDecorations 1%N 7%N s = Ok (tt, s')
    ∧ insts s'
      = <[2 := AddOperand (group_decorate 10%N [1%N]) (id_operand 7%N)]>
          (insts s)
    ∧ module_ s' = module_ s
    ∧ trace s' = trace s ++ [EvForgetUses 2; EvOperandWrite 2; EvAnalyzeUses 2]
    ∧ GetDecorationsFor s' 7%N true = Ok [0]
    ∧ GetDecorationsFor s' 1%N true = Ok [0].
Proof.
  intros s.
  apply (X15_clone_through_group s 1%N 7%N 10%N 2
           (group_decorate 10%N [1%N]) [1%N] true [0]).
  - vm_compute. reflexivity.
  - vm_compute. reflexivity.
  - by eexists.
  - vm_compute. reflexivity.
  - reflexivity.
  - reflexivity.
  - apply NoDup_singleton.
  - intros Hin. apply list_elem_of_singleton in Hin. discriminate.
  - discriminate.
  - vm_compute. reflexivity.
Defined.

Lemma X16_removal_through_group_witness :
  let s := exec AnalyzeDecorations partial_removal_module in
  let rest := [id_operand 1%N; id_operand 2%N] in
  let keep := filter (λ d, holds s (drops_kind 19%N) d = false) [0; 1] in
  let copies := seq 4 (length keep) in
  ∃ s' rest',
    RemoveDecorationsFrom 1%N (drops_kind 19%N) s = Ok (tt, s')
    ∧ rest' ≡ₚ filter (λ op, is_word 1%N op = false) rest
    ∧ insts s' !! 3
      = (if decide (rest' = []) then None
         else Some (mkInstruction SpvOpGroupDecorate
                      (id_operand 10%N :: rest')))
    ∧ (∀ d : InstPtr, d < 4 → d ≠ 3 → insts s' !! d = insts s !! d)
    ∧ (∀ j d i, keep !! j = Some d → insts s !! d = Some i →
         ∃ i', SetInOperand i 0 [1%N] = Ok i'
               ∧ insts s' !! (4 + j : InstPtr) = Some i')
    ∧ id_to_decoration_insts_ s' !! 1%N
      = (if decide (keep = []) then None
         else Some (mkTargetData copies [] []))
    ∧ direct_decorations (record s' 10%N) = [0; 1]
    ∧ (∀ k op, k ≠ 1%N → op ∈ rest → words op = [k] →
               3 ∈ indirect_decorations (record s' k)).
Proof.
  intros s rest keep copies.
  apply (X16_removal_through_group s 1%N 10%N 3
           (group_decorate 10%N [1%N; 2%N]) (id_operand 10%N) rest
           (mkTargetData [0; 1] [] [3]) (drops_kind 19%N)).
  - vm_compute. reflexivity.
  - by eexists.
  - vm_compute. reflexivity.
  - reflexivity.
  - vm_compute. lia.
  - reflexivity.
  - reflexivity.
  - repeat constructor; by eexists.
  - reflexivity.
  - discriminate.
  - vm_compute. reflexivity.
  - repeat constructor.
  - apply Exists_cons_tl, Exists_cons_hd. vm_compute. reflexivity.
Defined.

Lemma X17_pairwise_same_have_the_same_witness :
  HaveTheSameDecorations (exec AnalyzeDecorations twin_module) 1%N 2%N
  = Ok true.
Proof.
  apply (X17_pairwise_same_have_the_same _ 1%N 2%N [0] [1]).
  - vm_compute. reflexivity.
  - vm_compute. reflexivity.
  - repeat constructor. eexists _, _.
    split; [vm_compute; reflexivity|].
    split; [vm_compute; reflexivity|]. reflexivity.
Defined.

Lemma X18_clone_then_remove_all_witness :
  let s := exec AnalyzeDecorations twin_module in
  ∃ s' s'',
    CloneDecorations 1%N 7%N s = Ok (tt, s')
    ∧ RemoveDecorationsFrom 7%N always_true s' = Ok (tt, s'')
    ∧ insts s'' = insts s
    ∧ id_to_decoration_insts_ s'' = id_to_decoration_insts_ s
    ∧ module_ s'' = module_ s
    ∧ id_to_def s'' = id_to_def s.
Proof.
  intros s.
  apply (X18_clone_then_remove_all s 1%N 7%N (mkTargetData [0] [] [])
           [0; 1]).
  - vm_compute. reflexivity.
  - discriminate.
  - vm_compute. reflexivity.
  - reflexivity.
  - reflexivity.
  - repeat constructor.
  - intros h Hh. change (next_ptr s) with 2 in Hh.
    destruct (insts s !! h) as [i|] eqn:Hi; [|done].
    apply elem_of_map_to_list in Hi.
    vm_compute (map_to_list _) in Hi.
    apply list_elem_of_In in Hi. simpl in Hi.
    destruct Hi as [Hi|[Hi|[]]]; injection Hi as <- _; lia.
  - change (next_ptr s) with 2. repeat constructor.
Defined.

Lemma X19_clone_through_member_group_witness :
  let s := exec AnalyzeDecorations member_module in
  ∃ s',
    CloneDecorations 5%N 8%N s = Ok (tt, s')
    ∧ insts s'
      = <[2 := group_member_decorate 10%N [(5%N, 5%N); (8%N, 5%N)]]>
          (insts s)
    ∧ next_ptr s' = next_ptr s ∧ module_ s' = module_ s
    ∧ id_to_def s' = id_to_def s
    ∧ trace s'
      = trace s
        ++ [EvForgetUses 2; EvOperandWrite 2; EvOperandWrite 2;
            EvAnalyzeUses 2].
Proof.
  intros s.
  apply (X19_clone_through_member_group s 5%N 8%N 2
           (mkTargetData [] [2] []) (id_operand 10%N)
           [(id_operand 5%N, literal_operand 5%N)]).
  - vm_compute. reflexivity.
  - reflexivity.
  - reflexivity.
  - by eexists.
  - vm_compute. reflexivity.
  - by exists 10%N.
  - repeat constructor; by eexists.
Defined.
